(** * Dungeons & Diagrams solver (src/ts/main.ts): model and verification

    A shallow embedding of the puzzle solver: the wall-bordered 10x10
    diagram, the validators, the combination generator, the backtracking
    procedure [dfs], the parser of input files, the printer of solutions and
    the main program, followed by the properties of the specification that
    were checked against them and by further properties of the code. *)

From Stdlib Require Import ZArith Lia Bool List Sorted.
From Stdlib Require String Ascii.
From stdpp Require Import base tactics option list gmap relations.
Import ListNotations.
Import String.StringSyntax Ascii.AsciiSyntax.
Delimit Scope string_scope with string.
Delimit Scope char_scope with char.

(** ** Data model *)

(** [enum TileType] *)
Inductive TileType : Type := EMPTY_SPACE | TREASURE | MONSTER | WALL.

#[global] Instance TileType_eq_dec : EqDecision TileType.
Proof. solve_decision. Defined.

Definition NUMBER_OF_TILE_TYPES : Z := 4.
Definition RAW_SIDE_LENGTH : Z := 8.
Definition RAW_SIDE_LENGTH_PLUS : Z := 9.
Definition SIDE_LENGTH : Z := 10.

(** [getTileType] *)
Definition getTileType (value : Z) : TileType :=
  match value with
  | 0%Z => EMPTY_SPACE
  | 1%Z => TREASURE
  | 2%Z => MONSTER
  | 3%Z => WALL
  | _ => EMPTY_SPACE
  end.

(** [interface Coordinate { x: number; y: number }] *)
Record Coordinate : Type := mkCoord { coord_x : Z; coord_y : Z }.

#[global] Instance Coordinate_eq_dec : EqDecision Coordinate.
Proof. solve_decision. Defined.

(** [Diagram] is a tuple of rows, [Projection] a tuple of numbers; both are
    JavaScript arrays at run time. *)
Abbreviation DiagramRow := (list TileType) (only parsing).
Abbreviation Diagram := (list (list TileType)) (only parsing).
Abbreviation RawDiagram := (list (list TileType)) (only parsing).
Abbreviation Projection := (list Z) (only parsing).
Abbreviation ColorSet := (gmap Z Z) (only parsing).

(** ** Results of running a piece of the program

    A call either completes with a value, or raises the [TypeError] of
    JavaScript (an index applied to [undefined]), or needs more loop
    iterations or recursion depth than the [fuel] it was given. *)
Inductive outcome (A : Type) : Type :=
| Ret (a : A)
| TypeError
| OutOfFuel.
Arguments Ret {A} a.
Arguments TypeError {A}.
Arguments OutOfFuel {A}.

Definition bind {A B : Type} (m : outcome A) (k : A -> outcome B) : outcome B :=
  match m with
  | Ret a => k a
  | TypeError => TypeError
  | OutOfFuel => OutOfFuel
  end.

Notation "'let*' x ':=' m 'in' k" := (bind m (fun x => k))
  (at level 10, x name, m at level 100, k at level 200).
Notation "'let*' ' p ':=' m 'in' k" := (bind m (fun p => k))
  (at level 10, p strict pattern, m at level 100, k at level 200).

(** How a loop body or a phase of [dfs] ends: [Return b] is the statement
    [return b] of the enclosing function, [Next a] falls through to what
    follows, with the loop's local variables [a]. *)
Inductive flow (A : Type) : Type :=
| Return (b : bool)
| Next (a : A).
Arguments Return {A} b.
Arguments Next {A} a.

(** ** Reading and writing arrays *)

(** The value of [diagram[x][y]]: a tile, or [undefined] when the row exists
    and has no column [y]. *)
Inductive cell : Type := Undefined | Tile (t : TileType).

#[global] Instance cell_eq_dec : EqDecision cell.
Proof. solve_decision. Defined.

(** [diagram[x][y]]; when [diagram[x]] is [undefined] the read raises. *)
Definition readTile (diagram : Diagram) (x y : Z) : outcome cell :=
  if (x <? 0)%Z then TypeError
  else match diagram !! Z.to_nat x with
       | None => TypeError
       | Some row =>
           if (y <? 0)%Z then Ret Undefined
           else match row !! Z.to_nat y with
                | None => Ret Undefined
                | Some t => Ret (Tile t)
                end
       end.

(** [c === TileType.t] *)
Definition cell_is (t : TileType) (c : cell) : bool := bool_decide (c = Tile t).

(** [diagram[x][y] = t], for a cell that exists: every write of the program
    follows a read of the same cell that returned a tile. *)
Definition writeTile (diagram : Diagram) (x y : Z) (t : TileType) : Diagram :=
  if ((x <? 0) || (y <? 0))%Z then diagram
  else alter (fun row => <[Z.to_nat y := t]> row) (Z.to_nat x) diagram.

(** [i in array] *)
Definition has_index {A : Type} (i : Z) (array : list A) : bool :=
  ((0 <=? i) && (i <? Z.of_nat (length array)))%Z.

(** [projection[i]] at an index the array has. *)
Definition getNum (projection : Projection) (i : Z) : Z :=
  default 0%Z (projection !! Z.to_nat i).

(** [projection[i] += k] at an index the array has. *)
Definition addNum (projection : Projection) (i : Z) (k : Z) : Projection :=
  if (i <? 0)%Z then projection
  else alter (fun v => (v + k)%Z) (Z.to_nat i) projection.

(** ** Grid model *)

Section Geometry.
Local Open Scope Z_scope.

(** [getHashId]: the program calls it on cells of the diagram and on their
    neighbours, where its number arithmetic is exact. *)
Definition getHashId (x y : Z) : Z := x * 100 + y.

Definition get4DirectionCoords (x y : Z) : list Coordinate :=
  [ mkCoord x (y - 1); mkCoord (x + 1) y; mkCoord x (y + 1); mkCoord (x - 1) y ].

Definition getTRoomLTCoords (x y : Z) : list Coordinate :=
  [ mkCoord (x - 2) (y - 2); mkCoord (x - 1) (y - 2); mkCoord x (y - 2);
    mkCoord (x - 2) (y - 1); mkCoord (x - 1) (y - 1); mkCoord x (y - 1);
    mkCoord (x - 2) y; mkCoord (x - 1) y; mkCoord x y ].

Definition getTRoomTileCoords (x y : Z) : list Coordinate :=
  [ mkCoord x y; mkCoord (x + 1) y; mkCoord (x + 2) y;
    mkCoord x (y + 1); mkCoord (x + 1) (y + 1); mkCoord (x + 2) (y + 1);
    mkCoord x (y + 2); mkCoord (x + 1) (y + 2); mkCoord (x + 2) (y + 2) ].

Definition getTRoomOuterTileCoords (x y : Z) : list Coordinate :=
  [ mkCoord x (y - 1); mkCoord (x + 1) (y - 1); mkCoord (x + 2) (y - 1);
    mkCoord (x + 3) y; mkCoord (x + 3) (y + 1); mkCoord (x + 3) (y + 2);
    mkCoord x (y + 3); mkCoord (x + 1) (y + 3); mkCoord (x + 2) (y + 3);
    mkCoord (x - 1) y; mkCoord (x - 1) (y + 1); mkCoord (x - 1) (y + 2) ].

Definition get4TilesSpaces (x y : Z) : list (list Coordinate) :=
  [ [ mkCoord (x - 1) (y - 1); mkCoord x (y - 1); mkCoord (x - 1) y ];
    [ mkCoord x (y - 1); mkCoord (x + 1) (y - 1); mkCoord (x + 1) y ];
    [ mkCoord (x + 1) y; mkCoord (x + 1) (y + 1); mkCoord x (y + 1) ];
    [ mkCoord x (y + 1); mkCoord (x - 1) (y + 1); mkCoord (x - 1) y ] ].

Definition isContainedByTRoom (x y : Z) (treasure_room_lt_coords : list Coordinate) : bool :=
  existsb (fun lt_coord =>
             (coord_x lt_coord <=? x) && (x <? coord_x lt_coord + 3) &&
             (coord_y lt_coord <=? y) && (y <? coord_y lt_coord + 3))
          treasure_room_lt_coords.

Definition isTRoomLTCoordAvailable (x y : Z) : bool :=
  (1 <=? x) && (x <? SIDE_LENGTH - 2) && (1 <=? y) && (y <? SIDE_LENGTH - 2).

(** The loop heads [for (let x = 1; x < SIDE_LENGTH - 1; ...)
    for (let y = 1; y < SIDE_LENGTH - 1; ...)]: the interior cells, row by row. *)
Definition interior_indices : list Z := map Z.of_nat (seq 1 8).

Definition interior_coords : list Coordinate :=
  concat (map (fun x => map (fun y => mkCoord x y) interior_indices) interior_indices).

(** [augmentRawDiagram]: rows of [SIDE_LENGTH] walls, the raw cells copied
    into rows and columns 1..8. *)
Definition wall_row : list TileType := replicate (Z.to_nat SIDE_LENGTH) WALL.

Definition augmentRawDiagram (raw_diagram : RawDiagram) : Diagram :=
  fold_left
    (fun diagram x =>
       fold_left
         (fun diagram y =>
            match raw_diagram !! x with
            | Some raw_row =>
                match raw_row !! y with
                | Some t => writeTile diagram (Z.of_nat x + 1) (Z.of_nat y + 1) t
                | None => diagram
                end
            | None => diagram
            end)
         (seq 0 (Z.to_nat RAW_SIDE_LENGTH)) diagram)
    (seq 0 (Z.to_nat RAW_SIDE_LENGTH))
    (replicate (Z.to_nat SIDE_LENGTH) wall_row).

Definition isTilePlacable (row_i column_i : Z)
    (cur_row_projection cur_column_projection row_projection column_projection : Projection) : bool :=
  if negb (has_index row_i cur_row_projection && has_index row_i row_projection &&
           has_index column_i cur_column_projection && has_index column_i column_projection)
  then false
  else (getNum cur_row_projection row_i + 1 <=? getNum row_projection row_i) &&
       (getNum cur_column_projection column_i + 1 <=? getNum column_projection column_i).

Definition isSatisfiedProjections
    (cur_row_projection cur_column_projection row_projection column_projection : Projection) : bool :=
  if negb (bool_decide (length cur_row_projection = length row_projection) &&
           bool_decide (length cur_column_projection = length column_projection))
  then false
  else forallb (fun i => getNum cur_row_projection (Z.of_nat i) =? getNum row_projection (Z.of_nat i))
               (seq 0 (length cur_row_projection)) &&
       forallb (fun i => getNum cur_column_projection (Z.of_nat i) =? getNum column_projection (Z.of_nat i))
               (seq 0 (length cur_column_projection)).

End Geometry.

(** ** Room and dead-end validators *)

(** The counting loop of [isTRoomTilesAvailable]. *)
Fixpoint countRoomTiles (diagram : Diagram) (tile_coords : list Coordinate)
    (number_of_empty_spaces number_of_treasuers : Z) : outcome (Z * Z) :=
  match tile_coords with
  | [] => Ret (number_of_empty_spaces, number_of_treasuers)
  | tile_coord :: rest =>
      let* c := readTile diagram (coord_x tile_coord) (coord_y tile_coord) in
      match c with
      | Tile EMPTY_SPACE =>
          countRoomTiles diagram rest (number_of_empty_spaces + 1)%Z number_of_treasuers
      | Tile TREASURE =>
          countRoomTiles diagram rest number_of_empty_spaces (number_of_treasuers + 1)%Z
      | _ => countRoomTiles diagram rest number_of_empty_spaces number_of_treasuers
      end
  end.

Definition isTRoomTilesAvailable (x y : Z) (diagram : Diagram) : outcome bool :=
  let* '(number_of_empty_spaces, number_of_treasuers) :=
    countRoomTiles diagram (getTRoomTileCoords x y) 0%Z 0%Z in
  Ret ((number_of_empty_spaces =? 8)%Z && (number_of_treasuers =? 1)%Z).

(** The loop [for (const c of coords) if (diagram[c.x][c.y] === WALL)
    number_of_walls += 1], shared by [isTRoomWallsAvailable] and [isDeadEnds]. *)
Fixpoint countWalls (diagram : Diagram) (coords : list Coordinate)
    (number_of_walls : Z) : outcome Z :=
  match coords with
  | [] => Ret number_of_walls
  | outer_tile_coord :: rest =>
      let* c := readTile diagram (coord_x outer_tile_coord) (coord_y outer_tile_coord) in
      countWalls diagram rest
        (if cell_is WALL c then (number_of_walls + 1)%Z else number_of_walls)
  end.

Definition isTRoomWallsAvailable (x y : Z) (diagram : Diagram) : outcome bool :=
  let* number_of_walls := countWalls diagram (getTRoomOuterTileCoords x y) 0%Z in
  Ret (number_of_walls =? 11)%Z.

Definition isDeadEnds (x y : Z) (diagram : Diagram) : outcome bool :=
  let* number_of_walls := countWalls diagram (get4DirectionCoords x y) 0%Z in
  Ret (number_of_walls =? 3)%Z.

(** ** Connectivity checker *)

(** [hash_id in color_set] *)
Definition inColorSet (hash_id : Z) (color_set : ColorSet) : bool :=
  bool_decide (is_Some (color_set !! hash_id)).

(** The inner loop of [bfs]: the neighbours pushed on the queue.  [passable]
    is the test on the neighbour's tile, [=== EMPTY_SPACE] in
    [checkEmptySpacesConnectivity] and [!== WALL] in
    [checkTreasuresAndMonstersConnectivity]. *)
Fixpoint pushNeighbours (passable : cell -> bool) (diagram : Diagram)
    (color_set : ColorSet) (coords : list Coordinate) (queue : list Coordinate)
    : outcome (list Coordinate) :=
  match coords with
  | [] => Ret queue
  | coord :: rest =>
      let* c := readTile diagram (coord_x coord) (coord_y coord) in
      pushNeighbours passable diagram color_set rest
        (if passable c && negb (inColorSet (getHashId (coord_x coord) (coord_y coord)) color_set)
         then queue ++ [coord] else queue)
  end.

(** The [while (queue.length > 0)] loop of [bfs]; one unit of fuel per
    iteration. *)
Fixpoint bfs (passable : cell -> bool) (diagram : Diagram) (sign : Z)
    (fuel : nat) (queue : list Coordinate) (color_set : ColorSet) : outcome ColorSet :=
  match queue with
  | [] => Ret color_set
  | head :: queue' =>
      match fuel with
      | O => OutOfFuel
      | S fuel' =>
          let hash_id := getHashId (coord_x head) (coord_y head) in
          if inColorSet hash_id color_set
          then bfs passable diagram sign fuel' queue' color_set
          else
            let color_set' := <[hash_id := sign]> color_set in
            let* queue'' := pushNeighbours passable diagram color_set'
                         (get4DirectionCoords (coord_x head) (coord_y head)) queue' in
            bfs passable diagram sign fuel' queue'' color_set'
      end
  end.

(** The seed loop shared by the two connectivity checks: [is_seed] is the test
    on the seed's tile. *)
Fixpoint seedLoop (is_seed passable : cell -> bool) (fuel : nat) (diagram : Diagram)
    (seeds : list Coordinate) (color_set : ColorSet) (sign_count : Z) : outcome bool :=
  match seeds with
  | [] => Ret true
  | seed :: rest =>
      let hash_id := getHashId (coord_x seed) (coord_y seed) in
      let* c := readTile diagram (coord_x seed) (coord_y seed) in
      if is_seed c then
        if inColorSet hash_id color_set then
          if (sign_count <=? 1)%Z
          then seedLoop is_seed passable fuel diagram rest color_set sign_count
          else Ret false
        else if negb (sign_count =? 0)%Z then Ret false
        else
          let sign_count' := (sign_count + 1)%Z in
          let* color_set' := bfs passable diagram sign_count' fuel [seed] color_set in
          seedLoop is_seed passable fuel diagram rest color_set' sign_count'
      else seedLoop is_seed passable fuel diagram rest color_set sign_count
  end.

Definition checkEmptySpacesConnectivity (fuel : nat) (diagram : Diagram) : outcome bool :=
  seedLoop (cell_is EMPTY_SPACE) (cell_is EMPTY_SPACE) fuel diagram interior_coords ∅ 0%Z.

Definition checkTreasuresAndMonstersConnectivity (fuel : nat)
    (treasure_coords monster_coords : list Coordinate) (diagram : Diagram) : outcome bool :=
  seedLoop (fun c => negb (cell_is WALL c)) (fun c => negb (cell_is WALL c)) fuel diagram
           (treasure_coords ++ monster_coords) ∅ 0%Z.

(** ** Checks used for pruning and for the final validation *)

Fixpoint checkMonsters (monster_coords : list Coordinate) (diagram : Diagram) : outcome bool :=
  match monster_coords with
  | [] => Ret true
  | monster_coord :: rest =>
      let x := coord_x monster_coord in
      let y := coord_y monster_coord in
      let* c := readTile diagram x y in
      if cell_is MONSTER c then
        let* dead_end := isDeadEnds x y diagram in
        if negb dead_end then Ret false else checkMonsters rest diagram
      else checkMonsters rest diagram
  end.

(** The scan of the candidate top-left corners in [checkTreasureRooms]:
    the first corner that passes the three tests. *)
Fixpoint findTRoom (lt_coords : list Coordinate) (diagram : Diagram)
    : outcome (option Coordinate) :=
  match lt_coords with
  | [] => Ret None
  | lt_coord :: rest =>
      if negb (isTRoomLTCoordAvailable (coord_x lt_coord) (coord_y lt_coord))
      then findTRoom rest diagram
      else
        let* tiles := isTRoomTilesAvailable (coord_x lt_coord) (coord_y lt_coord) diagram in
        if negb tiles then findTRoom rest diagram
        else
          let* walls := isTRoomWallsAvailable (coord_x lt_coord) (coord_y lt_coord) diagram in
          if negb walls then findTRoom rest diagram
          else Ret (Some lt_coord)
  end.

Fixpoint checkTreasureRoomsFrom (treasure_coords : list Coordinate) (diagram : Diagram)
    (treasure_room_lt_coords : list Coordinate) : outcome (bool * list Coordinate) :=
  match treasure_coords with
  | [] => Ret (true, treasure_room_lt_coords)
  | treasure_coord :: rest =>
      let x := coord_x treasure_coord in
      let y := coord_y treasure_coord in
      let* c := readTile diagram x y in
      if cell_is TREASURE c then
        let* found := findTRoom (getTRoomLTCoords x y) diagram in
        match found with
        | Some lt_coord =>
            checkTreasureRoomsFrom rest diagram (treasure_room_lt_coords ++ [lt_coord])
        | None => Ret (false, [])
        end
      else checkTreasureRoomsFrom rest diagram treasure_room_lt_coords
  end.

Definition checkTreasureRooms (treasure_coords : list Coordinate) (diagram : Diagram)
    : outcome (bool * list Coordinate) :=
  checkTreasureRoomsFrom treasure_coords diagram [].

(** The first loop of [checkMonstersAndDeadEnds]. *)
Fixpoint allDeadEnds (monster_coords : list Coordinate) (diagram : Diagram) : outcome bool :=
  match monster_coords with
  | [] => Ret true
  | monster_coord :: rest =>
      let* dead_end := isDeadEnds (coord_x monster_coord) (coord_y monster_coord) diagram in
      if negb dead_end then Ret false else allDeadEnds rest diagram
  end.

(** The second loop of [checkMonstersAndDeadEnds], over the interior cells. *)
Fixpoint noEmptyDeadEnds (coords : list Coordinate) (diagram : Diagram) : outcome bool :=
  match coords with
  | [] => Ret true
  | coord :: rest =>
      let* c := readTile diagram (coord_x coord) (coord_y coord) in
      if cell_is EMPTY_SPACE c then
        let* dead_end := isDeadEnds (coord_x coord) (coord_y coord) diagram in
        if dead_end then Ret false else noEmptyDeadEnds rest diagram
      else noEmptyDeadEnds rest diagram
  end.

Definition checkMonstersAndDeadEnds (monster_coords : list Coordinate) (diagram : Diagram)
    : outcome bool :=
  let* monsters := allDeadEnds monster_coords diagram in
  if negb monsters then Ret false else noEmptyDeadEnds interior_coords diagram.

(** ** Hallway validator *)

(** [diagram[coord.x][coord.y] === EMPTY_SPACE && !isContainedByTRoom(...) ? 1 : 0] *)
Definition openTile (diagram : Diagram) (treasure_room_lt_coords : list Coordinate)
    (coord : Coordinate) : outcome Z :=
  let* c := readTile diagram (coord_x coord) (coord_y coord) in
  Ret (if cell_is EMPTY_SPACE c &&
          negb (isContainedByTRoom (coord_x coord) (coord_y coord) treasure_room_lt_coords)
       then 1%Z else 0%Z).

(** [array.map(f)] for an [f] that reads the diagram. *)
Fixpoint mapM {A B : Type} (f : A -> outcome B) (l : list A) : outcome (list B) :=
  match l with
  | [] => Ret []
  | a :: rest => let* b := f a in let* bs := mapM f rest in Ret (b :: bs)
  end.

(** [array.reduce((pre, cur) => pre + cur, 0)] *)
Definition sumZ (l : list Z) : Z := fold_left Z.add l 0%Z.

(** [space.map(...).reduce(...) >= 3 ? 1 : 0] *)
Definition openSpace (diagram : Diagram) (treasure_room_lt_coords : list Coordinate)
    (space : list Coordinate) : outcome Z :=
  let* ones := mapM (openTile diagram treasure_room_lt_coords) space in
  Ret (if (3 <=? sumZ ones)%Z then 1%Z else 0%Z).

Fixpoint checkHallwaysFrom (coords : list Coordinate) (diagram : Diagram)
    (treasure_room_lt_coords : list Coordinate) : outcome bool :=
  match coords with
  | [] => Ret true
  | coord :: rest =>
      let x := coord_x coord in
      let y := coord_y coord in
      let* c := readTile diagram x y in
      if cell_is EMPTY_SPACE c && negb (isContainedByTRoom x y treasure_room_lt_coords) then
        let* spaces := mapM (openSpace diagram treasure_room_lt_coords) (get4TilesSpaces x y) in
        if (0 <? sumZ spaces)%Z then Ret false
        else checkHallwaysFrom rest diagram treasure_room_lt_coords
      else checkHallwaysFrom rest diagram treasure_room_lt_coords
  end.

Definition checkHallways (diagram : Diagram) (treasure_room_lt_coords : list Coordinate)
    : outcome bool :=
  checkHallwaysFrom interior_coords diagram treasure_room_lt_coords.

(** ** Final validation *)

Definition isSolved (fuel : nat) (treasure_coords monster_coords : list Coordinate)
    (diagram : Diagram) : outcome bool :=
  let* flag_connectivity := checkEmptySpacesConnectivity fuel diagram in
  if negb flag_connectivity then Ret false else
  let* '(flag_treasures, treasure_room_lt_coords) :=
    checkTreasureRooms treasure_coords diagram in
  if negb flag_treasures then Ret false else
  let* flag_monsters := checkMonstersAndDeadEnds monster_coords diagram in
  if negb flag_monsters then Ret false else
  let* falg_hallways := checkHallways diagram treasure_room_lt_coords in
  if negb falg_hallways then Ret false else
  Ret true.

(** ** Combination generator *)

(** [recursiveSelect]: [result] is the array the closure pushes to, returned
    here.  The recursion advances [step] towards [n]; [fuel] bounds its depth. *)
Fixpoint recursiveSelect (m n : nat) (fuel : nat) (step : nat) (cur_combination : list nat)
    (result : list (list nat)) : outcome (list (list nat)) :=
  match fuel with
  | O => OutOfFuel
  | S fuel' =>
      if length cur_combination =? m then Ret (result ++ [cur_combination])
      else if n <=? step then Ret result
      else
        let* result' := recursiveSelect m n fuel' (step + 1) (cur_combination ++ [step]) result in
        if m <=? length cur_combination + (n - 1 - step)
        then recursiveSelect m n fuel' (step + 1) cur_combination result'
        else Ret result'
  end.

(** [getCombinations]; the depth of [recursiveSelect] never exceeds [n + 1]. *)
Definition getCombinations (m n : nat) : outcome (list (list nat)) :=
  if n <? m then Ret [] else recursiveSelect m n (S n) 0 [] [].

(** [getTreasureAndMonsterCoords] *)
Definition getTreasureAndMonsterCoords (diagram : Diagram)
    : outcome (list Coordinate * list Coordinate) :=
  let* cells := mapM (fun coord => let* c := readTile diagram (coord_x coord) (coord_y coord) in
                              Ret (coord, c)) interior_coords in
  Ret (map fst (filter (fun p => cell_is TREASURE (snd p) = true) cells),
       map fst (filter (fun p => cell_is MONSTER (snd p) = true) cells)).

(** ** Backtracking search engine *)

(** The arrays [dfs] mutates in place, shared by the whole call chain. *)
Record State : Type := mkState {
  st_diagram : list (list TileType);
  st_cur_row_projection : list Z;
  st_cur_column_projection : list Z;
  st_handled_treasure_ids : list Z;
  st_handled_monster_ids : list Z;
  st_treasure_room_lt_coords : list Coordinate
}.

(** [diagram[x][y] = WALL; cur_row_projection[x - 1] += 1;
    cur_column_projection[y - 1] += 1] *)
Definition placeWall (st : State) (coord : Coordinate) : State :=
  mkState (writeTile (st_diagram st) (coord_x coord) (coord_y coord) WALL)
          (addNum (st_cur_row_projection st) (coord_x coord - 1) 1)
          (addNum (st_cur_column_projection st) (coord_y coord - 1) 1)
          (st_handled_treasure_ids st) (st_handled_monster_ids st)
          (st_treasure_room_lt_coords st).

(** [diagram[x][y] = EMPTY_SPACE; cur_row_projection[x - 1] -= 1;
    cur_column_projection[y - 1] -= 1] *)
Definition removeWall (st : State) (coord : Coordinate) : State :=
  mkState (writeTile (st_diagram st) (coord_x coord) (coord_y coord) EMPTY_SPACE)
          (addNum (st_cur_row_projection st) (coord_x coord - 1) (-1))
          (addNum (st_cur_column_projection st) (coord_y coord - 1) (-1))
          (st_handled_treasure_ids st) (st_handled_monster_ids st)
          (st_treasure_room_lt_coords st).

(** [handled_treasure_ids.push(hash_id); treasure_room_lt_coords.push(lt_coord)] *)
Definition pushTreasure (hash_id : Z) (lt_coord : Coordinate) (st : State) : State :=
  mkState (st_diagram st) (st_cur_row_projection st) (st_cur_column_projection st)
          (st_handled_treasure_ids st ++ [hash_id]) (st_handled_monster_ids st)
          (st_treasure_room_lt_coords st ++ [lt_coord]).

(** [handled_treasure_ids.pop(); treasure_room_lt_coords.pop()] *)
Definition popTreasure (st : State) : State :=
  mkState (st_diagram st) (st_cur_row_projection st) (st_cur_column_projection st)
          (removelast (st_handled_treasure_ids st)) (st_handled_monster_ids st)
          (removelast (st_treasure_room_lt_coords st)).

(** [handled_monster_ids.push(hash_id)] *)
Definition pushMonster (hash_id : Z) (st : State) : State :=
  mkState (st_diagram st) (st_cur_row_projection st) (st_cur_column_projection st)
          (st_handled_treasure_ids st) (st_handled_monster_ids st ++ [hash_id])
          (st_treasure_room_lt_coords st).

(** [handled_monster_ids.pop()] *)
Definition popMonster (st : State) : State :=
  mkState (st_diagram st) (st_cur_row_projection st) (st_cur_column_projection st)
          (st_handled_treasure_ids st) (removelast (st_handled_monster_ids st))
          (st_treasure_room_lt_coords st).

(** [ids.includes(hash_id)] *)
Definition includes (hash_id : Z) (ids : list Z) : bool := existsb (Z.eqb hash_id) ids.

(** [coords.filter(tile => diagram[tile.x][tile.y] === EMPTY_SPACE)] *)
Fixpoint filterEmpty (diagram : Diagram) (coords : list Coordinate) : outcome (list Coordinate) :=
  match coords with
  | [] => Ret []
  | tile :: rest =>
      let* c := readTile diagram (coord_x tile) (coord_y tile) in
      let* kept := filterEmpty diagram rest in
      Ret (if cell_is EMPTY_SPACE c then tile :: kept else kept)
  end.

(** The loop of the treasure phase that skips a room ([continue lroom_loop])
    when a tile of its ring is neither Wall nor Empty. *)
Fixpoint hasSpecialTile (diagram : Diagram) (coords : list Coordinate) : outcome bool :=
  match coords with
  | [] => Ret false
  | tile_coord :: rest =>
      let* c := readTile diagram (coord_x tile_coord) (coord_y tile_coord) in
      if negb (cell_is WALL c) && negb (cell_is EMPTY_SPACE c) then Ret true
      else hasSpecialTile diagram rest
  end.

(** The [switch] loop of the monster phase: [None] is its [return false]
    on a neighbour that is neither Empty nor Wall. *)
Fixpoint countMonsterWalls (diagram : Diagram) (coords : list Coordinate)
    (number_of_walls : Z) : outcome (option Z) :=
  match coords with
  | [] => Ret (Some number_of_walls)
  | tile_coord :: rest =>
      let* c := readTile diagram (coord_x tile_coord) (coord_y tile_coord) in
      match c with
      | Tile EMPTY_SPACE => countMonsterWalls diagram rest number_of_walls
      | Tile WALL => countMonsterWalls diagram rest (number_of_walls + 1)%Z
      | _ => Ret None
      end
  end.

(** A JavaScript array is an object, and every object is truthy: this is the
    value of [checkTreasureRooms(...)] as an operand of [&&]. *)
Definition truthy (result : bool * list Coordinate) : bool := true.

Section Search.

Variables row_projection column_projection : Projection.
Variables treasure_coords monster_coords : list Coordinate.

(** Fuel for the flood fills run by this call. *)
Variable fuel : nat.

(** The recursive call [dfs(step + 1, ...)]; [step] is not used by [dfs]. *)
Variable rec : State -> outcome (bool * State).

(** The loop over [j] that walls every Empty tile but the [i]-th, and stops
    ([break]) at the first one the projections do not allow. *)
Fixpoint placeAllBut (i j : nat) (coords : list Coordinate) (placed_indices : list nat)
    (st : State) : list nat * State :=
  match coords with
  | [] => (placed_indices, st)
  | coord :: rest =>
      if negb (j =? i) then
        let row_i := (coord_x coord - 1)%Z in
        let column_i := (coord_y coord - 1)%Z in
        if negb (isTilePlacable row_i column_i
                   (st_cur_row_projection st) (st_cur_column_projection st)
                   row_projection column_projection)
        then (placed_indices, st)
        else placeAllBut i (S j) rest (placed_indices ++ [j]) (placeWall st coord)
      else placeAllBut i (S j) rest placed_indices st
  end.

(** The loop over [k] that reverts the tiles of [placed_indices]. *)
Fixpoint removePlaced (empty_space_coords : list Coordinate) (placed_indices : list nat)
    (st : State) : outcome State :=
  match placed_indices with
  | [] => Ret st
  | index :: rest =>
      match empty_space_coords !! index with
      | Some coord => removePlaced empty_space_coords rest (removeWall st coord)
      | None => TypeError
      end
  end.

(** The loop over [i] of the treasure and monster phases: leave the [i]-th
    Empty tile open, wall the others, recurse, undo.  [push] and [pop] are the
    updates of the handled lists around the recursive call. *)
Fixpoint openingLoop (push pop : State -> State) (empty_space_coords : list Coordinate)
    (indices : list nat) (is_satisfied : bool) (st : State)
    : outcome (flow bool * State) :=
  match indices with
  | [] => Ret (Next is_satisfied, st)
  | i :: rest =>
      let '(placed_indices, st1) := placeAllBut i 0 empty_space_coords [] st in
      let* connected :=
        if (Z.of_nat (length placed_indices) =? Z.of_nat (length empty_space_coords) - 1)%Z
        then checkTreasuresAndMonstersConnectivity fuel treasure_coords monster_coords
               (st_diagram st1)
        else Ret false in
      if connected then
        let* '(found, st2) := rec (push st1) in
        if found then Ret (Return true, st2)
        else
          let* st3 := removePlaced empty_space_coords placed_indices (pop st2) in
          openingLoop push pop empty_space_coords rest true st3
      else
        let* st3 := removePlaced empty_space_coords placed_indices st1 in
        openingLoop push pop empty_space_coords rest is_satisfied st3
  end.

(** [lroom_loop] *)
Fixpoint roomLoop (hash_id : Z) (lt_coords : list Coordinate) (is_satisfied : bool)
    (st : State) : outcome (flow bool * State) :=
  match lt_coords with
  | [] => Ret (Next is_satisfied, st)
  | lt_coord :: rest =>
      if negb (isTRoomLTCoordAvailable (coord_x lt_coord) (coord_y lt_coord))
      then roomLoop hash_id rest is_satisfied st
      else
        let* tiles := isTRoomTilesAvailable (coord_x lt_coord) (coord_y lt_coord) (st_diagram st) in
        if negb tiles then roomLoop hash_id rest is_satisfied st
        else
          let outer_tile_coords := getTRoomOuterTileCoords (coord_x lt_coord) (coord_y lt_coord) in
          let* empty_space_coords := filterEmpty (st_diagram st) outer_tile_coords in
          let* special := hasSpecialTile (st_diagram st) outer_tile_coords in
          if special then roomLoop hash_id rest is_satisfied st
          else if (Z.of_nat (length empty_space_coords) <? 1)%Z then Ret (Return false, st)
          else
            let* '(r, st1) :=
              openingLoop (pushTreasure hash_id lt_coord) popTreasure empty_space_coords
                          (seq 0 (length empty_space_coords)) is_satisfied st in
            match r with
            | Return b => Ret (Return b, st1)
            | Next is_satisfied' => roomLoop hash_id rest is_satisfied' st1
            end
  end.

(** Treasure phase: the loop over [treasure_coords]. *)
Fixpoint treasureLoop (coords : list Coordinate) (st : State) : outcome (flow unit * State) :=
  match coords with
  | [] => Ret (Next tt, st)
  | treasure_coord :: rest =>
      let x := coord_x treasure_coord in
      let y := coord_y treasure_coord in
      let hash_id := getHashId x y in
      let* c := readTile (st_diagram st) x y in
      if negb (cell_is TREASURE c && negb (includes hash_id (st_handled_treasure_ids st)))
      then treasureLoop rest st
      else
        let* '(r, st1) := roomLoop hash_id (getTRoomLTCoords x y) false st in
        match r with
        | Return b => Ret (Return b, st1)
        | Next is_satisfied =>
            if negb is_satisfied then Ret (Return false, st1) else treasureLoop rest st1
        end
  end.

(** Monster phase: the loop over [monster_coords]. *)
Fixpoint monsterLoop (coords : list Coordinate) (st : State) : outcome (flow unit * State) :=
  match coords with
  | [] => Ret (Next tt, st)
  | monster_coord :: rest =>
      let x := coord_x monster_coord in
      let y := coord_y monster_coord in
      let hash_id := getHashId x y in
      let* c := readTile (st_diagram st) x y in
      if negb (cell_is MONSTER c && negb (includes hash_id (st_handled_monster_ids st)))
      then monsterLoop rest st
      else
        let outer_tile_coords := get4DirectionCoords x y in
        let* empty_space_coords := filterEmpty (st_diagram st) outer_tile_coords in
        let* walls := countMonsterWalls (st_diagram st) outer_tile_coords 0%Z in
        match walls with
        | None => Ret (Return false, st)
        | Some number_of_walls =>
            if (4 <=? number_of_walls)%Z then Ret (Return false, st)
            else
              let* '(r, st1) :=
                openingLoop (pushMonster hash_id) popMonster empty_space_coords
                            (seq 0 (length empty_space_coords)) false st in
              match r with
              | Return b => Ret (Return b, st1)
              | Next is_satisfied =>
                  if negb is_satisfied then Ret (Return false, st1) else monsterLoop rest st1
              end
        end
  end.

(** The three pre-checks of the deficit phase,
    [checkTreasureRooms(...) && checkMonsters(...) &&
     checkTreasuresAndMonstersConnectivity(...)]. *)
Definition preChecks (diagram : Diagram) : outcome bool :=
  let* rooms := checkTreasureRooms treasure_coords diagram in
  if truthy rooms then
    let* monsters := checkMonsters monster_coords diagram in
    if monsters
    then checkTreasuresAndMonstersConnectivity fuel treasure_coords monster_coords diagram
    else Ret false
  else Ret false.

(** Deficit phase, the loop over [column_i] that collects [available_coords]. *)
Fixpoint collectAvailable (row_i : Z) (column_indices : list nat)
    (available_coords : list Coordinate) (st : State) : outcome (list Coordinate * State) :=
  match column_indices with
  | [] => Ret (available_coords, st)
  | column_index :: rest =>
      let column_i := Z.of_nat column_index in
      if (getNum column_projection column_i <=? getNum (st_cur_column_projection st) column_i)%Z
      then collectAvailable row_i rest available_coords st
      else
        let x := (row_i + 1)%Z in
        let y := (column_i + 1)%Z in
        let* c := readTile (st_diagram st) x y in
        if negb (cell_is EMPTY_SPACE c &&
                 negb (isContainedByTRoom x y (st_treasure_room_lt_coords st)) &&
                 isTilePlacable row_i column_i
                   (st_cur_row_projection st) (st_cur_column_projection st)
                   row_projection column_projection)
        then collectAvailable row_i rest available_coords st
        else
          let st1 := placeWall st (mkCoord x y) in
          let* passed := preChecks (st_diagram st1) in
          collectAvailable row_i rest
            (if passed then available_coords ++ [mkCoord x y] else available_coords)
            (removeWall st1 (mkCoord x y))
  end.

(** [for (const index of combination)] placing or reverting the walls of a
    combination; [available_coords[index]] out of range raises. *)
Fixpoint forCombination (update : State -> Coordinate -> State)
    (available_coords : list Coordinate) (combination : list nat) (st : State) : outcome State :=
  match combination with
  | [] => Ret st
  | index :: rest =>
      match available_coords !! index with
      | Some coord => forCombination update available_coords rest (update st coord)
      | None => TypeError
      end
  end.

(** Deficit phase, the loop over the combinations. *)
Fixpoint combinationLoop (available_coords : list Coordinate) (combinations : list (list nat))
    (is_satisfied : bool) (st : State) : outcome (flow bool * State) :=
  match combinations with
  | [] => Ret (Next is_satisfied, st)
  | combination :: rest =>
      let* st1 := forCombination placeWall available_coords combination st in
      let* passed := preChecks (st_diagram st1) in
      if passed then
        let* '(found, st2) := rec st1 in
        if found then Ret (Return true, st2)
        else
          let* st3 := forCombination removeWall available_coords combination st2 in
          combinationLoop available_coords rest true st3
      else
        let* st3 := forCombination removeWall available_coords combination st1 in
        combinationLoop available_coords rest is_satisfied st3
  end.

(** Deficit phase: the loop over [row_i], and the final [return false]. *)
Fixpoint rowLoop (row_indices : list nat) (st : State) : outcome (bool * State) :=
  match row_indices with
  | [] => Ret (false, st)
  | row_index :: rest =>
      let row_i := Z.of_nat row_index in
      let difference :=
        (getNum row_projection row_i - getNum (st_cur_row_projection st) row_i)%Z in
      if (difference <=? 0)%Z then rowLoop rest st
      else
        let* '(available_coords, st1) :=
          collectAvailable row_i (seq 0 (length (st_cur_column_projection st))) [] st in
        if (Z.of_nat (length available_coords) <? difference)%Z then Ret (false, st1)
        else
          let* combinations := getCombinations (Z.to_nat difference) (length available_coords) in
          let* '(r, st2) := combinationLoop available_coords combinations false st1 in
          match r with
          | Return b => Ret (b, st2)
          | Next is_satisfied =>
              if negb is_satisfied then Ret (false, st2) else rowLoop rest st2
          end
  end.

(** The body of [dfs]. *)
Definition dfs_body (st : State) : outcome (bool * State) :=
  if isSatisfiedProjections (st_cur_row_projection st) (st_cur_column_projection st)
       row_projection column_projection
  then
    let* solved := isSolved fuel treasure_coords monster_coords (st_diagram st) in
    Ret (solved, st)
  else
    let* '(r, st1) := treasureLoop treasure_coords st in
    match r with
    | Return b => Ret (b, st1)
    | Next _ =>
        if negb (length (st_handled_treasure_ids st1) =? length treasure_coords)
        then Ret (false, st1)
        else
          let* '(r', st2) := monsterLoop monster_coords st1 in
          match r' with
          | Return b => Ret (b, st2)
          | Next _ =>
              if negb (length (st_handled_monster_ids st2) =? length monster_coords)
              then Ret (false, st2)
              else rowLoop (seq 0 (length (st_cur_row_projection st2))) st2
          end
    end.

End Search.

(** [dfs]: one unit of fuel per level of recursion; the flood fills of a call
    run on the fuel the call has. *)
Fixpoint dfs (fuel : nat) (row_projection column_projection : Projection)
    (treasure_coords monster_coords : list Coordinate) (st : State) : outcome (bool * State) :=
  match fuel with
  | O => OutOfFuel
  | S fuel' =>
      dfs_body row_projection column_projection treasure_coords monster_coords fuel
        (dfs fuel' row_projection column_projection treasure_coords monster_coords) st
  end.

(** The state the main program starts [dfs] from: counters at zero, nothing
    handled. *)
Definition initialState (diagram : Diagram) : State :=
  mkState diagram (replicate 8 0%Z) (replicate 8 0%Z) [] [] [].

(** The main program between parsing and rendering: augment, collect the
    treasures and monsters, search. *)
Definition solve (fuel : nat) (row_projection column_projection : Projection)
    (raw_diagram : RawDiagram) : outcome (bool * State) :=
  let diagram := augmentRawDiagram raw_diagram in
  let* '(treasure_coords, monster_coords) := getTreasureAndMonsterCoords diagram in
  dfs fuel row_projection column_projection treasure_coords monster_coords
      (initialState diagram).

(** ** Input file

    A line of the input file is modelled by its code units, each below 256. *)

(** The white space and line terminators that [trim] and [parseInt] skip:
    tab, line feed, vertical tab, form feed, carriage return, space and
    no-break space. *)
Definition isWhiteSpace (c : Ascii.ascii) : bool :=
  let n := Ascii.nat_of_ascii c in
  (n =? 9) || (n =? 10) || (n =? 11) || (n =? 12) || (n =? 13) || (n =? 32) || (n =? 160).

Fixpoint trimStart (s : String.string) : String.string :=
  match s with
  | String.EmptyString => String.EmptyString
  | String.String c s' => if isWhiteSpace c then trimStart s' else s
  end.

Fixpoint trimEnd (s : String.string) : String.string :=
  match s with
  | String.EmptyString => String.EmptyString
  | String.String c s' =>
      match trimEnd s' with
      | String.EmptyString =>
          if isWhiteSpace c then String.EmptyString else String.String c String.EmptyString
      | rest => String.String c rest
      end
  end.

(** [line.trim()] *)
Definition trim (s : String.string) : String.string := trimEnd (trimStart s).

(** The characters of the class [[ \f\t\v]]. *)
Definition isSeparator (c : Ascii.ascii) : bool :=
  let n := Ascii.nat_of_ascii c in
  (n =? 32) || (n =? 12) || (n =? 9) || (n =? 11).

(** [s.split(/[ \f\t\v]+/)]: the pieces between the runs of separators;
    [token] is the piece being read, [after_separator] tells that the last
    character belonged to a run. *)
Fixpoint splitFrom (s : String.string) (token : String.string) (after_separator : bool)
    : list String.string :=
  match s with
  | String.EmptyString => [token]
  | String.String c s' =>
      if isSeparator c then
        if after_separator then splitFrom s' String.EmptyString true
        else token :: splitFrom s' String.EmptyString true
      else splitFrom s' (String.append token (String.String c String.EmptyString)) false
  end.

Definition split (s : String.string) : list String.string :=
  splitFrom s String.EmptyString false.

(** The value of a character as a digit, up to radix 36. *)
Definition digitValue (c : Ascii.ascii) : option Z :=
  let n := Ascii.nat_of_ascii c in
  if (48 <=? n) && (n <=? 57) then Some (Z.of_nat n - 48)%Z
  else if (97 <=? n) && (n <=? 122) then Some (Z.of_nat n - 87)%Z
  else if (65 <=? n) && (n <=? 90) then Some (Z.of_nat n - 55)%Z
  else None.

(** The longest prefix of digits of the radix, as a number; [None] when
    there is no digit. *)
Fixpoint parseDigits (radix : Z) (s : String.string) (value : option Z) : option Z :=
  match s with
  | String.EmptyString => value
  | String.String c s' =>
      match digitValue c with
      | Some d =>
          if (d <? radix)%Z
          then parseDigits radix s' (Some (default 0%Z value * radix + d)%Z)
          else value
      | None => value
      end
  end.

(** [parseInt(x)] with no radix given: white space skipped, a sign, the
    prefix [0x] or [0X] for radix 16, then digits; [None] is [NaN].  The
    program only compares the result with small integers. *)
Definition parseInt (x : String.string) : option Z :=
  let s := trimStart x in
  let '(sign, s) :=
    match s with
    | String.String "-"%char rest => ((-1)%Z, rest)
    | String.String "+"%char rest => (1%Z, rest)
    | _ => (1%Z, s)
    end in
  let '(radix, s) :=
    match s with
    | String.String "0"%char (String.String "x"%char rest) => (16%Z, rest)
    | String.String "0"%char (String.String "X"%char rest) => (16%Z, rest)
    | _ => (10%Z, s)
    end in
  match parseDigits radix s None with
  | Some n => Some (sign * n)%Z
  | None => None
  end.

(** Why [parseInputFile] returns [null]: the data of the message it logs. *)
Inductive ParseError : Type :=
| WrongNumberCount (count : nat) (line : nat)
| IllegalValue (line : nat)
| WrongLineCount (count : nat).

(** The arrays [parseInputFile] fills and its two line counters. *)
Record ParseState : Type := mkParseState {
  ps_row_projection : list Z;
  ps_column_projection : list Z;
  ps_raw_diagram : list (list TileType);
  ps_number_of_lines : nat;
  ps_number_of_nonempty_lines : nat
}.

(** The loop over [i] of [parseInputFile]: check a value, then store it. *)
Fixpoint storeValues (values : list (option Z)) (i : nat) (ps : ParseState)
    : ParseError + ParseState :=
  match values with
  | [] => inr ps
  | value :: rest =>
      let nonempty := ps_number_of_nonempty_lines ps in
      match value with
      | None => inl (IllegalValue (ps_number_of_lines ps))
      | Some v =>
          if (v <? 0)%Z ||
             (v >? (if (nonempty <=? 2)%nat then RAW_SIDE_LENGTH else NUMBER_OF_TILE_TYPES - 1))%Z
          then inl (IllegalValue (ps_number_of_lines ps))
          else
            storeValues rest (S i)
              (if nonempty =? 1 then
                 mkParseState (<[i := v]> (ps_row_projection ps)) (ps_column_projection ps)
                   (ps_raw_diagram ps) (ps_number_of_lines ps) nonempty
               else if nonempty =? 2 then
                 mkParseState (ps_row_projection ps) (<[i := v]> (ps_column_projection ps))
                   (ps_raw_diagram ps) (ps_number_of_lines ps) nonempty
               else if (2 <? nonempty) && (nonempty <=? Z.to_nat RAW_SIDE_LENGTH + 2) then
                 mkParseState (ps_row_projection ps) (ps_column_projection ps)
                   (alter (fun row => <[i := getTileType v]> row) (nonempty - 3)
                      (ps_raw_diagram ps))
                   (ps_number_of_lines ps) nonempty
               else ps)
      end
  end.

(** The loop over the lines. *)
Fixpoint parseLines (lines : list String.string) (ps : ParseState)
    : ParseError + ParseState :=
  match lines with
  | [] => inr ps
  | line :: rest =>
      let trimmed_line := trim line in
      let number_of_lines := S (ps_number_of_lines ps) in
      if bool_decide (trimmed_line = String.EmptyString) then
        parseLines rest
          (mkParseState (ps_row_projection ps) (ps_column_projection ps) (ps_raw_diagram ps)
             number_of_lines (ps_number_of_nonempty_lines ps))
      else
        let number_of_nonempty_lines := S (ps_number_of_nonempty_lines ps) in
        let values := map parseInt (split trimmed_line) in
        if negb (length values =? Z.to_nat RAW_SIDE_LENGTH)
        then inl (WrongNumberCount (length values) number_of_lines)
        else
          match storeValues values 0
                  (mkParseState (ps_row_projection ps) (ps_column_projection ps)
                     (ps_raw_diagram ps) number_of_lines number_of_nonempty_lines) with
          | inl error => inl error
          | inr ps' => parseLines rest ps'
          end
  end.

(** [parseInputFile], from the lines [readInputFile] returned. *)
Definition parseInputFile (lines : list String.string)
    : ParseError + (list Z * list Z * list (list TileType)) :=
  match parseLines lines
          (mkParseState (replicate (Z.to_nat RAW_SIDE_LENGTH) 0%Z)
             (replicate (Z.to_nat RAW_SIDE_LENGTH) 0%Z)
             (replicate (Z.to_nat RAW_SIDE_LENGTH)
                (replicate (Z.to_nat RAW_SIDE_LENGTH) EMPTY_SPACE)) 0 0) with
  | inl error => inl error
  | inr ps =>
      if negb (ps_number_of_nonempty_lines ps =? Z.to_nat RAW_SIDE_LENGTH + 2)
      then inl (WrongLineCount (ps_number_of_nonempty_lines ps))
      else inr (ps_row_projection ps, ps_column_projection ps, ps_raw_diagram ps)
  end.

(** ** Output picture *)

(** The character [getAsciiDiagram] pushes for a tile. *)
Definition tileString (t : TileType) : String.string :=
  match t with
  | EMPTY_SPACE => "-"%string
  | TREASURE => "T"%string
  | MONSTER => "M"%string
  | WALL => "#"%string
  end.

(** The line break of [result.join('\n')]. *)
Definition newline : String.string := String.String "010"%char String.EmptyString.

(** The loop over [y] of [getAsciiDiagram]: [diagram[x][y]] that is
    [undefined] falls to the [default] of the [switch] and pushes nothing. *)
Fixpoint renderRow (diagram : Diagram) (x : Z) (ys : list Z) (line : list String.string)
    : outcome (list String.string) :=
  match ys with
  | [] => Ret line
  | y :: rest =>
      let* c := readTile diagram x y in
      renderRow diagram x rest
        (match c with
         | Tile t => line ++ [tileString t]
         | Undefined => line
         end)
  end.

(** The loop over [x] of [getAsciiDiagram]. *)
Fixpoint renderRows (diagram : Diagram) (xs ys : list Z) (result : list String.string)
    : outcome (list String.string) :=
  match xs with
  | [] => Ret result
  | x :: rest =>
      let* line := renderRow diagram x ys [] in
      renderRows diagram rest ys (result ++ [String.concat ""%string line])
  end.

(** [getAsciiDiagram] *)
Definition getAsciiDiagram (diagram : Diagram) (is_render_all : bool) : outcome String.string :=
  let start := if is_render_all then 0%Z else 1%Z in
  let end_ := if is_render_all then SIDE_LENGTH else (SIDE_LENGTH - 1)%Z in
  let indices := map (fun i => (start + Z.of_nat i)%Z) (seq 0 (Z.to_nat (end_ - start))) in
  let* result := renderRows diagram indices indices [] in
  Ret (String.concat newline result).

(** ** Main program *)

(** How the main program ends: with one of its three messages. *)
Inductive MainResult : Type :=
| FailedToParse (error : ParseError)
| FailedToFind
| Succeeded (ascii_diagram : String.string).

(** The main program, from the lines of the input file to the picture it
    logs and writes to the output file. *)
Definition mainProgram (fuel : nat) (lines : list String.string) : outcome MainResult :=
  match parseInputFile lines with
  | inl error => Ret (FailedToParse error)
  | inr (row_projection, column_projection, raw_diagram) =>
      let* '(found, st) := solve fuel row_projection column_projection raw_diagram in
      if negb found then Ret FailedToFind
      else
        let* ascii_diagram := getAsciiDiagram (st_diagram st) false in
        Ret (Succeeded ascii_diagram)
  end.

(** ** Reference notions used to state the properties *)

(** *** Combinations *)

(** The enumeration the specification describes, in its order: at each index
    first the subsets that include it, then those that skip it.
    [subsetsFrom m k step] lists the size-[m] subsets of
    [{step, ..., step + k - 1}]. *)
Fixpoint subsetsFrom (m k step : nat) {struct k} : list (list nat) :=
  match m with
  | O => [[]]
  | S m' =>
      match k with
      | O => []
      | S k' => map (cons step) (subsetsFrom m' k' (S step)) ++ subsetsFrom m k' (S step)
      end
  end.

(** The binomial coefficient C(n, m), by Pascal's rule. *)
Fixpoint binomial (n m : nat) : nat :=
  match n, m with
  | _, O => 1
  | O, S _ => 0
  | S n', S m' => binomial n' m' + binomial n' m
  end.

(** *** Tiles of a diagram *)

#[global] Instance outcome_eq_dec {A : Type} `{EqDecision A} : EqDecision (outcome A).
Proof. solve_decision. Defined.

(** A diagram of the shape its type promises: ten rows of ten tiles. *)
Definition wf_diagram (diagram : Diagram) : Prop :=
  length diagram = 10 /\ Forall (fun row => length row = 10) diagram.

(** Every tile that is not a Wall lies in the interior: the border is Wall. *)
Definition wallBordered (diagram : list (list TileType)) : Prop :=
  forall x y t,
    readTile diagram x y = Ret (Tile t) -> t <> WALL ->
    (1 <= x <= 8)%Z /\ (1 <= y <= 8)%Z.

(** A coordinate of the interior. *)
Definition interior (coord : Coordinate) : Prop :=
  (1 <= coord_x coord <= 8)%Z /\ (1 <= coord_y coord <= 8)%Z.

(** The tile at a coordinate is [t]. *)
Definition tileIs (diagram : Diagram) (t : TileType) (coord : Coordinate) : Prop :=
  readTile diagram (coord_x coord) (coord_y coord) = Ret (Tile t).

#[global] Instance tileIs_dec (diagram : Diagram) (t : TileType) (coord : Coordinate) :
  Decision (tileIs diagram t coord).
Proof. unfold tileIs. apply _. Defined.

(** A tile that can be read, whatever it holds. *)
Definition readable (diagram : list (list TileType)) (coord : Coordinate) : Prop :=
  exists c, readTile diagram (coord_x coord) (coord_y coord) = Ret c.

(** How many of the coordinates hold a tile [t]. *)
Definition countTiles (diagram : Diagram) (t : TileType) (coords : list Coordinate) : nat :=
  length (filter (tileIs diagram t) coords).

(** Walls of the interior in a row, or a column, of the diagram. *)
Definition wallsInRow (diagram : list (list TileType)) (x : Z) : nat :=
  countTiles diagram WALL (map (fun y => mkCoord x y) interior_indices).

Definition wallsInColumn (diagram : list (list TileType)) (y : Z) : nat :=
  countTiles diagram WALL (map (fun x => mkCoord x y) interior_indices).

(** The interior cells of row [x], and of column [y]. *)
Definition rowCoords (x : Z) : list Coordinate := map (fun y => mkCoord x y) interior_indices.
Definition columnCoords (y : Z) : list Coordinate := map (fun x => mkCoord x y) interior_indices.

(** What a write of [t] makes of the result of reading the written cell. *)
Definition overwritten (t : TileType) (o : outcome cell) : outcome cell :=
  match o with
  | Ret (Tile _) => Ret (Tile t)
  | _ => o
  end.

(** *** Hallways and rooms *)

(** A tile of the 3x3 room whose top-left corner is [lt_coord]: at most two
    rows below the corner and at most two columns to its right. *)
Definition inBlock (lt_coord : Coordinate) (x y : Z) : Prop :=
  (coord_x lt_coord <= x <= coord_x lt_coord + 2)%Z /\
  (coord_y lt_coord <= y <= coord_y lt_coord + 2)%Z.

(** An open tile for the hallway rule: Empty and outside the 3x3 room of
    every committed corner. *)
Definition openAt (diagram : Diagram) (treasure_room_lt_coords : list Coordinate)
    (x y : Z) : Prop :=
  readTile diagram x y = Ret (Tile EMPTY_SPACE) /\
  forall lt_coord, lt_coord ∈ treasure_room_lt_coords -> ~ inBlock lt_coord x y.

(** An axis-aligned 2x2 block of open tiles, named by its top-left corner. *)
Definition openBlock (diagram : Diagram) (treasure_room_lt_coords : list Coordinate) : Prop :=
  exists x y : Z,
    openAt diagram treasure_room_lt_coords x y /\
    openAt diagram treasure_room_lt_coords (x + 1) y /\
    openAt diagram treasure_room_lt_coords x (y + 1) /\
    openAt diagram treasure_room_lt_coords (x + 1) (y + 1).

(** The test of [checkHallways] on a tile. *)
Definition openb (diagram : Diagram) (treasure_room_lt_coords : list Coordinate)
    (x y : Z) : bool :=
  match readTile diagram x y with
  | Ret c => cell_is EMPTY_SPACE c && negb (isContainedByTRoom x y treasure_room_lt_coords)
  | _ => false
  end.

(** One of the four corner groups around [(x, y)] is entirely open. *)
Definition cornerOpen (diagram : Diagram) (treasure_room_lt_coords : list Coordinate)
    (x y : Z) : bool :=
  let o := openb diagram treasure_room_lt_coords in
  (o (x - 1) (y - 1) && o x (y - 1) && o (x - 1) y)%Z ||
  (o x (y - 1) && o (x + 1) (y - 1) && o (x + 1) y)%Z ||
  (o (x + 1) y && o (x + 1) (y + 1) && o x (y + 1))%Z ||
  (o x (y + 1) && o (x - 1) (y + 1) && o (x - 1) y)%Z.

(** What makes a top-left corner a valid room for [checkTreasureRooms]. *)
Definition validRoom (diagram : list (list TileType)) (lt_coord : Coordinate) : Prop :=
  isTRoomLTCoordAvailable (coord_x lt_coord) (coord_y lt_coord) = true /\
  countTiles diagram EMPTY_SPACE (getTRoomTileCoords (coord_x lt_coord) (coord_y lt_coord)) = 8 /\
  countTiles diagram TREASURE (getTRoomTileCoords (coord_x lt_coord) (coord_y lt_coord)) = 1 /\
  countTiles diagram WALL (getTRoomOuterTileCoords (coord_x lt_coord) (coord_y lt_coord)) = 11.

(** *** States of the search *)

(** Walls placed, or removed, on a list of coordinates, first to last. *)
Definition placeAll (coords : list Coordinate) (st : State) : State :=
  fold_left placeWall coords st.

Definition removeAll (coords : list Coordinate) (st : State) : State :=
  fold_left removeWall coords st.

(** The coordinates a list of indices selects in an array of coordinates. *)
Definition selects (array : list Coordinate) (indices : list nat)
    (coords : list Coordinate) : Prop :=
  Forall2 (fun index coord => array !! index = Some coord) indices coords.

(** A recursive call that leaves the state it was given whenever it returns
    false. *)
Definition restoresOnFalse (rec : State -> outcome (bool * State)) : Prop :=
  forall st st', rec st = Ret (false, st') -> st' = st.

(** The outcome is a normal return of true. *)
Definition returnsTrue (o : outcome (bool * State)) : bool :=
  match o with
  | Ret (true, _) => true
  | _ => false
  end.

(** The state a call leaves when it returns. *)
Definition finalState (o : outcome (bool * State)) : State :=
  match o with
  | Ret (_, st) => st
  | _ => mkState [] [] [] [] [] []
  end.

(** A monster, or treasure, that the phases of [dfs] pass over: its tile is
    not the fixed tile any more, or its id is in the handled list. *)
Definition passedOver (t : TileType) (handled_ids : list Z) (diagram : list (list TileType))
    (coord : Coordinate) : Prop :=
  exists c, readTile diagram (coord_x coord) (coord_y coord) = Ret c /\
            cell_is t c && negb (includes (getHashId (coord_x coord) (coord_y coord)) handled_ids)
            = false.

(** *** The counters as counts of placed walls *)

(** Each counter is the number of walls in its row, or column, of the interior
    beyond those the board [initial] started with. *)
Definition countersTrack (initial : list (list TileType)) (st : State) : Prop :=
  length (st_cur_row_projection st) = 8 /\
  length (st_cur_column_projection st) = 8 /\
  Forall (fun i : nat =>
            Z.of_nat (wallsInRow (st_diagram st) (Z.of_nat i + 1)) =
              (getNum (st_cur_row_projection st) (Z.of_nat i) +
               Z.of_nat (wallsInRow initial (Z.of_nat i + 1)))%Z /\
            Z.of_nat (wallsInColumn (st_diagram st) (Z.of_nat i + 1)) =
              (getNum (st_cur_column_projection st) (Z.of_nat i) +
               Z.of_nat (wallsInColumn initial (Z.of_nat i + 1)))%Z)
         (seq 0 8).

(** No counter exceeds its target. *)
Definition withinTargets (row_projection column_projection : list Z) (st : State) : Prop :=
  Forall (fun i : nat =>
            (getNum (st_cur_row_projection st) (Z.of_nat i) <=
               getNum row_projection (Z.of_nat i))%Z /\
            (getNum (st_cur_column_projection st) (Z.of_nat i) <=
               getNum column_projection (Z.of_nat i))%Z)
         (seq 0 8).

Definition searchInvariant (initial : list (list TileType))
    (row_projection column_projection : list Z) (st : State) : Prop :=
  countersTrack initial st /\ withinTargets row_projection column_projection st.

(** A state in which the search may stop: the invariant holds and the
    counters equal the projections. *)
Definition solvedState (initial : list (list TileType))
    (row_projection column_projection : list Z) (st : State) : Prop :=
  searchInvariant initial row_projection column_projection st /\
  isSatisfiedProjections (st_cur_row_projection st) (st_cur_column_projection st)
    row_projection column_projection = true.

(** A recursive call that, entered with the invariant, returns true only in
    such a state. *)
Definition solvesOnTrue (initial : list (list TileType))
    (row_projection column_projection : list Z)
    (rec : State -> outcome (bool * State)) : Prop :=
  forall st st',
    searchInvariant initial row_projection column_projection st ->
    rec st = Ret (true, st') ->
    solvedState initial row_projection column_projection st'.

(** *** The flood fill *)

(** A set of coordinates that the flood fill cannot leave: it contains every
    passable neighbour of each of its members. *)
Definition closedUnder (passable : cell -> bool) (diagram : list (list TileType))
    (S : Coordinate -> Prop) : Prop :=
  forall c c' cl,
    S c -> c' ∈ get4DirectionCoords (coord_x c) (coord_y c) ->
    readTile diagram (coord_x c') (coord_y c') = Ret cl -> passable cl = true ->
    S c'.

(** Every key of the colour set is the id of a member of [S]. *)
Definition colouredWithin (S : Coordinate -> Prop) (color_set : gmap Z Z) : Prop :=
  forall hash_id,
    is_Some (color_set !! hash_id) ->
    exists c, S c /\ getHashId (coord_x c) (coord_y c) = hash_id.

(** A seed that passes the test [is_seed] has the id of a member of [S]. *)
Definition seedWithin (is_seed : cell -> bool) (diagram : list (list TileType))
    (S : Coordinate -> Prop) (seed : Coordinate) : Prop :=
  forall cl,
    readTile diagram (coord_x seed) (coord_y seed) = Ret cl -> is_seed cl = true ->
    exists c, S c /\ getHashId (coord_x c) (coord_y c) = getHashId (coord_x seed) (coord_y seed).

(** *** A monster next to a treasure or a monster *)

(** The situation in which the monster phase gives up: every treasure is
    handled, and the monster [m], not yet handled, has the neighbour [n] that
    holds a Monster or a Treasure. *)
Definition stuckMonster (treasure_coords monster_coords : list Coordinate)
    (m n : Coordinate) (st : State) : Prop :=
  wf_diagram (st_diagram st) /\
  wallBordered (st_diagram st) /\
  Forall (passedOver TREASURE (st_handled_treasure_ids st) (st_diagram st)) treasure_coords /\
  length (st_handled_treasure_ids st) = length treasure_coords /\
  tileIs (st_diagram st) MONSTER m /\
  includes (getHashId (coord_x m) (coord_y m)) (st_handled_monster_ids st) = false /\
  ((tileIs (st_diagram st) MONSTER n /\ n ∈ monster_coords) \/
   (tileIs (st_diagram st) TREASURE n /\ n ∈ treasure_coords)).

(** A state in which a third monster is connected to the others. *)
Definition connectedMonster (treasure_coords monster_coords : list Coordinate)
    (m n : Coordinate) (st : State) : Prop :=
  exists fuel other,
    other ∈ monster_coords /\ tileIs (st_diagram st) MONSTER other /\
    other <> m /\ other <> n /\
    checkTreasuresAndMonstersConnectivity fuel treasure_coords monster_coords
      (st_diagram st) = Ret true.

(** A recursive call that fails on every state of that kind. *)
Definition failsWhenStuck (treasure_coords monster_coords : list Coordinate)
    (m n : Coordinate) (rec : State -> outcome (bool * State)) : Prop :=
  forall st b st',
    stuckMonster treasure_coords monster_coords m n st ->
    connectedMonster treasure_coords monster_coords m n st ->
    rec st = Ret (b, st') -> b = false.

(** ** Example puzzles *)

(** A tile map written as in an input file: 0 Empty, 1 Treasure, 2 Monster,
    3 Wall. *)
Definition raw_of (rows : list (list Z)) : list (list TileType) :=
  map (map getTileType) rows.

Definition zero_projection : list Z := replicate 8 0%Z.

(** No treasure, no monster, no wall. *)
Definition raw_empty : list (list TileType) := replicate 8 (replicate 8 EMPTY_SPACE).

(** Walls everywhere. *)
Definition raw_walls : list (list TileType) := replicate 8 (replicate 8 WALL).

(** The ring puzzle: a one-tile-wide corridor around a 6x6 block of walls. *)
Definition ring_projection : list Z := [0; 6; 6; 6; 6; 6; 6; 0]%Z.

(** The ring puzzle with one wall of the block already on the board, and the
    projections lowered by the one wall they no longer ask for. *)
Definition raw_one_wall : list (list TileType) :=
  raw_of ([ [0;0;0;0;0;0;0;0];
           [0;3;0;0;0;0;0;0];
           [0;0;0;0;0;0;0;0];
           [0;0;0;0;0;0;0;0];
           [0;0;0;0;0;0;0;0];
           [0;0;0;0;0;0;0;0];
           [0;0;0;0;0;0;0;0];
           [0;0;0;0;0;0;0;0] ])%Z.

Definition ring_projection_less_one : list Z := [0; 5; 6; 6; 6; 6; 6; 0]%Z.


(** A treasure room in the top-left corner whose only opening is the ring
    tile below its first column; walls everywhere else. *)
Definition raw_room : list (list TileType) :=
  raw_of ([ [0;0;0;3;3;3;3;3];
           [0;1;0;3;3;3;3;3];
           [0;0;0;3;3;3;3;3];
           [0;3;3;3;3;3;3;3];
           [3;3;3;3;3;3;3;3];
           [3;3;3;3;3;3;3;3];
           [3;3;3;3;3;3;3;3];
           [3;3;3;3;3;3;3;3] ])%Z.

(** The same room with its opening walled: all twelve ring tiles are Wall. *)
Definition raw_room_closed : list (list TileType) :=
  raw_of ([ [0;0;0;3;3;3;3;3];
           [0;1;0;3;3;3;3;3];
           [0;0;0;3;3;3;3;3];
           [3;3;3;3;3;3;3;3];
           [3;3;3;3;3;3;3;3];
           [3;3;3;3;3;3;3;3];
           [3;3;3;3;3;3;3;3];
           [3;3;3;3;3;3;3;3] ])%Z.

(** A 3x3 block with its treasure in the corner, so that the block holds a
    2x2 block of Empty tiles; walls everywhere else but the opening. *)
Definition raw_corner_treasure : list (list TileType) :=
  raw_of ([ [1;0;0;3;3;3;3;3];
           [0;0;0;3;3;3;3;3];
           [0;0;0;3;3;3;3;3];
           [0;3;3;3;3;3;3;3];
           [3;3;3;3;3;3;3;3];
           [3;3;3;3;3;3;3;3];
           [3;3;3;3;3;3;3;3];
           [3;3;3;3;3;3;3;3] ])%Z.

(** Two monsters side by side in a pocket of walls. *)
Definition raw_two_monsters : list (list TileType) :=
  raw_of ([ [2;2;3;3;3;3;3;3];
           [3;3;3;3;3;3;3;3];
           [3;3;3;3;3;3;3;3];
           [3;3;3;3;3;3;3;3];
           [3;3;3;3;3;3;3;3];
           [3;3;3;3;3;3;3;3];
           [3;3;3;3;3;3;3;3];
           [3;3;3;3;3;3;3;3] ])%Z.

(** A treasure room whose opening is a monster standing next to the treasure. *)
Definition raw_monster_door : list (list TileType) :=
  raw_of ([ [0;0;0;3;3;3;3;3];
           [0;0;0;3;3;3;3;3];
           [1;0;0;3;3;3;3;3];
           [2;3;3;3;3;3;3;3];
           [3;3;3;3;3;3;3;3];
           [3;3;3;3;3;3;3;3];
           [3;3;3;3;3;3;3;3];
           [3;3;3;3;3;3;3;3] ])%Z.

(** One treasure, at row 2 and column 2 of the diagram. *)
Definition raw_treasure : list (list TileType) :=
  raw_of ([ [0;0;0;0;0;0;0;0];
           [0;1;0;0;0;0;0;0];
           [0;0;0;0;0;0;0;0];
           [0;0;0;0;0;0;0;0];
           [0;0;0;0;0;0;0;0];
           [0;0;0;0;0;0;0;0];
           [0;0;0;0;0;0;0;0];
           [0;0;0;0;0;0;0;0] ])%Z.

Definition treasure_projection : list Z := [1; 1; 1; 3; 0; 0; 0; 0]%Z.

(** The state in which the treasure phase makes its first recursive call on
    that puzzle: the room at (1, 1) committed, five of the six Empty tiles of
    its ring walled, the ring tile (4, 1) left open. *)
Definition treasure_committed : State :=
  mkState
    (augmentRawDiagram
       (raw_of ([ [0;0;0;3;0;0;0;0];
                 [0;1;0;3;0;0;0;0];
                 [0;0;0;3;0;0;0;0];
                 [0;3;3;0;0;0;0;0];
                 [0;0;0;0;0;0;0;0];
                 [0;0;0;0;0;0;0;0];
                 [0;0;0;0;0;0;0;0];
                 [0;0;0;0;0;0;0;0] ])%Z))
    [1; 1; 1; 2; 0; 0; 0; 0]%Z [0; 1; 1; 3; 0; 0; 0; 0]%Z [202%Z] [] [mkCoord 1 1].

(** Three monsters: one in the corner, and two side by side further in. *)
Definition raw_three_monsters : list (list TileType) :=
  raw_of ([ [2;0;0;0;0;0;0;0];
           [0;0;0;0;0;0;0;0];
           [0;0;2;2;0;0;0;0];
           [0;0;0;0;0;0;0;0];
           [0;0;0;0;0;0;0;0];
           [0;0;0;0;0;0;0;0];
           [0;0;0;0;0;0;0;0];
           [0;0;0;0;0;0;0;0] ])%Z.

Definition three_monsters_rows : list Z := [1; 1; 0; 0; 0; 0; 0; 0]%Z.
Definition three_monsters_columns : list Z := [0; 1; 0; 0; 0; 0; 0; 0]%Z.

(** ** Reference notions for the parser, the validators and the search *)

(** *** Paths of the flood fill *)

(** A cell whose tile passes the test of the flood fill. *)
Definition passableAt (passable : cell -> bool) (diagram : list (list TileType))
    (c : Coordinate) : Prop :=
  exists cl, readTile diagram (coord_x c) (coord_y c) = Ret cl /\ passable cl = true.

(** A move of the flood fill: to a cardinal neighbour that passes the test. *)
Definition fillStep (passable : cell -> bool) (diagram : list (list TileType))
    (c c' : Coordinate) : Prop :=
  c' ∈ get4DirectionCoords (coord_x c) (coord_y c) /\ passableAt passable diagram c'.

(** Two cells joined by a path of such moves. *)
Definition joined (passable : cell -> bool) (diagram : list (list TileType))
    : Coordinate -> Coordinate -> Prop :=
  rtc (fillStep passable diagram).

(** Any two of the coordinates that pass the test are joined. *)
Definition allJoined (passable : cell -> bool) (diagram : list (list TileType))
    (coords : list Coordinate) : Prop :=
  forall c c',
    c ∈ coords -> c' ∈ coords ->
    passableAt passable diagram c -> passableAt passable diagram c' ->
    joined passable diagram c c'.

(** The interior cells the flood fill has not coloured yet. *)
Definition uncoloured (color_set : gmap Z Z) : nat :=
  length (filter (fun c => inColorSet (getHashId (coord_x c) (coord_y c)) color_set = false)
            interior_coords).

(** Coloured cells have their passable neighbours coloured or queued. *)
Definition closedSoFar (passable : cell -> bool) (diagram : list (list TileType))
    (queue : list Coordinate) (color_set : gmap Z Z) : Prop :=
  forall c c',
    interior c -> is_Some (color_set !! getHashId (coord_x c) (coord_y c)) ->
    fillStep passable diagram c c' ->
    is_Some (color_set !! getHashId (coord_x c') (coord_y c')) \/ c' ∈ queue.

(** *** Raw diagrams and interiors *)

(** A raw diagram of the shape its type promises: eight rows of eight tiles. *)
Definition wf_raw (raw_diagram : list (list TileType)) : Prop :=
  length raw_diagram = 8 /\ Forall (fun row => length row = 8) raw_diagram.

(** The interior of a diagram: rows and columns 1 to 8. *)
Definition interiorOf (diagram : list (list TileType)) : list (list TileType) :=
  map (fun row => take 8 (drop 1 row)) (take 8 (drop 1 diagram)).

(** *** Solved grids *)

(** A coordinate at which the diagram holds a tile. *)
Definition hasTile (diagram : list (list TileType)) (c : Coordinate) : Prop :=
  exists t, tileIs diagram t c.

(** A tile of the room of one of the treasures: of a valid 3x3 block around
    a coordinate of [treasure_coords] that holds a Treasure. *)
Definition inRoom (diagram : list (list TileType)) (treasure_coords : list Coordinate)
    (c : Coordinate) : Prop :=
  exists tc lt,
    tc ∈ treasure_coords /\ tileIs diagram TREASURE tc /\
    lt ∈ getTRoomLTCoords (coord_x tc) (coord_y tc) /\ validRoom diagram lt /\
    c ∈ getTRoomTileCoords (coord_x lt) (coord_y lt).

(** A hallway tile: Empty and outside the rooms. *)
Definition hallwayTile (diagram : list (list TileType)) (treasure_coords : list Coordinate)
    (c : Coordinate) : Prop :=
  tileIs diagram EMPTY_SPACE c /\ ~ inRoom diagram treasure_coords c.

(** The rules a solved grid obeys, as [isSolved] checks them. *)
Definition solvedGrid (treasure_coords monster_coords : list Coordinate)
    (diagram : list (list TileType)) : Prop :=
  (forall c c', tileIs diagram EMPTY_SPACE c -> tileIs diagram EMPTY_SPACE c' ->
                joined (cell_is EMPTY_SPACE) diagram c c') /\
  (forall tc, tc ∈ treasure_coords -> tileIs diagram TREASURE tc ->
              exists lt, lt ∈ getTRoomLTCoords (coord_x tc) (coord_y tc) /\
                         validRoom diagram lt) /\
  (forall mc, mc ∈ monster_coords ->
              countTiles diagram WALL (get4DirectionCoords (coord_x mc) (coord_y mc)) = 3) /\
  (forall c, tileIs diagram EMPTY_SPACE c ->
             countTiles diagram WALL (get4DirectionCoords (coord_x c) (coord_y c)) <> 3) /\
  ~ (exists x y : Z,
       hallwayTile diagram treasure_coords (mkCoord x y) /\
       hallwayTile diagram treasure_coords (mkCoord (x + 1) y) /\
       hallwayTile diagram treasure_coords (mkCoord x (y + 1)) /\
       hallwayTile diagram treasure_coords (mkCoord (x + 1) (y + 1))).

(** *** Committed moves of the search *)

(** One committed move of the search, from the state a call of [dfs] was
    entered with to the state of its recursive call: the room of a treasure
    with the other Empty tiles of its ring walled, a monster with the other
    Empty tiles around it walled, or a combination of walls in a row. *)
Inductive commits (treasure_coords monster_coords : list Coordinate) (st : State)
    : State -> Prop :=
| commits_treasure (tc lt : Coordinate) (placed : list Coordinate) :
    tc ∈ treasure_coords ->
    tileIs (st_diagram st) TREASURE tc ->
    includes (getHashId (coord_x tc) (coord_y tc)) (st_handled_treasure_ids st) = false ->
    lt ∈ getTRoomLTCoords (coord_x tc) (coord_y tc) ->
    Forall (tileIs (st_diagram st) EMPTY_SPACE) placed ->
    commits treasure_coords monster_coords st
      (pushTreasure (getHashId (coord_x tc) (coord_y tc)) lt (placeAll placed st))
| commits_monster (mc : Coordinate) (placed : list Coordinate) :
    mc ∈ monster_coords ->
    tileIs (st_diagram st) MONSTER mc ->
    includes (getHashId (coord_x mc) (coord_y mc)) (st_handled_monster_ids st) = false ->
    Forall (tileIs (st_diagram st) EMPTY_SPACE) placed ->
    commits treasure_coords monster_coords st
      (pushMonster (getHashId (coord_x mc) (coord_y mc)) (placeAll placed st))
| commits_walls (placed : list Coordinate) :
    placed <> [] ->
    Forall (tileIs (st_diagram st) EMPTY_SPACE) placed ->
    commits treasure_coords monster_coords st (placeAll placed st).

(** A recursive call that returns true only at the end of a chain of
    committed moves, in a state that satisfies the projections and passes
    [isSolved]. *)
Definition acceptedState (row_projection column_projection : list Z)
    (treasure_coords monster_coords : list Coordinate) (fuel : nat) (st : State) : Prop :=
  isSatisfiedProjections (st_cur_row_projection st) (st_cur_column_projection st)
    row_projection column_projection = true /\
  exists fuel', fuel' <= fuel /\
    isSolved fuel' treasure_coords monster_coords (st_diagram st) = Ret true.

Definition chainsOnTrue (row_projection column_projection : list Z)
    (treasure_coords monster_coords : list Coordinate) (fuel : nat)
    (rec : State -> outcome (bool * State)) : Prop :=
  forall st st',
    rec st = Ret (true, st') ->
    rtc (commits treasure_coords monster_coords) st st' /\
    acceptedState row_projection column_projection treasure_coords monster_coords fuel st'.

(** A recursive call that returns whatever another one returns. *)
Definition extendsRec (rec rec' : State -> outcome (bool * State)) : Prop :=
  forall st r, rec st = Ret r -> rec' st = Ret r.

(** The second diagram is the first with walls on some of its Empty tiles. *)
Definition wallsAdded (diagram diagram' : list (list TileType)) : Prop :=
  forall x y,
    readTile diagram' x y = readTile diagram x y \/
    (readTile diagram x y = Ret (Tile EMPTY_SPACE) /\
     readTile diagram' x y = Ret (Tile WALL)).

(** *** Termination of the search *)

(** The coordinates whose id is not in a handled list. *)
Definition unhandled (coords : list Coordinate) (handled_ids : list Z) : nat :=
  length (filter (fun c => includes (getHashId (coord_x c) (coord_y c)) handled_ids = false)
            coords).

(** What bounds the depth of the search: the treasures and monsters still to
    handle, and the Empty tiles of the interior. *)
Definition searchMeasure (treasure_coords monster_coords : list Coordinate)
    (st : State) : nat :=
  unhandled treasure_coords (st_handled_treasure_ids st) +
  unhandled monster_coords (st_handled_monster_ids st) +
  countTiles (st_diagram st) EMPTY_SPACE interior_coords.

(** A state of the shape the main program starts from: a wall-bordered 10x10
    diagram and eight counters for the rows and for the columns. *)
Definition goodState (st : State) : Prop :=
  wf_diagram (st_diagram st) /\ wallBordered (st_diagram st) /\
  length (st_cur_row_projection st) = 8 /\ length (st_cur_column_projection st) = 8.

(** A recursive call that returns on every such state below a bound. *)
Definition returnsBelow (treasure_coords monster_coords : list Coordinate) (bound : nat)
    (rec : State -> outcome (bool * State)) : Prop :=
  forall st,
    goodState st -> searchMeasure treasure_coords monster_coords st < bound ->
    exists b st', rec st = Ret (b, st').

(** The rows and columns of the grid hold as many walls beyond those of the
    input as the projections say. *)
Definition projectionsMet (row_projection column_projection : list Z)
    (initial diagram : list (list TileType)) : Prop :=
  forall i : nat,
    i < 8 ->
    Z.of_nat (wallsInRow diagram (Z.of_nat i + 1)) =
      (getNum row_projection (Z.of_nat i) +
       Z.of_nat (wallsInRow initial (Z.of_nat i + 1)))%Z /\
    Z.of_nat (wallsInColumn diagram (Z.of_nat i + 1)) =
      (getNum column_projection (Z.of_nat i) +
       Z.of_nat (wallsInColumn initial (Z.of_nat i + 1)))%Z.

(** *** Pictures and input files *)

(** The picture of a grid: its rows, one character per tile, joined by line
    breaks. *)
Definition asciiOf (rows : list (list TileType)) : String.string :=
  String.concat newline (map (fun row => String.concat ""%string (map tileString row)) rows).

(** A line that [parseInputFile] skips. *)
Definition blankLine (line : String.string) : Prop := trim line = String.EmptyString.

#[global] Instance blankLine_dec (line : String.string) : Decision (blankLine line).
Proof. unfold blankLine. apply _. Defined.

(** Projections and a raw diagram as a valid input file describes them. *)
Definition wf_projection (projection : list Z) : Prop :=
  length projection = 8 /\ Forall (fun v => (0 <= v <= 8)%Z) projection.

Definition wf_parse_state (ps : ParseState) : Prop :=
  wf_projection (ps_row_projection ps) /\ wf_projection (ps_column_projection ps) /\
  wf_raw (ps_raw_diagram ps).

(** What a parse state holds besides the count of all lines, which only
    appears in messages. *)
Definition dataOf (ps : ParseState) : list Z * list Z * list (list TileType) * nat :=
  (ps_row_projection ps, ps_column_projection ps, ps_raw_diagram ps,
   ps_number_of_nonempty_lines ps).

(** Two runs that both fail, or both succeed with related results. *)
Definition sameResult {A : Type} (R : A -> A -> Prop) (x y : ParseError + A) : Prop :=
  match x, y with
  | inr a, inr b => R a b
  | inl _, inl _ => True
  | _, _ => False
  end.

(** The lines that count: the non-blank ones, without the white space around
    them. *)
Definition contentOf (lines : list String.string) : list String.string :=
  map trim (filter (fun l => ~ blankLine l) lines).

(** The number of a tile in [enum TileType]. *)
Definition tileValue (t : TileType) : Z :=
  match t with
  | EMPTY_SPACE => 0%Z
  | TREASURE => 1%Z
  | MONSTER => 2%Z
  | WALL => 3%Z
  end.

(** A puzzle written as the README describes an input file: ten lines of
    eight one-digit numbers, separated by one space. *)
Definition digitChar (v : Z) : Ascii.ascii := Ascii.ascii_of_nat (48 + Z.to_nat v).

Definition showDigit (v : Z) : String.string :=
  String.String (digitChar v) String.EmptyString.

Definition showLine (values : list Z) : String.string :=
  String.concat " "%string (map showDigit values).

Definition showPuzzle (row_projection column_projection : list Z)
    (raw_diagram : list (list TileType)) : list String.string :=
  showLine row_projection :: showLine column_projection ::
  map (fun row => showLine (map tileValue row)) raw_diagram.

(** What the picture of a solution shows. *)
Definition solutionOf (row_projection column_projection : list Z)
    (raw_diagram : list (list TileType)) (ascii_diagram : String.string) : Prop :=
  exists diagram,
    wf_diagram diagram /\
    ascii_diagram = asciiOf (interiorOf diagram) /\
    wallsAdded (augmentRawDiagram raw_diagram) diagram /\
    projectionsMet row_projection column_projection (augmentRawDiagram raw_diagram) diagram /\
    solvedGrid (filter (tileIs (augmentRawDiagram raw_diagram) TREASURE) interior_coords)
               (filter (tileIs (augmentRawDiagram raw_diagram) MONSTER) interior_coords)
               diagram.

(** ** Example input files *)

(** The ring puzzle as an input file, with a blank line, indentation and
    doubled spaces. *)
Definition ring_input : list String.string :=
  [ "0 6 6 6 6 6 6 0"; ""; "  0 6  6 6 6 6 6 0 "; "0 0 0 0 0 0 0 0"; "0 0 0 0 0 0 0 0";
    "0 0 0 0 0 0 0 0"; "0 0 0 0 0 0 0 0"; "0 0 0 0 0 0 0 0"; "0 0 0 0 0 0 0 0";
    "0 0 0 0 0 0 0 0"; "0 0 0 0 0 0 0 0"; "   " ]%string.

(** The same puzzle without the blank lines and the indentation. *)
Definition ring_input_compact : list String.string :=
  [ "0 6 6 6 6 6 6 0"; "0 6  6 6 6 6 6 0"; "0 0 0 0 0 0 0 0"; "0 0 0 0 0 0 0 0";
    "0 0 0 0 0 0 0 0"; "0 0 0 0 0 0 0 0"; "0 0 0 0 0 0 0 0"; "0 0 0 0 0 0 0 0";
    "0 0 0 0 0 0 0 0"; "0 0 0 0 0 0 0 0" ]%string.

(** * Properties *)

(** ** The combination generator *)

Lemma binomial_gt (n m : nat) : n < m -> binomial n m = 0.
Proof.
  revert m. induction n as [|n IH]; intros [|m] H; simpl; try lia.
  rewrite !IH by lia. reflexivity.
Qed.

Lemma binomial_diag (n : nat) : binomial n n = 1.
Proof.
  induction n as [|n IH]; simpl; [reflexivity|].
  rewrite IH, binomial_gt by lia. reflexivity.
Qed.

(** [binomial] is the usual quotient of factorials. *)
Lemma binomial_fact (n m : nat) : m <= n -> binomial n m * (fact m * fact (n - m)) = fact n.
Proof.
  revert m. induction n as [|n IH]; intros m Hm.
  - assert (m = 0) by lia. subst. reflexivity.
  - destruct m as [|m].
    + simpl binomial. rewrite Nat.sub_0_r. simpl fact at 1. lia.
    + destruct (decide (m = n)) as [->|Hne].
      * rewrite binomial_diag, Nat.sub_diag. simpl fact at 2. lia.
      * assert (Hm1 : m <= n) by lia. assert (Hm2 : S m <= n) by lia.
        pose proof (IH m Hm1) as IH1. pose proof (IH (S m) Hm2) as IH2.
        replace (S n - S m) with (n - m) by lia.
        replace (n - m) with (S (n - S m)) in * by lia.
        change (binomial (S n) (S m)) with (binomial n m + binomial n (S m)).
        change (fact (S n)) with (S n * fact n).
        change (fact (S m)) with (S m * fact m) in *.
        change (fact (S (n - S m))) with (S (n - S m) * fact (n - S m)) in *.
        nia.
Qed.

Lemma subsetsFrom_0 (k step : nat) : subsetsFrom 0 k step = [[]].
Proof. by destruct k. Qed.

Lemma subsetsFrom_gt (m k step : nat) : k < m -> subsetsFrom m k step = [].
Proof.
  revert m step. induction k as [|k IH]; intros [|m] step H; simpl; try lia; [reflexivity|].
  rewrite !IH by lia. reflexivity.
Qed.

Lemma length_subsetsFrom (m k step : nat) : length (subsetsFrom m k step) = binomial k m.
Proof.
  revert m step. induction k as [|k IH]; intros [|m] step; simpl; try reflexivity.
  rewrite length_app, length_map, !IH. reflexivity.
Qed.

(** Membership: exactly the strictly increasing lists of [m] indices of the
    interval. *)
Lemma elem_of_subsetsFrom (m k step : nat) (c : list nat) :
  c ∈ subsetsFrom m k step <->
  length c = m /\ StronglySorted lt c /\ Forall (fun i => step <= i < step + k) c.
Proof.
  revert m step c. induction k as [|k IH]; intros [|m] step c; simpl.
  - rewrite list_elem_of_singleton. split.
    + intros ->. repeat split; constructor.
    + intros (Hl & _). by destruct c.
  - rewrite elem_of_nil. split; [done|]. intros (Hl & _ & Hb).
    destruct c as [|i c]; [done|]. inversion Hb; lia.
  - rewrite list_elem_of_singleton. split.
    + intros ->. repeat split; constructor.
    + intros (Hl & _). by destruct c.
  - rewrite elem_of_app, list_elem_of_fmap. setoid_rewrite IH. split.
    + intros [(c' & -> & Hl & Hs & Hb) | (Hl & Hs & Hb)].
      * split; [simpl; lia|]. split.
        -- constructor; [done|]. eapply Forall_impl; [exact Hb|]. simpl. lia.
        -- constructor; [lia|]. eapply Forall_impl; [exact Hb|]. simpl. lia.
      * split; [done|]. split; [done|]. eapply Forall_impl; [exact Hb|]. simpl. lia.
    + intros (Hl & Hs & Hb). destruct c as [|i c]; [done|].
      inversion Hs as [|? ? Hs' Hlt]; subst. inversion Hb as [|? ? Hi Hb']; subst.
      destruct (decide (i = step)) as [->|Hne].
      * left. exists c. split; [done|]. split; [simpl in Hl; lia|]. split; [done|].
        rewrite Forall_forall in *. intros j Hj. specialize (Hlt j Hj). specialize (Hb' j Hj). lia.
      * right. split; [done|]. split; [done|]. constructor; [lia|].
        rewrite Forall_forall in *. intros j Hj. specialize (Hlt j Hj). specialize (Hb' j Hj). lia.
Qed.

Lemma NoDup_subsetsFrom (m k step : nat) : NoDup (subsetsFrom m k step).
Proof.
  revert m step. induction k as [|k IH]; intros [|m] step; simpl.
  - apply NoDup_singleton.
  - constructor.
  - apply NoDup_singleton.
  - apply NoDup_app. split; [|split].
    + apply NoDup_fmap_2; [|apply IH]. intros ? ? ?. congruence.
    + intros c Hin Hin'. apply list_elem_of_fmap in Hin as (c' & -> & _).
      apply elem_of_subsetsFrom in Hin' as (_ & _ & Hb).
      inversion Hb; lia.
    + apply IH.
Qed.

(** What [recursiveSelect] pushes, given fuel for the indices left. *)
Lemma recursiveSelect_spec (m n : nat) :
  forall fuel step cur_combination result,
    length cur_combination <= m ->
    n - step < fuel ->
    recursiveSelect m n fuel step cur_combination result =
    Ret (result ++ map (app cur_combination)
                       (subsetsFrom (m - length cur_combination) (n - step) step)).
Proof.
  induction fuel as [|fuel IH]; intros step cur result Hlen Hfuel; [lia|].
  simpl recursiveSelect.
  destruct (Nat.eqb_spec (length cur) m) as [Heq|Hne].
  - rewrite Heq, Nat.sub_diag, subsetsFrom_0. simpl. by rewrite app_nil_r.
  - destruct (Nat.leb_spec n step) as [Hge|Hlt].
    + replace (n - step) with 0 by lia.
      replace (m - length cur) with (S (m - length cur - 1)) by lia.
      simpl. by rewrite app_nil_r.
    + rewrite IH by (rewrite ?length_app; simpl; lia). simpl bind.
      replace (n - step) with (S (n - (step + 1))) by lia.
      replace (m - length cur) with (S (m - length (cur ++ [step]))) by (rewrite length_app; simpl; lia).
      simpl subsetsFrom. rewrite map_app, map_map.
      replace (S step) with (step + 1) by lia.
      assert (Hmap : map (fun c => cur ++ step :: c)
                       (subsetsFrom (m - length (cur ++ [step])) (n - (step + 1)) (step + 1)) =
                     map (app (cur ++ [step]))
                       (subsetsFrom (m - length (cur ++ [step])) (n - (step + 1)) (step + 1))).
      { apply map_ext. intros c. by rewrite <- app_assoc. }
      rewrite Hmap.
      destruct (Nat.leb_spec m (length cur + (n - 1 - step))) as [Hok|Hprune].
      * rewrite IH by lia.
        replace (m - length cur) with (S (m - length (cur ++ [step]))) by (rewrite length_app; simpl; lia).
        by rewrite app_assoc.
      * rewrite (subsetsFrom_gt (S _)) by (rewrite length_app; simpl; lia).
        simpl. by rewrite app_nil_r.
Qed.

Lemma getCombinations_spec (m n : nat) : getCombinations m n = Ret (subsetsFrom m n 0).
Proof.
  unfold getCombinations. destruct (Nat.ltb_spec n m) as [Hlt|Hge].
  - by rewrite subsetsFrom_gt.
  - rewrite recursiveSelect_spec by (simpl; lia). simpl.
    rewrite !Nat.sub_0_r. f_equal. rewrite map_id. reflexivity.
Qed.

(** C9. For [m <= n], [getCombinations m n] returns, in the depth-first
    include-first order of the specification, exactly the C(n, m) distinct
    strictly increasing lists of [m] indices below [n]; for [m > n] it returns
    the empty list. *)
Theorem getCombinations_correct (m n : nat) :
  (m <= n ->
   exists combinations,
     getCombinations m n = Ret combinations /\
     combinations = subsetsFrom m n 0 /\
     length combinations = binomial n m /\
     binomial n m * (fact m * fact (n - m)) = fact n /\
     NoDup combinations /\
     (forall c, c ∈ combinations <->
                length c = m /\ StronglySorted lt c /\ Forall (fun i => i < n) c)) /\
  (n < m -> getCombinations m n = Ret []).
Proof.
  split.
  - intros Hle. exists (subsetsFrom m n 0). split; [apply getCombinations_spec|].
    split; [reflexivity|]. split; [apply length_subsetsFrom|].
    split; [by apply binomial_fact|]. split; [apply NoDup_subsetsFrom|].
    intros c. rewrite elem_of_subsetsFrom. split.
    + intros (? & ? & Hb). repeat split; try done. eapply Forall_impl; [exact Hb|]. simpl. lia.
    + intros (? & ? & Hb). repeat split; try done. eapply Forall_impl; [exact Hb|]. simpl. lia.
  - intros Hlt. rewrite getCombinations_spec. by rewrite subsetsFrom_gt.
Qed.

Lemma getCombinations_correct_witness :
  (exists combinations,
     getCombinations 2 4 = Ret combinations /\
     combinations = subsetsFrom 2 4 0 /\
     length combinations = binomial 4 2 /\
     binomial 4 2 * (fact 2 * fact (4 - 2)) = fact 4 /\
     NoDup combinations /\
     (forall c, c ∈ combinations <->
                length c = 2 /\ StronglySorted lt c /\ Forall (fun i => i < 4) c)) /\
  getCombinations 5 4 = Ret [].
Proof.
  split.
  - apply (getCombinations_correct 2 4). lia.
  - apply (getCombinations_correct 5 4). lia.
Defined.

Example getCombinations_2_4 :
  getCombinations 2 4 = Ret [[0; 1]; [0; 2]; [0; 3]; [1; 2]; [1; 3]; [2; 3]].
Proof. reflexivity. Qed.

(** ** Reading well-formed diagrams *)

Lemma readTile_wf (diagram : Diagram) (x y : Z) :
  wf_diagram diagram -> (0 <= x <= 9)%Z -> (0 <= y <= 9)%Z ->
  exists t, readTile diagram x y = Ret (Tile t).
Proof.
  intros [Hlen Hrows] Hx Hy. unfold readTile.
  destruct (Z.ltb_spec x 0) as [?|_]; [lia|].
  destruct (lookup_lt_is_Some_2 diagram (Z.to_nat x)) as [row Hrow]; [lia|].
  rewrite Hrow.
  destruct (Z.ltb_spec y 0) as [?|_]; [lia|].
  assert (Hr : length row = 10).
  { rewrite Forall_forall in Hrows. apply Hrows. eapply list_elem_of_lookup_2, Hrow. }
  destruct (lookup_lt_is_Some_2 row (Z.to_nat y)) as [t Ht]; [lia|].
  rewrite Ht. by exists t.
Qed.

Lemma readTile_Tile_range (diagram : Diagram) (x y : Z) (t : TileType) :
  wf_diagram diagram -> readTile diagram x y = Ret (Tile t) ->
  (0 <= x <= 9)%Z /\ (0 <= y <= 9)%Z.
Proof.
  intros [Hlen Hrows] H. unfold readTile in H.
  destruct (Z.ltb_spec x 0) as [?|Hx]; [done|].
  destruct (diagram !! Z.to_nat x) as [row|] eqn:Hrow; [|done].
  destruct (Z.ltb_spec y 0) as [?|Hy]; [done|].
  destruct (row !! Z.to_nat y) as [t'|] eqn:Ht; [|done].
  assert (Hr : length row = 10).
  { rewrite Forall_forall in Hrows. apply Hrows. eapply list_elem_of_lookup_2, Hrow. }
  apply lookup_lt_Some in Hrow. apply lookup_lt_Some in Ht. lia.
Qed.

Lemma elem_of_interior_indices (x : Z) : x ∈ interior_indices <-> (1 <= x <= 8)%Z.
Proof.
  unfold interior_indices. rewrite list_elem_of_fmap. split.
  - intros (n & -> & Hn). apply elem_of_seq in Hn. lia.
  - intros Hx. exists (Z.to_nat x). split; [lia|]. apply elem_of_seq. lia.
Qed.

Lemma elem_of_interior_coords (x y : Z) :
  mkCoord x y ∈ interior_coords <-> (1 <= x <= 8)%Z /\ (1 <= y <= 8)%Z.
Proof.
  unfold interior_coords. rewrite list_elem_of_In, in_concat. split.
  - intros (row & Hrow & Hin). apply in_map_iff in Hrow as (x' & <- & Hx').
    apply in_map_iff in Hin as (y' & Heq & Hy'). inversion Heq; subst.
    by rewrite <- !elem_of_interior_indices, !list_elem_of_In.
  - intros [Hx Hy]. exists (map (fun y => mkCoord x y) interior_indices). split.
    + apply in_map_iff. exists x. by rewrite <- list_elem_of_In, elem_of_interior_indices.
    + apply in_map_iff. exists y. by rewrite <- list_elem_of_In, elem_of_interior_indices.
Qed.

(** ** The hallway validator *)

(** [isContainedByTRoom] finds no room exactly when the tile is outside the
    3x3 block of every corner of the list. *)
Lemma isContainedByTRoom_false (x y : Z) (treasure_room_lt_coords : list Coordinate) :
  isContainedByTRoom x y treasure_room_lt_coords = false <->
  forall lt_coord, lt_coord ∈ treasure_room_lt_coords -> ~ inBlock lt_coord x y.
Proof.
  unfold isContainedByTRoom, inBlock.
  induction treasure_room_lt_coords as [|lt_coord lt_coords IH]; cbn [existsb].
  - split; [|done]. intros _ lt_coord Hin. by apply elem_of_nil in Hin.
  - rewrite orb_false_iff, IH. split.
    + intros [Hhead Htail] lt_coord' [->|Hin]%elem_of_cons; [|by apply Htail].
      intros [Hx Hy]. rewrite !andb_false_iff in Hhead. lia.
    + intros Hall. split.
      * destruct (_ && _) eqn:Htest; [|done].
        destruct (Hall lt_coord); [by left|]. rewrite !andb_true_iff in Htest. lia.
      * intros lt_coord' Hin. apply Hall. by right.
Qed.

Section Hallways.

Variable diagram : list (list TileType).
Variable treasure_room_lt_coords : list Coordinate.
Hypothesis Hwf : wf_diagram diagram.

Lemma openb_true (x y : Z) :
  openb diagram treasure_room_lt_coords x y = true <->
  openAt diagram treasure_room_lt_coords x y.
Proof.
  unfold openb, openAt, cell_is. rewrite <- isContainedByTRoom_false. split.
  - destruct (readTile diagram x y) as [c| |]; try done.
    intros [Hc Hr]%andb_prop. apply bool_decide_eq_true in Hc. subst.
    by apply negb_true_iff in Hr.
  - intros [-> ->]. reflexivity.
Qed.

Lemma openTile_wf (x y : Z) :
  (0 <= x <= 9)%Z -> (0 <= y <= 9)%Z ->
  openTile diagram treasure_room_lt_coords (mkCoord x y) =
  Ret (if openb diagram treasure_room_lt_coords x y then 1%Z else 0%Z).
Proof.
  intros Hx Hy. unfold openTile, openb. simpl.
  destruct (readTile_wf diagram x y Hwf Hx Hy) as [t ->]. reflexivity.
Qed.

Lemma openSpace_wf (x1 y1 x2 y2 x3 y3 : Z) :
  (0 <= x1 <= 9)%Z -> (0 <= y1 <= 9)%Z -> (0 <= x2 <= 9)%Z -> (0 <= y2 <= 9)%Z ->
  (0 <= x3 <= 9)%Z -> (0 <= y3 <= 9)%Z ->
  openSpace diagram treasure_room_lt_coords [mkCoord x1 y1; mkCoord x2 y2; mkCoord x3 y3] =
  Ret (if openb diagram treasure_room_lt_coords x1 y1 &&
          openb diagram treasure_room_lt_coords x2 y2 &&
          openb diagram treasure_room_lt_coords x3 y3 then 1%Z else 0%Z).
Proof.
  intros. unfold openSpace. simpl mapM. rewrite !openTile_wf by lia. simpl.
  by destruct (openb _ _ x1 y1), (openb _ _ x2 y2), (openb _ _ x3 y3).
Qed.

Lemma spaces_wf (x y : Z) :
  (1 <= x <= 8)%Z -> (1 <= y <= 8)%Z ->
  exists spaces,
    mapM (openSpace diagram treasure_room_lt_coords) (get4TilesSpaces x y) = Ret spaces /\
    (0 <? sumZ spaces)%Z = cornerOpen diagram treasure_room_lt_coords x y.
Proof.
  intros Hx Hy. unfold get4TilesSpaces. simpl mapM.
  rewrite !openSpace_wf by lia. simpl bind. eexists. split; [reflexivity|].
  unfold cornerOpen, sumZ. simpl.
  repeat match goal with
         | |- context [openb ?d ?l ?a ?b] =>
             let o := fresh "o" in
             generalize (openb d l a b); intros o
         end.
  repeat match goal with o : bool |- _ => destruct o end; reflexivity.
Qed.

Lemma checkHallwaysFrom_wf (coords : list Coordinate) :
  Forall (fun c => (1 <= coord_x c <= 8)%Z /\ (1 <= coord_y c <= 8)%Z) coords ->
  checkHallwaysFrom coords diagram treasure_room_lt_coords =
  Ret (negb (existsb (fun c => openb diagram treasure_room_lt_coords (coord_x c) (coord_y c) &&
                               cornerOpen diagram treasure_room_lt_coords (coord_x c) (coord_y c))
                     coords)).
Proof.
  induction 1 as [|c coords [Hx Hy] _ IH]; [reflexivity|].
  cbn [checkHallwaysFrom existsb]. unfold openb at 1.
  destruct (readTile_wf diagram (coord_x c) (coord_y c) Hwf) as [t ->]; [lia..|].
  cbn [bind].
  destruct (cell_is EMPTY_SPACE (Tile t) &&
            negb (isContainedByTRoom (coord_x c) (coord_y c) treasure_room_lt_coords)).
  - destruct (spaces_wf (coord_x c) (coord_y c) Hx Hy) as (spaces & Hs & Hc).
    rewrite Hs. cbn [bind]. rewrite Hc.
    destruct (cornerOpen _ _ _ _); cbn [andb orb negb]; [reflexivity|exact IH].
  - cbn [andb orb]. exact IH.
Qed.

Lemma openAt_range (x y : Z) :
  openAt diagram treasure_room_lt_coords x y -> (0 <= x <= 9)%Z /\ (0 <= y <= 9)%Z.
Proof. intros [H _]. eapply readTile_Tile_range; eauto. Qed.

(** An open 2x2 block exists exactly when some interior tile is open together
    with one of its corner groups. *)
Lemma openBlock_interior :
  openBlock diagram treasure_room_lt_coords <->
  exists c, c ∈ interior_coords /\
            openb diagram treasure_room_lt_coords (coord_x c) (coord_y c) = true /\
            cornerOpen diagram treasure_room_lt_coords (coord_x c) (coord_y c) = true.
Proof.
  split.
  - intros (a & b & H1 & H2 & H3 & H4).
    pose proof (openAt_range _ _ H1). pose proof (openAt_range _ _ H4).
    apply openb_true in H1, H2, H3, H4.
    exists (mkCoord (if decide (a = 0)%Z then 1 else a) (if decide (b = 0)%Z then 1 else b)).
    split; [apply elem_of_interior_coords; repeat case_decide; lia|].
    unfold cornerOpen. simpl.
    destruct (decide (a = 0)%Z) as [->|]; destruct (decide (b = 0)%Z) as [->|];
      cbn [coord_x coord_y]; change (1 - 1)%Z with 0%Z; change (0 + 1)%Z with 1%Z in *;
      rewrite ?H1, ?H2, ?H3, ?H4; cbn [andb orb]; by rewrite ?orb_true_r.
  - intros ([x y] & _ & Ho & Hc). simpl in *. unfold cornerOpen in Hc.
    repeat (apply orb_prop in Hc as [Hc|Hc]);
      apply andb_prop in Hc as [[Ha Hb]%andb_prop Hd];
      apply openb_true in Ho, Ha, Hb, Hd.
    + exists (x - 1)%Z, (y - 1)%Z.
      replace (x - 1 + 1)%Z with x by lia. replace (y - 1 + 1)%Z with y by lia. done.
    + exists x, (y - 1)%Z. replace (y - 1 + 1)%Z with y by lia. done.
    + exists x, y. done.
    + exists (x - 1)%Z, y. replace (x - 1 + 1)%Z with x by lia. done.
Qed.

Lemma checkHallways_block :
  checkHallways diagram treasure_room_lt_coords =
  Ret (negb (bool_decide (Exists (fun c =>
         openb diagram treasure_room_lt_coords (coord_x c) (coord_y c) = true /\
         cornerOpen diagram treasure_room_lt_coords (coord_x c) (coord_y c) = true)
       interior_coords))).
Proof.
  unfold checkHallways. rewrite checkHallwaysFrom_wf.
  - do 2 f_equal. apply eq_true_iff_eq. rewrite existsb_exists, bool_decide_eq_true, Exists_exists.
    split; intros (c & Hin & H); exists c; (split; [by apply list_elem_of_In|]).
    + by apply andb_prop in H.
    + by apply andb_true_intro.
  - apply Forall_forall. intros [x y] Hin. by apply elem_of_interior_coords in Hin.
Qed.

End Hallways.

(** C8. On a 10x10 diagram [checkHallways] returns false exactly when four
    tiles forming an axis-aligned 2x2 block are all Empty and outside every
    committed treasure room, and true exactly when there is no such block;
    it returns one or the other.  A tile is outside a room when it is not
    within two rows below and two columns right of the room's top-left
    corner. *)
Theorem checkHallways_correct (diagram : list (list TileType))
    (treasure_room_lt_coords : list Coordinate) :
  wf_diagram diagram ->
  (checkHallways diagram treasure_room_lt_coords = Ret false <->
   openBlock diagram treasure_room_lt_coords) /\
  (checkHallways diagram treasure_room_lt_coords = Ret true <->
   ~ openBlock diagram treasure_room_lt_coords) /\
  (exists b, checkHallways diagram treasure_room_lt_coords = Ret b).
Proof.
  intros Hwf. rewrite checkHallways_block by done.
  rewrite (openBlock_interior _ _ Hwf), <- Exists_exists.
  split; [|split; [|by eexists]].
  all: split; [intros [= H]|intros H; f_equal].
  - apply negb_false_iff, bool_decide_eq_true in H. done.
  - apply negb_false_iff, bool_decide_eq_true. done.
  - apply negb_true_iff, bool_decide_eq_false in H. done.
  - apply negb_true_iff, bool_decide_eq_false. done.
Qed.

(** On the board whose only 2x2 block of Empty tiles lies in the room of
    corner (1, 1): accepted when that room is committed, rejected when it is
    not. *)
Lemma checkHallways_correct_witness :
  wf_diagram (augmentRawDiagram raw_corner_treasure) /\
  (checkHallways (augmentRawDiagram raw_corner_treasure) [mkCoord 1 1] = Ret true /\
   ~ openBlock (augmentRawDiagram raw_corner_treasure) [mkCoord 1 1]) /\
  (checkHallways (augmentRawDiagram raw_corner_treasure) [] = Ret false /\
   openBlock (augmentRawDiagram raw_corner_treasure) []).
Proof.
  assert (Hwf : wf_diagram (augmentRawDiagram raw_corner_treasure)).
  { split; [reflexivity|]. vm_compute. repeat constructor. }
  assert (Htrue : checkHallways (augmentRawDiagram raw_corner_treasure) [mkCoord 1 1] = Ret true)
    by (vm_compute; reflexivity).
  assert (Hfalse : checkHallways (augmentRawDiagram raw_corner_treasure) [] = Ret false)
    by (vm_compute; reflexivity).
  split; [exact Hwf|]. split; (split; [done|]).
  - exact (proj1 (proj1 (proj2
             (checkHallways_correct (augmentRawDiagram raw_corner_treasure) [mkCoord 1 1] Hwf)))
             Htrue).
  - exact (proj1 (proj1
             (checkHallways_correct (augmentRawDiagram raw_corner_treasure) [] Hwf)) Hfalse).
Defined.

(** ** Reasoning about [bind] *)

Lemma bind_Ret {A B : Type} (m : outcome A) (k : A -> outcome B) (b : B) :
  bind m k = Ret b -> exists a, m = Ret a /\ k a = Ret b.
Proof. destruct m as [a| |]; simpl; [eauto|done|done]. Qed.

Ltac bind_inv H :=
  let a := fresh "a" in
  let Hm := fresh "Hm" in
  apply bind_Ret in H as (a & Hm & H).

(** ** The counting loops *)

Lemma countTiles_cons (diagram : list (list TileType)) (t : TileType)
    (coord : Coordinate) (coords : list Coordinate) :
  countTiles diagram t (coord :: coords) =
  (if decide (tileIs diagram t coord) then 1 else 0) + countTiles diagram t coords.
Proof. unfold countTiles. rewrite filter_cons. by case_decide. Qed.

Lemma countWalls_spec (diagram : list (list TileType)) (coords : list Coordinate) :
  forall n k, countWalls diagram coords n = Ret k ->
              k = (n + Z.of_nat (countTiles diagram WALL coords))%Z.
Proof.
  induction coords as [|c coords IH]; intros n k H.
  - simpl in H. injection H as <-. unfold countTiles. simpl. lia.
  - cbn [countWalls] in H. bind_inv H. apply IH in H. subst k.
    rewrite countTiles_cons. unfold cell_is.
    case_decide as Hb; unfold tileIs in Hb; rewrite Hm in Hb;
      case_bool_decide as Ha; subst; try lia; congruence.
Qed.

Lemma countRoomTiles_spec (diagram : list (list TileType)) (coords : list Coordinate) :
  forall e t e' t',
    countRoomTiles diagram coords e t = Ret (e', t') ->
    e' = (e + Z.of_nat (countTiles diagram EMPTY_SPACE coords))%Z /\
    t' = (t + Z.of_nat (countTiles diagram TREASURE coords))%Z.
Proof.
  induction coords as [|c coords IH]; intros e t e' t' H.
  - simpl in H. injection H as <- <-. unfold countTiles. simpl. lia.
  - cbn [countRoomTiles] in H. bind_inv H.
    rewrite !countTiles_cons.
    destruct a as [|[]]; apply IH in H as [-> ->];
      repeat case_decide;
      repeat match goal with
             | Hb : tileIs _ _ _ |- _ => unfold tileIs in Hb; rewrite Hm in Hb
             | Hb : ~ tileIs _ _ _ |- _ => unfold tileIs in Hb; rewrite Hm in Hb
             end; try congruence; lia.
Qed.

Lemma isTRoomTilesAvailable_spec (x y : Z) (diagram : list (list TileType)) (b : bool) :
  isTRoomTilesAvailable x y diagram = Ret b ->
  (b = true <->
   countTiles diagram EMPTY_SPACE (getTRoomTileCoords x y) = 8 /\
   countTiles diagram TREASURE (getTRoomTileCoords x y) = 1).
Proof.
  unfold isTRoomTilesAvailable. intros H. bind_inv H. destruct a as [e t].
  apply countRoomTiles_spec in Hm as [-> ->]. injection H as <-.
  rewrite andb_true_iff, !Z.eqb_eq. lia.
Qed.

Lemma isTRoomWallsAvailable_spec (x y : Z) (diagram : list (list TileType)) (b : bool) :
  isTRoomWallsAvailable x y diagram = Ret b ->
  (b = true <-> countTiles diagram WALL (getTRoomOuterTileCoords x y) = 11).
Proof.
  unfold isTRoomWallsAvailable. intros H. bind_inv H.
  apply countWalls_spec in Hm as ->. injection H as <-.
  rewrite Z.eqb_eq. lia.
Qed.

Lemma isDeadEnds_spec (x y : Z) (diagram : list (list TileType)) (b : bool) :
  isDeadEnds x y diagram = Ret b ->
  (b = true <-> countTiles diagram WALL (get4DirectionCoords x y) = 3).
Proof.
  unfold isDeadEnds. intros H. bind_inv H.
  apply countWalls_spec in Hm as ->. injection H as <-.
  rewrite Z.eqb_eq. lia.
Qed.

(** ** The treasure-room validator *)

Lemma findTRoom_Some (lt_coords : list Coordinate) (diagram : list (list TileType))
    (lt_coord : Coordinate) :
  findTRoom lt_coords diagram = Ret (Some lt_coord) ->
  lt_coord ∈ lt_coords /\ validRoom diagram lt_coord.
Proof.
  induction lt_coords as [|c rest IH]; intros H; [done|].
  cbn [findTRoom] in H.
  destruct (isTRoomLTCoordAvailable (coord_x c) (coord_y c)) eqn:Hav; cbn [negb] in H.
  2:{ apply IH in H as [? ?]. split; [by right|done]. }
  bind_inv H. destruct a; cbn [negb] in H.
  2:{ apply IH in H as [? ?]. split; [by right|done]. }
  bind_inv H. destruct a; cbn [negb] in H.
  2:{ apply IH in H as [? ?]. split; [by right|done]. }
  injection H as <-. split; [by left|].
  apply isTRoomTilesAvailable_spec in Hm as [Ht _].
  apply isTRoomWallsAvailable_spec in Hm0 as [Hw _].
  destruct (Ht eq_refl). unfold validRoom. auto.
Qed.

Lemma checkTreasureRoomsFrom_accepts (treasure_coords : list Coordinate)
    (diagram : list (list TileType)) :
  forall acc lt_coords,
    checkTreasureRoomsFrom treasure_coords diagram acc = Ret (true, lt_coords) ->
    (forall lt_coord, lt_coord ∈ acc -> lt_coord ∈ lt_coords) /\
    forall treasure_coord,
      treasure_coord ∈ treasure_coords ->
      tileIs diagram TREASURE treasure_coord ->
      exists lt_coord,
        lt_coord ∈ lt_coords /\
        lt_coord ∈ getTRoomLTCoords (coord_x treasure_coord) (coord_y treasure_coord) /\
        validRoom diagram lt_coord.
Proof.
  induction treasure_coords as [|tc rest IH]; intros acc lts H.
  - simpl in H. injection H as <-. split; [done|]. intros ? Hin. by apply elem_of_nil in Hin.
  - cbn [checkTreasureRoomsFrom] in H. bind_inv H.
    destruct (cell_is TREASURE a) eqn:Hc.
    + bind_inv H. destruct a0 as [lt|]; [|done].
      apply findTRoom_Some in Hm0 as [Hin Hvalid].
      apply IH in H as [Hacc Hrest]. split.
      * intros c Hc'. apply Hacc, elem_of_app. by left.
      * intros t [->|Ht]%elem_of_cons Htile.
        -- exists lt. split; [|done]. apply Hacc, elem_of_app. right. by left.
        -- by apply Hrest.
    + apply IH in H as [Hacc Hrest]. split; [done|].
      intros t [->|Ht]%elem_of_cons Htile.
      * unfold tileIs in Htile. rewrite Hm in Htile. injection Htile as ->.
        unfold cell_is in Hc. by apply bool_decide_eq_false in Hc.
      * by apply Hrest.
Qed.

Lemma allDeadEnds_true (monster_coords : list Coordinate) (diagram : list (list TileType)) :
  allDeadEnds monster_coords diagram = Ret true ->
  forall monster_coord,
    monster_coord ∈ monster_coords ->
    countTiles diagram WALL
      (get4DirectionCoords (coord_x monster_coord) (coord_y monster_coord)) = 3.
Proof.
  induction monster_coords as [|m rest IH]; intros H c Hin.
  - by apply elem_of_nil in Hin.
  - cbn [allDeadEnds] in H. bind_inv H. destruct a; cbn [negb] in H; [|done].
    apply elem_of_cons in Hin as [->|Hin]; [|by apply IH].
    by apply isDeadEnds_spec in Hm as [Hm _]; apply Hm.
Qed.

(** What [isSolved] has checked when it returns true, as far as treasures
    and monsters go. *)
Lemma isSolved_true (fuel : nat) (treasure_coords monster_coords : list Coordinate)
    (diagram : list (list TileType)) :
  isSolved fuel treasure_coords monster_coords diagram = Ret true ->
  (exists lt_coords, checkTreasureRooms treasure_coords diagram = Ret (true, lt_coords)) /\
  allDeadEnds monster_coords diagram = Ret true.
Proof.
  unfold isSolved. intros H.
  bind_inv H. destruct a; cbn [negb] in H; [|done].
  bind_inv H. destruct a as [[] lts]; cbn [negb] in H; [|done].
  bind_inv H. destruct a; cbn [negb] in H; [|done].
  split; [by exists lts|].
  unfold checkMonstersAndDeadEnds in Hm1. bind_inv Hm1. by destruct a.
Qed.

(** C2 (amended). The two tests on a candidate room return true exactly when
    its nine interior tiles are 8 Empty and 1 Treasure, and when exactly 11 of
    the 12 tiles of its ring are Wall; so [checkTreasureRooms], and [isSolved]
    through it, accept only when every treasure has such a room among its nine
    candidate corners.  A ring of 12 walls is rejected like one of 10. *)
Theorem checkTreasureRooms_accepts (fuel : nat) (treasure_coords monster_coords : list Coordinate)
    (diagram : list (list TileType)) :
  (forall x y b, isTRoomTilesAvailable x y diagram = Ret b ->
     (b = true <-> countTiles diagram EMPTY_SPACE (getTRoomTileCoords x y) = 8 /\
                   countTiles diagram TREASURE (getTRoomTileCoords x y) = 1)) /\
  (forall x y b, isTRoomWallsAvailable x y diagram = Ret b ->
     (b = true <-> countTiles diagram WALL (getTRoomOuterTileCoords x y) = 11)) /\
  (forall lt_coords,
     checkTreasureRooms treasure_coords diagram = Ret (true, lt_coords) \/
     isSolved fuel treasure_coords monster_coords diagram = Ret true ->
     forall treasure_coord,
       treasure_coord ∈ treasure_coords ->
       tileIs diagram TREASURE treasure_coord ->
       exists lt_coord,
         lt_coord ∈ getTRoomLTCoords (coord_x treasure_coord) (coord_y treasure_coord) /\
         validRoom diagram lt_coord).
Proof.
  split; [intros; by apply isTRoomTilesAvailable_spec|].
  split; [intros; by apply isTRoomWallsAvailable_spec|].
  intros lts H tc Hin Htile.
  assert (exists lts', checkTreasureRooms treasure_coords diagram = Ret (true, lts'))
    as (lts' & Hrooms).
  { destruct H as [H|H]; [by exists lts|]. by apply isSolved_true in H as [? _]. }
  apply checkTreasureRoomsFrom_accepts in Hrooms as [_ Hrooms].
  destruct (Hrooms tc Hin Htile) as (lt & _ & ? & ?). by exists lt.
Qed.

Lemma checkTreasureRooms_accepts_witness :
  checkTreasureRooms [mkCoord 2 2] (augmentRawDiagram raw_room) = Ret (true, [mkCoord 1 1]) /\
  tileIs (augmentRawDiagram raw_room) TREASURE (mkCoord 2 2) /\
  exists lt_coord,
    lt_coord ∈ getTRoomLTCoords 2 2 /\ validRoom (augmentRawDiagram raw_room) lt_coord.
Proof.
  set (diagram := augmentRawDiagram raw_room).
  assert (Hrooms : checkTreasureRooms [mkCoord 2 2] diagram = Ret (true, [mkCoord 1 1]))
    by (vm_compute; reflexivity).
  assert (Htile : tileIs diagram TREASURE (mkCoord 2 2)) by (vm_compute; reflexivity).
  split; [exact Hrooms|]. split; [exact Htile|].
  apply (proj2 (proj2 (checkTreasureRooms_accepts 0 [mkCoord 2 2] [] diagram))
           [mkCoord 1 1] (or_introl Hrooms) (mkCoord 2 2)).
  - by left.
  - exact Htile.
Defined.

(** C2, as stated, fails: a room whose ring has 11 walls and one Empty tile
    is accepted, and the same room with all 12 ring tiles Wall is rejected. *)
Lemma checkTreasureRooms_eleven_walls :
  checkTreasureRooms [mkCoord 2 2] (augmentRawDiagram raw_room) = Ret (true, [mkCoord 1 1]) /\
  countTiles (augmentRawDiagram raw_room) WALL (getTRoomOuterTileCoords 1 1) = 11 /\
  tileIs (augmentRawDiagram raw_room) EMPTY_SPACE (mkCoord 4 1) /\
  mkCoord 4 1 ∈ getTRoomOuterTileCoords 1 1 /\
  countTiles (augmentRawDiagram raw_room_closed) WALL (getTRoomOuterTileCoords 1 1) = 12 /\
  checkTreasureRooms [mkCoord 2 2] (augmentRawDiagram raw_room_closed) = Ret (false, []).
Proof.
  repeat split; try (vm_compute; reflexivity).
  unfold getTRoomOuterTileCoords. simpl. apply list_elem_of_In. simpl. tauto.
Qed.

(** ** Final validation of monsters *)

(** C7 (amended). [isSolved] accepts only if every monster coordinate has
    exactly 3 Wall tiles among its 4 cardinal neighbours; what the fourth
    neighbour holds is not examined. *)
Theorem isSolved_monsters (fuel : nat) (treasure_coords monster_coords : list Coordinate)
    (diagram : list (list TileType)) :
  isSolved fuel treasure_coords monster_coords diagram = Ret true ->
  forall monster_coord,
    monster_coord ∈ monster_coords ->
    countTiles diagram WALL
      (get4DirectionCoords (coord_x monster_coord) (coord_y monster_coord)) = 3.
Proof. intros H. apply isSolved_true in H as [_ H]. by apply allDeadEnds_true. Qed.

Lemma isSolved_monsters_witness :
  isSolved 100 [] [mkCoord 1 1; mkCoord 1 2] (augmentRawDiagram raw_two_monsters) = Ret true /\
  countTiles (augmentRawDiagram raw_two_monsters) WALL (get4DirectionCoords 1 1) = 3.
Proof.
  assert (H : isSolved 100 [] [mkCoord 1 1; mkCoord 1 2]
                (augmentRawDiagram raw_two_monsters) = Ret true) by (vm_compute; reflexivity).
  split; [exact H|].
  apply (isSolved_monsters 100 [] [mkCoord 1 1; mkCoord 1 2] _ H (mkCoord 1 1)). by left.
Defined.

(** C7, as stated, fails: a grid is accepted in which the only neighbour of a
    monster that is not Wall is another monster, and one in which it is the
    treasure. *)
Lemma isSolved_monster_neighbour :
  (isSolved 100 [] [mkCoord 1 1; mkCoord 1 2] (augmentRawDiagram raw_two_monsters) = Ret true /\
   tileIs (augmentRawDiagram raw_two_monsters) MONSTER (mkCoord 1 1) /\
   countTiles (augmentRawDiagram raw_two_monsters) WALL (get4DirectionCoords 1 1) = 3 /\
   countTiles (augmentRawDiagram raw_two_monsters) MONSTER (get4DirectionCoords 1 1) = 1) /\
  (isSolved 100 [mkCoord 3 1] [mkCoord 4 1] (augmentRawDiagram raw_monster_door) = Ret true /\
   tileIs (augmentRawDiagram raw_monster_door) MONSTER (mkCoord 4 1) /\
   countTiles (augmentRawDiagram raw_monster_door) WALL (get4DirectionCoords 4 1) = 3 /\
   countTiles (augmentRawDiagram raw_monster_door) TREASURE (get4DirectionCoords 4 1) = 1).
Proof. repeat split; vm_compute; reflexivity. Qed.

(** ** Writes and their undoing *)

Lemma readTile_writeTile (diagram : list (list TileType)) (x y : Z) (t : TileType) (x' y' : Z) :
  readTile (writeTile diagram x y t) x' y' =
  if decide (x = x' /\ y = y') then overwritten t (readTile diagram x y)
  else readTile diagram x' y'.
Proof.
  unfold writeTile, readTile.
  destruct (Z.ltb_spec x 0) as [Hx|Hx]; cbn [orb].
  { case_decide as He; [destruct He as [<- <-]|]; [|done].
    destruct (Z.ltb_spec x 0); [done|lia]. }
  destruct (Z.ltb_spec y 0) as [Hy|Hy].
  { case_decide as He; [destruct He as [<- <-]|]; [|done].
    destruct (Z.ltb_spec x 0); [lia|].
    destruct (diagram !! Z.to_nat x); [|done].
    destruct (Z.ltb_spec y 0); [done|lia]. }
  destruct (Z.ltb_spec x' 0) as [Hx'|Hx'].
  { case_decide as He; [lia|done]. }
  rewrite list_lookup_alter.
  destruct (decide (Z.to_nat x = Z.to_nat x')) as [Hxx|Hxx].
  - assert (x = x') by lia. subst x'.
    destruct (diagram !! Z.to_nat x) as [row|] eqn:Hrow; cbn [fmap option_fmap option_map].
    2:{ by case_decide. }
    destruct (Z.ltb_spec y' 0) as [Hy'|Hy'].
    { case_decide as He; [lia|done]. }
    rewrite list_lookup_insert.
    case_decide as Hi.
    + destruct Hi as [Hyy Hlt]. assert (y = y') by lia. subst y'.
      rewrite decide_True by done.
      destruct (lookup_lt_is_Some_2 row (Z.to_nat y) Hlt) as [t' ->]. done.
    + case_decide as He; [|done]. destruct He as [_ <-].
      destruct (row !! Z.to_nat y) eqn:Hl; [|done].
      apply lookup_lt_Some in Hl. tauto.
  - rewrite decide_False by lia. done.
Qed.

Lemma diagram_ext (diagram1 diagram2 : list (list TileType)) :
  (forall x y, readTile diagram1 x y = readTile diagram2 x y) -> diagram1 = diagram2.
Proof.
  intros H. apply list_eq. intros i.
  pose proof (H (Z.of_nat i) 0%Z) as H0. unfold readTile in H0.
  destruct (Z.ltb_spec (Z.of_nat i) 0) as [?|_]; [lia|].
  rewrite Nat2Z.id in H0.
  destruct (diagram1 !! i) as [row1|] eqn:H1, (diagram2 !! i) as [row2|] eqn:H2;
    try done.
  - f_equal. apply list_eq. intros j.
    pose proof (H (Z.of_nat i) (Z.of_nat j)) as Hj. unfold readTile in Hj.
    destruct (Z.ltb_spec (Z.of_nat i) 0) as [?|_]; [lia|].
    rewrite Nat2Z.id, H1, H2 in Hj.
    destruct (Z.ltb_spec (Z.of_nat j) 0) as [?|_]; [lia|].
    rewrite Nat2Z.id in Hj.
    destruct (row1 !! j), (row2 !! j); congruence.
  - simpl in H0. destruct (row1 !! Z.to_nat 0); done.
  - simpl in H0. destruct (row2 !! Z.to_nat 0); done.
Qed.

Lemma overwritten_overwritten (t t' : TileType) (o : outcome cell) :
  overwritten t (overwritten t' o) = overwritten t o.
Proof. by destruct o as [[|?]| |]. Qed.

(** The diagram after a sequence of writes of the same tile. *)
Lemma readTile_fold_writeTile (t : TileType) (coords : list Coordinate) :
  forall (diagram : list (list TileType)) (x y : Z),
    readTile (fold_left (fun d c => writeTile d (coord_x c) (coord_y c) t) coords diagram) x y =
    if decide (mkCoord x y ∈ coords) then overwritten t (readTile diagram x y)
    else readTile diagram x y.
Proof.
  induction coords as [|[cx cy] coords IH]; intros diagram x y.
  - cbn [fold_left]. rewrite decide_False; [done|]. apply not_elem_of_nil.
  - cbn [fold_left coord_x coord_y]. rewrite IH, !readTile_writeTile.
    destruct (decide (cx = x /\ cy = y)) as [[-> ->]|Hne].
    + rewrite (decide_True (P := _ ∈ _ :: _)) by (by left).
      case_decide; [apply overwritten_overwritten|done].
    + case_decide as Hin.
      * rewrite (decide_True (P := _ ∈ _ :: _)) by (by right). done.
      * rewrite (decide_False (P := _ ∈ _ :: _)); [done|].
        intros [Heq|?]%elem_of_cons; [|done]. injection Heq as -> ->. tauto.
Qed.

Lemma lookup_addNum (projection : list Z) (i k : Z) (j : nat) :
  addNum projection i k !! j =
  if decide (0 <= i /\ Z.to_nat i = j)%Z then (fun v => (v + k)%Z) <$> projection !! j
  else projection !! j.
Proof.
  unfold addNum. destruct (Z.ltb_spec i 0) as [Hi|Hi].
  - rewrite decide_False by lia. done.
  - rewrite list_lookup_alter. case_decide as He.
    + subst j. by rewrite decide_True by lia.
    + by rewrite decide_False by lia.
Qed.

Lemma addNum_addNum (projection : list Z) (i j a b : Z) :
  addNum (addNum projection i a) j b = addNum (addNum projection j b) i a.
Proof.
  apply list_eq. intros n. rewrite !lookup_addNum.
  repeat case_decide; try done; destruct (projection !! n); simpl; f_equal; lia.
Qed.

Lemma addNum_cancel (projection : list Z) (i k : Z) :
  addNum (addNum projection i k) i (- k) = projection.
Proof.
  apply list_eq. intros n. rewrite !lookup_addNum.
  case_decide; [|done]. destruct (projection !! n); simpl; f_equal; lia.
Qed.

Lemma length_addNum (projection : list Z) (i k : Z) :
  length (addNum projection i k) = length projection.
Proof. unfold addNum. destruct (i <? 0)%Z; [done|apply length_alter]. Qed.

Lemma fold_addNum_cancel (f : Coordinate -> Z) (coords : list Coordinate) :
  forall projection,
    fold_left (fun p c => addNum p (f c) (-1)) coords
      (fold_left (fun p c => addNum p (f c) 1) coords projection) = projection.
Proof.
  assert (Hcomm : forall coords projection i a,
             fold_left (fun p c => addNum p (f c) 1) coords (addNum projection i a) =
             addNum (fold_left (fun p c => addNum p (f c) 1) coords projection) i a).
  { clear. induction coords as [|c coords IH]; intros p i a; [done|].
    cbn [fold_left]. rewrite <- IH. f_equal. apply addNum_addNum. }
  induction coords as [|c coords IH]; intros p; [done|].
  cbn [fold_left]. rewrite Hcomm, (addNum_cancel _ (f c) 1). apply IH.
Qed.

(** The components of the state after placing or removing a list of walls. *)
Lemma st_placeAll (coords : list Coordinate) :
  forall st,
    placeAll coords st =
    mkState (fold_left (fun d c => writeTile d (coord_x c) (coord_y c) WALL) coords (st_diagram st))
            (fold_left (fun p c => addNum p (coord_x c - 1) 1) coords (st_cur_row_projection st))
            (fold_left (fun p c => addNum p (coord_y c - 1) 1) coords (st_cur_column_projection st))
            (st_handled_treasure_ids st) (st_handled_monster_ids st)
            (st_treasure_room_lt_coords st).
Proof.
  unfold placeAll. induction coords as [|c coords IH]; intros st.
  - by destruct st.
  - cbn [fold_left]. rewrite IH. reflexivity.
Qed.

Lemma st_removeAll (coords : list Coordinate) :
  forall st,
    removeAll coords st =
    mkState (fold_left (fun d c => writeTile d (coord_x c) (coord_y c) EMPTY_SPACE) coords
               (st_diagram st))
            (fold_left (fun p c => addNum p (coord_x c - 1) (-1)) coords (st_cur_row_projection st))
            (fold_left (fun p c => addNum p (coord_y c - 1) (-1)) coords
               (st_cur_column_projection st))
            (st_handled_treasure_ids st) (st_handled_monster_ids st)
            (st_treasure_room_lt_coords st).
Proof.
  unfold removeAll. induction coords as [|c coords IH]; intros st.
  - by destruct st.
  - cbn [fold_left]. rewrite IH. reflexivity.
Qed.

(** Removing the walls placed on Empty tiles gives back the state, whatever
    the order and even with repeated coordinates. *)
Lemma removeAll_placeAll (coords : list Coordinate) (st : State) :
  Forall (tileIs (st_diagram st) EMPTY_SPACE) coords ->
  removeAll coords (placeAll coords st) = st.
Proof.
  intros Hempty. rewrite st_removeAll, st_placeAll. cbn [st_diagram st_cur_row_projection
    st_cur_column_projection st_handled_treasure_ids st_handled_monster_ids
    st_treasure_room_lt_coords].
  rewrite !fold_addNum_cancel. destruct st as [d cr cc ht hm lts]. cbn. f_equal.
  apply diagram_ext. intros x y. rewrite !readTile_fold_writeTile.
  case_decide as Hin; [|done].
  rewrite overwritten_overwritten.
  rewrite Forall_forall in Hempty. specialize (Hempty _ Hin).
  unfold tileIs in Hempty. cbn in Hempty. by rewrite Hempty.
Qed.

(** ** The search restores the state it was given when it fails *)

Lemma filterEmpty_spec (diagram : list (list TileType)) (coords kept : list Coordinate) :
  filterEmpty diagram coords = Ret kept ->
  Forall (tileIs diagram EMPTY_SPACE) kept /\ kept `sublist_of` coords.
Proof.
  revert kept. induction coords as [|c coords IH]; intros kept H.
  - injection H as <-. split; constructor.
  - cbn [filterEmpty] in H. bind_inv H. bind_inv H. injection H as <-.
    destruct (IH _ Hm0) as [Hall Hsub].
    destruct (cell_is EMPTY_SPACE a) eqn:Hc.
    + apply bool_decide_eq_true in Hc. subst a. split.
      * constructor; [exact Hm|exact Hall].
      * by constructor.
    + split; [exact Hall|by constructor].
Qed.

Lemma selects_Forall (P : Coordinate -> Prop) (array : list Coordinate)
    (indices : list nat) (coords : list Coordinate) :
  selects array indices coords -> Forall P array -> Forall P coords.
Proof.
  intros Hsel Hall. rewrite Forall_forall in Hall.
  induction Hsel as [|i c idx cs Hi _ IH]; constructor; [|exact IH].
  apply Hall. eapply list_elem_of_lookup_2, Hi.
Qed.

Lemma pop_pushTreasure (hash_id : Z) (lt_coord : Coordinate) (st : State) :
  popTreasure (pushTreasure hash_id lt_coord st) = st.
Proof. destruct st. unfold popTreasure, pushTreasure. cbn. by rewrite !removelast_last. Qed.

Lemma pop_pushMonster (hash_id : Z) (st : State) : popMonster (pushMonster hash_id st) = st.
Proof. destruct st. unfold popMonster, pushMonster. cbn. by rewrite !removelast_last. Qed.

Section Restore.

Variables row_projection column_projection : list Z.
Variables treasure_coords monster_coords : list Coordinate.
Variable fuel : nat.
Variable rec : State -> outcome (bool * State).
Hypothesis Hrec : restoresOnFalse rec.

Lemma placeAllBut_spec (i : nat) (coords : list Coordinate) :
  forall j placed_indices st placed_indices' st' before,
    length before = j ->
    placeAllBut row_projection column_projection i j coords placed_indices st =
      (placed_indices', st') ->
    exists new_indices placed,
      placed_indices' = placed_indices ++ new_indices /\
      selects (before ++ coords) new_indices placed /\
      st' = placeAll placed st.
Proof.
  induction coords as [|c coords IH]; intros j placed st placed' st' before Hlen H.
  - injection H as <- <-. exists [], []. rewrite app_nil_r. repeat split. constructor.
  - cbn [placeAllBut] in H. destruct (negb (j =? i)).
    + destruct (negb (isTilePlacable _ _ _ _ _ _)).
      * injection H as <- <-. exists [], []. rewrite app_nil_r. repeat split. constructor.
      * apply (IH _ _ _ _ _ (before ++ [c])) in H as (new & cs & -> & Hsel & ->);
          [|rewrite length_app; simpl; lia].
        exists (j :: new), (c :: cs). rewrite <- app_assoc in *. repeat split.
        constructor; [|exact Hsel]. subst j. by rewrite list_lookup_middle.
    + apply (IH _ _ _ _ _ (before ++ [c])) in H as (new & cs & -> & Hsel & ->);
        [|rewrite length_app; simpl; lia].
      exists new, cs. rewrite <- app_assoc in *. done.
Qed.

Lemma removePlaced_spec (empty_space_coords : list Coordinate) (placed_indices : list nat)
    (placed : list Coordinate) :
  selects empty_space_coords placed_indices placed ->
  forall st, removePlaced empty_space_coords placed_indices st = Ret (removeAll placed st).
Proof.
  induction 1 as [|i c idx cs Hi _ IH]; intros st; [done|].
  cbn [removePlaced]. rewrite Hi. apply IH.
Qed.

Lemma openingLoop_restore (push pop : State -> State) (empty_space_coords : list Coordinate) :
  (forall st, pop (push st) = st) ->
  forall indices is_satisfied st r st',
    Forall (tileIs (st_diagram st) EMPTY_SPACE) empty_space_coords ->
    openingLoop row_projection column_projection treasure_coords monster_coords fuel rec
      push pop empty_space_coords indices is_satisfied st = Ret (r, st') ->
    match r with
    | Return b => b = true
    | Next _ => st' = st
    end.
Proof.
  intros Hpop. induction indices as [|i indices IH]; intros sat st r st' Hempty H.
  - injection H as <- <-. done.
  - cbn [openingLoop] in H.
    destruct (placeAllBut _ _ i 0 empty_space_coords [] st) as [placed_indices st1] eqn:Hplace.
    apply (placeAllBut_spec _ _ _ _ _ _ _ []) in Hplace as (new & placed & -> & Hsel & ->);
      [|done].
    cbn [app] in *.
    assert (Hback : removeAll placed (placeAll placed st) = st).
    { apply removeAll_placeAll. eapply selects_Forall; eauto. }
    bind_inv H. destruct a.
    + bind_inv H. destruct a as [[] st2].
      * injection H as <- <-. done.
      * apply Hrec in Hm0. subst st2. rewrite Hpop in H.
        rewrite (removePlaced_spec _ _ _ Hsel), Hback in H. cbn [bind] in H.
        by apply IH in H.
    + rewrite (removePlaced_spec _ _ _ Hsel), Hback in H. cbn [bind] in H.
      by apply IH in H.
Qed.

Lemma roomLoop_restore (hash_id : Z) :
  forall lt_coords is_satisfied st r st',
    roomLoop row_projection column_projection treasure_coords monster_coords fuel rec
      hash_id lt_coords is_satisfied st = Ret (r, st') ->
    r = Return true \/ st' = st.
Proof.
  induction lt_coords as [|lt lt_coords IH]; intros sat st r st' H.
  - injection H as <- <-. by right.
  - cbn [roomLoop] in H.
    destruct (negb (isTRoomLTCoordAvailable _ _)); [by apply IH in H|].
    bind_inv H. destruct (negb a); [by apply IH in H|].
    bind_inv H. bind_inv H. destruct a1; [by apply IH in H|].
    destruct (_ <? 1)%Z; [injection H as <- <-; by right|].
    bind_inv H. destruct a1 as [r1 st1].
    apply filterEmpty_spec in Hm0 as [Hempty _].
    apply openingLoop_restore in Hm2; [|apply pop_pushTreasure|exact Hempty].
    destruct r1 as [b|sat2].
    + injection H as <- <-. subst b. by left.
    + subst st1. by apply IH in H.
Qed.

Lemma treasureLoop_restore :
  forall coords st r st',
    treasureLoop row_projection column_projection treasure_coords monster_coords fuel rec
      coords st = Ret (r, st') ->
    r = Return true \/ st' = st.
Proof.
  induction coords as [|c coords IH]; intros st r st' H.
  - injection H as <- <-. by right.
  - cbn [treasureLoop] in H. bind_inv H.
    destruct (negb (_ && _)); [by apply IH in H|].
    bind_inv H. destruct a0 as [r1 st1].
    apply roomLoop_restore in Hm0 as [-> | ->].
    + injection H as <- <-. by left.
    + destruct r1 as [b|sat].
      * injection H as <- <-. by right.
      * destruct (negb sat); [injection H as <- <-; by right|]. by apply IH in H.
Qed.

Lemma monsterLoop_restore :
  forall coords st r st',
    monsterLoop row_projection column_projection treasure_coords monster_coords fuel rec
      coords st = Ret (r, st') ->
    r = Return true \/ st' = st.
Proof.
  induction coords as [|c coords IH]; intros st r st' H.
  - injection H as <- <-. by right.
  - cbn [monsterLoop] in H. bind_inv H.
    destruct (negb (_ && _)); [by apply IH in H|].
    bind_inv H. bind_inv H. destruct a1 as [number_of_walls|].
    2:{ injection H as <- <-. by right. }
    destruct (4 <=? number_of_walls)%Z; [injection H as <- <-; by right|].
    bind_inv H. destruct a1 as [r1 st1].
    apply filterEmpty_spec in Hm0 as [Hempty _].
    apply openingLoop_restore in Hm2; [|apply pop_pushMonster|exact Hempty].
    destruct r1 as [b|sat].
    + injection H as <- <-. subst b. by left.
    + subst st1. destruct (negb sat); [injection H as <- <-; by right|]. by apply IH in H.
Qed.

Lemma collectAvailable_restore (row_i : Z) :
  forall column_indices available_coords st available_coords' st',
    Forall (tileIs (st_diagram st) EMPTY_SPACE) available_coords ->
    collectAvailable row_projection column_projection treasure_coords monster_coords fuel
      row_i column_indices available_coords st = Ret (available_coords', st') ->
    st' = st /\ Forall (tileIs (st_diagram st) EMPTY_SPACE) available_coords'.
Proof.
  induction column_indices as [|ci column_indices IH]; intros avail st avail' st' Hempty H.
  - injection H as <- <-. done.
  - cbn [collectAvailable] in H.
    destruct (_ <=? _)%Z; [by apply IH in H|].
    bind_inv H.
    destruct (cell_is EMPTY_SPACE a) eqn:Hc; cbn [andb negb] in H; [|by apply IH in H].
    destruct (negb (_ && _)); [by apply IH in H|].
    apply bool_decide_eq_true in Hc. subst a.
    bind_inv H.
    assert (Hback : removeWall (placeWall st (mkCoord (row_i + 1) (Z.of_nat ci + 1)))
                      (mkCoord (row_i + 1) (Z.of_nat ci + 1)) = st).
    { apply (removeAll_placeAll [_]). by constructor. }
    rewrite Hback in H. apply IH in H; [done|].
    destruct a; [|done]. apply Forall_app. split; [done|]. by constructor.
Qed.

Lemma forCombination_spec (update : State -> Coordinate -> State)
    (available_coords : list Coordinate) :
  forall combination st st',
    forCombination update available_coords combination st = Ret st' ->
    exists coords,
      selects available_coords combination coords /\ st' = fold_left update coords st.
Proof.
  induction combination as [|i combination IH]; intros st st' H.
  - injection H as <-. exists []. split; [constructor|done].
  - cbn [forCombination] in H. destruct (available_coords !! i) as [c|] eqn:Hi; [|done].
    apply IH in H as (cs & Hsel & ->). exists (c :: cs). split; [by constructor|done].
Qed.

Lemma selects_inj (array : list Coordinate) (indices : list nat)
    (coords1 coords2 : list Coordinate) :
  selects array indices coords1 -> selects array indices coords2 -> coords1 = coords2.
Proof.
  intros H1. revert coords2. induction H1 as [|i c idx cs Hi _ IH]; intros cs2 H2.
  - by inversion H2.
  - inversion H2 as [|? c' ? cs' Hi' Hrest]; subst. f_equal; [congruence|by apply IH].
Qed.

Lemma combinationLoop_restore (available_coords : list Coordinate) :
  forall combinations is_satisfied st r st',
    Forall (tileIs (st_diagram st) EMPTY_SPACE) available_coords ->
    combinationLoop treasure_coords monster_coords fuel rec available_coords combinations
      is_satisfied st = Ret (r, st') ->
    match r with
    | Return b => b = true
    | Next _ => st' = st
    end.
Proof.
  induction combinations as [|combination combinations IH]; intros sat st r st' Hempty H.
  - injection H as <- <-. done.
  - cbn [combinationLoop] in H. bind_inv H.
    apply forCombination_spec in Hm as (placed & Hsel & ->).
    assert (Hback : forall st3, forCombination removeWall available_coords combination
                                  (fold_left placeWall placed st) = Ret st3 -> st3 = st).
    { intros st3 H3. apply forCombination_spec in H3 as (placed' & Hsel' & ->).
      rewrite (selects_inj _ _ _ _ Hsel' Hsel).
      apply removeAll_placeAll. eapply selects_Forall; eauto. }
    bind_inv H. destruct a.
    + bind_inv H. destruct a as [[] st2].
      * injection H as <- <-. done.
      * apply Hrec in Hm0. subst st2. bind_inv H. apply Hback in Hm0. subst a.
        by apply IH in H.
    + bind_inv H. apply Hback in Hm0. subst a. by apply IH in H.
Qed.

Lemma rowLoop_restore :
  forall row_indices st st',
    rowLoop row_projection column_projection treasure_coords monster_coords fuel rec
      row_indices st = Ret (false, st') ->
    st' = st.
Proof.
  induction row_indices as [|ri row_indices IH]; intros st st' H.
  - by injection H as <-.
  - cbn [rowLoop] in H.
    destruct (_ <=? 0)%Z; [by apply IH in H|].
    bind_inv H. destruct a as [available_coords st1].
    apply collectAvailable_restore in Hm as [-> Hempty]; [|constructor].
    destruct (_ <? _)%Z; [by injection H as <-|].
    bind_inv H. bind_inv H. destruct a0 as [r st2].
    apply combinationLoop_restore in Hm0; [|exact Hempty].
    destruct r as [b|sat].
    + injection H as -> <-. done.
    + subst st2. destruct (negb sat); [by injection H as <-|]. by apply IH in H.
Qed.

Lemma dfs_body_restore (st st' : State) :
  dfs_body row_projection column_projection treasure_coords monster_coords fuel rec st =
    Ret (false, st') ->
  st' = st.
Proof.
  unfold dfs_body. intros H.
  destruct (isSatisfiedProjections _ _ _ _).
  { bind_inv H. by injection H as _ <-. }
  bind_inv H. destruct a as [r st1].
  apply treasureLoop_restore in Hm as [-> | ->]; [by injection H|].
  destruct r as [b|[]]; [by injection H as _ <-|].
  destruct (negb _); [by injection H as <-|].
  bind_inv H. destruct a as [r st2].
  apply monsterLoop_restore in Hm as [-> | ->]; [by injection H|].
  destruct r as [b|[]]; [by injection H as _ <-|].
  destruct (negb _); [by injection H as <-|].
  by apply rowLoop_restore in H.
Qed.

End Restore.

Lemma dfs_restoresOnFalse (fuel : nat) (row_projection column_projection : list Z)
    (treasure_coords monster_coords : list Coordinate) :
  restoresOnFalse (dfs fuel row_projection column_projection treasure_coords monster_coords).
Proof.
  induction fuel as [|fuel IH]; intros st st' H; [done|].
  cbn [dfs] in H. eapply dfs_body_restore; eauto.
Qed.




(** ** The monster phase *)

Lemma filterEmpty_readable (diagram : list (list TileType)) (coords : list Coordinate) :
  Forall (readable diagram) coords -> exists kept, filterEmpty diagram coords = Ret kept.
Proof.
  induction 1 as [|c coords [cl Hc] _ [kept IH]]; [by exists []|].
  cbn [filterEmpty]. rewrite Hc, IH. cbn [bind]. eauto.
Qed.

Lemma countMonsterWalls_special (diagram : list (list TileType)) (coords : list Coordinate) :
  Forall (readable diagram) coords ->
  Exists (fun c => tileIs diagram TREASURE c \/ tileIs diagram MONSTER c) coords ->
  forall number_of_walls, countMonsterWalls diagram coords number_of_walls = Ret None.
Proof.
  intros Hread Hex. induction Hex as [c coords Hc|c coords _ IH]; intros n.
  - cbn [countMonsterWalls]. destruct Hc as [Hc|Hc]; unfold tileIs in Hc; by rewrite Hc.
  - apply Forall_cons in Hread as [[cl Hc] Hread]. cbn [countMonsterWalls]. rewrite Hc.
    cbn [bind]. destruct cl as [|[]]; auto.
Qed.

Section MonsterPhase.

Variables row_projection column_projection : list Z.
Variables treasure_coords monster_coords : list Coordinate.
Variable fuel : nat.
Variable rec : State -> outcome (bool * State).

Lemma treasureLoop_passedOver (coords : list Coordinate) (st : State) :
  Forall (passedOver TREASURE (st_handled_treasure_ids st) (st_diagram st)) coords ->
  treasureLoop row_projection column_projection treasure_coords monster_coords fuel rec
    coords st = Ret (Next tt, st).
Proof.
  induction 1 as [|c coords (cl & Hc & Hskip) _ IH]; [done|].
  cbn [treasureLoop]. rewrite Hc. cbn [bind]. rewrite Hskip. exact IH.
Qed.

Lemma monsterLoop_passedOver (before rest : list Coordinate) (st : State) :
  Forall (passedOver MONSTER (st_handled_monster_ids st) (st_diagram st)) before ->
  monsterLoop row_projection column_projection treasure_coords monster_coords fuel rec
    (before ++ rest) st =
  monsterLoop row_projection column_projection treasure_coords monster_coords fuel rec
    rest st.
Proof.
  induction 1 as [|c coords (cl & Hc & Hskip) _ IH]; [done|].
  cbn [monsterLoop app]. rewrite Hc. cbn [bind]. rewrite Hskip. exact IH.
Qed.

(** The step of the monster loop at an unresolved monster one of whose
    neighbours is a Treasure or a Monster: [return false], before any wall is
    placed and without any recursive call. *)
Lemma monsterLoop_special_neighbour (monster_coord : Coordinate) (rest : list Coordinate)
    (st : State) :
  tileIs (st_diagram st) MONSTER monster_coord ->
  includes (getHashId (coord_x monster_coord) (coord_y monster_coord))
    (st_handled_monster_ids st) = false ->
  Forall (readable (st_diagram st))
    (get4DirectionCoords (coord_x monster_coord) (coord_y monster_coord)) ->
  Exists (fun c => tileIs (st_diagram st) TREASURE c \/ tileIs (st_diagram st) MONSTER c)
    (get4DirectionCoords (coord_x monster_coord) (coord_y monster_coord)) ->
  monsterLoop row_projection column_projection treasure_coords monster_coords fuel rec
    (monster_coord :: rest) st = Ret (Return false, st).
Proof.
  intros Htile Hunhandled Hread Hspecial. cbn [monsterLoop].
  unfold tileIs in Htile. rewrite Htile. cbn [bind]. rewrite Hunhandled.
  change (cell_is MONSTER (Tile MONSTER)) with true. cbn [andb negb].
  destruct (filterEmpty_readable _ _ Hread) as [kept ->]. cbn [bind].
  by rewrite countMonsterWalls_special.
Qed.

End MonsterPhase.

(** ** The candidates of the deficit phase *)



(** ** The search on particular puzzles *)

(** With fuel for its flood fill, [dfs] returns false on the all-Empty board
    with all-zero projections. *)
Lemma dfs_empty_zero_fuel (k : nat) :
  dfs (150 + k) zero_projection zero_projection [] []
    (initialState (augmentRawDiagram raw_empty)) =
  Ret (false, initialState (augmentRawDiagram raw_empty)).
Proof. vm_compute. reflexivity. Qed.

(** C3 (amended). On the puzzle with all-zero projections and an all-Empty
    board, [dfs] returns false, whatever fuel it is given beyond what its
    flood fill needs, and leaves the board all-Empty: the projections are met
    on entry, and the final validation rejects the board because it is full of
    open 2x2 blocks. *)
Theorem dfs_empty_zero (k : nat) :
  dfs (150 + k) zero_projection zero_projection [] []
    (initialState (augmentRawDiagram raw_empty)) =
    Ret (false, initialState (augmentRawDiagram raw_empty)) /\
  solve (150 + k) zero_projection zero_projection raw_empty =
    Ret (false, initialState (augmentRawDiagram raw_empty)) /\
  isSatisfiedProjections zero_projection zero_projection zero_projection zero_projection = true /\
  checkEmptySpacesConnectivity (150 + k) (augmentRawDiagram raw_empty) = Ret true /\
  checkHallways (augmentRawDiagram raw_empty) [] = Ret false /\
  openBlock (augmentRawDiagram raw_empty) [].
Proof.
  split; [apply dfs_empty_zero_fuel|].
  repeat split; try (vm_compute; reflexivity).
  exists 1%Z, 1%Z.
  repeat split; first [by intros ? ?%elem_of_nil | vm_compute; reflexivity].
Qed.

(** C3, as stated, fails: with no amount of fuel does [dfs] return true on
    that puzzle. *)
Lemma dfs_empty_zero_never_true :
  ~ exists fuel st',
      dfs fuel zero_projection zero_projection [] []
        (initialState (augmentRawDiagram raw_empty)) = Ret (true, st').
Proof.
  intros (fuel & st' & H).
  destruct (Nat.lt_ge_cases fuel 150) as [Hlt|Hge].
  - assert (Hall : forallb (fun f => negb (returnsTrue
                      (dfs f zero_projection zero_projection [] []
                         (initialState (augmentRawDiagram raw_empty))))) (seq 0 150) = true)
      by (vm_compute; reflexivity).
    rewrite forallb_forall in Hall. specialize (Hall fuel).
    rewrite H in Hall. discriminate Hall. apply in_seq. lia.
  - replace fuel with (150 + (fuel - 150)) in H by lia.
    rewrite dfs_empty_zero_fuel in H. discriminate H.
Qed.

(** C1 at inputs with walls on the board.  On the board that is all walls,
    with all-zero projections, [dfs] returns true at once although every row
    and column holds eight walls.  On the ring puzzle with one wall given and
    the projections lowered by one, the search returns true, with its counters
    equal to the projections, on a grid whose second row and second column
    hold six walls where the projections say five; with the projections of the
    ring itself it finds no solution. *)
Theorem solve_walls_projection_mismatch :
  (solve 100 zero_projection zero_projection raw_walls =
     Ret (true, initialState (augmentRawDiagram raw_walls)) /\
   wallsInRow (augmentRawDiagram raw_walls) 1 = 8 /\
   wallsInColumn (augmentRawDiagram raw_walls) 1 = 8 /\
   getNum zero_projection 0 = 0%Z) /\
  (returnsTrue (solve 100 ring_projection_less_one ring_projection_less_one raw_one_wall) = true /\
   st_cur_row_projection
     (finalState (solve 100 ring_projection_less_one ring_projection_less_one raw_one_wall)) =
     ring_projection_less_one /\
   st_cur_column_projection
     (finalState (solve 100 ring_projection_less_one ring_projection_less_one raw_one_wall)) =
     ring_projection_less_one /\
   wallsInRow
     (st_diagram
        (finalState (solve 100 ring_projection_less_one ring_projection_less_one raw_one_wall)))
     2 = 6 /\
   wallsInColumn
     (st_diagram
        (finalState (solve 100 ring_projection_less_one ring_projection_less_one raw_one_wall)))
     2 = 6 /\
   getNum ring_projection_less_one 1 = 5%Z /\
   solve 100 ring_projection ring_projection raw_one_wall =
     Ret (false, initialState (augmentRawDiagram raw_one_wall))).
Proof. repeat split; vm_compute; reflexivity. Qed.

(** C6 at the same inputs.  On entry to the first call of [dfs] every counter
    is 0, while each row and column of the all-walls board holds eight walls,
    and the second row and second column of the other board hold one. *)
Theorem initialState_counter_mismatch :
  (getTreasureAndMonsterCoords (augmentRawDiagram raw_walls) = Ret ([], []) /\
   getNum (st_cur_row_projection (initialState (augmentRawDiagram raw_walls))) 0 = 0%Z /\
   wallsInRow (st_diagram (initialState (augmentRawDiagram raw_walls))) 1 = 8 /\
   getNum (st_cur_column_projection (initialState (augmentRawDiagram raw_walls))) 0 = 0%Z /\
   wallsInColumn (st_diagram (initialState (augmentRawDiagram raw_walls))) 1 = 8) /\
  (getTreasureAndMonsterCoords (augmentRawDiagram raw_one_wall) = Ret ([], []) /\
   getNum (st_cur_row_projection (initialState (augmentRawDiagram raw_one_wall))) 1 = 0%Z /\
   wallsInRow (st_diagram (initialState (augmentRawDiagram raw_one_wall))) 2 = 1 /\
   getNum (st_cur_column_projection (initialState (augmentRawDiagram raw_one_wall))) 1 = 0%Z /\
   wallsInColumn (st_diagram (initialState (augmentRawDiagram raw_one_wall))) 2 = 1 /\
   getNum
     (st_cur_row_projection
        (finalState (solve 100 ring_projection_less_one ring_projection_less_one raw_one_wall)))
     1 = 5%Z /\
   wallsInRow
     (st_diagram
        (finalState (solve 100 ring_projection_less_one ring_projection_less_one raw_one_wall)))
     2 = 6).
Proof. repeat split; vm_compute; reflexivity. Qed.

(** C4 on the puzzle with one treasure.  When the treasure phase makes its
    first recursive call the room at (1, 1) is valid and its ring tile (4, 1)
    is the opening.  In that call the deficit phase collects (4, 1) as a
    candidate for the fourth row, although walling it leaves the treasure
    without a valid room: the result of [checkTreasureRooms] is an array, and
    as an operand of [&&] it never fails. *)
Theorem collectAvailable_keeps_room_breaking_tile :
  getTreasureAndMonsterCoords (augmentRawDiagram raw_treasure) = Ret ([mkCoord 2 2], []) /\
  dfs_body treasure_projection treasure_projection [mkCoord 2 2] [] 100
    (fun st => Ret (true, st)) (initialState (augmentRawDiagram raw_treasure)) =
    Ret (true, treasure_committed) /\
  checkTreasureRooms [mkCoord 2 2] (st_diagram treasure_committed) = Ret (true, [mkCoord 1 1]) /\
  collectAvailable treasure_projection treasure_projection [mkCoord 2 2] [] 100
    3 (seq 0 8) [] treasure_committed = Ret ([mkCoord 4 1], treasure_committed) /\
  checkTreasureRooms [mkCoord 2 2] (st_diagram (placeWall treasure_committed (mkCoord 4 1))) =
    Ret (false, []) /\
  preChecks [mkCoord 2 2] [] 100 (st_diagram (placeWall treasure_committed (mkCoord 4 1))) =
    Ret true.
Proof. repeat split; vm_compute; reflexivity. Qed.

(** ** The counters count the walls the search has placed *)

Lemma tileIs_writeTile_other (diagram : list (list TileType)) (x y : Z) (t t' : TileType)
    (coord : Coordinate) :
  coord <> mkCoord x y ->
  tileIs (writeTile diagram x y t) t' coord <-> tileIs diagram t' coord.
Proof.
  intros Hne. unfold tileIs. rewrite readTile_writeTile.
  rewrite decide_False; [done|]. intros [-> ->]. by destruct coord.
Qed.

Lemma countTiles_writeTile_other (diagram : list (list TileType)) (x y : Z) (t t' : TileType)
    (coords : list Coordinate) :
  mkCoord x y ∉ coords ->
  countTiles (writeTile diagram x y t) t' coords = countTiles diagram t' coords.
Proof.
  induction coords as [|c coords IH]; intros Hnot; [done|].
  apply not_elem_of_cons in Hnot as [Hne Hnot].
  rewrite !countTiles_cons, IH by done.
  repeat case_decide; try done; exfalso;
    match goal with H : ~ _ |- _ => apply H end;
    [by apply tileIs_writeTile_other in H|by apply tileIs_writeTile_other].
Qed.

(** A wall placed on an Empty tile adds one to the count of walls of any
    duplicate-free list of coordinates that contains it. *)
Lemma countTiles_placed (diagram : list (list TileType)) (x y : Z) (coords : list Coordinate) :
  NoDup coords ->
  tileIs diagram EMPTY_SPACE (mkCoord x y) ->
  countTiles (writeTile diagram x y WALL) WALL coords =
  countTiles diagram WALL coords + (if decide (mkCoord x y ∈ coords) then 1 else 0).
Proof.
  intros Hnd Hempty. induction Hnd as [|c coords Hnot _ IH].
  - rewrite decide_False by apply not_elem_of_nil. done.
  - rewrite !countTiles_cons. destruct (decide (c = mkCoord x y)) as [->|Hne].
    + rewrite countTiles_writeTile_other by done.
      rewrite (decide_True (P := _ ∈ _ :: _)) by (by left).
      rewrite decide_True.
      2:{ unfold tileIs. cbn. rewrite readTile_writeTile, decide_True by done.
          unfold tileIs in Hempty. cbn in Hempty. by rewrite Hempty. }
      rewrite decide_False; [lia|].
      unfold tileIs in *. cbn in *. rewrite Hempty. congruence.
    + rewrite IH.
      assert (Hiff : tileIs (writeTile diagram x y WALL) WALL c <-> tileIs diagram WALL c)
        by (by apply tileIs_writeTile_other).
      destruct (decide (mkCoord x y ∈ coords)) as [Hin|Hnin].
      * rewrite (decide_True (P := _ ∈ _ :: _)) by (by right).
        repeat case_decide; tauto || lia.
      * rewrite (decide_False (P := _ ∈ _ :: _)).
        2:{ intros [?|?]%elem_of_cons; congruence. }
        repeat case_decide; tauto || lia.
Qed.

Lemma NoDup_interior_indices : NoDup interior_indices.
Proof.
  unfold interior_indices. apply NoDup_fmap_2; [|apply NoDup_seq].
  intros ? ? ?. lia.
Qed.

Lemma NoDup_rowCoords (x : Z) : NoDup (rowCoords x).
Proof.
  unfold rowCoords. apply NoDup_fmap_2; [|apply NoDup_interior_indices].
  intros ? ? ?. congruence.
Qed.

Lemma NoDup_columnCoords (y : Z) : NoDup (columnCoords y).
Proof.
  unfold columnCoords. apply NoDup_fmap_2; [|apply NoDup_interior_indices].
  intros ? ? ?. congruence.
Qed.

Lemma elem_of_rowCoords (r x y : Z) :
  mkCoord x y ∈ rowCoords r <-> x = r /\ (1 <= y <= 8)%Z.
Proof.
  unfold rowCoords. rewrite list_elem_of_fmap. setoid_rewrite elem_of_interior_indices. split.
  - intros (y' & [= -> ->] & ?). done.
  - intros [-> ?]. by exists y.
Qed.

Lemma elem_of_columnCoords (c x y : Z) :
  mkCoord x y ∈ columnCoords c <-> y = c /\ (1 <= x <= 8)%Z.
Proof.
  unfold columnCoords. rewrite list_elem_of_fmap. setoid_rewrite elem_of_interior_indices. split.
  - intros (x' & [= -> ->] & ?). done.
  - intros [-> ?]. by exists x.
Qed.

Lemma wallsInRow_placed (diagram : list (list TileType)) (x y r : Z) :
  tileIs diagram EMPTY_SPACE (mkCoord x y) -> (1 <= y <= 8)%Z ->
  wallsInRow (writeTile diagram x y WALL) r =
  wallsInRow diagram r + (if decide (x = r) then 1 else 0).
Proof.
  intros Hempty Hy. unfold wallsInRow. fold (rowCoords r).
  rewrite countTiles_placed by (done || apply NoDup_rowCoords).
  f_equal. repeat case_decide; try done.
  - by apply elem_of_rowCoords in H as [? _].
  - exfalso. apply H. by apply elem_of_rowCoords.
Qed.

Lemma wallsInColumn_placed (diagram : list (list TileType)) (x y c : Z) :
  tileIs diagram EMPTY_SPACE (mkCoord x y) -> (1 <= x <= 8)%Z ->
  wallsInColumn (writeTile diagram x y WALL) c =
  wallsInColumn diagram c + (if decide (y = c) then 1 else 0).
Proof.
  intros Hempty Hx. unfold wallsInColumn. fold (columnCoords c).
  rewrite countTiles_placed by (done || apply NoDup_columnCoords).
  f_equal. repeat case_decide; try done.
  - by apply elem_of_columnCoords in H as [? _].
  - exfalso. apply H. by apply elem_of_columnCoords.
Qed.

Lemma getNum_addNum (projection : list Z) (i k j : Z) :
  (0 <= i < Z.of_nat (length projection))%Z -> (0 <= j)%Z ->
  getNum (addNum projection i k) j =
  (getNum projection j + (if decide (i = j) then k else 0))%Z.
Proof.
  intros Hi Hj. unfold getNum. rewrite lookup_addNum.
  destruct (decide (i = j)) as [->|Hne].
  - rewrite decide_True by lia.
    destruct (lookup_lt_is_Some_2 projection (Z.to_nat j)) as [v ->]; [lia|]. done.
  - rewrite decide_False by lia. lia.
Qed.

Lemma isTilePlacable_true (row_i column_i : Z)
    (cur_row_projection cur_column_projection row_projection column_projection : list Z) :
  isTilePlacable row_i column_i cur_row_projection cur_column_projection
    row_projection column_projection = true ->
  (0 <= row_i < Z.of_nat (length cur_row_projection))%Z /\
  (0 <= column_i < Z.of_nat (length cur_column_projection))%Z /\
  (getNum cur_row_projection row_i + 1 <= getNum row_projection row_i)%Z /\
  (getNum cur_column_projection column_i + 1 <= getNum column_projection column_i)%Z.
Proof.
  unfold isTilePlacable, has_index. intros H.
  destruct (_ && _ && _ && _) eqn:Hidx; cbn [negb] in H; [|done].
  apply andb_prop in H as [H1 H2].
  repeat (apply andb_prop in Hidx as [Hidx ?]).
  repeat match goal with
         | H : (_ && _) = true |- _ => apply andb_prop in H as [? ?]
         end.
  lia.
Qed.

Section Invariant.

Variable initial : list (list TileType).
Variables row_projection column_projection : list Z.

(** One wall placed on an Empty interior tile whose row and column have room
    for it. *)
Lemma placeWall_invariant (st : State) (coord : Coordinate) :
  searchInvariant initial row_projection column_projection st ->
  tileIs (st_diagram st) EMPTY_SPACE coord ->
  (1 <= coord_x coord <= 8)%Z -> (1 <= coord_y coord <= 8)%Z ->
  (getNum (st_cur_row_projection st) (coord_x coord - 1) + 1 <=
     getNum row_projection (coord_x coord - 1))%Z ->
  (getNum (st_cur_column_projection st) (coord_y coord - 1) + 1 <=
     getNum column_projection (coord_y coord - 1))%Z ->
  searchInvariant initial row_projection column_projection (placeWall st coord).
Proof.
  intros [(Hlr & Hlc & Htrack) Hwithin] Hempty Hx Hy Hrow Hcol.
  destruct coord as [x y]. cbn [coord_x coord_y] in *.
  unfold searchInvariant, countersTrack, withinTargets, placeWall.
  cbn [st_diagram st_cur_row_projection st_cur_column_projection coord_x coord_y].
  rewrite !length_addNum. unfold withinTargets in Hwithin.
  rewrite Forall_forall in Htrack, Hwithin.
  split; [split; [done|split; [done|]]|]; apply Forall_forall; intros i Hi;
    specialize (Htrack i Hi); specialize (Hwithin i Hi); apply elem_of_seq in Hi;
    rewrite ?wallsInRow_placed, ?wallsInColumn_placed by done;
    rewrite !getNum_addNum by lia;
    repeat case_decide; subst; try lia.
  all: repeat match goal with
              | He : (_ - 1)%Z = Z.of_nat _ |- _ => rewrite He in *; clear He
              end; lia.
Qed.

Lemma tileIs_placeWall_other (st : State) (coord coord' : Coordinate) (t : TileType) :
  coord' <> coord ->
  tileIs (st_diagram (placeWall st coord)) t coord' <-> tileIs (st_diagram st) t coord'.
Proof. intros Hne. destruct coord. by apply tileIs_writeTile_other. Qed.

(** The walls of the [j] loop, each placed only where [isTilePlacable] allows. *)
Lemma placeAllBut_invariant (i : nat) (coords : list Coordinate) :
  forall j placed_indices st placed_indices' st',
    NoDup coords ->
    Forall (tileIs (st_diagram st) EMPTY_SPACE) coords ->
    searchInvariant initial row_projection column_projection st ->
    placeAllBut row_projection column_projection i j coords placed_indices st =
      (placed_indices', st') ->
    searchInvariant initial row_projection column_projection st'.
Proof.
  induction coords as [|c coords IH]; intros j placed st placed' st' Hnd Hempty Hinv H.
  - by injection H as _ <-.
  - apply NoDup_cons in Hnd as [Hnot Hnd]. apply Forall_cons in Hempty as [Hc Hempty].
    cbn [placeAllBut] in H. destruct (negb (j =? i)); [|by eapply IH].
    destruct (isTilePlacable _ _ _ _ _ _) eqn:Hplace; cbn [negb] in H.
    2:{ by injection H as _ <-. }
    apply isTilePlacable_true in Hplace as (Hr & Hcl & Hrow & Hcol).
    destruct Hinv as [(Hlr & Hlc & Htrack) Hwithin].
    eapply IH in H; [exact H|exact Hnd| |].
    + rewrite Forall_forall in Hempty. apply Forall_forall. intros c' Hin.
      apply tileIs_placeWall_other; [|by apply Hempty]. intros ->. done.
    + apply placeWall_invariant; [done|done|lia|lia|done|done].
Qed.

(** The walls of a combination: all in row [row_i + 1], in different columns,
    no more than the row still asks for, each in a column with room for one. *)
Lemma placeAll_row_invariant (row_i : Z) (coords : list Coordinate) :
  forall st,
    NoDup coords ->
    Forall (fun c => coord_x c = (row_i + 1)%Z /\ (1 <= coord_y c <= 8)%Z /\
                     tileIs (st_diagram st) EMPTY_SPACE c /\
                     (getNum (st_cur_column_projection st) (coord_y c - 1) + 1 <=
                        getNum column_projection (coord_y c - 1))%Z) coords ->
    (0 <= row_i < 8)%Z ->
    (getNum (st_cur_row_projection st) row_i + Z.of_nat (length coords) <=
       getNum row_projection row_i)%Z ->
    searchInvariant initial row_projection column_projection st ->
    searchInvariant initial row_projection column_projection (placeAll coords st).
Proof.
  induction coords as [|c coords IH]; intros st Hnd Hall Hri Hrow Hinv; [done|].
  apply NoDup_cons in Hnd as [Hnot Hnd].
  apply Forall_cons in Hall as [(Hx & Hy & Hc & Hcol) Hall].
  cbn [length] in Hrow. unfold placeAll. cbn [fold_left]. fold (placeAll coords (placeWall st c)).
  assert (Hlens : length (st_cur_row_projection st) = 8 /\
                  length (st_cur_column_projection st) = 8).
  { destruct Hinv as [(? & ? & _) _]. done. }
  destruct Hlens as [Hlr Hlc].
  apply IH; [exact Hnd| |exact Hri| |].
  - rewrite Forall_forall in Hall. apply Forall_forall. intros c' Hin.
    destruct (Hall c' Hin) as (Hx' & Hy' & Hc' & Hcol').
    assert (Hne : c' <> c) by (intros ->; done).
    split; [done|]. split; [done|]. split; [by apply tileIs_placeWall_other|].
    unfold placeWall. cbn [st_cur_column_projection].
    rewrite getNum_addNum by lia. rewrite decide_False; [lia|].
    intros Heq. apply Hne. destruct c, c'. cbn in *. f_equal; lia.
  - unfold placeWall. cbn [st_cur_row_projection].
    rewrite getNum_addNum by lia. rewrite decide_True by lia. lia.
  - apply placeWall_invariant; try done; try lia.
    replace (coord_x c - 1)%Z with row_i by lia. lia.
Qed.

End Invariant.

Ltac distinct_coords :=
  repeat (apply NoDup_cons; split;
          [rewrite ?elem_of_cons, elem_of_nil; intros Hdup;
           repeat (destruct Hdup as [Hdup|Hdup]); try done; injection Hdup; lia|]);
  apply NoDup_nil; exact I.

Lemma NoDup_getTRoomOuterTileCoords (x y : Z) : NoDup (getTRoomOuterTileCoords x y).
Proof. unfold getTRoomOuterTileCoords. distinct_coords. Qed.

Lemma NoDup_get4DirectionCoords (x y : Z) : NoDup (get4DirectionCoords x y).
Proof. unfold get4DirectionCoords. distinct_coords. Qed.

Lemma selects_elem (array : list Coordinate) (indices : list nat) (coords : list Coordinate)
    (coord : Coordinate) :
  selects array indices coords -> coord ∈ coords ->
  exists index, index ∈ indices /\ array !! index = Some coord.
Proof.
  induction 1 as [|i c idx cs Hi _ IH]; intros Hin.
  - by apply elem_of_nil in Hin.
  - apply elem_of_cons in Hin as [-> | Hin].
    + exists i. split; [by left|done].
    + destruct (IH Hin) as (j & ? & ?). exists j. split; [by right|done].
Qed.

Lemma selects_NoDup (array : list Coordinate) (indices : list nat) (coords : list Coordinate) :
  NoDup array -> NoDup indices -> selects array indices coords -> NoDup coords.
Proof.
  intros Harr Hidx Hsel. induction Hsel as [|i c idx cs Hi Hsel IH]; [constructor|].
  apply NoDup_cons in Hidx as [Hnot Hidx]. apply NoDup_cons. split; [|by apply IH].
  intros Hin. destruct (selects_elem _ _ _ _ Hsel Hin) as (j & Hj & Hlook).
  assert (i = j) by (by apply (NoDup_lookup array i j c)). by subst.
Qed.

Lemma selects_length (array : list Coordinate) (indices : list nat) (coords : list Coordinate) :
  selects array indices coords -> length coords = length indices.
Proof. intros H. symmetry. eapply Forall2_length, H. Qed.

Lemma StronglySorted_lt_NoDup (l : list nat) : StronglySorted lt l -> NoDup l.
Proof.
  induction 1 as [|i l _ IH Hall]; [constructor|].
  apply NoDup_cons. split; [|exact IH].
  intros Hin. rewrite Forall_forall in Hall. specialize (Hall i Hin). lia.
Qed.

Lemma isSatisfiedProjections_true (cur_row_projection cur_column_projection
    row_projection column_projection : list Z) :
  isSatisfiedProjections cur_row_projection cur_column_projection
    row_projection column_projection = true ->
  forall i : nat,
    (i < length cur_row_projection ->
     getNum cur_row_projection (Z.of_nat i) = getNum row_projection (Z.of_nat i)) /\
    (i < length cur_column_projection ->
     getNum cur_column_projection (Z.of_nat i) = getNum column_projection (Z.of_nat i)).
Proof.
  unfold isSatisfiedProjections. intros H i.
  destruct (_ && _); cbn [negb] in H; [|done].
  apply andb_prop in H as [Hr Hc]. rewrite forallb_forall in Hr, Hc.
  split; intros Hi.
  - apply Z.eqb_eq, Hr, in_seq. lia.
  - apply Z.eqb_eq, Hc, in_seq. lia.
Qed.

Section InvariantOfSearch.

Variable initial : list (list TileType).
Variables row_projection column_projection : list Z.
Variables treasure_coords monster_coords : list Coordinate.
Variable fuel : nat.
Variable rec : State -> outcome (bool * State).
Hypothesis Hrec_false : restoresOnFalse rec.
Hypothesis Hrec_true : solvesOnTrue initial row_projection column_projection rec.

Local Abbreviation invariant := (searchInvariant initial row_projection column_projection).
Local Abbreviation solved := (solvedState initial row_projection column_projection).

Lemma openingLoop_solves (push pop : State -> State) (empty_space_coords : list Coordinate) :
  (forall st, pop (push st) = st) ->
  (forall st, invariant st -> invariant (push st)) ->
  NoDup empty_space_coords ->
  forall indices is_satisfied st st',
    invariant st ->
    Forall (tileIs (st_diagram st) EMPTY_SPACE) empty_space_coords ->
    openingLoop row_projection column_projection treasure_coords monster_coords fuel rec
      push pop empty_space_coords indices is_satisfied st = Ret (Return true, st') ->
    solved st'.
Proof.
  intros Hpop Hpush Hnd.
  induction indices as [|i indices IH]; intros sat st st' Hinv Hempty H; [done|].
  cbn [openingLoop] in H.
  destruct (placeAllBut _ _ i 0 empty_space_coords [] st) as [placed_indices st1] eqn:Hplace.
  pose proof (placeAllBut_invariant _ _ _ _ _ _ _ _ _ _ Hnd Hempty Hinv Hplace) as Hinv1.
  apply (placeAllBut_spec _ _ _ _ _ _ _ _ _ []) in Hplace as (new & placed & -> & Hsel & ->);
    [|done].
  cbn [app] in *.
  assert (Hback : removeAll placed (placeAll placed st) = st).
  { apply removeAll_placeAll. eapply selects_Forall; eauto. }
  bind_inv H. destruct a.
  - bind_inv H. destruct a as [[] st2].
    + injection H as <-. eapply Hrec_true; [|exact Hm0]. by apply Hpush.
    + apply Hrec_false in Hm0. subst st2. rewrite Hpop in H.
      rewrite (removePlaced_spec _ _ _ Hsel), Hback in H. cbn [bind] in H.
      exact (IH _ _ _ Hinv Hempty H).
  - rewrite (removePlaced_spec _ _ _ Hsel), Hback in H. cbn [bind] in H.
    exact (IH _ _ _ Hinv Hempty H).
Qed.

Lemma roomLoop_solves (hash_id : Z) :
  forall lt_coords is_satisfied st st',
    invariant st ->
    roomLoop row_projection column_projection treasure_coords monster_coords fuel rec
      hash_id lt_coords is_satisfied st = Ret (Return true, st') ->
    solved st'.
Proof.
  induction lt_coords as [|lt lt_coords IH]; intros sat st st' Hinv H; [done|].
  cbn [roomLoop] in H.
  destruct (negb (isTRoomLTCoordAvailable _ _)); [eapply IH; eauto|].
  bind_inv H. destruct (negb a); [eapply IH; eauto|].
  bind_inv H. bind_inv H. destruct a1; [eapply IH; eauto|].
  destruct (_ <? 1)%Z; [done|].
  bind_inv H. destruct a1 as [r1 st1].
  apply filterEmpty_spec in Hm0 as [Hempty Hsub].
  assert (Hnd : NoDup a0).
  { eapply sublist_NoDup; [apply NoDup_getTRoomOuterTileCoords|exact Hsub]. }
  destruct r1 as [b|sat'].
  - injection H as -> <-.
    eapply openingLoop_solves; [apply pop_pushTreasure| |exact Hnd|exact Hinv|exact Hempty|
                                exact Hm2].
    intros s Hs. exact Hs.
  - apply (openingLoop_restore _ _ _ _ _ _ Hrec_false) in Hm2;
      [|apply pop_pushTreasure|exact Hempty].
    subst st1. eapply IH; eauto.
Qed.

Lemma treasureLoop_solves :
  forall coords st st',
    invariant st ->
    treasureLoop row_projection column_projection treasure_coords monster_coords fuel rec
      coords st = Ret (Return true, st') ->
    solved st'.
Proof.
  induction coords as [|c coords IH]; intros st st' Hinv H; [done|].
  cbn [treasureLoop] in H. bind_inv H.
  destruct (negb (_ && _)); [eapply IH; eauto|].
  bind_inv H. destruct a0 as [r1 st1].
  destruct r1 as [b|sat].
  - injection H as -> <-. by eapply roomLoop_solves.
  - apply (roomLoop_restore _ _ _ _ _ _ Hrec_false) in Hm0 as [?| ->]; [done|].
    destruct (negb sat); [done|]. eapply IH; eauto.
Qed.

Lemma monsterLoop_solves :
  forall coords st st',
    invariant st ->
    monsterLoop row_projection column_projection treasure_coords monster_coords fuel rec
      coords st = Ret (Return true, st') ->
    solved st'.
Proof.
  induction coords as [|c coords IH]; intros st st' Hinv H; [done|].
  cbn [monsterLoop] in H. bind_inv H.
  destruct (negb (_ && _)); [eapply IH; eauto|].
  bind_inv H. bind_inv H. destruct a1 as [number_of_walls|]; [|done].
  destruct (4 <=? number_of_walls)%Z; [done|].
  bind_inv H. destruct a1 as [r1 st1].
  apply filterEmpty_spec in Hm0 as [Hempty Hsub].
  assert (Hnd : NoDup a0).
  { eapply sublist_NoDup; [apply NoDup_get4DirectionCoords|exact Hsub]. }
  destruct r1 as [b|sat].
  - injection H as -> <-.
    eapply openingLoop_solves; [apply pop_pushMonster| |exact Hnd|exact Hinv|exact Hempty|
                                exact Hm2].
    intros s Hs. exact Hs.
  - apply (openingLoop_restore _ _ _ _ _ _ Hrec_false) in Hm2;
      [|apply pop_pushMonster|exact Hempty].
    subst st1. destruct (negb sat); [done|]. eapply IH; eauto.
Qed.

(** The candidates are cells of row [row_i + 1] in increasing columns, each
    Empty and projection-legal in the state the phase started from. *)
Lemma collectAvailable_columns (row_i : Z) :
  forall column_indices available_coords st available_coords' st',
    collectAvailable row_projection column_projection treasure_coords monster_coords fuel
      row_i column_indices available_coords st = Ret (available_coords', st') ->
    exists columns,
      columns `sublist_of` column_indices /\
      available_coords' =
        available_coords ++ map (fun ci => mkCoord (row_i + 1) (Z.of_nat ci + 1)) columns /\
      Forall (fun ci =>
                tileIs (st_diagram st) EMPTY_SPACE (mkCoord (row_i + 1) (Z.of_nat ci + 1)) /\
                isTilePlacable row_i (Z.of_nat ci)
                  (st_cur_row_projection st) (st_cur_column_projection st)
                  row_projection column_projection = true) columns.
Proof.
  induction column_indices as [|ci column_indices IH]; intros avail st avail' st' H.
  - injection H as <- <-. exists []. rewrite app_nil_r. repeat split; constructor.
  - cbn [collectAvailable] in H.
    assert (Hskip : forall avail0,
               collectAvailable row_projection column_projection treasure_coords monster_coords
                 fuel row_i column_indices avail0 st = Ret (avail', st') ->
               exists columns,
                 columns `sublist_of` ci :: column_indices /\
                 avail' = avail0 ++ map (fun ci => mkCoord (row_i + 1) (Z.of_nat ci + 1)) columns /\
                 Forall (fun ci =>
                           tileIs (st_diagram st) EMPTY_SPACE
                             (mkCoord (row_i + 1) (Z.of_nat ci + 1)) /\
                           isTilePlacable row_i (Z.of_nat ci)
                             (st_cur_row_projection st) (st_cur_column_projection st)
                             row_projection column_projection = true) columns).
    { intros avail0 H0. apply IH in H0 as (cols & Hsub & -> & Hall).
      exists cols. split; [by constructor|done]. }
    destruct (_ <=? _)%Z; [by apply Hskip|].
    bind_inv H.
    destruct (cell_is EMPTY_SPACE a) eqn:Hc; cbn [andb negb] in H; [|by apply Hskip].
    destruct (isContainedByTRoom _ _ _); cbn [andb negb] in H; [by apply Hskip|].
    destruct (isTilePlacable _ _ _ _ _ _) eqn:Hplace; cbn [andb negb] in H; [|by apply Hskip].
    apply bool_decide_eq_true in Hc. subst a.
    bind_inv H.
    assert (Hback : removeWall (placeWall st (mkCoord (row_i + 1) (Z.of_nat ci + 1)))
                      (mkCoord (row_i + 1) (Z.of_nat ci + 1)) = st).
    { apply (removeAll_placeAll [_]). by constructor. }
    rewrite Hback in H. destruct a; [|by apply Hskip].
    apply IH in H as (cols & Hsub & -> & Hall).
    exists (ci :: cols). split; [by constructor|]. split; [by rewrite <- app_assoc|].
    by constructor.
Qed.

Lemma combinationLoop_solves (row_i : Z) (columns : list nat)
    (combinations : list (list nat)) (m : nat) :
  (0 <= row_i < 8)%Z ->
  NoDup columns ->
  Forall (fun combination => NoDup combination /\ length combination = m) combinations ->
  forall is_satisfied st st',
    invariant st ->
    (getNum (st_cur_row_projection st) row_i + Z.of_nat m <= getNum row_projection row_i)%Z ->
    Forall (fun ci =>
              tileIs (st_diagram st) EMPTY_SPACE (mkCoord (row_i + 1) (Z.of_nat ci + 1)) /\
              isTilePlacable row_i (Z.of_nat ci)
                (st_cur_row_projection st) (st_cur_column_projection st)
                row_projection column_projection = true) columns ->
    combinationLoop treasure_coords monster_coords fuel rec
      (map (fun ci => mkCoord (row_i + 1) (Z.of_nat ci + 1)) columns) combinations
      is_satisfied st = Ret (Return true, st') ->
    solved st'.
Proof.
  intros Hri Hcols. set (available_coords := map _ columns).
  assert (Hnd : NoDup available_coords).
  { apply NoDup_fmap_2; [|exact Hcols]. intros ? ? [= ?]. lia. }
  induction combinations as [|combination combinations IH];
    intros Hcombs sat st st' Hinv Hrow Hall H; [done|].
  apply Forall_cons in Hcombs as [[Hcnd Hclen] Hcombs].
  assert (Hempty : Forall (tileIs (st_diagram st) EMPTY_SPACE) available_coords).
  { apply Forall_fmap. eapply Forall_impl; [exact Hall|]. by intros ci [? _]. }
  cbn [combinationLoop] in H. bind_inv H.
  apply forCombination_spec in Hm as (placed & Hsel & ->).
  assert (Hback : forall st3, forCombination removeWall available_coords combination
                                (fold_left placeWall placed st) = Ret st3 -> st3 = st).
  { intros st3 H3. apply forCombination_spec in H3 as (placed' & Hsel' & ->).
    rewrite (selects_inj _ _ _ _ Hsel' Hsel).
    apply removeAll_placeAll. eapply selects_Forall; eauto. }
  bind_inv H. destruct a.
  - bind_inv H. destruct a as [[] st2].
    + injection H as <-. eapply Hrec_true; [|exact Hm0].
      apply (placeAll_row_invariant _ _ _ row_i); [| |exact Hri| |exact Hinv].
      * eapply selects_NoDup; eauto.
      * apply Forall_forall. intros c Hc.
        destruct (selects_elem _ _ _ _ Hsel Hc) as (j & _ & Hj).
        apply list_elem_of_lookup_2, list_elem_of_fmap in Hj as (ci & -> & Hci).
        rewrite Forall_forall in Hall. destruct (Hall ci Hci) as [Hci_empty Hci_place].
        apply isTilePlacable_true in Hci_place as (_ & Hcl & _ & Hcol).
        destruct Hinv as [(_ & Hlc & _) _]. cbn [coord_x coord_y].
        replace (Z.of_nat ci + 1 - 1)%Z with (Z.of_nat ci) by lia.
        repeat split; try done; lia.
      * rewrite (selects_length _ _ _ Hsel), Hclen. exact Hrow.
    + apply Hrec_false in Hm0. subst st2. bind_inv H. apply Hback in Hm0. subst a.
      eapply IH; eauto.
  - bind_inv H. apply Hback in Hm0. subst a. eapply IH; eauto.
Qed.

Lemma rowLoop_solves :
  forall row_indices st st',
    Forall (fun ri => ri < 8) row_indices ->
    invariant st ->
    rowLoop row_projection column_projection treasure_coords monster_coords fuel rec
      row_indices st = Ret (true, st') ->
    solved st'.
Proof.
  induction row_indices as [|ri row_indices IH]; intros st st' Hlt Hinv H; [done|].
  apply Forall_cons in Hlt as [Hri Hlt].
  cbn [rowLoop] in H.
  destruct (Z.leb_spec (getNum row_projection (Z.of_nat ri) -
                        getNum (st_cur_row_projection st) (Z.of_nat ri)) 0) as [_|Hdiff];
    [eapply IH; eauto|].
  bind_inv H. destruct a as [available_coords st1].
  assert (st1 = st) as -> by (eapply collectAvailable_restore; [|exact Hm]; constructor).
  apply collectAvailable_columns in Hm as (columns & Hsub & -> & Hall).
  cbn [app] in H.
  destruct (Z.ltb_spec (Z.of_nat (length (map (fun ci => mkCoord (Z.of_nat ri + 1)
                                                 (Z.of_nat ci + 1)) columns)))
                       (getNum row_projection (Z.of_nat ri) -
                        getNum (st_cur_row_projection st) (Z.of_nat ri))) as [_|Hcount];
    [done|].
  rewrite getCombinations_spec in H. cbn [bind] in H.
  bind_inv H. destruct a as [r st2].
  destruct r as [b|sat].
  - injection H as -> <-.
    eapply (combinationLoop_solves (Z.of_nat ri) columns _
              (Z.to_nat (getNum row_projection (Z.of_nat ri) -
                         getNum (st_cur_row_projection st) (Z.of_nat ri))));
      [lia| | |exact Hinv|lia|exact Hall|exact Hm].
    + eapply sublist_NoDup; [apply NoDup_seq|exact Hsub].
    + apply Forall_forall. intros comb Hcomb.
      apply elem_of_subsetsFrom in Hcomb as (Hlen & Hsorted & _).
      split; [by apply StronglySorted_lt_NoDup|done].
  - apply (combinationLoop_restore _ _ _ _ Hrec_false) in Hm.
    2:{ apply Forall_fmap. eapply Forall_impl; [exact Hall|]. by intros ci [? _]. }
    subst st2. destruct (negb sat); [done|]. eapply IH; eauto.
Qed.

Lemma dfs_body_solves (st st' : State) :
  invariant st ->
  dfs_body row_projection column_projection treasure_coords monster_coords fuel rec st =
    Ret (true, st') ->
  solved st'.
Proof.
  unfold dfs_body. intros Hinv H.
  destruct (isSatisfiedProjections _ _ _ _) eqn:Hsat.
  { bind_inv H. injection H as _ <-. by split. }
  bind_inv H. destruct a as [r st1].
  destruct r as [b|[]].
  { injection H as -> <-. by eapply treasureLoop_solves. }
  apply (treasureLoop_restore _ _ _ _ _ _ Hrec_false) in Hm as [?| ->]; [done|].
  destruct (negb _); [done|].
  bind_inv H. destruct a as [r st2].
  destruct r as [b|[]].
  { injection H as -> <-. by eapply monsterLoop_solves. }
  apply (monsterLoop_restore _ _ _ _ _ _ Hrec_false) in Hm as [?| ->]; [done|].
  destruct (negb _); [done|].
  eapply rowLoop_solves; [|exact Hinv|exact H].
  destruct Hinv as [(Hlr & _) _]. rewrite Hlr.
  apply Forall_forall. intros i Hi. apply elem_of_seq in Hi. lia.
Qed.

End InvariantOfSearch.

Lemma dfs_solvesOnTrue (initial : list (list TileType)) (fuel : nat)
    (row_projection column_projection : list Z)
    (treasure_coords monster_coords : list Coordinate) :
  solvesOnTrue initial row_projection column_projection
    (dfs fuel row_projection column_projection treasure_coords monster_coords).
Proof.
  induction fuel as [|fuel IH]; intros st st' Hinv H; [done|].
  cbn [dfs] in H. eapply dfs_body_solves; eauto. apply dfs_restoresOnFalse.
Qed.

Lemma initialState_invariant (diagram : list (list TileType))
    (row_projection column_projection : list Z) :
  Forall (fun i : nat => (0 <= getNum row_projection (Z.of_nat i))%Z /\
                         (0 <= getNum column_projection (Z.of_nat i))%Z) (seq 0 8) ->
  searchInvariant diagram row_projection column_projection (initialState diagram).
Proof.
  intros Hpos. split; [split; [done|split; [done|]]|].
  - apply Forall_forall. intros i Hi. apply elem_of_seq in Hi.
    cbn [initialState st_diagram st_cur_row_projection st_cur_column_projection].
    assert (Hz : getNum (replicate 8 0%Z) (Z.of_nat i) = 0%Z).
    { unfold getNum. rewrite Nat2Z.id.
      destruct (replicate 8 0%Z !! i) eqn:Hl; [|done].
      apply lookup_replicate in Hl as [-> _]. done. }
    rewrite Hz. lia.
  - unfold withinTargets. rewrite Forall_forall in Hpos. apply Forall_forall. intros i Hi.
    specialize (Hpos i Hi). apply elem_of_seq in Hi.
    cbn [initialState st_cur_row_projection st_cur_column_projection].
    assert (Hz : getNum (replicate 8 0%Z) (Z.of_nat i) = 0%Z).
    { unfold getNum. rewrite Nat2Z.id.
      destruct (replicate 8 0%Z !! i) eqn:Hl; [|done].
      apply lookup_replicate in Hl as [-> _]. done. }
    rewrite Hz. lia.
Qed.

(** X2. What a successful search guarantees about walls and projections, for any
    board and any non-negative projections: every row and column of the final
    grid holds as many walls as its projection says beyond those the board
    started with.  For a board given without walls this is the equality the
    specification asks of solved grids; for a board given with walls it is
    off by those walls. *)
Theorem dfs_true_walls (fuel : nat) (row_projection column_projection : list Z)
    (treasure_coords monster_coords : list Coordinate) (diagram : list (list TileType))
    (st' : State) :
  Forall (fun i : nat => (0 <= getNum row_projection (Z.of_nat i))%Z /\
                         (0 <= getNum column_projection (Z.of_nat i))%Z) (seq 0 8) ->
  dfs fuel row_projection column_projection treasure_coords monster_coords
    (initialState diagram) = Ret (true, st') ->
  Forall (fun i : nat =>
            Z.of_nat (wallsInRow (st_diagram st') (Z.of_nat i + 1)) =
              (getNum row_projection (Z.of_nat i) +
               Z.of_nat (wallsInRow diagram (Z.of_nat i + 1)))%Z /\
            Z.of_nat (wallsInColumn (st_diagram st') (Z.of_nat i + 1)) =
              (getNum column_projection (Z.of_nat i) +
               Z.of_nat (wallsInColumn diagram (Z.of_nat i + 1)))%Z)
         (seq 0 8).
Proof.
  intros Hpos H.
  apply (dfs_solvesOnTrue diagram) in H; [|by apply initialState_invariant].
  destruct H as [[(Hlr & Hlc & Htrack) _] Hsat].
  pose proof (isSatisfiedProjections_true _ _ _ _ Hsat) as Heq.
  rewrite Forall_forall in Htrack. apply Forall_forall. intros i Hi.
  destruct (Htrack i Hi) as [Hr Hc]. apply elem_of_seq in Hi.
  destruct (Heq i) as [Her Hec]. rewrite <- Her, <- Hec by lia. done.
Qed.

Lemma dfs_true_walls_witness :
  dfs 100 ring_projection ring_projection [] [] (initialState (augmentRawDiagram raw_empty)) =
    Ret (true, finalState (dfs 100 ring_projection ring_projection [] []
                             (initialState (augmentRawDiagram raw_empty)))) /\
  Forall (fun i : nat =>
            Z.of_nat (wallsInRow
                        (st_diagram (finalState (dfs 100 ring_projection ring_projection [] []
                                                   (initialState (augmentRawDiagram raw_empty)))))
                        (Z.of_nat i + 1)) =
              (getNum ring_projection (Z.of_nat i) +
               Z.of_nat (wallsInRow (augmentRawDiagram raw_empty) (Z.of_nat i + 1)))%Z /\
            Z.of_nat (wallsInColumn
                        (st_diagram (finalState (dfs 100 ring_projection ring_projection [] []
                                                   (initialState (augmentRawDiagram raw_empty)))))
                        (Z.of_nat i + 1)) =
              (getNum ring_projection (Z.of_nat i) +
               Z.of_nat (wallsInColumn (augmentRawDiagram raw_empty) (Z.of_nat i + 1)))%Z)
         (seq 0 8).
Proof.
  assert (Hrun : dfs 100 ring_projection ring_projection [] []
                   (initialState (augmentRawDiagram raw_empty)) =
                 Ret (true, finalState (dfs 100 ring_projection ring_projection [] []
                                          (initialState (augmentRawDiagram raw_empty)))))
    by (vm_compute; reflexivity).
  split; [exact Hrun|].
  apply (dfs_true_walls 100 ring_projection ring_projection [] []
           (augmentRawDiagram raw_empty) _); [|exact Hrun].
  repeat constructor; vm_compute; discriminate.
Defined.

(** ** The flood fill stays within closed sets *)

Section FloodFill.

Variable passable : cell -> bool.
Variable diagram : list (list TileType).
Variable S : Coordinate -> Prop.
Hypothesis Hclosed : closedUnder passable diagram S.

Lemma pushNeighbours_within (head : Coordinate) (color_set : gmap Z Z) :
  S head ->
  forall coords queue queue',
    (forall c, c ∈ coords -> c ∈ get4DirectionCoords (coord_x head) (coord_y head)) ->
    Forall S queue ->
    pushNeighbours passable diagram color_set coords queue = Ret queue' ->
    Forall S queue'.
Proof.
  intros Hhead. induction coords as [|c coords IH]; intros queue queue' Hsub Hq H.
  - by injection H as <-.
  - cbn [pushNeighbours] in H. bind_inv H.
    eapply IH in H; [exact H| |].
    + intros c' Hc'. apply Hsub. by right.
    + destruct (passable a) eqn:Hp; cbn [andb]; [|done].
      destruct (negb _); [|done].
      apply Forall_app. split; [done|]. constructor; [|constructor].
      eapply Hclosed; [exact Hhead| |exact Hm|exact Hp]. apply Hsub. by left.
Qed.

Lemma bfs_within (sign : Z) :
  forall fuel queue color_set color_set',
    Forall S queue ->
    colouredWithin S color_set ->
    bfs passable diagram sign fuel queue color_set = Ret color_set' ->
    colouredWithin S color_set'.
Proof.
  induction fuel as [|fuel IH]; intros queue cs cs' Hq Hcs H.
  - destruct queue; [by injection H as <-|done].
  - destruct queue as [|head queue]; [by injection H as <-|].
    apply Forall_cons in Hq as [Hhead Hq]. cbn [bfs] in H.
    destruct (inColorSet _ cs); [by eapply IH|].
    bind_inv H. eapply IH in H; [exact H| |].
    + eapply pushNeighbours_within; [exact Hhead| |exact Hq|exact Hm]. done.
    + intros h Hh. destruct (decide (h = getHashId (coord_x head) (coord_y head))) as [->|Hne].
      * by exists head.
      * rewrite lookup_insert_ne in Hh by done. by apply Hcs.
Qed.

End FloodFill.

(** A connectivity check that returns true has found every seed on the same
    side of any partition of the seeds into two closed sets. *)
Lemma seedLoop_coloured (is_seed passable : cell -> bool) (fuel : nat)
    (diagram : list (list TileType)) (S : Coordinate -> Prop) :
  forall seeds color_set,
    colouredWithin S color_set ->
    seedLoop is_seed passable fuel diagram seeds color_set 1 = Ret true ->
    Forall (seedWithin is_seed diagram S) seeds.
Proof.
  induction seeds as [|seed seeds IH]; intros cs Hcs H; [constructor|].
  cbn [seedLoop] in H. bind_inv H.
  destruct (is_seed a) eqn:Hseed.
  - destruct (inColorSet _ cs) eqn:Hin; [|done]. cbn in H.
    constructor; [|by eapply IH].
    intros cl Hcl _. apply bool_decide_eq_true in Hin. by apply Hcs.
  - constructor; [|by eapply IH].
    intros cl Hcl Hs. congruence.
Qed.

Lemma seedLoop_sides (is_seed passable : cell -> bool) (fuel : nat)
    (diagram : list (list TileType)) (S S' : Coordinate -> Prop) :
  closedUnder passable diagram S ->
  closedUnder passable diagram S' ->
  forall seeds,
    Forall (fun seed => forall cl,
              readTile diagram (coord_x seed) (coord_y seed) = Ret cl -> is_seed cl = true ->
              S seed \/ S' seed) seeds ->
    seedLoop is_seed passable fuel diagram seeds ∅ 0 = Ret true ->
    Forall (seedWithin is_seed diagram S) seeds \/
    Forall (seedWithin is_seed diagram S') seeds.
Proof.
  intros Hclosed Hclosed'.
  induction seeds as [|seed seeds IH]; intros Hside H; [left; constructor|].
  apply Forall_cons in Hside as [Hseed_side Hside].
  cbn [seedLoop] in H. bind_inv H.
  destruct (is_seed a) eqn:Hseed.
  - assert (Hnot : inColorSet (getHashId (coord_x seed) (coord_y seed)) ∅ = false).
    { apply bool_decide_eq_false. rewrite lookup_empty. by intros [? ?]. }
    rewrite Hnot in H. cbn in H. bind_inv H.
    assert (Hstart : forall T, closedUnder passable diagram T -> T seed ->
                       Forall (seedWithin is_seed diagram T) (seed :: seeds)).
    { intros T HT Hseed_T. constructor; [intros cl _ _; by exists seed|].
      eapply seedLoop_coloured; [|exact H].
      eapply bfs_within; [exact HT| | |exact Hm0].
      - by constructor.
      - intros h Hh. rewrite lookup_empty in Hh. by destruct Hh. }
    destruct (Hseed_side _ Hm Hseed); [left|right]; by apply Hstart.
  - destruct (IH Hside H) as [Hall|Hall]; [left|right];
      (constructor; [intros cl Hcl Hs; congruence|exact Hall]).
Qed.

(** ** Counting arguments *)

Lemma countTiles_le (diagram : list (list TileType)) (t : TileType) (coords : list Coordinate) :
  countTiles diagram t coords <= length coords.
Proof.
  induction coords as [|c coords IH]; [done|].
  rewrite countTiles_cons. cbn [length]. case_decide; lia.
Qed.

Lemma countTiles_missing_one (diagram : list (list TileType)) (t : TileType)
    (coords : list Coordinate) (c : Coordinate) :
  c ∈ coords -> ~ tileIs diagram t c -> countTiles diagram t coords + 1 <= length coords.
Proof.
  induction coords as [|a coords IH]; intros Hin Hnot; [by apply elem_of_nil in Hin|].
  rewrite countTiles_cons. cbn [length].
  apply elem_of_cons in Hin as [-> | Hin].
  - rewrite decide_False by done. pose proof (countTiles_le diagram t coords). lia.
  - specialize (IH Hin Hnot). case_decide; lia.
Qed.

Lemma countTiles_missing_two (diagram : list (list TileType)) (t : TileType)
    (coords : list Coordinate) (c c' : Coordinate) :
  c ∈ coords -> c' ∈ coords -> c <> c' ->
  ~ tileIs diagram t c -> ~ tileIs diagram t c' ->
  countTiles diagram t coords + 2 <= length coords.
Proof.
  induction coords as [|a coords IH]; intros Hin Hin' Hne Hnot Hnot';
    [by apply elem_of_nil in Hin|].
  rewrite countTiles_cons. cbn [length].
  apply elem_of_cons in Hin as [-> | Hin]; apply elem_of_cons in Hin' as [-> | Hin'].
  - done.
  - rewrite decide_False by done.
    pose proof (countTiles_missing_one diagram t coords c' Hin' Hnot'). lia.
  - rewrite decide_False by done.
    pose proof (countTiles_missing_one diagram t coords c Hin Hnot). lia.
  - specialize (IH Hin Hin' Hne Hnot Hnot'). case_decide; lia.
Qed.

(** When all but one of the coordinates hold [t] and [c] does not, every
    other one does. *)
Lemma countTiles_all_but (diagram : list (list TileType)) (t : TileType)
    (coords : list Coordinate) (c c' : Coordinate) :
  countTiles diagram t coords + 1 = length coords ->
  c ∈ coords -> ~ tileIs diagram t c -> c' ∈ coords -> c' <> c -> tileIs diagram t c'.
Proof.
  intros Hcount Hin Hnot Hin' Hne.
  destruct (decide (tileIs diagram t c')) as [?|Hnot']; [done|].
  pose proof (countTiles_missing_two diagram t coords c c' Hin Hin' (not_eq_sym Hne) Hnot Hnot').
  lia.
Qed.

(** When the counts of two different tiles add up to the number of
    coordinates, each coordinate holds one of the two. *)
Lemma countTiles_two_kinds (diagram : list (list TileType)) (t1 t2 : TileType)
    (coords : list Coordinate) :
  t1 <> t2 ->
  countTiles diagram t1 coords + countTiles diagram t2 coords = length coords ->
  forall c, c ∈ coords -> tileIs diagram t1 c \/ tileIs diagram t2 c.
Proof.
  intros Hne. induction coords as [|a coords IH]; intros Hsum c Hin;
    [by apply elem_of_nil in Hin|].
  rewrite !countTiles_cons in Hsum. cbn [length] in Hsum.
  assert (Hle : countTiles diagram t1 coords + countTiles diagram t2 coords <= length coords).
  { clear -Hne. induction coords as [|b coords IH]; [done|].
    rewrite !countTiles_cons. cbn [length].
    repeat case_decide; try lia.
    unfold tileIs in *. congruence. }
  assert (Hboth : ~ (tileIs diagram t1 a /\ tileIs diagram t2 a)).
  { unfold tileIs. intros [H1 H2]. congruence. }
  apply elem_of_cons in Hin as [-> | Hin].
  - repeat case_decide; try tauto; lia.
  - apply IH; [|done]. repeat case_decide; try tauto; lia.
Qed.

(** ** Geometry of rooms and neighbours *)

Lemma getHashId_inj (x y x' y' : Z) :
  (0 <= y < 100)%Z -> (0 <= y' < 100)%Z ->
  getHashId x y = getHashId x' y' -> x = x' /\ y = y'.
Proof. unfold getHashId. lia. Qed.

Lemma elem_of_get4DirectionCoords (x y : Z) (c : Coordinate) :
  c ∈ get4DirectionCoords x y <->
  c = mkCoord x (y - 1) \/ c = mkCoord (x + 1) y \/ c = mkCoord x (y + 1) \/ c = mkCoord (x - 1) y.
Proof.
  unfold get4DirectionCoords. rewrite !elem_of_cons, elem_of_nil. tauto.
Qed.

Lemma get4DirectionCoords_sym (c c' : Coordinate) :
  c' ∈ get4DirectionCoords (coord_x c) (coord_y c) ->
  c ∈ get4DirectionCoords (coord_x c') (coord_y c').
Proof.
  rewrite !elem_of_get4DirectionCoords. destruct c as [x y], c' as [x' y']. cbn.
  intros [H|[H|[H|H]]]; injection H as -> ->.
  - right. right. left. f_equal; lia.
  - right. right. right. f_equal; lia.
  - left. f_equal; lia.
  - right. left. f_equal; lia.
Qed.

Lemma elem_of_getTRoomTileCoords (x y : Z) (c : Coordinate) :
  c ∈ getTRoomTileCoords x y <->
  (x <= coord_x c <= x + 2)%Z /\ (y <= coord_y c <= y + 2)%Z.
Proof.
  unfold getTRoomTileCoords. rewrite !elem_of_cons, elem_of_nil. destruct c as [cx cy]. cbn.
  split.
  - intros H. repeat (destruct H as [H|H]); try done; injection H as -> ->; lia.
  - intros [Hx Hy].
    assert (Hcx : cx = x \/ cx = (x + 1)%Z \/ cx = (x + 2)%Z) by lia.
    assert (Hcy : cy = y \/ cy = (y + 1)%Z \/ cy = (y + 2)%Z) by lia.
    destruct Hcx as [-> |[-> | ->]], Hcy as [-> |[-> | ->]]; tauto.
Qed.

Lemma getTRoomLTCoords_contains (x y : Z) (lt_coord : Coordinate) :
  lt_coord ∈ getTRoomLTCoords x y ->
  mkCoord x y ∈ getTRoomTileCoords (coord_x lt_coord) (coord_y lt_coord).
Proof.
  unfold getTRoomLTCoords. rewrite !elem_of_cons, elem_of_nil, elem_of_getTRoomTileCoords.
  intros H. repeat (destruct H as [H|H]); try done; subst; cbn; lia.
Qed.

(** A neighbour of a room tile is a room tile or a ring tile. *)
Lemma room_neighbour (x y : Z) (c c' : Coordinate) :
  c ∈ getTRoomTileCoords x y ->
  c' ∈ get4DirectionCoords (coord_x c) (coord_y c) ->
  c' ∈ getTRoomTileCoords x y \/ c' ∈ getTRoomOuterTileCoords x y.
Proof.
  rewrite elem_of_get4DirectionCoords, !elem_of_getTRoomTileCoords.
  unfold getTRoomOuterTileCoords. rewrite !elem_of_cons, elem_of_nil.
  destruct c as [cx cy], c' as [cx' cy']. cbn. intros [Hx Hy] Hn.
  assert (Hcx : cx = x \/ cx = (x + 1)%Z \/ cx = (x + 2)%Z) by lia.
  assert (Hcy : cy = y \/ cy = (y + 1)%Z \/ cy = (y + 2)%Z) by lia.
  destruct Hcx as [-> |[-> | ->]], Hcy as [-> |[-> | ->]];
    destruct Hn as [Hn|[Hn|[Hn|Hn]]]; injection Hn as -> ->;
    first [ left; lia
          | right;
            repeat first [ left; f_equal; lia | right ] ].
Qed.

(** ** A monster next to a treasure or a monster, and connectivity *)

Lemma closedUnder_complement (diagram : list (list TileType)) (S : Coordinate -> Prop) :
  wf_diagram diagram -> wallBordered diagram ->
  closedUnder (fun c => negb (cell_is WALL c)) diagram S ->
  closedUnder (fun c => negb (cell_is WALL c)) diagram
    (fun c => ~ S c /\ exists t, tileIs diagram t c /\ t <> WALL).
Proof.
  intros Hwf Hborder Hclosed c c' cl [HnS (t & Ht & Hw)] Hn Hread Hp.
  destruct (Hborder _ _ _ Ht Hw) as [Hx Hy].
  assert (Hrange : (0 <= coord_x c' <= 9)%Z /\ (0 <= coord_y c' <= 9)%Z).
  { apply elem_of_get4DirectionCoords in Hn. destruct c as [x y].
    cbn in *. destruct Hn as [-> |[-> |[-> | ->]]]; cbn; lia. }
  destruct (readTile_wf diagram _ _ Hwf (proj1 Hrange) (proj2 Hrange)) as [t' Ht'].
  rewrite Ht' in Hread. injection Hread as <-. split.
  - intros HS'. apply HnS.
    eapply (Hclosed c' c (Tile t)); [exact HS'|by apply get4DirectionCoords_sym|exact Ht|].
    apply negb_true_iff, bool_decide_eq_false. congruence.
  - exists t'. split; [exact Ht'|].
    apply negb_true_iff, bool_decide_eq_false in Hp. congruence.
Qed.

Section StuckMonster.

Variable diagram : list (list TileType).
Variables treasure_coords monster_coords : list Coordinate.
Hypothesis Hwf : wf_diagram diagram.
Hypothesis Hborder : wallBordered diagram.
Hypothesis Hinterior : Forall interior (treasure_coords ++ monster_coords).

(** Two seeds on different sides of a closed set: the connectivity check
    cannot return true. *)
Lemma connectivity_sides (fuel : nat) (S : Coordinate -> Prop) (inside outside : Coordinate) :
  (forall c, S c \/ ~ S c) ->
  (forall c, S c -> (0 <= coord_y c < 100)%Z) ->
  closedUnder (fun c => negb (cell_is WALL c)) diagram S ->
  inside ∈ treasure_coords ++ monster_coords -> S inside ->
  (exists t, tileIs diagram t inside /\ t <> WALL) ->
  outside ∈ treasure_coords ++ monster_coords -> ~ S outside ->
  (exists t, tileIs diagram t outside /\ t <> WALL) ->
  checkTreasuresAndMonstersConnectivity fuel treasure_coords monster_coords diagram <> Ret true.
Proof.
  intros Hdec Hbound Hclosed Hin_seed Hin (ti & Hti & Hwi) Hout_seed Hout (to & Hto & Hwo) Hconn.
  unfold checkTreasuresAndMonstersConnectivity in Hconn.
  pose proof (closedUnder_complement _ _ Hwf Hborder Hclosed) as Hclosed'.
  rewrite Forall_forall in Hinterior.
  apply (seedLoop_sides _ _ _ _ _ _ Hclosed Hclosed') in Hconn.
  - rewrite !Forall_forall in Hconn. destruct Hconn as [Hall|Hall].
    + destruct (Hall outside Hout_seed (Tile to) Hto) as (c & Hc & Hhash).
      { apply negb_true_iff, bool_decide_eq_false. congruence. }
      destruct (Hinterior outside Hout_seed) as [_ Hy].
      apply getHashId_inj in Hhash as [Hx' Hy']; [|by apply Hbound|lia].
      apply Hout. destruct c, outside. cbn in *. by subst.
    + destruct (Hall inside Hin_seed (Tile ti) Hti) as (c & [HnS (t & Ht & Hw)] & Hhash).
      { apply negb_true_iff, bool_decide_eq_false. congruence. }
      destruct (Hborder _ _ _ Ht Hw) as [_ Hcy].
      apply getHashId_inj in Hhash as [Hx' Hy']; [|lia|by apply Hbound].
      apply HnS. destruct c, inside. cbn in *. by subst.
  - apply Forall_forall. intros seed Hseed cl Hcl Hp.
    destruct (Hdec seed) as [?|HnS]; [by left|right]. split; [done|].
    destruct (Hinterior seed Hseed) as [Hx Hy].
    destruct (readTile_wf diagram (coord_x seed) (coord_y seed) Hwf) as [t Ht]; [lia..|].
    exists t. split; [exact Ht|]. rewrite Ht in Hcl. injection Hcl as <-.
    apply negb_true_iff, bool_decide_eq_false in Hp. congruence.
Qed.

(** The neighbours of a tile with exactly three walls around it, one of
    which is known not to be a wall. *)
Lemma three_walls_other (c n c' : Coordinate) :
  countTiles diagram WALL (get4DirectionCoords (coord_x c) (coord_y c)) = 3 ->
  n ∈ get4DirectionCoords (coord_x c) (coord_y c) -> ~ tileIs diagram WALL n ->
  c' ∈ get4DirectionCoords (coord_x c) (coord_y c) -> c' <> n ->
  tileIs diagram WALL c'.
Proof.
  intros Hcount Hn Hnot Hc' Hne.
  eapply countTiles_all_but; [|exact Hn|exact Hnot|exact Hc'|exact Hne].
  rewrite Hcount. reflexivity.
Qed.

Lemma not_passable_wall (c : Coordinate) (cl : cell) :
  tileIs diagram WALL c ->
  readTile diagram (coord_x c) (coord_y c) = Ret cl ->
  negb (cell_is WALL cl) = true -> False.
Proof.
  unfold tileIs. intros Hw Hr Hp. rewrite Hw in Hr. injection Hr as <-.
  by apply negb_true_iff, bool_decide_eq_false in Hp.
Qed.

Variables m n other : Coordinate.
Hypothesis Hm_in : m ∈ monster_coords.
Hypothesis Hm : tileIs diagram MONSTER m.
Hypothesis Hn : n ∈ get4DirectionCoords (coord_x m) (coord_y m).
Hypothesis Hother_in : other ∈ monster_coords.
Hypothesis Hother : tileIs diagram MONSTER other.
Hypothesis Hother_m : other <> m.

Lemma in_grid (c : Coordinate) (t : TileType) :
  tileIs diagram t c -> (0 <= coord_y c < 100)%Z.
Proof. intros H. apply readTile_Tile_range in H as [_ ?]; [lia|done]. Qed.

(** Two adjacent monsters that each have three walls around them are cut off
    from every other monster. *)
Lemma adjacent_monsters_disconnected (fuel : nat) :
  tileIs diagram MONSTER n -> n ∈ monster_coords -> other <> n ->
  allDeadEnds monster_coords diagram = Ret true ->
  checkTreasuresAndMonstersConnectivity fuel treasure_coords monster_coords diagram <> Ret true.
Proof.
  intros Hn_tile Hn_in Hother_n Hdead.
  pose proof (allDeadEnds_true _ _ Hdead) as Hthree.
  apply (connectivity_sides fuel (fun c => c = m \/ c = n) m other).
  - intros c. destruct (decide (c = m)); [tauto|]. destruct (decide (c = n)); tauto.
  - intros c [-> | ->]; eapply in_grid; eauto.
  - intros c c' cl Hc Hc' Hread Hp.
    destruct Hc as [-> | ->].
    + destruct (decide (c' = n)) as [?|Hne]; [by right|]. exfalso.
      eapply not_passable_wall; [|exact Hread|exact Hp].
      eapply (three_walls_other m n c'); eauto.
      unfold tileIs in *. congruence.
    + destruct (decide (c' = m)) as [?|Hne]; [by left|]. exfalso.
      eapply not_passable_wall; [|exact Hread|exact Hp].
      eapply (three_walls_other n m c'); eauto.
      * by apply get4DirectionCoords_sym.
      * unfold tileIs in *. congruence.
  - apply elem_of_app. by right.
  - by left.
  - exists MONSTER. done.
  - apply elem_of_app. by right.
  - intros [?|?]; done.
  - exists MONSTER. done.
Qed.

(** A monster with three walls around it whose open side is the treasure of a
    valid room is the room's opening, and the room and the monster are cut off
    from every other monster. *)
Lemma monster_in_doorway_disconnected (fuel : nat) (lt_coord : Coordinate) :
  tileIs diagram TREASURE n ->
  lt_coord ∈ getTRoomLTCoords (coord_x n) (coord_y n) ->
  validRoom diagram lt_coord ->
  allDeadEnds monster_coords diagram = Ret true ->
  checkTreasuresAndMonstersConnectivity fuel treasure_coords monster_coords diagram <> Ret true.
Proof.
  intros Hn_tile Hlt (Hav & Hempty & Htreasure & Hwalls) Hdead.
  pose proof (allDeadEnds_true _ _ Hdead) as Hthree.
  set (room := getTRoomTileCoords (coord_x lt_coord) (coord_y lt_coord)) in *.
  set (ring := getTRoomOuterTileCoords (coord_x lt_coord) (coord_y lt_coord)) in *.
  assert (Hroom_tiles : forall c, c ∈ room ->
            tileIs diagram EMPTY_SPACE c \/ tileIs diagram TREASURE c).
  { apply countTiles_two_kinds; [done|]. rewrite Hempty, Htreasure. reflexivity. }
  assert (Hn_room : n ∈ room).
  { destruct n as [nx ny]. by apply getTRoomLTCoords_contains. }
  assert (Hnot_room : forall c, tileIs diagram MONSTER c -> c ∉ room).
  { intros c Hc Hin. destruct (Hroom_tiles c Hin); unfold tileIs in *; congruence. }
  assert (Hm_ring : m ∈ ring).
  { destruct (room_neighbour _ _ n m Hn_room (get4DirectionCoords_sym _ _ Hn)); [|done].
    by apply Hnot_room in Hm. }
  assert (Hring_walls : forall c, c ∈ ring -> c <> m -> tileIs diagram WALL c).
  { intros c Hc Hne. eapply countTiles_all_but; [|exact Hm_ring| |exact Hc|exact Hne].
    - rewrite Hwalls. reflexivity.
    - unfold tileIs in *. congruence. }
  apply (connectivity_sides fuel (fun c => c ∈ room \/ c = m) m other).
  - intros c. destruct (decide (c ∈ room)); [tauto|]. destruct (decide (c = m)); tauto.
  - intros c [Hc | ->]; [|by eapply in_grid].
    destruct (Hroom_tiles c Hc); by eapply in_grid.
  - intros c c' cl Hc Hc' Hread Hp.
    destruct Hc as [Hc | ->].
    + destruct (room_neighbour _ _ c c' Hc Hc') as [?|Hring]; [by left|].
      destruct (decide (c' = m)) as [?|Hne]; [by right|]. exfalso.
      eapply not_passable_wall; [|exact Hread|exact Hp]. by apply Hring_walls.
    + destruct (decide (c' = n)) as [-> |Hne]; [by left|]. exfalso.
      eapply not_passable_wall; [|exact Hread|exact Hp].
      eapply (three_walls_other m n c'); eauto.
      unfold tileIs in *. congruence.
  - apply elem_of_app. by right.
  - by right.
  - exists MONSTER. done.
  - apply elem_of_app. by right.
  - intros [Hin|?]; [|done]. by apply Hnot_room in Hother.
  - exists MONSTER. done.
Qed.

(** Either way, the final validation and the connectivity check cannot both
    pass. *)
Lemma stuck_monster_not_solved (fuel fuel' : nat) :
  (tileIs diagram MONSTER n /\ n ∈ monster_coords) \/
  (tileIs diagram TREASURE n /\ n ∈ treasure_coords) ->
  other <> n ->
  checkTreasuresAndMonstersConnectivity fuel' treasure_coords monster_coords diagram = Ret true ->
  isSolved fuel treasure_coords monster_coords diagram <> Ret true.
Proof.
  intros Hkind Hother_n Hconn Hsolved.
  apply isSolved_true in Hsolved as [[lts Hrooms] Hdead].
  destruct Hkind as [[Hn_tile Hn_in]|[Hn_tile Hn_in]].
  - by eapply adjacent_monsters_disconnected.
  - apply checkTreasureRoomsFrom_accepts in Hrooms as [_ Hrooms].
    destruct (Hrooms n Hn_in Hn_tile) as (lt & _ & Hlt & Hvalid).
    by eapply monster_in_doorway_disconnected.
Qed.

End StuckMonster.

(** ** Placed walls and the fixed tiles *)

Lemma wf_writeTile (diagram : list (list TileType)) (x y : Z) (t : TileType) :
  wf_diagram diagram -> wf_diagram (writeTile diagram x y t).
Proof.
  intros [Hlen Hrows]. unfold writeTile. destruct (_ || _); [done|].
  split; [by rewrite length_alter|].
  rewrite Forall_forall in Hrows. apply Forall_forall. intros row Hrow.
  apply list_elem_of_lookup in Hrow as [i Hi]. rewrite list_lookup_alter in Hi.
  case_decide.
  - destruct (diagram !! Z.to_nat x) as [row0|] eqn:H0; [|done]. injection Hi as <-.
    rewrite length_insert. apply Hrows. eapply list_elem_of_lookup_2, H0.
  - apply Hrows. eapply list_elem_of_lookup_2, Hi.
Qed.

Lemma wf_placeAll (coords : list Coordinate) (st : State) :
  wf_diagram (st_diagram st) -> wf_diagram (st_diagram (placeAll coords st)).
Proof.
  revert st. induction coords as [|c coords IH]; intros st Hwf; [done|].
  apply IH. by apply wf_writeTile.
Qed.

Lemma readTile_placeAll (coords : list Coordinate) (st : State) (x y : Z) :
  readTile (st_diagram (placeAll coords st)) x y =
  if decide (mkCoord x y ∈ coords) then overwritten WALL (readTile (st_diagram st) x y)
  else readTile (st_diagram st) x y.
Proof. rewrite st_placeAll. cbn [st_diagram]. apply readTile_fold_writeTile. Qed.

Lemma wallBordered_placeAll (coords : list Coordinate) (st : State) :
  wallBordered (st_diagram st) -> wallBordered (st_diagram (placeAll coords st)).
Proof.
  intros Hborder x y t Ht Hw. rewrite readTile_placeAll in Ht. case_decide.
  - destruct (readTile (st_diagram st) x y) as [[|?]| |]; cbn in Ht; congruence.
  - by eapply Hborder.
Qed.

(** A tile that is not Empty is not among tiles that were read as Empty, so
    walls placed on those leave it as it is. *)
Lemma tileIs_placeAll (coords : list Coordinate) (st : State) (t : TileType) (c : Coordinate) :
  Forall (tileIs (st_diagram st) EMPTY_SPACE) coords ->
  tileIs (st_diagram st) t c -> t <> EMPTY_SPACE ->
  tileIs (st_diagram (placeAll coords st)) t c.
Proof.
  intros Hempty Ht Hne. unfold tileIs. rewrite readTile_placeAll.
  rewrite decide_False; [exact Ht|]. destruct c as [x y]. intros Hin.
  rewrite Forall_forall in Hempty. specialize (Hempty _ Hin).
  unfold tileIs in *. cbn in *. congruence.
Qed.

Lemma passedOver_placeAll (coords : list Coordinate) (st : State) (t : TileType)
    (handled_ids : list Z) (c : Coordinate) :
  t <> WALL ->
  passedOver t handled_ids (st_diagram st) c ->
  passedOver t handled_ids (st_diagram (placeAll coords st)) c.
Proof.
  intros Hne (cl & Hcl & Hskip). unfold passedOver. rewrite readTile_placeAll.
  case_decide; [|by exists cl]. rewrite Hcl.
  destruct cl as [|t']; [by exists Undefined|].
  exists (Tile WALL). split; [done|].
  unfold cell_is. rewrite bool_decide_eq_false_2 by congruence. done.
Qed.

Lemma handled_placeAll (coords : list Coordinate) (st : State) :
  st_handled_treasure_ids (placeAll coords st) = st_handled_treasure_ids st /\
  st_handled_monster_ids (placeAll coords st) = st_handled_monster_ids st.
Proof. by rewrite st_placeAll. Qed.

Lemma countMonsterWalls_Some (diagram : list (list TileType)) (coords : list Coordinate) :
  forall number_of_walls k,
    countMonsterWalls diagram coords number_of_walls = Ret (Some k) ->
    Forall (fun c => tileIs diagram EMPTY_SPACE c \/ tileIs diagram WALL c) coords.
Proof.
  induction coords as [|c coords IH]; intros n0 k H; [constructor|].
  cbn [countMonsterWalls] in H. bind_inv H.
  destruct a as [|[]]; try done; (constructor; [|by eapply IH]); [by left|by right].
Qed.

Lemma includes_app (hash_id : Z) (ids ids' : list Z) :
  includes hash_id (ids ++ ids') = includes hash_id ids || includes hash_id ids'.
Proof. unfold includes. apply existsb_app. Qed.

(** ** Every branch fails when a monster is stuck *)

Section Stuck.

Variables row_projection column_projection : list Z.
Variables treasure_coords monster_coords : list Coordinate.
Variables m n : Coordinate.
Hypothesis Hinterior : Forall interior (treasure_coords ++ monster_coords).
Hypothesis Hm_in : m ∈ monster_coords.
Hypothesis Hn : n ∈ get4DirectionCoords (coord_x m) (coord_y m).

Variable fuel : nat.
Variable rec : State -> outcome (bool * State).
Hypothesis Hrec_false : restoresOnFalse rec.
Hypothesis Hrec_stuck : failsWhenStuck treasure_coords monster_coords m n rec.

Local Abbreviation stuck := (stuckMonster treasure_coords monster_coords m n).

(** The state handed to the recursive call by the monster phase, for a
    monster [c] other than [m] and [n]. *)
Lemma stuck_pushMonster (c : Coordinate) (placed : list Coordinate) (st : State) :
  stuck st ->
  c ∈ monster_coords -> tileIs (st_diagram st) MONSTER c -> c <> m ->
  Forall (tileIs (st_diagram st) EMPTY_SPACE) placed ->
  stuck (pushMonster (getHashId (coord_x c) (coord_y c)) (placeAll placed st)).
Proof.
  intros (Hwf & Hborder & Htreasures & Hcount & Hm & Hunhandled & Hkind) Hc_in Hc Hne Hempty.
  unfold stuckMonster, pushMonster. cbn [st_diagram st_handled_treasure_ids
    st_handled_monster_ids].
  destruct (handled_placeAll placed st) as [-> ->].
  split; [by apply wf_placeAll|]. split; [by apply wallBordered_placeAll|].
  split. { eapply Forall_impl; [exact Htreasures|]. intros t. by apply passedOver_placeAll. }
  split; [done|]. split; [by apply tileIs_placeAll|].
  split.
  - rewrite includes_app, Hunhandled. cbn. rewrite orb_false_r.
    apply Z.eqb_neq. intros Hhash.
    rewrite Forall_forall in Hinterior.
    destruct (Hinterior m) as [_ ?]; [apply elem_of_app; by right|].
    destruct (Hinterior c) as [_ ?]; [apply elem_of_app; by right|].
    apply getHashId_inj in Hhash as [? ?]; [|lia..].
    apply Hne. destruct c, m. cbn in *. by subst.
  - destruct Hkind as [[? ?]|[? ?]]; [left|right]; (split; [by apply tileIs_placeAll|done]).
Qed.

Lemma openingLoop_stuck (c : Coordinate) (empty_space_coords : list Coordinate) :
  c ∈ monster_coords -> c <> m -> c <> n ->
  forall indices is_satisfied st r st',
    stuck st ->
    tileIs (st_diagram st) MONSTER c ->
    Forall (tileIs (st_diagram st) EMPTY_SPACE) empty_space_coords ->
    openingLoop row_projection column_projection treasure_coords monster_coords fuel rec
      (pushMonster (getHashId (coord_x c) (coord_y c))) popMonster
      empty_space_coords indices is_satisfied st = Ret (r, st') ->
    exists is_satisfied', r = Next is_satisfied' /\ st' = st.
Proof.
  intros Hc_in Hc_m Hc_n.
  induction indices as [|i indices IH]; intros sat st r st' Hstuck Hc Hempty H.
  - injection H as <- <-. by exists sat.
  - cbn [openingLoop] in H.
    destruct (placeAllBut _ _ i 0 empty_space_coords [] st) as [placed_indices st1] eqn:Hplace.
    apply (placeAllBut_spec _ _ _ _ _ _ _ _ _ []) in Hplace as (new & placed & -> & Hsel & ->);
      [|done].
    cbn [app] in *.
    assert (Hplaced : Forall (tileIs (st_diagram st) EMPTY_SPACE) placed)
      by (eapply selects_Forall; eauto).
    assert (Hback : removeAll placed (placeAll placed st) = st)
      by (by apply removeAll_placeAll).
    bind_inv H. destruct a.
    + bind_inv H. destruct a as [found st2].
      assert (found = false) as ->.
      { eapply Hrec_stuck; [| |exact Hm0].
        - by apply stuck_pushMonster.
        - destruct (Z.eqb _ _); [|done].
          exists fuel, c. repeat split; try done.
          by apply tileIs_placeAll. }
      apply Hrec_false in Hm0. subst st2. rewrite pop_pushMonster in H.
      rewrite (removePlaced_spec _ _ _ Hsel), Hback in H. cbn [bind] in H.
      exact (IH _ _ _ _ Hstuck Hc Hempty H).
    + rewrite (removePlaced_spec _ _ _ Hsel), Hback in H. cbn [bind] in H.
      exact (IH _ _ _ _ Hstuck Hc Hempty H).
Qed.

Lemma monsterLoop_stuck :
  forall coords st r st',
    stuck st -> m ∈ coords -> Forall (fun c => c ∈ monster_coords) coords ->
    monsterLoop row_projection column_projection treasure_coords monster_coords fuel rec
      coords st = Ret (r, st') ->
    r = Return false.
Proof.
  induction coords as [|c coords IH]; intros st r st' Hstuck Hin Hsub H;
    [by apply elem_of_nil in Hin|].
  apply Forall_cons in Hsub as [Hc_in Hsub].
  pose proof Hstuck as (Hwf & Hborder & _ & _ & Hm & Hunhandled & Hkind).
  cbn [monsterLoop] in H. bind_inv H.
  destruct (cell_is MONSTER a && negb (includes _ _)) eqn:Hunresolved; cbn [negb] in H.
  2:{ apply elem_of_cons in Hin as [<- | Hin]; [|by eapply IH].
      unfold tileIs in Hm. rewrite Hm in Hm0. injection Hm0 as <-.
      rewrite Hunhandled in Hunresolved. done. }
  apply andb_prop in Hunresolved as [Hc _]. apply bool_decide_eq_true in Hc. subst a.
  bind_inv H. bind_inv H. destruct a0 as [number_of_walls|].
  2:{ by injection H as <- _. }
  apply countMonsterWalls_Some in Hm2. rewrite Forall_forall in Hm2.
  assert (Hc_m : c <> m).
  { intros ->. destruct (Hm2 n Hn) as [Hx|Hx];
      destruct Hkind as [[Hk _]|[Hk _]]; unfold tileIs in *; congruence. }
  assert (Hc_n : c <> n).
  { intros ->. destruct Hkind as [[Hk _]|[Hk _]].
    - destruct (Hm2 m (get4DirectionCoords_sym _ _ Hn)) as [Hx|Hx];
        unfold tileIs in *; congruence.
    - unfold tileIs in *. congruence. }
  destruct (4 <=? number_of_walls)%Z; [by injection H as <- _|].
  bind_inv H. destruct a0 as [r1 st1].
  apply filterEmpty_spec in Hm1 as [Hempty _].
  eapply openingLoop_stuck in Hm3 as (sat & -> & ->); try done.
  destruct (negb sat); [by injection H as <- _|].
  apply elem_of_cons in Hin as [-> | Hin]; [done|]. by eapply IH.
Qed.

Lemma dfs_body_stuck (st : State) (b : bool) (st' : State) :
  stuck st ->
  isSatisfiedProjections (st_cur_row_projection st) (st_cur_column_projection st)
    row_projection column_projection = false \/
  connectedMonster treasure_coords monster_coords m n st ->
  dfs_body row_projection column_projection treasure_coords monster_coords fuel rec st =
    Ret (b, st') ->
  b = false.
Proof.
  intros Hstuck Hentry H. unfold dfs_body in H.
  pose proof Hstuck as (Hwf & Hborder & Htreasures & Hcount & Hm & Hunhandled & Hkind).
  destruct (isSatisfiedProjections _ _ _ _).
  - destruct Hentry as [?|(fuel' & other & Ho_in & Ho & Ho_m & Ho_n & Hconn)]; [done|].
    bind_inv H. injection H as <- _. destruct a; [|done]. exfalso.
    eapply (stuck_monster_not_solved (st_diagram st) treasure_coords monster_coords);
      [exact Hwf|exact Hborder|exact Hinterior|exact Hm_in|exact Hm|exact Hn|exact Ho_in|
       exact Ho|exact Ho_m|exact Hkind|exact Ho_n|exact Hconn|exact Hm0].
  - rewrite treasureLoop_passedOver in H by done. cbn [bind] in H.
    rewrite Hcount, Nat.eqb_refl in H. cbn [negb] in H.
    bind_inv H. destruct a as [r st2].
    apply monsterLoop_stuck in Hm0 as ->; [by injection H as <- _|done|done|].
    apply Forall_forall. auto.
Qed.

End Stuck.

Lemma dfs_failsWhenStuck (row_projection column_projection : list Z)
    (treasure_coords monster_coords : list Coordinate) (m n : Coordinate) :
  Forall interior (treasure_coords ++ monster_coords) ->
  m ∈ monster_coords ->
  n ∈ get4DirectionCoords (coord_x m) (coord_y m) ->
  forall fuel,
    failsWhenStuck treasure_coords monster_coords m n
      (dfs fuel row_projection column_projection treasure_coords monster_coords).
Proof.
  intros Hinterior Hm_in Hn. induction fuel as [|fuel IH]; intros st b st' Hstuck Hconn H;
    [done|].
  cbn [dfs] in H. eapply dfs_body_stuck; eauto. apply dfs_restoresOnFalse.
Qed.

(** ** The diagrams the main program builds *)

Lemma fold_left_invariant {A B : Type} (P : A -> Prop) (Q : B -> Prop) (f : A -> B -> A)
    (l : list B) (a : A) :
  (forall a b, P a -> Q b -> P (f a b)) -> Forall Q l -> P a -> P (fold_left f l a).
Proof.
  intros Hstep Hl. revert a. induction Hl as [|b l Hb _ IH]; intros a Ha; [done|].
  cbn. apply IH. by apply Hstep.
Qed.

Lemma wallBordered_writeTile (diagram : list (list TileType)) (x y : Z) (t : TileType) :
  (1 <= x <= 8)%Z -> (1 <= y <= 8)%Z ->
  wallBordered diagram -> wallBordered (writeTile diagram x y t).
Proof.
  intros Hx Hy Hborder x' y' t' Ht' Hw. rewrite readTile_writeTile in Ht'.
  case_decide as He; [destruct He as [<- <-]; done|]. by eapply Hborder.
Qed.

(** Whatever the raw map, the augmented diagram has ten rows of ten tiles and
    a border of walls. *)
Lemma augmentRawDiagram_shape (raw_diagram : list (list TileType)) :
  wf_diagram (augmentRawDiagram raw_diagram) /\ wallBordered (augmentRawDiagram raw_diagram).
Proof.
  unfold augmentRawDiagram, wall_row, RAW_SIDE_LENGTH, SIDE_LENGTH.
  apply (fold_left_invariant (fun d => wf_diagram d /\ wallBordered d) (fun x => x < 8)).
  - intros d x Hd Hx.
    apply (fold_left_invariant (fun d => wf_diagram d /\ wallBordered d) (fun y => y < 8));
      [|apply Forall_forall; intros y Hy; apply elem_of_seq in Hy; cbn in Hy; lia|exact Hd].
    intros d' y [Hwf Hborder] Hy.
    destruct (raw_diagram !! x) as [raw_row|]; [|done].
    destruct (raw_row !! y) as [t|]; [|done].
    split; [by apply wf_writeTile|]. apply wallBordered_writeTile; [lia|lia|done].
  - apply Forall_forall. intros x Hx. apply elem_of_seq in Hx. cbn in Hx. lia.
  - split.
    + split; [reflexivity|]. cbn. repeat constructor.
    + intros x y t Ht Hw. exfalso.
      unfold readTile in Ht. destruct (x <? 0)%Z; [done|].
      destruct (replicate _ _ !! Z.to_nat x) as [row|] eqn:Hrow; [|done].
      apply lookup_replicate in Hrow as [-> _].
      destruct (y <? 0)%Z; [done|].
      destruct (replicate _ _ !! Z.to_nat y) as [t'|] eqn:Hcell; [|done].
      apply lookup_replicate in Hcell as [-> _]. congruence.
Qed.

(** C10. Take a state in which [dfs] reaches the monster phase: the
    projections are not yet satisfied and every treasure is handled.  If a
    monster not yet handled has a cardinal neighbour that holds a Treasure or
    a Monster, then every branch of the search from that state fails: whatever
    [dfs] returns is false, with the state as it was.  And when that monster is
    the first one the loop does not pass over, the call returns false at once:
    for whatever the recursive call would do, it is not made, and no wall is
    placed for that monster. *)
Theorem dfs_monster_special_neighbour (row_projection column_projection : list Z)
    (treasure_coords monster_coords : list Coordinate) (m n : Coordinate) (st : State) :
  stuckMonster treasure_coords monster_coords m n st ->
  Forall interior (treasure_coords ++ monster_coords) ->
  m ∈ monster_coords ->
  n ∈ get4DirectionCoords (coord_x m) (coord_y m) ->
  isSatisfiedProjections (st_cur_row_projection st) (st_cur_column_projection st)
    row_projection column_projection = false ->
  (forall fuel b st',
     dfs fuel row_projection column_projection treasure_coords monster_coords st = Ret (b, st') ->
     b = false /\ st' = st) /\
  (forall before rest,
     monster_coords = before ++ m :: rest ->
     Forall (passedOver MONSTER (st_handled_monster_ids st) (st_diagram st)) before ->
     forall fuel rec,
       dfs_body row_projection column_projection treasure_coords monster_coords fuel rec st =
       Ret (false, st)).
Proof.
  intros Hstuck Hinterior Hm_in Hn Hsat. split.
  - intros fuel b st' H.
    assert (b = false) as ->.
    { destruct fuel as [|fuel]; [done|]. cbn [dfs] in H.
      eapply dfs_body_stuck; [exact Hinterior|exact Hm_in|exact Hn|apply dfs_restoresOnFalse|
                              |exact Hstuck|by left|exact H].
      by apply dfs_failsWhenStuck. }
    split; [done|]. by apply dfs_restoresOnFalse in H.
  - intros before rest -> Hbefore fuel rec.
    destruct Hstuck as (Hwf & Hborder & Htreasures & Hcount & Hm & Hunhandled & Hkind).
    unfold dfs_body. rewrite Hsat.
    rewrite treasureLoop_passedOver by done. cbn [bind].
    rewrite Hcount, Nat.eqb_refl. cbn [negb].
    rewrite monsterLoop_passedOver by done.
    rewrite monsterLoop_special_neighbour; [done|done|done| |].
    + rewrite Forall_forall in Hinterior.
      destruct (Hinterior m) as [Hx Hy]; [apply elem_of_app; by right|].
      apply Forall_forall. intros c Hc. apply elem_of_get4DirectionCoords in Hc.
      destruct (readTile_wf (st_diagram st) (coord_x c) (coord_y c) Hwf) as [t Ht];
        [destruct Hc as [-> |[-> |[-> | ->]]]; cbn; lia..|].
      by exists (Tile t).
    + apply Exists_exists. exists n. split; [done|]. tauto.
Qed.

Lemma dfs_monster_special_neighbour_witness :
  dfs 200 three_monsters_rows three_monsters_columns []
    [mkCoord 1 1; mkCoord 3 3; mkCoord 3 4]
    (initialState (augmentRawDiagram raw_three_monsters)) =
  Ret (false, initialState (augmentRawDiagram raw_three_monsters)) /\
  tileIs (augmentRawDiagram raw_three_monsters) MONSTER (mkCoord 3 3) /\
  tileIs (augmentRawDiagram raw_three_monsters) MONSTER (mkCoord 3 4) /\
  (forall fuel b st',
     dfs fuel three_monsters_rows three_monsters_columns []
       [mkCoord 1 1; mkCoord 3 3; mkCoord 3 4]
       (initialState (augmentRawDiagram raw_three_monsters)) = Ret (b, st') ->
     b = false /\ st' = initialState (augmentRawDiagram raw_three_monsters)).
Proof.
  split; [vm_compute; reflexivity|].
  assert (Hm : tileIs (augmentRawDiagram raw_three_monsters) MONSTER (mkCoord 3 3))
    by (vm_compute; reflexivity).
  assert (Hn : tileIs (augmentRawDiagram raw_three_monsters) MONSTER (mkCoord 3 4))
    by (vm_compute; reflexivity).
  split; [exact Hm|]. split; [exact Hn|].
  apply (dfs_monster_special_neighbour three_monsters_rows three_monsters_columns []
           [mkCoord 1 1; mkCoord 3 3; mkCoord 3 4] (mkCoord 3 3) (mkCoord 3 4)
           (initialState (augmentRawDiagram raw_three_monsters))).
  - destruct (augmentRawDiagram_shape raw_three_monsters) as [Hwf Hborder].
    split; [exact Hwf|]. split; [exact Hborder|]. split; [constructor|].
    split; [reflexivity|]. split; [exact Hm|]. split; [reflexivity|].
    left. split; [exact Hn|]. apply list_elem_of_In. cbn. tauto.
  - repeat constructor; cbn; lia.
  - apply list_elem_of_In. cbn. tauto.
  - apply list_elem_of_In. cbn. tauto.
  - vm_compute. reflexivity.
Defined.

(** ** Projections met *)

Lemma getNum_lookup (projection : list Z) (i : nat) (v : Z) :
  projection !! i = Some v -> getNum projection (Z.of_nat i) = v.
Proof. intros H. unfold getNum. by rewrite Nat2Z.id, H. Qed.

Lemma forallb_getNum_eq (a c : list Z) :
  length a = length c ->
  forallb (fun i => (getNum a (Z.of_nat i) =? getNum c (Z.of_nat i))%Z) (seq 0 (length a)) = true ->
  a = c.
Proof.
  intros Hlen H. rewrite forallb_forall in H.
  apply list_eq. intros i.
  destruct (a !! i) as [v|] eqn:Ha.
  - assert (Hi : i < length a) by (eapply lookup_lt_Some; eauto).
    destruct (c !! i) as [w|] eqn:Hc.
    + specialize (H i). rewrite (getNum_lookup _ _ _ Ha), (getNum_lookup _ _ _ Hc) in H.
      f_equal. apply Z.eqb_eq. apply H. apply in_seq. lia.
    + apply lookup_ge_None in Hc. lia.
  - apply lookup_ge_None in Ha. symmetry. apply lookup_ge_None. lia.
Qed.

Lemma isSatisfiedProjections_iff
    (cur_row_projection cur_column_projection row_projection column_projection : list Z) :
  isSatisfiedProjections cur_row_projection cur_column_projection
    row_projection column_projection = true <->
  cur_row_projection = row_projection /\ cur_column_projection = column_projection.
Proof.
  unfold isSatisfiedProjections. split.
  - intros H.
    destruct (bool_decide (length cur_row_projection = length row_projection)) eqn:Hr;
      [|done].
    destruct (bool_decide (length cur_column_projection = length column_projection)) eqn:Hc;
      [|done].
    apply bool_decide_eq_true in Hr, Hc. cbn [andb negb] in H.
    apply andb_true_iff in H as [H1 H2].
    split; by apply forallb_getNum_eq.
  - intros [-> ->]. rewrite !bool_decide_eq_true_2 by done. cbn [andb negb].
    apply andb_true_iff. split; apply forallb_forall; intros i _; apply Z.eqb_refl.
Qed.

(** X3. [isSatisfiedProjections] is equality of the counter sequences with the
    targets. *)
Theorem isSatisfiedProjections_eq
    (cur_row_projection cur_column_projection row_projection column_projection : list Z) :
  isSatisfiedProjections cur_row_projection cur_column_projection
    row_projection column_projection = true <->
  cur_row_projection = row_projection /\ cur_column_projection = column_projection.
Proof. apply isSatisfiedProjections_iff. Qed.

(** ** The flood fills decide connectivity *)

Lemma filter_length_drop {A : Type} (P Q : A -> Prop) `{!forall x, Decision (P x)}
    `{!forall x, Decision (Q x)} (l : list A) (x : A) :
  x ∈ l -> P x -> ~ Q x -> (forall y, Q y -> P y) ->
  length (filter Q l) + 1 <= length (filter P l).
Proof.
  intros Hx HP HQ Himp.
  assert (Hle : forall l', length (filter Q l') <= length (filter P l')).
  { induction l' as [|b l' IH]; [done|]. rewrite !filter_cons.
    destruct (decide (Q b)) as [Hq|Hq], (decide (P b)) as [Hp|Hp]; cbn; try lia.
    destruct Hp. auto. }
  induction l as [|a l IH]; [by apply elem_of_nil in Hx|].
  rewrite !filter_cons. pose proof (Hle l).
  apply elem_of_cons in Hx as [<-|Hx].
  - destruct (decide (Q x)) as [Hq|Hq], (decide (P x)) as [Hp|Hp]; cbn; try lia; done.
  - specialize (IH Hx).
    destruct (decide (Q a)) as [Hq|Hq], (decide (P a)) as [Hp|Hp]; cbn; try lia.
    destruct Hp. auto.
Qed.

Lemma interior_elem (c : Coordinate) : interior c <-> c ∈ interior_coords.
Proof. destruct c as [x y]. rewrite elem_of_interior_coords. done. Qed.

Lemma getHashId_interior (c c' : Coordinate) :
  interior c -> interior c' ->
  getHashId (coord_x c) (coord_y c) = getHashId (coord_x c') (coord_y c') -> c = c'.
Proof.
  intros [Hx Hy] [Hx' Hy'] H. destruct c as [x y], c' as [x' y']. cbn in *.
  apply getHashId_inj in H as [-> ->]; [done|lia|lia].
Qed.

Lemma inColorSet_true (hash_id : Z) (color_set : gmap Z Z) :
  inColorSet hash_id color_set = true <-> is_Some (color_set !! hash_id).
Proof. unfold inColorSet. apply bool_decide_eq_true. Qed.

Lemma inColorSet_false (hash_id : Z) (color_set : gmap Z Z) :
  inColorSet hash_id color_set = false <-> ~ is_Some (color_set !! hash_id).
Proof. unfold inColorSet. apply bool_decide_eq_false. Qed.

Lemma uncoloured_insert (head : Coordinate) (sign : Z) (color_set : gmap Z Z) :
  interior head ->
  inColorSet (getHashId (coord_x head) (coord_y head)) color_set = false ->
  uncoloured (<[getHashId (coord_x head) (coord_y head) := sign]> color_set) + 1 <=
  uncoloured color_set.
Proof.
  intros Hint Hnot. unfold uncoloured.
  apply (filter_length_drop _ _ _ head).
  - by apply interior_elem.
  - done.
  - rewrite inColorSet_false. intros H. apply H. rewrite lookup_insert_eq. by eexists.
  - intros c. rewrite !inColorSet_false. intros H H'. apply H.
    destruct H' as [v Hv]. destruct (decide (getHashId (coord_x head) (coord_y head) =
      getHashId (coord_x c) (coord_y c))) as [->|Hne].
    + rewrite lookup_insert_eq. by eexists.
    + rewrite lookup_insert_ne by done. by eexists.
Qed.

Section FloodFillComplete.

Variable passable : cell -> bool.

Variable diagram : list (list TileType).

Hypothesis Hwf : wf_diagram diagram.

Hypothesis Hwb : wallBordered diagram.

Hypothesis Hpass : forall cl, passable cl = true -> cl <> Tile WALL.

Lemma neighbour_tile (c c' : Coordinate) :
  interior c -> c' ∈ get4DirectionCoords (coord_x c) (coord_y c) ->
  exists t, readTile diagram (coord_x c') (coord_y c') = Ret (Tile t).
Proof.
  intros [Hx Hy] Hc'. apply elem_of_get4DirectionCoords in Hc'.
  apply readTile_wf; [done| |]; destruct Hc' as [-> | [-> | [-> | ->]]]; cbn; lia.
Qed.

Lemma fillStep_interior (c c' : Coordinate) :
  interior c -> fillStep passable diagram c c' -> interior c'.
Proof.
  intros Hint [Hn (cl & Hcl & Hp)].
  destruct (neighbour_tile c c' Hint Hn) as [t Ht].
  rewrite Ht in Hcl. injection Hcl as <-.
  eapply Hwb; [exact Ht|]. intros ->. by eapply Hpass.
Qed.

Lemma joined_interior (c c' : Coordinate) :
  interior c -> joined passable diagram c c' -> interior c'.
Proof.
  intros Hint H. induction H as [|c1 c2 c3 Hstep _ IH]; [done|].
  apply IH. by eapply fillStep_interior.
Qed.

Lemma fillStep_sym (c c' : Coordinate) :
  passableAt passable diagram c -> fillStep passable diagram c c' ->
  fillStep passable diagram c' c.
Proof.
  intros Hc [Hn Hc']. split; [|done]. by apply get4DirectionCoords_sym.
Qed.

Lemma joined_sym (c c' : Coordinate) :
  passableAt passable diagram c -> joined passable diagram c c' ->
  joined passable diagram c' c.
Proof.
  intros Hc H. induction H as [|c1 c2 c3 Hstep _ IH]; [apply rtc_refl|].
  eapply rtc_r; [apply IH; apply Hstep|]. by apply fillStep_sym.
Qed.

Lemma pushNeighbours_spec (head : Coordinate) (color_set : gmap Z Z) :
  interior head ->
  forall coords queue,
    (forall c, c ∈ coords -> c ∈ get4DirectionCoords (coord_x head) (coord_y head)) ->
    exists pushed,
      pushNeighbours passable diagram color_set coords queue = Ret (queue ++ pushed) /\
      length pushed <= length coords /\
      Forall interior pushed /\
      forall c, c ∈ coords -> passableAt passable diagram c ->
                is_Some (color_set !! getHashId (coord_x c) (coord_y c)) \/ c ∈ pushed.
Proof.
  intros Hint. induction coords as [|c coords IH]; intros queue Hsub.
  - exists []. rewrite app_nil_r. repeat split; [done|constructor|].
    intros c Hc. by apply elem_of_nil in Hc.
  - cbn [pushNeighbours].
    destruct (neighbour_tile head c Hint) as [t Ht]; [apply Hsub; by left|].
    rewrite Ht. cbn [bind].
    destruct (IH (if passable (Tile t) &&
                     negb (inColorSet (getHashId (coord_x c) (coord_y c)) color_set)
                  then queue ++ [c] else queue)) as (pushed & Hrun & Hlen & Hin & Hcov).
    { intros c' Hc'. apply Hsub. by right. }
    destruct (passable (Tile t)) eqn:Hp; cbn [andb] in Hrun |- *.
    + destruct (inColorSet _ color_set) eqn:Hcol; cbn [negb] in Hrun |- *.
      * exists pushed. split; [done|]. split; [cbn; lia|]. split; [done|].
        intros c' Hc' Hpa. apply elem_of_cons in Hc' as [->|Hc']; [|by apply Hcov].
        left. by apply inColorSet_true.
      * exists (c :: pushed). split; [by rewrite Hrun, <- app_assoc|].
        split; [cbn; lia|]. split.
        -- constructor; [|done]. eapply fillStep_interior; [exact Hint|].
           split; [apply Hsub; by left|]. by exists (Tile t).
        -- intros c' Hc' Hpa. apply elem_of_cons in Hc' as [->|Hc']; [right; by left|].
           destruct (Hcov c' Hc' Hpa); [by left|right; by right].
    + exists pushed. split; [done|]. split; [cbn; lia|]. split; [done|].
      intros c' Hc' Hpa. apply elem_of_cons in Hc' as [->|Hc']; [|by apply Hcov].
      destruct Hpa as (cl & Hcl & Hp'). rewrite Ht in Hcl. injection Hcl as <-. congruence.
Qed.

Lemma bfs_complete (sign : Z) :
  forall fuel queue color_set,
    Forall interior queue ->
    length queue + 5 * uncoloured color_set <= fuel ->
    exists color_set',
      bfs passable diagram sign fuel queue color_set = Ret color_set' /\
      (forall hash_id, is_Some (color_set !! hash_id) -> is_Some (color_set' !! hash_id)) /\
      (forall c, c ∈ queue -> is_Some (color_set' !! getHashId (coord_x c) (coord_y c))) /\
      (closedSoFar passable diagram queue color_set ->
       closedSoFar passable diagram [] color_set').
Proof.
  induction fuel as [|fuel IH]; intros queue cs Hq Hfuel.
  - destruct queue; [|cbn [length] in Hfuel; lia].
    exists cs. repeat split; [done| |done]. intros c Hc. by apply elem_of_nil in Hc.
  - destruct queue as [|head queue].
    { exists cs. repeat split; [done| |done]. intros c Hc. by apply elem_of_nil in Hc. }
    apply Forall_cons in Hq as [Hhead Hq]. cbn [bfs length] in *.
    destruct (inColorSet _ cs) eqn:Hcol.
    + destruct (IH queue cs Hq) as (cs' & Hrun & Hmono & Hqueue & Hclosed); [lia|].
      exists cs'. split; [done|]. split; [done|]. split.
      * intros c Hc. apply elem_of_cons in Hc as [->|Hc]; [|by apply Hqueue].
        apply Hmono. by apply inColorSet_true.
      * intros Hcl. apply Hclosed. intros c c' Hc Hin Hstep.
        destruct (Hcl c c' Hc Hin Hstep) as [?|Hc']; [by left|].
        apply elem_of_cons in Hc' as [->|Hc']; [left; by apply inColorSet_true|by right].
    + destruct (pushNeighbours_spec head
                  (<[getHashId (coord_x head) (coord_y head) := sign]> cs) Hhead
                  (get4DirectionCoords (coord_x head) (coord_y head)) queue)
        as (pushed & Hpush & Hlen & Hpin & Hcov); [done|].
      rewrite Hpush. cbn [bind].
      pose proof (uncoloured_insert head sign cs Hhead Hcol) as Hdrop.
      destruct (IH (queue ++ pushed)
                  (<[getHashId (coord_x head) (coord_y head) := sign]> cs))
        as (cs' & Hrun & Hmono & Hqueue & Hclosed).
      { apply Forall_app. by split. }
      { rewrite length_app. cbn in Hlen. lia. }
      assert (Hmono1 : forall h, is_Some (cs !! h) ->
                is_Some (<[getHashId (coord_x head) (coord_y head) := sign]> cs !! h)).
      { intros h [v Hv]. destruct (decide (getHashId (coord_x head) (coord_y head) = h)) as [->|Hne].
        - rewrite lookup_insert_eq. by eexists.
        - rewrite lookup_insert_ne by done. by eexists. }
      exists cs'. split; [done|]. split; [by auto|]. split.
      * intros c Hc. apply elem_of_cons in Hc as [->|Hc].
        -- apply Hmono. rewrite lookup_insert_eq. by eexists.
        -- apply Hqueue. apply elem_of_app. by left.
      * intros Hcl. apply Hclosed. intros c c' Hc Hin Hstep.
        destruct (decide (getHashId (coord_x head) (coord_y head) =
                          getHashId (coord_x c) (coord_y c))) as [Heq|Hne].
        -- apply getHashId_interior in Heq; [|done|done]. subst c.
           destruct Hstep as [Hn Hpa]. destruct (Hcov c' Hn Hpa); [by left|].
           right. apply elem_of_app. by right.
        -- rewrite lookup_insert_ne in Hin by done.
           destruct (Hcl c c' Hc Hin Hstep) as [?|Hc']; [left; by apply Hmono1|].
           apply elem_of_cons in Hc' as [->|Hc'].
           ++ left. rewrite lookup_insert_eq. by eexists.
           ++ right. apply elem_of_app. by left.
Qed.

Lemma seedLoop_after (fuel : nat) (color_set : gmap Z Z) :
  forall seeds,
    Forall interior seeds ->
    exists b,
      seedLoop passable passable fuel diagram seeds color_set 1 = Ret b /\
      (b = true <->
       forall s, s ∈ seeds -> passableAt passable diagram s ->
                 is_Some (color_set !! getHashId (coord_x s) (coord_y s))).
Proof.
  induction seeds as [|s seeds IH]; intros Hint.
  - exists true. split; [done|]. split; [|done]. intros _ s Hs. by apply elem_of_nil in Hs.
  - apply Forall_cons in Hint as [[Hx Hy] Hint]. destruct (IH Hint) as (b & Hrun & Hb).
    cbn [seedLoop].
    destruct (readTile_wf diagram (coord_x s) (coord_y s) Hwf) as [t Ht]; [lia|lia|].
    rewrite Ht. cbn [bind].
    destruct (passable (Tile t)) eqn:Hp.
    + destruct (inColorSet _ color_set) eqn:Hcol.
      * cbn. exists b. split; [done|]. rewrite Hb. split.
        -- intros H s' Hs'. apply elem_of_cons in Hs' as [->|Hs']; [|by apply H].
           intros _. by apply inColorSet_true.
        -- intros H s' Hs'. apply H. by right.
      * cbn. exists false. split; [done|]. split; [done|]. intros H.
        apply inColorSet_false in Hcol. destruct Hcol. apply H; [by left|]. by exists (Tile t).
    + exists b. split; [done|]. rewrite Hb. split.
      * intros H s' Hs'. apply elem_of_cons in Hs' as [->|Hs']; [|by apply H].
        intros (cl & Hcl & Hp'). rewrite Ht in Hcl. injection Hcl as <-. congruence.
      * intros H s' Hs'. apply H. by right.
Qed.

Lemma joined_coloured (color_set : gmap Z Z) (s c : Coordinate) :
  closedSoFar passable diagram [] color_set ->
  interior s -> is_Some (color_set !! getHashId (coord_x s) (coord_y s)) ->
  joined passable diagram s c ->
  is_Some (color_set !! getHashId (coord_x c) (coord_y c)).
Proof.
  intros Hclosed Hint Hs H. induction H as [|c1 c2 c3 Hstep _ IH]; [done|].
  apply IH.
  - by eapply fillStep_interior.
  - destruct (Hclosed c1 c2 Hint Hs Hstep) as [?|Hin]; [done|]. by apply elem_of_nil in Hin.
Qed.

Lemma uncoloured_le (color_set : gmap Z Z) : uncoloured color_set <= 64.
Proof.
  unfold uncoloured.
  etransitivity; [apply length_filter|]. by vm_compute.
Qed.

Lemma seedLoop_correct (fuel : nat) :
  321 <= fuel ->
  forall seeds,
    Forall interior seeds ->
    exists b,
      seedLoop passable passable fuel diagram seeds ∅ 0 = Ret b /\
      (b = true <-> allJoined passable diagram seeds).
Proof.
  intros Hfuel. induction seeds as [|s seeds IH]; intros Hint.
  - exists true. split; [done|]. split; [|done]. intros _ c c' Hc. by apply elem_of_nil in Hc.
  - pose proof Hint as Hall. apply Forall_cons in Hint as [Hs Hint].
    cbn [seedLoop].
    destruct (readTile_wf diagram (coord_x s) (coord_y s) Hwf) as [t Ht];
      [destruct Hs; lia|destruct Hs; lia|].
    rewrite Ht. cbn [bind].
    destruct (passable (Tile t)) eqn:Hp.
    + assert (Hps : passableAt passable diagram s) by by exists (Tile t).
      assert (Hcol : inColorSet (getHashId (coord_x s) (coord_y s)) ∅ = false).
      { apply inColorSet_false. rewrite lookup_empty. by intros [? ?]. }
      rewrite Hcol. cbn [Z.eqb negb]. change (0 + 1)%Z with 1%Z.
      destruct (bfs_complete 1 fuel [s] ∅) as (cs & Hrun & _ & Hqueue & Hclosed).
      { by constructor. }
      { pose proof (uncoloured_le ∅). cbn [length]. lia. }
      rewrite Hrun. cbn [bind].
      assert (Hclosed' : closedSoFar passable diagram [] cs).
      { apply Hclosed. intros c c' _ Hin. rewrite lookup_empty in Hin. by destruct Hin. }
      assert (Hscol : is_Some (cs !! getHashId (coord_x s) (coord_y s))).
      { apply Hqueue. by left. }
      assert (Hwithin : colouredWithin (joined passable diagram s) cs).
      { eapply (bfs_within passable diagram (joined passable diagram s));
          [| |intros h Hh; rewrite lookup_empty in Hh; by destruct Hh|exact Hrun].
        - intros c c' cl Hc Hn Hcl Hpc. eapply rtc_r; [exact Hc|].
          split; [done|]. by exists cl.
        - constructor; [apply rtc_refl|constructor]. }
      destruct (seedLoop_after fuel cs seeds Hint) as (b & Hrun' & Hb).
      exists b. split; [done|]. rewrite Hb. split.
      * intros H.
        assert (Hfrom : forall c, c ∈ s :: seeds -> passableAt passable diagram c ->
                                  joined passable diagram s c).
        { intros c Hc Hpc. apply elem_of_cons in Hc as [->|Hc]; [apply rtc_refl|].
          destruct (Hwithin _ (H c Hc Hpc)) as (c0 & Hj & Heq).
          apply getHashId_interior in Heq as ->; [done|by eapply joined_interior|].
          rewrite Forall_forall in Hint. by apply Hint. }
        intros c c' Hc Hc' Hpc Hpc'.
        transitivity s; [|by apply Hfrom].
        apply joined_sym; [done|]. by apply Hfrom.
      * intros H c Hc Hpc. eapply joined_coloured; [done|exact Hs|done|].
        apply H; [by left|by right|done|done].
    + destruct (IH Hint) as (b & Hrun & Hb). exists b. split; [done|].
      rewrite Hb. split.
      * intros H c c' Hc Hc' Hpc Hpc'.
        assert (Hnot : ~ passableAt passable diagram s).
        { intros (cl & Hcl & Hp'). rewrite Ht in Hcl. injection Hcl as <-. congruence. }
        apply elem_of_cons in Hc as [->|Hc]; [done|].
        apply elem_of_cons in Hc' as [->|Hc']; [done|]. by apply H.
      * intros H c c' Hc Hc'. apply H; by right.
Qed.

End FloodFillComplete.

Lemma passableAt_empty (diagram : list (list TileType)) (c : Coordinate) :
  passableAt (cell_is EMPTY_SPACE) diagram c <-> tileIs diagram EMPTY_SPACE c.
Proof.
  unfold passableAt, tileIs, cell_is. split.
  - intros (cl & Hcl & Hp). apply bool_decide_eq_true in Hp. by subst.
  - intros H. eexists. split; [exact H|]. by apply bool_decide_eq_true.
Qed.

Lemma passableAt_not_wall (diagram : list (list TileType)) (c : Coordinate) :
  wf_diagram diagram -> interior c ->
  passableAt (fun cl => negb (cell_is WALL cl)) diagram c <-> ~ tileIs diagram WALL c.
Proof.
  intros Hwf [Hx Hy]. unfold passableAt, tileIs.
  destruct (readTile_wf diagram (coord_x c) (coord_y c) Hwf) as [t Ht]; [lia|lia|].
  rewrite Ht. split.
  - intros (cl & Hcl & Hp) Heq. injection Hcl as <-. injection Heq as ->. done.
  - intros H. eexists. split; [done|]. apply negb_true_iff. apply bool_decide_eq_false.
    intros Heq. apply H. by injection Heq as ->.
Qed.

(** X4. The flood fill over Empty tiles decides connectivity: on a
    wall-bordered 10x10 diagram [checkEmptySpacesConnectivity] returns
    without error, and returns true exactly when any two Empty tiles are
    joined by a path of cardinal steps through Empty tiles. *)
Theorem checkEmptySpacesConnectivity_correct (fuel : nat) (diagram : list (list TileType)) :
  wf_diagram diagram -> wallBordered diagram -> 321 <= fuel ->
  exists b,
    checkEmptySpacesConnectivity fuel diagram = Ret b /\
    (b = true <->
     forall c c',
       tileIs diagram EMPTY_SPACE c -> tileIs diagram EMPTY_SPACE c' ->
       joined (cell_is EMPTY_SPACE) diagram c c').
Proof.
  intros Hwf Hwb Hfuel. unfold checkEmptySpacesConnectivity.
  destruct (seedLoop_correct (cell_is EMPTY_SPACE) diagram Hwf Hwb) with
    (fuel := fuel) (seeds := interior_coords) as (b & Hrun & Hb).
  - intros cl Hp ->. done.
  - done.
  - apply Forall_forall. intros c. by rewrite interior_elem.
  - exists b. split; [done|]. rewrite Hb. split.
    + intros H c c' Hc Hc'. apply H.
      * apply interior_elem. by eapply Hwb.
      * apply interior_elem. by eapply Hwb.
      * by apply passableAt_empty.
      * by apply passableAt_empty.
    + intros H c c' _ _ Hc Hc'. apply H; by apply passableAt_empty.
Qed.

Lemma checkEmptySpacesConnectivity_correct_witness :
  wf_diagram (augmentRawDiagram raw_room) /\ wallBordered (augmentRawDiagram raw_room) /\
  exists b,
    checkEmptySpacesConnectivity 321 (augmentRawDiagram raw_room) = Ret b /\
    (b = true <->
     forall c c',
       tileIs (augmentRawDiagram raw_room) EMPTY_SPACE c ->
       tileIs (augmentRawDiagram raw_room) EMPTY_SPACE c' ->
       joined (cell_is EMPTY_SPACE) (augmentRawDiagram raw_room) c c').
Proof.
  destruct (augmentRawDiagram_shape raw_room) as [Hwf Hwb].
  split; [exact Hwf|]. split; [exact Hwb|].
  apply (checkEmptySpacesConnectivity_correct 321 (augmentRawDiagram raw_room) Hwf Hwb). lia.
Defined.

(** X5. The flood fill from the treasures and monsters decides whether they
    are connected: [checkTreasuresAndMonstersConnectivity] returns without
    error, and returns true exactly when any two of the given coordinates
    that hold no Wall are joined by a path of cardinal steps through tiles
    that are not Walls. *)
Theorem checkTreasuresAndMonstersConnectivity_correct (fuel : nat)
    (treasure_coords monster_coords : list Coordinate) (diagram : list (list TileType)) :
  wf_diagram diagram -> wallBordered diagram ->
  Forall interior (treasure_coords ++ monster_coords) -> 321 <= fuel ->
  exists b,
    checkTreasuresAndMonstersConnectivity fuel treasure_coords monster_coords diagram = Ret b /\
    (b = true <->
     forall c c',
       c ∈ treasure_coords ++ monster_coords -> c' ∈ treasure_coords ++ monster_coords ->
       ~ tileIs diagram WALL c -> ~ tileIs diagram WALL c' ->
       joined (fun cl => negb (cell_is WALL cl)) diagram c c').
Proof.
  intros Hwf Hwb Hint Hfuel. unfold checkTreasuresAndMonstersConnectivity.
  destruct (seedLoop_correct (fun cl => negb (cell_is WALL cl)) diagram Hwf Hwb) with
    (fuel := fuel) (seeds := treasure_coords ++ monster_coords) as (b & Hrun & Hb).
  - intros cl Hp ->. done.
  - done.
  - done.
  - exists b. split; [done|]. rewrite Hb. rewrite Forall_forall in Hint. split.
    + intros H c c' Hc Hc' Hw Hw'. apply H; [done|done| |].
      * apply passableAt_not_wall; auto.
      * apply passableAt_not_wall; auto.
    + intros H c c' Hc Hc' Hp Hp'. apply H; [done|done| |].
      * apply passableAt_not_wall; auto.
      * apply passableAt_not_wall; auto.
Qed.

Lemma checkTreasuresAndMonstersConnectivity_correct_witness :
  wf_diagram (augmentRawDiagram raw_monster_door) /\
  wallBordered (augmentRawDiagram raw_monster_door) /\
  exists b,
    checkTreasuresAndMonstersConnectivity 321 [mkCoord 3 1] [mkCoord 4 1]
      (augmentRawDiagram raw_monster_door) = Ret b /\
    (b = true <->
     forall c c',
       c ∈ [mkCoord 3 1] ++ [mkCoord 4 1] -> c' ∈ [mkCoord 3 1] ++ [mkCoord 4 1] ->
       ~ tileIs (augmentRawDiagram raw_monster_door) WALL c ->
       ~ tileIs (augmentRawDiagram raw_monster_door) WALL c' ->
       joined (fun cl => negb (cell_is WALL cl)) (augmentRawDiagram raw_monster_door) c c').
Proof.
  destruct (augmentRawDiagram_shape raw_monster_door) as [Hwf Hwb].
  split; [exact Hwf|]. split; [exact Hwb|].
  apply (checkTreasuresAndMonstersConnectivity_correct 321 [mkCoord 3 1] [mkCoord 4 1]
           (augmentRawDiagram raw_monster_door) Hwf Hwb); [|lia].
  repeat constructor; cbn; lia.
Defined.

(** ** The border of walls *)

Lemma wf_raw_inv (raw_diagram : list (list TileType)) :
  wf_raw raw_diagram ->
  exists a00 a01 a02 a03 a04 a05 a06 a07 a10 a11 a12 a13 a14 a15 a16 a17
         a20 a21 a22 a23 a24 a25 a26 a27 a30 a31 a32 a33 a34 a35 a36 a37
         a40 a41 a42 a43 a44 a45 a46 a47 a50 a51 a52 a53 a54 a55 a56 a57
         a60 a61 a62 a63 a64 a65 a66 a67 a70 a71 a72 a73 a74 a75 a76 a77,
    raw_diagram =
      [ [a00; a01; a02; a03; a04; a05; a06; a07]; [a10; a11; a12; a13; a14; a15; a16; a17];
        [a20; a21; a22; a23; a24; a25; a26; a27]; [a30; a31; a32; a33; a34; a35; a36; a37];
        [a40; a41; a42; a43; a44; a45; a46; a47]; [a50; a51; a52; a53; a54; a55; a56; a57];
        [a60; a61; a62; a63; a64; a65; a66; a67]; [a70; a71; a72; a73; a74; a75; a76; a77] ].
Proof.
  intros [Hlen Hrows].
  assert (Hrow : forall row : list TileType, length row = 8 ->
            exists a b c d e f g h, row = [a; b; c; d; e; f; g; h]).
  { intros row H. do 9 (destruct row as [|? row]; try discriminate H). by repeat eexists. }
  do 9 (destruct raw_diagram as [|? raw_diagram]; try discriminate Hlen).
  repeat match goal with
         | H : Forall _ (_ :: _) |- _ => apply Forall_cons in H as [?%Hrow ?]
         end.
  destruct_and?. repeat match goal with H : exists _, _ |- _ => destruct H as [? H] end.
  subst. by repeat eexists.
Qed.

Lemma interiorOf_augmentRawDiagram (raw_diagram : list (list TileType)) :
  wf_raw raw_diagram -> interiorOf (augmentRawDiagram raw_diagram) = raw_diagram.
Proof.
  intros Hraw. apply wf_raw_inv in Hraw.
  repeat match goal with H : exists _, _ |- _ => destruct H as [? H] end.
  subst. reflexivity.
Qed.

(** X6. [augmentRawDiagram] surrounds the raw diagram with a border of
    walls: the result is 10x10, its interior is the raw diagram, tile
    (i, j) of the raw diagram is at (i + 1, j + 1), and every tile of the
    border is a Wall. *)
Theorem augmentRawDiagram_border (raw_diagram : list (list TileType)) :
  wf_raw raw_diagram ->
  wf_diagram (augmentRawDiagram raw_diagram) /\
  interiorOf (augmentRawDiagram raw_diagram) = raw_diagram /\
  (forall i j row t,
     raw_diagram !! i = Some row -> row !! j = Some t ->
     tileIs (augmentRawDiagram raw_diagram) t (mkCoord (Z.of_nat i + 1) (Z.of_nat j + 1))) /\
  (forall x y,
     (0 <= x <= 9)%Z -> (0 <= y <= 9)%Z -> ~ interior (mkCoord x y) ->
     tileIs (augmentRawDiagram raw_diagram) WALL (mkCoord x y)).
Proof.
  intros Hraw. split; [apply augmentRawDiagram_shape|].
  split; [by apply interiorOf_augmentRawDiagram|].
  apply wf_raw_inv in Hraw.
  repeat match goal with H : exists _, _ |- _ => destruct H as [? H] end. subst.
  split.
  - intros i j row t Hi Hj. cbn [coord_x coord_y].
    do 8 (destruct i as [|i]; [injection Hi as <-;
      do 8 (destruct j as [|j]; [injection Hj as <-; reflexivity|]); done|]). done.
  - intros cx cy Hx Hy Hint. unfold interior in Hint. cbn [coord_x coord_y] in Hint.
    assert (Hc : (cx = 0 \/ cx = 9 \/ cy = 0 \/ cy = 9)%Z) by lia.
    assert (Hxs : (cx = 0 \/ cx = 1 \/ cx = 2 \/ cx = 3 \/ cx = 4 \/ cx = 5 \/ cx = 6 \/ cx = 7 \/
                   cx = 8 \/ cx = 9)%Z) by lia.
    assert (Hys : (cy = 0 \/ cy = 1 \/ cy = 2 \/ cy = 3 \/ cy = 4 \/ cy = 5 \/ cy = 6 \/ cy = 7 \/
                   cy = 8 \/ cy = 9)%Z) by lia.
    clear Hx Hy Hint.
    destruct Hc as [-> | [-> | [-> | ->]]].
    + repeat (destruct Hys as [-> | Hys]; [reflexivity|]). subst. reflexivity.
    + repeat (destruct Hys as [-> | Hys]; [reflexivity|]). subst. reflexivity.
    + repeat (destruct Hxs as [-> | Hxs]; [reflexivity|]). subst. reflexivity.
    + repeat (destruct Hxs as [-> | Hxs]; [reflexivity|]). subst. reflexivity.
Qed.

Lemma augmentRawDiagram_border_witness :
  wf_raw raw_room /\
  wf_diagram (augmentRawDiagram raw_room) /\
  interiorOf (augmentRawDiagram raw_room) = raw_room /\
  (forall i j row t,
     raw_room !! i = Some row -> row !! j = Some t ->
     tileIs (augmentRawDiagram raw_room) t (mkCoord (Z.of_nat i + 1) (Z.of_nat j + 1))) /\
  (forall x y,
     (0 <= x <= 9)%Z -> (0 <= y <= 9)%Z -> ~ interior (mkCoord x y) ->
     tileIs (augmentRawDiagram raw_room) WALL (mkCoord x y)).
Proof.
  assert (Hraw : wf_raw raw_room) by (split; [reflexivity|repeat constructor]).
  split; [exact Hraw|]. exact (augmentRawDiagram_border raw_room Hraw).
Defined.

(** ** Treasures and monsters of a diagram *)

Lemma mapM_read_filter (diagram : list (list TileType)) (t : TileType)
    (coords : list Coordinate) :
  wf_diagram diagram -> Forall interior coords ->
  exists cells,
    mapM (fun coord => let* c := readTile diagram (coord_x coord) (coord_y coord) in
                       Ret (coord, c)) coords = Ret cells /\
    forall t, map fst (filter (fun p => cell_is t (snd p) = true) cells) =
              filter (tileIs diagram t) coords.
Proof.
  intros Hwf. induction coords as [|c coords IH]; intros Hint.
  - by exists [].
  - apply Forall_cons in Hint as [[Hx Hy] Hint]. destruct (IH Hint) as (cells & Hrun & Hf).
    destruct (readTile_wf diagram (coord_x c) (coord_y c) Hwf) as [t0 Ht0]; [lia|lia|].
    exists ((c, Tile t0) :: cells). cbn [mapM]. rewrite Ht0. cbn [bind]. rewrite Hrun.
    split; [done|]. intros t'. rewrite !filter_cons. cbn [snd].
    destruct (decide (t0 = t')) as [->|Hne].
    + rewrite (decide_True (P := cell_is _ _ = true)) by by apply bool_decide_eq_true.
      rewrite (decide_True (P := tileIs _ _ _)) by done.
      cbn. by rewrite Hf.
    + rewrite (decide_False (P := cell_is _ _ = true)).
      2:{ intros H. apply bool_decide_eq_true in H. congruence. }
      rewrite (decide_False (P := tileIs _ _ _)); [apply Hf|].
      unfold tileIs. rewrite Ht0. congruence.
Qed.

Lemma NoDup_interior_coords : NoDup interior_coords.
Proof. apply (bool_decide_unpack _). by vm_compute. Qed.

(** X7. [getTreasureAndMonsterCoords] lists the treasures and the monsters of
    the interior. *)
Theorem getTreasureAndMonsterCoords_correct (diagram : list (list TileType)) :
  wf_diagram diagram ->
  exists treasure_coords monster_coords : list Coordinate,
    getTreasureAndMonsterCoords diagram = Ret (treasure_coords, monster_coords) /\
    (forall c, c ∈ treasure_coords <-> interior c /\ tileIs diagram TREASURE c) /\
    (forall c, c ∈ monster_coords <-> interior c /\ tileIs diagram MONSTER c) /\
    NoDup treasure_coords /\ NoDup monster_coords /\
    sublist treasure_coords interior_coords /\
    sublist monster_coords interior_coords.
Proof.
  intros Hwf.
  destruct (mapM_read_filter diagram TREASURE interior_coords Hwf) as (cells & Hrun & Hf).
  { apply Forall_forall. intros c. by rewrite interior_elem. }
  exists (filter (tileIs diagram TREASURE) interior_coords),
         (filter (tileIs diagram MONSTER) interior_coords).
  split; [|split; [|split; [|split; [|split; [|split]]]]].
  - unfold getTreasureAndMonsterCoords. rewrite Hrun. cbn [bind]. by rewrite !Hf.
  - intros c. rewrite list_elem_of_filter, interior_elem. tauto.
  - intros c. rewrite list_elem_of_filter, interior_elem. tauto.
  - apply NoDup_filter, NoDup_interior_coords.
  - apply NoDup_filter, NoDup_interior_coords.
  - apply sublist_filter.
  - apply sublist_filter.
Qed.

Lemma getTreasureAndMonsterCoords_correct_witness :
  wf_diagram (augmentRawDiagram raw_monster_door) /\
  exists treasure_coords monster_coords : list Coordinate,
    getTreasureAndMonsterCoords (augmentRawDiagram raw_monster_door) =
      Ret (treasure_coords, monster_coords) /\
    (forall c, c ∈ treasure_coords <->
               interior c /\ tileIs (augmentRawDiagram raw_monster_door) TREASURE c) /\
    (forall c, c ∈ monster_coords <->
               interior c /\ tileIs (augmentRawDiagram raw_monster_door) MONSTER c) /\
    NoDup treasure_coords /\ NoDup monster_coords /\
    sublist treasure_coords interior_coords /\
    sublist monster_coords interior_coords.
Proof.
  destruct (augmentRawDiagram_shape raw_monster_door) as [Hwf _].
  split; [exact Hwf|].
  exact (getTreasureAndMonsterCoords_correct (augmentRawDiagram raw_monster_door) Hwf).
Defined.

(** ** The validators on well-formed diagrams *)

Lemma hasTile_range (diagram : list (list TileType)) (c : Coordinate) :
  wf_diagram diagram -> (0 <= coord_x c <= 9)%Z -> (0 <= coord_y c <= 9)%Z ->
  hasTile diagram c.
Proof. intros Hwf Hx Hy. by apply readTile_wf. Qed.

Lemma countWalls_run (diagram : list (list TileType)) (coords : list Coordinate) :
  Forall (hasTile diagram) coords ->
  forall n, countWalls diagram coords n =
            Ret (n + Z.of_nat (countTiles diagram WALL coords))%Z.
Proof.
  induction 1 as [|c coords [t Ht] _ IH]; intros n.
  - cbn. f_equal. lia.
  - cbn [countWalls]. rewrite Ht. cbn [bind]. rewrite IH, countTiles_cons. f_equal.
    unfold cell_is. destruct (decide (t = WALL)) as [->|Hne].
    + rewrite bool_decide_eq_true_2 by done. rewrite decide_True by done. lia.
    + rewrite bool_decide_eq_false_2 by congruence.
      rewrite decide_False; [lia|]. unfold tileIs. rewrite Ht. congruence.
Qed.

Lemma countRoomTiles_run (diagram : list (list TileType)) (coords : list Coordinate) :
  Forall (hasTile diagram) coords ->
  forall e t, countRoomTiles diagram coords e t =
              Ret ((e + Z.of_nat (countTiles diagram EMPTY_SPACE coords))%Z,
                   (t + Z.of_nat (countTiles diagram TREASURE coords))%Z).
Proof.
  induction 1 as [|c coords [t Ht] _ IH]; intros e n.
  - cbn. do 2 f_equal; lia.
  - cbn [countRoomTiles]. rewrite Ht. cbn [bind]. rewrite !countTiles_cons.
    destruct t; rewrite IH; do 2 f_equal;
      repeat (rewrite decide_True by done);
      repeat (rewrite decide_False by (unfold tileIs; rewrite Ht; congruence)); lia.
Qed.

Lemma eqb_of_nat (k : nat) (n : Z) (m : nat) :
  n = Z.of_nat m -> ((0 + Z.of_nat k =? n)%Z) = bool_decide (k = m).
Proof.
  intros ->. destruct (decide (k = m)) as [->|Hne].
  - rewrite bool_decide_eq_true_2 by done. apply Z.eqb_eq. lia.
  - rewrite bool_decide_eq_false_2 by done. apply Z.eqb_neq. lia.
Qed.

Lemma neighbours_hasTile (diagram : list (list TileType)) (x y : Z) :
  wf_diagram diagram -> interior (mkCoord x y) ->
  Forall (hasTile diagram) (get4DirectionCoords x y).
Proof.
  intros Hwf [Hx Hy]. cbn in Hx, Hy.
  repeat constructor; apply hasTile_range; cbn; try done; lia.
Qed.

Lemma isDeadEnds_run (diagram : list (list TileType)) (x y : Z) :
  wf_diagram diagram -> interior (mkCoord x y) ->
  isDeadEnds x y diagram =
  Ret (bool_decide (countTiles diagram WALL (get4DirectionCoords x y) = 3)).
Proof.
  intros Hwf Hint. unfold isDeadEnds.
  rewrite countWalls_run by by apply neighbours_hasTile.
  cbn [bind]. f_equal. by apply eqb_of_nat.
Qed.

Lemma isTRoomTilesAvailable_run (diagram : list (list TileType)) (x y : Z) :
  wf_diagram diagram -> isTRoomLTCoordAvailable x y = true ->
  isTRoomTilesAvailable x y diagram =
  Ret (bool_decide (countTiles diagram EMPTY_SPACE (getTRoomTileCoords x y) = 8) &&
       bool_decide (countTiles diagram TREASURE (getTRoomTileCoords x y) = 1)).
Proof.
  intros Hwf Hav. unfold isTRoomLTCoordAvailable, SIDE_LENGTH in Hav.
  unfold isTRoomTilesAvailable. rewrite countRoomTiles_run.
  - cbn [bind]. f_equal. f_equal; by apply eqb_of_nat.
  - repeat constructor; apply hasTile_range; cbn; try done; lia.
Qed.

Lemma isTRoomWallsAvailable_run (diagram : list (list TileType)) (x y : Z) :
  wf_diagram diagram -> (1 <= x <= 6)%Z -> (1 <= y <= 6)%Z ->
  isTRoomWallsAvailable x y diagram =
  Ret (bool_decide (countTiles diagram WALL (getTRoomOuterTileCoords x y) = 11)).
Proof.
  intros Hwf Hx Hy. unfold isTRoomWallsAvailable. rewrite countWalls_run.
  - cbn [bind]. f_equal. by apply eqb_of_nat.
  - repeat constructor; apply hasTile_range; cbn; try done; lia.
Qed.

(** The nine tiles of a block that holds eight Empty tiles and a Treasure lie
    in the interior of a wall-bordered diagram. *)
Lemma room_tiles_interior (diagram : list (list TileType)) (x y : Z) (c : Coordinate) :
  wallBordered diagram ->
  countTiles diagram EMPTY_SPACE (getTRoomTileCoords x y) = 8 ->
  countTiles diagram TREASURE (getTRoomTileCoords x y) = 1 ->
  c ∈ getTRoomTileCoords x y -> interior c.
Proof.
  intros Hwb He Ht Hc.
  destruct (countTiles_two_kinds diagram EMPTY_SPACE TREASURE (getTRoomTileCoords x y))
    with (c := c) as [H|H]; [done|by rewrite He, Ht|done| |]; by eapply Hwb.
Qed.

Lemma validRoom_corner (diagram : list (list TileType)) (lt_coord : Coordinate) :
  wallBordered diagram -> validRoom diagram lt_coord ->
  (1 <= coord_x lt_coord <= 6)%Z /\ (1 <= coord_y lt_coord <= 6)%Z.
Proof.
  intros Hwb (Hav & He & Ht & _).
  pose proof (room_tiles_interior diagram _ _ (mkCoord (coord_x lt_coord + 2) (coord_y lt_coord + 2))
                Hwb He Ht) as [Hx Hy].
  { apply elem_of_getTRoomTileCoords. cbn. lia. }
  unfold isTRoomLTCoordAvailable in Hav. cbn in Hx, Hy. lia.
Qed.

Section Validators.

Variable diagram : list (list TileType).

Hypothesis Hwf : wf_diagram diagram.

Hypothesis Hwb : wallBordered diagram.

Lemma findTRoom_run (lt_coords : list Coordinate) :
  exists found,
    findTRoom lt_coords diagram = Ret found /\
    match found with
    | Some lt_coord => lt_coord ∈ lt_coords /\ validRoom diagram lt_coord
    | None => forall lt_coord, lt_coord ∈ lt_coords -> ~ validRoom diagram lt_coord
    end.
Proof.
  induction lt_coords as [|lt lts (found & Hrun & Hfound)].
  - exists None. split; [done|]. intros lt Hlt. by apply elem_of_nil in Hlt.
  - assert (Hskip : ~ validRoom diagram lt ->
              exists found',
                findTRoom lts diagram = Ret found' /\
                match found' with
                | Some lt_coord => lt_coord ∈ lt :: lts /\ validRoom diagram lt_coord
                | None => forall lt_coord, lt_coord ∈ lt :: lts -> ~ validRoom diagram lt_coord
                end).
    { intros Hnot. exists found. split; [done|]. destruct found as [lt'|].
      - destruct Hfound. split; [by right|done].
      - intros lt' Hlt'. apply elem_of_cons in Hlt' as [->|Hlt']; [done|by apply Hfound]. }
    cbn [findTRoom].
    destruct (isTRoomLTCoordAvailable (coord_x lt) (coord_y lt)) eqn:Hav; cbn [negb].
    2:{ apply Hskip. intros [Hv _]. congruence. }
    rewrite isTRoomTilesAvailable_run by done. cbn [bind].
    destruct (bool_decide (countTiles diagram EMPTY_SPACE _ = 8)) eqn:He; cbn [andb negb].
    2:{ apply Hskip. apply bool_decide_eq_false in He. intros (_ & Hv & _). done. }
    destruct (bool_decide (countTiles diagram TREASURE _ = 1)) eqn:Ht; cbn [andb negb].
    2:{ apply Hskip. apply bool_decide_eq_false in Ht. intros (_ & _ & Hv & _). done. }
    apply bool_decide_eq_true in He, Ht.
    assert (Hcorner : (1 <= coord_x lt <= 6)%Z /\ (1 <= coord_y lt <= 6)%Z).
    { pose proof (room_tiles_interior diagram _ _
                    (mkCoord (coord_x lt + 2) (coord_y lt + 2)) Hwb He Ht) as [Hx Hy].
      { apply elem_of_getTRoomTileCoords. cbn. lia. }
      unfold isTRoomLTCoordAvailable in Hav. cbn in Hx, Hy. lia. }
    rewrite isTRoomWallsAvailable_run by tauto. cbn [bind].
    destruct (bool_decide (countTiles diagram WALL _ = 11)) eqn:Hw; cbn [negb].
    2:{ apply Hskip. apply bool_decide_eq_false in Hw. intros (_ & _ & _ & Hv). done. }
    apply bool_decide_eq_true in Hw.
    exists (Some lt). split; [done|]. split; [by left|done].
Qed.

Lemma checkTreasureRoomsFrom_run (treasure_coords : list Coordinate) :
  Forall interior treasure_coords ->
  forall acc,
    (exists found,
       checkTreasureRoomsFrom treasure_coords diagram acc = Ret (true, acc ++ found) /\
       Forall2 (fun tc lt => lt ∈ getTRoomLTCoords (coord_x tc) (coord_y tc) /\
                             validRoom diagram lt)
               (filter (tileIs diagram TREASURE) treasure_coords) found) \/
    (checkTreasureRoomsFrom treasure_coords diagram acc = Ret (false, []) /\
     exists tc, tc ∈ treasure_coords /\ tileIs diagram TREASURE tc /\
                forall lt, lt ∈ getTRoomLTCoords (coord_x tc) (coord_y tc) ->
                           ~ validRoom diagram lt).
Proof.
  induction 1 as [|tc tcs [Hx Hy] _ IH]; intros acc.
  - left. exists []. rewrite app_nil_r. split; [done|constructor].
  - cbn [checkTreasureRoomsFrom].
    destruct (readTile_wf diagram (coord_x tc) (coord_y tc) Hwf) as [t Ht]; [lia|lia|].
    rewrite Ht. cbn [bind]. rewrite filter_cons.
    destruct (decide (t = TREASURE)) as [->|Hne].
    + unfold cell_is. rewrite bool_decide_eq_true_2 by done.
      rewrite decide_True by done.
      destruct (findTRoom_run (getTRoomLTCoords (coord_x tc) (coord_y tc)))
        as (found & Hrun & Hfound).
      rewrite Hrun. cbn [bind]. destruct found as [lt|].
      * destruct (IH (acc ++ [lt])) as [(found & Hrun' & Hall)|(Hrun' & tc' & Hin & Htc' & Hno)].
        -- left. exists (lt :: found). rewrite <- app_assoc in Hrun'. split; [done|].
           by constructor.
        -- right. split; [done|]. exists tc'. split; [by right|done].
      * right. split; [done|]. exists tc. split; [by left|done].
    + unfold cell_is. rewrite bool_decide_eq_false_2 by congruence.
      rewrite decide_False by (unfold tileIs; rewrite Ht; congruence).
      destruct (IH acc) as [(found & Hrun' & Hall)|(Hrun' & tc' & Hin & Htc' & Hno)].
      * left. by exists found.
      * right. split; [done|]. exists tc'. split; [by right|done].
Qed.

End Validators.

(** ** What the final validation accepts *)

Ltac in_coords := repeat first [by left | right].

Lemma ring_two_open (diagram : list (list TileType)) (lt r1 r2 : Coordinate) :
  validRoom diagram lt ->
  r1 ∈ getTRoomOuterTileCoords (coord_x lt) (coord_y lt) ->
  r2 ∈ getTRoomOuterTileCoords (coord_x lt) (coord_y lt) ->
  r1 <> r2 -> ~ tileIs diagram WALL r1 -> ~ tileIs diagram WALL r2 -> False.
Proof.
  intros (_ & _ & _ & Hw) H1 H2 Hne Hn1 Hn2.
  pose proof (countTiles_missing_two diagram WALL _ r1 r2 H1 H2 Hne Hn1 Hn2) as Hle.
  rewrite Hw in Hle. cbn in Hle. lia.
Qed.

Lemma room_tile_not_wall (diagram : list (list TileType)) (lt c : Coordinate) :
  validRoom diagram lt -> c ∈ getTRoomTileCoords (coord_x lt) (coord_y lt) ->
  ~ tileIs diagram WALL c.
Proof.
  intros (_ & He & Ht & _) Hc.
  destruct (countTiles_two_kinds diagram EMPTY_SPACE TREASURE
              (getTRoomTileCoords (coord_x lt) (coord_y lt))) with (c := c) as [H|H];
    [done|by rewrite He, Ht|done| |]; unfold tileIs in *; congruence.
Qed.

(** Two valid rooms that share a tile are the same room. *)
Lemma validRoom_unique (diagram : list (list TileType)) (lt lt' c : Coordinate) :
  validRoom diagram lt -> validRoom diagram lt' ->
  c ∈ getTRoomTileCoords (coord_x lt) (coord_y lt) ->
  c ∈ getTRoomTileCoords (coord_x lt') (coord_y lt') ->
  lt = lt'.
Proof.
  intros Hv Hv' Hc Hc'.
  apply elem_of_getTRoomTileCoords in Hc, Hc'.
  destruct lt as [lx ly], lt' as [lx' ly']. cbn [coord_x coord_y] in *.
  assert (Hopen : forall r, r ∈ getTRoomTileCoords lx' ly' -> ~ tileIs diagram WALL r).
  { intros r. by apply (room_tile_not_wall diagram (mkCoord lx' ly')). }
  assert (Hpair : forall r1 r2,
            r1 ∈ getTRoomOuterTileCoords lx ly -> r2 ∈ getTRoomOuterTileCoords lx ly ->
            r1 <> r2 ->
            r1 ∈ getTRoomTileCoords lx' ly' -> r2 ∈ getTRoomTileCoords lx' ly' -> False).
  { intros r1 r2 H1 H2 Hne H1' H2'.
    apply (ring_two_open diagram (mkCoord lx ly) r1 r2); auto. }
  destruct (Z.lt_trichotomy lx lx') as [Hx|[Hx|Hx]],
           (Z.lt_trichotomy ly ly') as [Hy|[Hy|Hy]].
  - exfalso. apply (Hpair (mkCoord (lx + 3) (ly + 2)) (mkCoord (lx + 2) (ly + 3)));
      [in_coords|in_coords|intros [=]; lia| |];
      apply elem_of_getTRoomTileCoords; cbn; lia.
  - exfalso. apply (Hpair (mkCoord (lx + 3) ly) (mkCoord (lx + 3) (ly + 1)));
      [in_coords|in_coords|intros [=]; lia| |];
      apply elem_of_getTRoomTileCoords; cbn; lia.
  - exfalso. apply (Hpair (mkCoord (lx + 3) ly) (mkCoord (lx + 2) (ly - 1)));
      [in_coords|in_coords|intros [=]; lia| |];
      apply elem_of_getTRoomTileCoords; cbn; lia.
  - exfalso. apply (Hpair (mkCoord lx (ly + 3)) (mkCoord (lx + 1) (ly + 3)));
      [in_coords|in_coords|intros [=]; lia| |];
      apply elem_of_getTRoomTileCoords; cbn; lia.
  - by subst.
  - exfalso. apply (Hpair (mkCoord lx (ly - 1)) (mkCoord (lx + 1) (ly - 1)));
      [in_coords|in_coords|intros [=]; lia| |];
      apply elem_of_getTRoomTileCoords; cbn; lia.
  - exfalso. apply (Hpair (mkCoord (lx - 1) (ly + 2)) (mkCoord lx (ly + 3)));
      [in_coords|in_coords|intros [=]; lia| |];
      apply elem_of_getTRoomTileCoords; cbn; lia.
  - exfalso. apply (Hpair (mkCoord (lx - 1) ly) (mkCoord (lx - 1) (ly + 1)));
      [in_coords|in_coords|intros [=]; lia| |];
      apply elem_of_getTRoomTileCoords; cbn; lia.
  - exfalso. apply (Hpair (mkCoord (lx - 1) ly) (mkCoord lx (ly - 1)));
      [in_coords|in_coords|intros [=]; lia| |];
      apply elem_of_getTRoomTileCoords; cbn; lia.
Qed.

Lemma isContainedByTRoom_true (x y : Z) (lt_coords : list Coordinate) :
  isContainedByTRoom x y lt_coords = true <->
  exists lt, lt ∈ lt_coords /\ mkCoord x y ∈ getTRoomTileCoords (coord_x lt) (coord_y lt).
Proof.
  unfold isContainedByTRoom. rewrite existsb_exists. split.
  - intros (lt & Hin & H). exists lt. split; [by apply list_elem_of_In|].
    apply elem_of_getTRoomTileCoords. cbn. lia.
  - intros (lt & Hin & H). exists lt. split; [by apply list_elem_of_In|].
    apply elem_of_getTRoomTileCoords in H. cbn in H. lia.
Qed.

Section SolvedGrid.

Variable diagram : list (list TileType).

Hypothesis Hwf : wf_diagram diagram.

Hypothesis Hwb : wallBordered diagram.

Lemma allDeadEnds_run (monster_coords : list Coordinate) :
  Forall interior monster_coords ->
  exists b,
    allDeadEnds monster_coords diagram = Ret b /\
    (b = true <->
     forall mc, mc ∈ monster_coords ->
                countTiles diagram WALL (get4DirectionCoords (coord_x mc) (coord_y mc)) = 3).
Proof.
  induction 1 as [|mc mcs Hmc _ (b & Hrun & Hb)].
  - exists true. split; [done|]. split; [|done]. intros _ mc Hmc. by apply elem_of_nil in Hmc.
  - cbn [allDeadEnds]. rewrite isDeadEnds_run by (by destruct mc). cbn [bind].
    destruct (bool_decide _) eqn:Hd; cbn [negb].
    + apply bool_decide_eq_true in Hd. exists b. split; [done|]. rewrite Hb. split.
      * intros H mc' Hmc'. apply elem_of_cons in Hmc' as [->|Hmc']; [done|by apply H].
      * intros H mc' Hmc'. apply H. by right.
    + apply bool_decide_eq_false in Hd. exists false. split; [done|]. split; [done|].
      intros H. destruct Hd. apply H. by left.
Qed.

Lemma noEmptyDeadEnds_run (coords : list Coordinate) :
  Forall interior coords ->
  exists b,
    noEmptyDeadEnds coords diagram = Ret b /\
    (b = true <->
     forall c, c ∈ coords -> tileIs diagram EMPTY_SPACE c ->
               countTiles diagram WALL (get4DirectionCoords (coord_x c) (coord_y c)) <> 3).
Proof.
  induction 1 as [|c coords Hc _ (b & Hrun & Hb)].
  - exists true. split; [done|]. split; [|done]. intros _ c Hc. by apply elem_of_nil in Hc.
  - cbn [noEmptyDeadEnds]. pose proof Hc as [Hx Hy].
    destruct (readTile_wf diagram (coord_x c) (coord_y c) Hwf) as [t Ht]; [lia|lia|].
    rewrite Ht. cbn [bind]. unfold cell_is.
    destruct (decide (t = EMPTY_SPACE)) as [->|Hne].
    + rewrite bool_decide_eq_true_2 by done.
      rewrite isDeadEnds_run by (by destruct c). cbn [bind].
      destruct (bool_decide (countTiles _ _ _ = 3)) eqn:Hd.
      * apply bool_decide_eq_true in Hd. exists false. split; [done|]. split; [done|].
        intros H. exfalso. eapply H; [by left|done|done].
      * apply bool_decide_eq_false in Hd. exists b. split; [done|]. rewrite Hb. split.
        -- intros H c' Hc'. apply elem_of_cons in Hc' as [->|Hc']; [done|by apply H].
        -- intros H c' Hc'. apply H. by right.
    + rewrite bool_decide_eq_false_2 by congruence.
      exists b. split; [done|]. rewrite Hb. split.
      * intros H c' Hc'. apply elem_of_cons in Hc' as [->|Hc']; [|by apply H].
        unfold tileIs. rewrite Ht. congruence.
      * intros H c' Hc'. apply H. by right.
Qed.

Lemma checkMonsters_run (monster_coords : list Coordinate) :
  Forall interior monster_coords ->
  exists b,
    checkMonsters monster_coords diagram = Ret b /\
    (b = true <->
     forall mc, mc ∈ monster_coords -> tileIs diagram MONSTER mc ->
                countTiles diagram WALL (get4DirectionCoords (coord_x mc) (coord_y mc)) = 3).
Proof.
  induction 1 as [|c coords Hc _ (b & Hrun & Hb)].
  - exists true. split; [done|]. split; [|done]. intros _ c Hc. by apply elem_of_nil in Hc.
  - cbn [checkMonsters]. pose proof Hc as [Hx Hy].
    destruct (readTile_wf diagram (coord_x c) (coord_y c) Hwf) as [t Ht]; [lia|lia|].
    rewrite Ht. cbn [bind]. unfold cell_is.
    destruct (decide (t = MONSTER)) as [->|Hne].
    + rewrite bool_decide_eq_true_2 by done.
      rewrite isDeadEnds_run by (by destruct c). cbn [bind].
      destruct (bool_decide (countTiles _ _ _ = 3)) eqn:Hd; cbn [negb].
      * apply bool_decide_eq_true in Hd. exists b. split; [done|]. rewrite Hb. split.
        -- intros H c' Hc'. apply elem_of_cons in Hc' as [->|Hc']; [done|by apply H].
        -- intros H c' Hc'. apply H. by right.
      * apply bool_decide_eq_false in Hd. exists false. split; [done|]. split; [done|].
        intros H. destruct Hd. apply H; [by left|done].
    + rewrite bool_decide_eq_false_2 by congruence.
      exists b. split; [done|]. rewrite Hb. split.
      * intros H c' Hc'. apply elem_of_cons in Hc' as [->|Hc']; [|by apply H].
        unfold tileIs. rewrite Ht. congruence.
      * intros H c' Hc'. apply H. by right.
Qed.

Lemma checkHallways_run (lt_coords : list Coordinate) :
  exists b,
    checkHallways diagram lt_coords = Ret b /\ (b = true <-> ~ openBlock diagram lt_coords).
Proof.
  rewrite checkHallways_block by done. eexists. split; [done|].
  rewrite (openBlock_interior _ _ Hwf), <- Exists_exists.
  rewrite negb_true_iff, bool_decide_eq_false. done.
Qed.

Lemma found_rooms (treasure_coords found : list Coordinate) (c : Coordinate) :
  Forall2 (fun tc lt => lt ∈ getTRoomLTCoords (coord_x tc) (coord_y tc) /\
                        validRoom diagram lt)
          (filter (tileIs diagram TREASURE) treasure_coords) found ->
  (exists lt, lt ∈ found /\ c ∈ getTRoomTileCoords (coord_x lt) (coord_y lt)) <->
  inRoom diagram treasure_coords c.
Proof.
  intros Hall. split.
  - intros (lt & Hlt & Hc). apply list_elem_of_lookup in Hlt as [i Hi].
    destruct (Forall2_lookup_r _ _ _ _ _ Hall Hi) as (tc & Htc & Hin & Hv).
    apply list_elem_of_lookup_2 in Htc. apply list_elem_of_filter in Htc as [Ht Htc].
    by exists tc, lt.
  - intros (tc & lt & Htc & Ht & Hin & Hv & Hc).
    assert (Hf : tc ∈ filter (tileIs diagram TREASURE) treasure_coords)
      by by apply list_elem_of_filter.
    apply list_elem_of_lookup in Hf as [i Hi].
    destruct (Forall2_lookup_l _ _ _ _ _ Hall Hi) as (lt0 & Hlt0 & Hin0 & Hv0).
    assert (lt = lt0) as <-.
    { apply (validRoom_unique diagram lt lt0 tc); [done|done| |];
        destruct tc; by apply getTRoomLTCoords_contains. }
    exists lt. split; [by eapply list_elem_of_lookup_2|done].
Qed.

Lemma openAt_hallwayTile (treasure_coords found : list Coordinate) (x y : Z) :
  Forall2 (fun tc lt => lt ∈ getTRoomLTCoords (coord_x tc) (coord_y tc) /\
                        validRoom diagram lt)
          (filter (tileIs diagram TREASURE) treasure_coords) found ->
  openAt diagram found x y <-> hallwayTile diagram treasure_coords (mkCoord x y).
Proof.
  intros Hall. unfold openAt, hallwayTile.
  rewrite <- (isContainedByTRoom_false x y found).
  rewrite <- (found_rooms _ _ _ Hall), <- isContainedByTRoom_true.
  unfold tileIs. cbn [coord_x coord_y].
  destruct (isContainedByTRoom x y found); split; intros [? ?]; split; done.
Qed.

End SolvedGrid.

(** X8. [checkTreasureRooms] finds the room of every treasure: it returns
    true exactly when every coordinate of the list that holds a Treasure lies
    in a valid 3x3 room, it then returns the corner of such a room for each
    of them in order, it returns no corner when it returns false, and two
    valid rooms that share a tile are the same room. *)
Theorem checkTreasureRooms_correct (treasure_coords : list Coordinate)
    (diagram : list (list TileType)) :
  wf_diagram diagram -> wallBordered diagram -> Forall interior treasure_coords ->
  exists b lt_coords,
    checkTreasureRooms treasure_coords diagram = Ret (b, lt_coords) /\
    (b = true <->
     forall tc, tc ∈ treasure_coords -> tileIs diagram TREASURE tc ->
                exists lt, lt ∈ getTRoomLTCoords (coord_x tc) (coord_y tc) /\
                           validRoom diagram lt) /\
    (b = true ->
     Forall2 (fun tc lt => lt ∈ getTRoomLTCoords (coord_x tc) (coord_y tc) /\
                           validRoom diagram lt)
             (filter (tileIs diagram TREASURE) treasure_coords) lt_coords) /\
    (b = false -> lt_coords = []) /\
    (forall lt lt' c,
       validRoom diagram lt -> validRoom diagram lt' ->
       c ∈ getTRoomTileCoords (coord_x lt) (coord_y lt) ->
       c ∈ getTRoomTileCoords (coord_x lt') (coord_y lt') -> lt = lt').
Proof.
  intros Hwf Hwb Hint. unfold checkTreasureRooms.
  destruct (checkTreasureRoomsFrom_run diagram Hwf Hwb treasure_coords Hint [])
    as [(found & Hrun & Hall)|(Hrun & tc & Htc & Ht & Hno)].
  - exists true, found. split; [done|]. split; [|split; [done|split; [done|]]].
    + split; [|done]. intros _ tc Htc Ht.
      assert (Hf : tc ∈ filter (tileIs diagram TREASURE) treasure_coords)
        by by apply list_elem_of_filter.
      apply list_elem_of_lookup in Hf as [i Hi].
      destruct (Forall2_lookup_l _ _ _ _ _ Hall Hi) as (lt & _ & Hin & Hv). by exists lt.
    + intros lt lt' c. apply validRoom_unique.
  - exists false, []. split; [done|]. split; [|split; [done|split; [done|]]].
    + split; [done|]. intros H. destruct (H tc Htc Ht) as (lt & Hin & Hv).
      exfalso. by eapply Hno.
    + intros lt lt' c. apply validRoom_unique.
Qed.

Lemma checkTreasureRooms_correct_witness :
  wf_diagram (augmentRawDiagram raw_room) /\ wallBordered (augmentRawDiagram raw_room) /\
  exists b lt_coords,
    checkTreasureRooms [mkCoord 2 2] (augmentRawDiagram raw_room) = Ret (b, lt_coords) /\
    (b = true <->
     forall tc, tc ∈ [mkCoord 2 2] -> tileIs (augmentRawDiagram raw_room) TREASURE tc ->
                exists lt, lt ∈ getTRoomLTCoords (coord_x tc) (coord_y tc) /\
                           validRoom (augmentRawDiagram raw_room) lt) /\
    (b = true ->
     Forall2 (fun tc lt => lt ∈ getTRoomLTCoords (coord_x tc) (coord_y tc) /\
                           validRoom (augmentRawDiagram raw_room) lt)
             (filter (tileIs (augmentRawDiagram raw_room) TREASURE) [mkCoord 2 2]) lt_coords) /\
    (b = false -> lt_coords = []) /\
    (forall lt lt' c,
       validRoom (augmentRawDiagram raw_room) lt ->
       validRoom (augmentRawDiagram raw_room) lt' ->
       c ∈ getTRoomTileCoords (coord_x lt) (coord_y lt) ->
       c ∈ getTRoomTileCoords (coord_x lt') (coord_y lt') -> lt = lt').
Proof.
  destruct (augmentRawDiagram_shape raw_room) as [Hwf Hwb].
  split; [exact Hwf|]. split; [exact Hwb|].
  apply (checkTreasureRooms_correct [mkCoord 2 2] (augmentRawDiagram raw_room) Hwf Hwb).
  repeat constructor; cbn; lia.
Defined.

(** X9. [checkMonsters] holds when every monster still on the grid has
    exactly three walls around it. *)
Theorem checkMonsters_correct (monster_coords : list Coordinate)
    (diagram : list (list TileType)) :
  wf_diagram diagram -> Forall interior monster_coords ->
  exists b,
    checkMonsters monster_coords diagram = Ret b /\
    (b = true <->
     forall mc, mc ∈ monster_coords -> tileIs diagram MONSTER mc ->
                countTiles diagram WALL (get4DirectionCoords (coord_x mc) (coord_y mc)) = 3).
Proof. intros Hwf Hint. by apply checkMonsters_run. Qed.

Lemma checkMonsters_correct_witness :
  wf_diagram (augmentRawDiagram raw_two_monsters) /\
  exists b,
    checkMonsters [mkCoord 1 1; mkCoord 1 2] (augmentRawDiagram raw_two_monsters) = Ret b /\
    (b = true <->
     forall mc, mc ∈ [mkCoord 1 1; mkCoord 1 2] ->
                tileIs (augmentRawDiagram raw_two_monsters) MONSTER mc ->
                countTiles (augmentRawDiagram raw_two_monsters) WALL
                  (get4DirectionCoords (coord_x mc) (coord_y mc)) = 3).
Proof.
  destruct (augmentRawDiagram_shape raw_two_monsters) as [Hwf _].
  split; [exact Hwf|].
  apply (checkMonsters_correct [mkCoord 1 1; mkCoord 1 2]
           (augmentRawDiagram raw_two_monsters) Hwf).
  repeat constructor; cbn; lia.
Defined.

Lemma isSolved_run (fuel : nat) (treasure_coords monster_coords : list Coordinate)
    (diagram : list (list TileType)) :
  wf_diagram diagram -> wallBordered diagram ->
  Forall interior treasure_coords -> Forall interior monster_coords ->
  321 <= fuel ->
  exists b,
    isSolved fuel treasure_coords monster_coords diagram = Ret b /\
    (b = true <-> solvedGrid treasure_coords monster_coords diagram).
Proof.
  intros Hwf Hwb Htcs Hmcs Hfuel. unfold isSolved, solvedGrid.
  destruct (seedLoop_correct (cell_is EMPTY_SPACE) diagram Hwf Hwb) with
    (fuel := fuel) (seeds := interior_coords) as (b1 & Hrun1 & Hb1);
    [by intros cl Hp ->|done|apply Forall_forall; intros c; by rewrite interior_elem|].
  assert (Hjoin : b1 = true <->
            forall c c', tileIs diagram EMPTY_SPACE c -> tileIs diagram EMPTY_SPACE c' ->
                         joined (cell_is EMPTY_SPACE) diagram c c').
  { rewrite Hb1. split.
    - intros H c c' Hc Hc'.
      apply H; [apply interior_elem; by eapply Hwb|apply interior_elem; by eapply Hwb| |];
        by apply passableAt_empty.
    - intros H c c' _ _ Hc Hc'. apply H; by apply passableAt_empty. }
  clear Hb1. unfold checkEmptySpacesConnectivity. rewrite Hrun1. cbn [bind].
  destruct b1; cbn [negb].
  2:{ exists false. split; [done|]. split; [done|]. intros [H _].
      by apply Hjoin in H. }
  unfold checkTreasureRooms.
  destruct (checkTreasureRoomsFrom_run diagram Hwf Hwb treasure_coords Htcs [])
    as [(found & Hrun2 & Hall)|(Hrun2 & tc & Htc & Ht & Hno)];
    rewrite Hrun2; cbn [bind app negb].
  2:{ exists false. split; [done|]. split; [done|]. intros (_ & H & _).
      destruct (H tc Htc Ht) as (lt & Hin & Hv). exfalso. by eapply Hno. }
  assert (Hrooms : forall tc, tc ∈ treasure_coords -> tileIs diagram TREASURE tc ->
            exists lt, lt ∈ getTRoomLTCoords (coord_x tc) (coord_y tc) /\
                       validRoom diagram lt).
  { intros tc Htc Ht.
    assert (Hf : tc ∈ filter (tileIs diagram TREASURE) treasure_coords)
      by by apply list_elem_of_filter.
    apply list_elem_of_lookup in Hf as [i Hi].
    destruct (Forall2_lookup_l _ _ _ _ _ Hall Hi) as (lt & _ & Hin & Hv). by exists lt. }
  unfold checkMonstersAndDeadEnds.
  destruct (allDeadEnds_run diagram Hwf monster_coords Hmcs) as (b3 & Hrun3 & Hb3).
  rewrite Hrun3. cbn [bind]. destruct b3; cbn [negb].
  2:{ exists false. split; [done|]. split; [done|]. intros (_ & _ & H & _).
      by apply Hb3 in H. }
  destruct (noEmptyDeadEnds_run diagram Hwf interior_coords) as (b4 & Hrun4 & Hb4).
  { apply Forall_forall. intros c. by rewrite interior_elem. }
  rewrite Hrun4. destruct b4; cbn [negb].
  2:{ exists false. split; [done|]. split; [done|]. intros (_ & _ & _ & H & _).
      assert (false = true); [|done]. apply Hb4. intros c _. apply H. }
  destruct (checkHallways_run diagram Hwf found) as (b5 & Hrun5 & Hb5).
  rewrite Hrun5. cbn [bind].
  assert (Hblock : openBlock diagram found <->
            exists x y : Z,
              hallwayTile diagram treasure_coords (mkCoord x y) /\
              hallwayTile diagram treasure_coords (mkCoord (x + 1) y) /\
              hallwayTile diagram treasure_coords (mkCoord x (y + 1)) /\
              hallwayTile diagram treasure_coords (mkCoord (x + 1) (y + 1))).
  { unfold openBlock. by setoid_rewrite (openAt_hallwayTile diagram treasure_coords found). }
  destruct b5; cbn [negb].
  - exists true. split; [done|]. split; [|done]. intros _.
    split; [by apply Hjoin|]. split; [done|]. split; [by apply Hb3|]. split.
    + intros c Hc. apply Hb4; [done| |done]. apply interior_elem. by eapply Hwb.
    + rewrite <- Hblock. by apply Hb5.
  - exists false. split; [done|]. split; [done|]. intros (_ & _ & _ & _ & H).
    rewrite <- Hblock in H. by apply Hb5 in H.
Qed.

(** X10. [isSolved] accepts exactly the grids that obey the rules: the Empty
    tiles are connected, every treasure has a valid room, every monster
    coordinate has three walls around it, no Empty tile has, and no 2x2
    block consists of Empty tiles outside the rooms. *)
Theorem isSolved_correct (fuel : nat) (treasure_coords monster_coords : list Coordinate)
    (diagram : list (list TileType)) :
  wf_diagram diagram -> wallBordered diagram ->
  Forall interior treasure_coords -> Forall interior monster_coords ->
  321 <= fuel ->
  exists b,
    isSolved fuel treasure_coords monster_coords diagram = Ret b /\
    (b = true <-> solvedGrid treasure_coords monster_coords diagram).
Proof. apply isSolved_run. Qed.

Lemma isSolved_correct_witness :
  wf_diagram (augmentRawDiagram raw_two_monsters) /\
  wallBordered (augmentRawDiagram raw_two_monsters) /\
  exists b,
    isSolved 321 [] [mkCoord 1 1; mkCoord 1 2] (augmentRawDiagram raw_two_monsters) = Ret b /\
    (b = true <->
     solvedGrid [] [mkCoord 1 1; mkCoord 1 2] (augmentRawDiagram raw_two_monsters)).
Proof.
  destruct (augmentRawDiagram_shape raw_two_monsters) as [Hwf Hwb].
  split; [exact Hwf|]. split; [exact Hwb|].
  apply (isSolved_correct 321 [] [mkCoord 1 1; mkCoord 1 2]
           (augmentRawDiagram raw_two_monsters) Hwf Hwb); [constructor| |lia].
  repeat constructor; cbn; lia.
Defined.

(** ** A search that succeeds is a chain of committed moves *)

Section Chain.

Variables row_projection column_projection : list Z.

Variables treasure_coords monster_coords : list Coordinate.

Variable fuel : nat.

Variable rec : State -> outcome (bool * State).

Hypothesis Hrec_false : restoresOnFalse rec.

Lemma openingLoop_true (push pop : State -> State) (empty_space_coords : list Coordinate) :
  (forall st, pop (push st) = st) ->
  forall indices is_satisfied st st',
    Forall (tileIs (st_diagram st) EMPTY_SPACE) empty_space_coords ->
    openingLoop row_projection column_projection treasure_coords monster_coords fuel rec
      push pop empty_space_coords indices is_satisfied st = Ret (Return true, st') ->
    exists placed,
      Forall (tileIs (st_diagram st) EMPTY_SPACE) placed /\
      rec (push (placeAll placed st)) = Ret (true, st').
Proof.
  intros Hpop.
  induction indices as [|i indices IH]; intros sat st st' Hempty H; [done|].
  cbn [openingLoop] in H.
  destruct (placeAllBut _ _ i 0 empty_space_coords [] st) as [placed_indices st1] eqn:Hplace.
  apply (placeAllBut_spec _ _ _ _ _ _ _ _ _ []) in Hplace as (new & placed & -> & Hsel & ->);
    [|done].
  cbn [app] in *.
  assert (Hplaced : Forall (tileIs (st_diagram st) EMPTY_SPACE) placed)
    by (eapply selects_Forall; eauto).
  assert (Hback : removeAll placed (placeAll placed st) = st)
    by by apply removeAll_placeAll.
  bind_inv H. destruct a.
  - bind_inv H. destruct a as [[] st2].
    + injection H as <-. by exists placed.
    + apply Hrec_false in Hm0. subst st2. rewrite Hpop in H.
      rewrite (removePlaced_spec _ _ _ Hsel), Hback in H. cbn [bind] in H.
      exact (IH _ _ _ Hempty H).
  - rewrite (removePlaced_spec _ _ _ Hsel), Hback in H. cbn [bind] in H.
    exact (IH _ _ _ Hempty H).
Qed.

Lemma roomLoop_true (hash_id : Z) :
  forall lt_coords is_satisfied st st',
    roomLoop row_projection column_projection treasure_coords monster_coords fuel rec
      hash_id lt_coords is_satisfied st = Ret (Return true, st') ->
    exists lt placed,
      lt ∈ lt_coords /\
      Forall (tileIs (st_diagram st) EMPTY_SPACE) placed /\
      rec (pushTreasure hash_id lt (placeAll placed st)) = Ret (true, st').
Proof.
  induction lt_coords as [|lt lt_coords IH]; intros sat st st' H; [done|].
  assert (Hnext : forall sat0,
            roomLoop row_projection column_projection treasure_coords monster_coords fuel rec
              hash_id lt_coords sat0 st = Ret (Return true, st') ->
            exists lt0 placed,
              lt0 ∈ lt :: lt_coords /\
              Forall (tileIs (st_diagram st) EMPTY_SPACE) placed /\
              rec (pushTreasure hash_id lt0 (placeAll placed st)) = Ret (true, st')).
  { intros sat0 H0. apply IH in H0 as (lt0 & placed & Hin & Hp & Hr).
    exists lt0, placed. split; [by right|done]. }
  cbn [roomLoop] in H.
  destruct (negb (isTRoomLTCoordAvailable _ _)); [by eapply Hnext|].
  bind_inv H. destruct (negb a); [by eapply Hnext|].
  bind_inv H. bind_inv H. destruct a1; [by eapply Hnext|].
  destruct (_ <? 1)%Z; [done|].
  bind_inv H. destruct a1 as [r1 st1].
  apply filterEmpty_spec in Hm0 as [Hempty Hsub].
  destruct r1 as [b|sat'].
  - injection H as -> <-.
    apply openingLoop_true in Hm2 as (placed & Hp & Hr); [|apply pop_pushTreasure|done].
    exists lt, placed. split; [by left|done].
  - apply (openingLoop_restore _ _ _ _ _ _ Hrec_false) in Hm2;
      [|apply pop_pushTreasure|exact Hempty].
    subst st1. by eapply Hnext.
Qed.

Lemma treasureLoop_true :
  forall coords st st',
    Forall (fun c => c ∈ treasure_coords) coords ->
    treasureLoop row_projection column_projection treasure_coords monster_coords fuel rec
      coords st = Ret (Return true, st') ->
    exists st1, commits treasure_coords monster_coords st st1 /\ rec st1 = Ret (true, st').
Proof.
  induction coords as [|c coords IH]; intros st st' Hin H; [done|].
  apply Forall_cons in Hin as [Hc Hin].
  cbn [treasureLoop] in H. bind_inv H.
  destruct (cell_is TREASURE a) eqn:Htile; cbn [andb negb] in H; [|by eapply IH].
  destruct (includes _ _) eqn:Hinc; cbn [negb] in H; [by eapply IH|].
  apply bool_decide_eq_true in Htile. subst a.
  bind_inv H. destruct a as [r1 st1].
  destruct r1 as [b|sat].
  - injection H as -> <-.
    apply roomLoop_true in Hm0 as (lt & placed & Hlt & Hp & Hr).
    eexists. split; [|exact Hr]. by constructor.
  - apply (roomLoop_restore _ _ _ _ _ _ Hrec_false) in Hm0 as [?| ->]; [done|].
    destruct (negb sat); [done|]. by eapply IH.
Qed.

Lemma monsterLoop_true :
  forall coords st st',
    Forall (fun c => c ∈ monster_coords) coords ->
    monsterLoop row_projection column_projection treasure_coords monster_coords fuel rec
      coords st = Ret (Return true, st') ->
    exists st1, commits treasure_coords monster_coords st st1 /\ rec st1 = Ret (true, st').
Proof.
  induction coords as [|c coords IH]; intros st st' Hin H; [done|].
  apply Forall_cons in Hin as [Hc Hin].
  cbn [monsterLoop] in H. bind_inv H.
  destruct (cell_is MONSTER a) eqn:Htile; cbn [andb negb] in H; [|by eapply IH].
  destruct (includes _ _) eqn:Hinc; cbn [negb] in H; [by eapply IH|].
  apply bool_decide_eq_true in Htile. subst a.
  bind_inv H. bind_inv H. destruct a0 as [number_of_walls|]; [|done].
  destruct (4 <=? number_of_walls)%Z; [done|].
  bind_inv H. destruct a0 as [r1 st1].
  apply filterEmpty_spec in Hm0 as [Hempty Hsub].
  destruct r1 as [b|sat].
  - injection H as -> <-.
    apply openingLoop_true in Hm2 as (placed & Hp & Hr); [|apply pop_pushMonster|done].
    eexists. split; [|exact Hr]. by constructor.
  - apply (openingLoop_restore _ _ _ _ _ _ Hrec_false) in Hm2;
      [|apply pop_pushMonster|exact Hempty].
    subst st1. destruct (negb sat); [done|]. by eapply IH.
Qed.

Lemma combinationLoop_true (available_coords : list Coordinate) (m : nat) :
  forall combinations is_satisfied st st',
    Forall (fun combination => length combination = m) combinations ->
    Forall (tileIs (st_diagram st) EMPTY_SPACE) available_coords ->
    combinationLoop treasure_coords monster_coords fuel rec available_coords combinations
      is_satisfied st = Ret (Return true, st') ->
    exists placed,
      length placed = m /\
      Forall (tileIs (st_diagram st) EMPTY_SPACE) placed /\
      rec (placeAll placed st) = Ret (true, st').
Proof.
  induction combinations as [|combination combinations IH];
    intros sat st st' Hcombs Hempty H; [done|].
  apply Forall_cons in Hcombs as [Hclen Hcombs].
  cbn [combinationLoop] in H. bind_inv H.
  apply forCombination_spec in Hm as (placed & Hsel & ->).
  assert (Hplaced : Forall (tileIs (st_diagram st) EMPTY_SPACE) placed)
    by (eapply selects_Forall; eauto).
  assert (Hback : forall st3, forCombination removeWall available_coords combination
                                (fold_left placeWall placed st) = Ret st3 -> st3 = st).
  { intros st3 H3. apply forCombination_spec in H3 as (placed' & Hsel' & ->).
    rewrite (selects_inj _ _ _ _ Hsel' Hsel). by apply removeAll_placeAll. }
  bind_inv H. destruct a.
  - bind_inv H. destruct a as [[] st2].
    + injection H as <-. exists placed.
      split; [by rewrite (selects_length _ _ _ Hsel)|done].
    + apply Hrec_false in Hm0. subst st2. bind_inv H. apply Hback in Hm0. subst a.
      by eapply IH.
  - bind_inv H. apply Hback in Hm0. subst a. by eapply IH.
Qed.

Lemma rowLoop_true :
  forall row_indices st st',
    rowLoop row_projection column_projection treasure_coords monster_coords fuel rec
      row_indices st = Ret (true, st') ->
    exists st1, commits treasure_coords monster_coords st st1 /\ rec st1 = Ret (true, st').
Proof.
  induction row_indices as [|ri row_indices IH]; intros st st' H; [done|].
  cbn [rowLoop] in H.
  destruct (Z.leb_spec (getNum row_projection (Z.of_nat ri) -
                        getNum (st_cur_row_projection st) (Z.of_nat ri)) 0) as [_|Hdiff];
    [by eapply IH|].
  bind_inv H. destruct a as [available_coords st1].
  apply collectAvailable_restore in Hm as [-> Hempty]; [|constructor].
  destruct (_ <? _)%Z; [done|].
  rewrite getCombinations_spec in H. cbn [bind] in H.
  bind_inv H. destruct a as [r st2].
  destruct r as [b|sat].
  - injection H as -> <-.
    apply (combinationLoop_true _
             (Z.to_nat (getNum row_projection (Z.of_nat ri) -
                        getNum (st_cur_row_projection st) (Z.of_nat ri)))) in Hm
      as (placed & Hlen & Hp & Hr); [| |done].
    + eexists. split; [|exact Hr]. constructor; [|done].
      intros ->. cbn in Hlen. lia.
    + apply Forall_forall. intros comb Hcomb.
      by apply elem_of_subsetsFrom in Hcomb as (Hlen & _).
  - apply (combinationLoop_restore _ _ _ _ Hrec_false) in Hm; [|done].
    subst st2. destruct (negb sat); [done|]. by eapply IH.
Qed.

Lemma dfs_body_true (st st' : State) :
  dfs_body row_projection column_projection treasure_coords monster_coords fuel rec st =
    Ret (true, st') ->
  (st' = st /\
   isSatisfiedProjections (st_cur_row_projection st) (st_cur_column_projection st)
     row_projection column_projection = true /\
   isSolved fuel treasure_coords monster_coords (st_diagram st) = Ret true) \/
  (exists st1, commits treasure_coords monster_coords st st1 /\ rec st1 = Ret (true, st')).
Proof.
  unfold dfs_body. intros H.
  destruct (isSatisfiedProjections _ _ _ _) eqn:Hsat.
  { bind_inv H. injection H as -> <-. by left. }
  right. bind_inv H. destruct a as [r st1].
  destruct r as [b|[]].
  { injection H as -> <-. eapply treasureLoop_true; [|exact Hm]. by apply Forall_forall. }
  apply (treasureLoop_restore _ _ _ _ _ _ Hrec_false) in Hm as [?| ->]; [done|].
  destruct (negb _); [done|].
  bind_inv H. destruct a as [r st2].
  destruct r as [b|[]].
  { injection H as -> <-. eapply monsterLoop_true; [|exact Hm]. by apply Forall_forall. }
  apply (monsterLoop_restore _ _ _ _ _ _ Hrec_false) in Hm as [?| ->]; [done|].
  destruct (negb _); [done|].
  by eapply rowLoop_true.
Qed.

End Chain.

Lemma dfs_chainsOnTrue (row_projection column_projection : list Z)
    (treasure_coords monster_coords : list Coordinate) (fuel : nat) :
  chainsOnTrue row_projection column_projection treasure_coords monster_coords fuel
    (dfs fuel row_projection column_projection treasure_coords monster_coords).
Proof.
  induction fuel as [|fuel IH]; intros st st' H; [done|].
  cbn [dfs] in H.
  apply dfs_body_true in H as [(-> & Hsat & Hsolved)|(st1 & Hcommit & Hrec)];
    [| |apply dfs_restoresOnFalse].
  - split; [apply rtc_refl|]. split; [done|]. exists (S fuel). split; [lia|done].
  - apply IH in Hrec as [Hchain (Hsat & fuel' & Hle & Hsolved)].
    split; [by eapply rtc_l|]. split; [done|]. exists fuel'. split; [lia|done].
Qed.

(** ** More fuel changes no result *)

Lemma bind_mono {A B : Type} (m m' : outcome A) (k k' : A -> outcome B) (r : B) :
  (forall a, m = Ret a -> m' = Ret a) ->
  (forall a, m = Ret a -> k a = Ret r -> k' a = Ret r) ->
  bind m k = Ret r -> bind m' k' = Ret r.
Proof.
  intros Hm Hk H. destruct m as [a| |]; [|done|done].
  rewrite (Hm a eq_refl). cbn [bind] in *. by apply Hk.
Qed.

Lemma bfs_mono (passable : cell -> bool) (diagram : list (list TileType)) (sign : Z) :
  forall fuel fuel' queue color_set r,
    fuel <= fuel' ->
    bfs passable diagram sign fuel queue color_set = Ret r ->
    bfs passable diagram sign fuel' queue color_set = Ret r.
Proof.
  induction fuel as [|fuel IH]; intros fuel' queue cs r Hle H.
  - destruct queue; [|done]. by destruct fuel'.
  - destruct fuel' as [|fuel']; [lia|].
    destruct queue as [|head queue]; [done|]. cbn [bfs] in *.
    destruct (inColorSet _ cs); [apply IH; [lia|done]|].
    revert H. apply bind_mono; [done|]. intros q _. apply IH. lia.
Qed.

Lemma seedLoop_mono (is_seed passable : cell -> bool) (diagram : list (list TileType))
    (fuel fuel' : nat) :
  fuel <= fuel' ->
  forall seeds color_set sign_count r,
    seedLoop is_seed passable fuel diagram seeds color_set sign_count = Ret r ->
    seedLoop is_seed passable fuel' diagram seeds color_set sign_count = Ret r.
Proof.
  intros Hle. induction seeds as [|seed seeds IH]; intros cs sc r H; [done|].
  cbn [seedLoop] in *. revert H. apply bind_mono; [done|]. intros c _.
  destruct (is_seed c); [|apply IH].
  destruct (inColorSet _ cs).
  - destruct (sc <=? 1)%Z; [apply IH|done].
  - destruct (negb _); [done|]. apply bind_mono; [|intros cs' _; apply IH].
    intros cs'. by apply bfs_mono.
Qed.

Lemma checkTreasuresAndMonstersConnectivity_mono (fuel fuel' : nat)
    (treasure_coords monster_coords : list Coordinate) (diagram : list (list TileType))
    (r : bool) :
  fuel <= fuel' ->
  checkTreasuresAndMonstersConnectivity fuel treasure_coords monster_coords diagram = Ret r ->
  checkTreasuresAndMonstersConnectivity fuel' treasure_coords monster_coords diagram = Ret r.
Proof. intros Hle. by apply seedLoop_mono. Qed.

Lemma isSolved_mono (fuel fuel' : nat) (treasure_coords monster_coords : list Coordinate)
    (diagram : list (list TileType)) (r : bool) :
  fuel <= fuel' ->
  isSolved fuel treasure_coords monster_coords diagram = Ret r ->
  isSolved fuel' treasure_coords monster_coords diagram = Ret r.
Proof.
  intros Hle. unfold isSolved. apply bind_mono; [|done].
  intros b. by apply seedLoop_mono.
Qed.

Section MoreFuel.

Variables row_projection column_projection : list Z.

Variables treasure_coords monster_coords : list Coordinate.

Variables fuel fuel' : nat.

Variables rec rec' : State -> outcome (bool * State).

Hypothesis Hfuel : fuel <= fuel'.

Hypothesis Hrec : extendsRec rec rec'.

Lemma openingLoop_mono (push pop : State -> State) (empty_space_coords : list Coordinate) :
  forall indices is_satisfied st r,
    openingLoop row_projection column_projection treasure_coords monster_coords fuel rec
      push pop empty_space_coords indices is_satisfied st = Ret r ->
    openingLoop row_projection column_projection treasure_coords monster_coords fuel' rec'
      push pop empty_space_coords indices is_satisfied st = Ret r.
Proof.
  induction indices as [|i indices IH]; intros sat st r H; [done|].
  cbn [openingLoop] in *.
  destruct (placeAllBut _ _ i 0 empty_space_coords [] st) as [placed_indices st1].
  revert H. apply bind_mono.
  - intros b. destruct (_ =? _)%Z; [|done].
    by apply checkTreasuresAndMonstersConnectivity_mono.
  - intros b _. destruct b.
    + apply bind_mono; [apply Hrec|]. intros [found st2] _.
      destruct found; [done|]. apply bind_mono; [done|]. intros st3 _. apply IH.
    + apply bind_mono; [done|]. intros st3 _. apply IH.
Qed.

Lemma roomLoop_mono (hash_id : Z) :
  forall lt_coords is_satisfied st r,
    roomLoop row_projection column_projection treasure_coords monster_coords fuel rec
      hash_id lt_coords is_satisfied st = Ret r ->
    roomLoop row_projection column_projection treasure_coords monster_coords fuel' rec'
      hash_id lt_coords is_satisfied st = Ret r.
Proof.
  induction lt_coords as [|lt lt_coords IH]; intros sat st r H; [done|].
  cbn [roomLoop] in *.
  destruct (negb (isTRoomLTCoordAvailable _ _)); [by apply IH|].
  revert H. apply bind_mono; [done|]. intros tiles _.
  destruct (negb tiles); [apply IH|].
  apply bind_mono; [done|]. intros esc _.
  apply bind_mono; [done|]. intros special _.
  destruct special; [apply IH|].
  destruct (_ <? 1)%Z; [done|].
  apply bind_mono; [intros ?; apply openingLoop_mono|].
  intros [r1 st1] _. destruct r1; [done|apply IH].
Qed.

Lemma treasureLoop_mono :
  forall coords st r,
    treasureLoop row_projection column_projection treasure_coords monster_coords fuel rec
      coords st = Ret r ->
    treasureLoop row_projection column_projection treasure_coords monster_coords fuel' rec'
      coords st = Ret r.
Proof.
  induction coords as [|c coords IH]; intros st r H; [done|].
  cbn [treasureLoop] in *. revert H. apply bind_mono; [done|]. intros cl _.
  destruct (negb (_ && _)); [apply IH|].
  apply bind_mono; [intros ?; apply roomLoop_mono|].
  intros [r1 st1] _. destruct r1; [done|]. destruct (negb a); [done|apply IH].
Qed.

Lemma monsterLoop_mono :
  forall coords st r,
    monsterLoop row_projection column_projection treasure_coords monster_coords fuel rec
      coords st = Ret r ->
    monsterLoop row_projection column_projection treasure_coords monster_coords fuel' rec'
      coords st = Ret r.
Proof.
  induction coords as [|c coords IH]; intros st r H; [done|].
  cbn [monsterLoop] in *. revert H. apply bind_mono; [done|]. intros cl _.
  destruct (negb (_ && _)); [apply IH|].
  apply bind_mono; [done|]. intros esc _.
  apply bind_mono; [done|]. intros walls _.
  destruct walls as [number_of_walls|]; [|done].
  destruct (4 <=? number_of_walls)%Z; [done|].
  apply bind_mono; [intros ?; apply openingLoop_mono|].
  intros [r1 st1] _. destruct r1; [done|]. destruct (negb a); [done|apply IH].
Qed.

Lemma preChecks_mono (diagram : list (list TileType)) (r : bool) :
  preChecks treasure_coords monster_coords fuel diagram = Ret r ->
  preChecks treasure_coords monster_coords fuel' diagram = Ret r.
Proof.
  unfold preChecks. apply bind_mono; [done|]. intros rooms _.
  destruct (truthy rooms); [|done].
  apply bind_mono; [done|]. intros monsters _. destruct monsters; [|done].
  by apply checkTreasuresAndMonstersConnectivity_mono.
Qed.

Lemma collectAvailable_mono (row_i : Z) :
  forall column_indices available_coords st r,
    collectAvailable row_projection column_projection treasure_coords monster_coords fuel
      row_i column_indices available_coords st = Ret r ->
    collectAvailable row_projection column_projection treasure_coords monster_coords fuel'
      row_i column_indices available_coords st = Ret r.
Proof.
  induction column_indices as [|ci column_indices IH]; intros avail st r H; [done|].
  cbn [collectAvailable] in *.
  destruct (_ <=? _)%Z; [by apply IH|].
  revert H. apply bind_mono; [done|]. intros cl _.
  destruct (negb _); [apply IH|].
  apply bind_mono; [intros ?; apply preChecks_mono|]. intros passed _. apply IH.
Qed.

Lemma combinationLoop_mono (available_coords : list Coordinate) :
  forall combinations is_satisfied st r,
    combinationLoop treasure_coords monster_coords fuel rec available_coords combinations
      is_satisfied st = Ret r ->
    combinationLoop treasure_coords monster_coords fuel' rec' available_coords combinations
      is_satisfied st = Ret r.
Proof.
  induction combinations as [|combination combinations IH]; intros sat st r H; [done|].
  cbn [combinationLoop] in *. revert H.
  apply bind_mono; [done|]. intros st1 _.
  apply bind_mono; [intros ?; apply preChecks_mono|]. intros passed _.
  destruct passed.
  - apply bind_mono; [apply Hrec|]. intros [found st2] _.
    destruct found; [done|]. apply bind_mono; [done|]. intros st3 _. apply IH.
  - apply bind_mono; [done|]. intros st3 _. apply IH.
Qed.

Lemma rowLoop_mono :
  forall row_indices st r,
    rowLoop row_projection column_projection treasure_coords monster_coords fuel rec
      row_indices st = Ret r ->
    rowLoop row_projection column_projection treasure_coords monster_coords fuel' rec'
      row_indices st = Ret r.
Proof.
  induction row_indices as [|ri row_indices IH]; intros st r H; [done|].
  cbn [rowLoop] in *.
  destruct (_ <=? 0)%Z; [by apply IH|].
  revert H. apply bind_mono; [intros ?; apply collectAvailable_mono|].
  intros [available_coords st1] _.
  destruct (_ <? _)%Z; [done|].
  apply bind_mono; [done|]. intros combinations _.
  apply bind_mono; [intros ?; apply combinationLoop_mono|].
  intros [r1 st2] _. destruct r1; [done|]. destruct (negb a); [done|apply IH].
Qed.

Lemma dfs_body_mono (st : State) (r : bool * State) :
  dfs_body row_projection column_projection treasure_coords monster_coords fuel rec st =
    Ret r ->
  dfs_body row_projection column_projection treasure_coords monster_coords fuel' rec' st =
    Ret r.
Proof.
  unfold dfs_body.
  destruct (isSatisfiedProjections _ _ _ _).
  { apply bind_mono; [|done]. intros b. by apply isSolved_mono. }
  apply bind_mono; [intros ?; apply treasureLoop_mono|].
  intros [r1 st1] _. destruct r1; [done|].
  destruct (negb _); [done|].
  apply bind_mono; [intros ?; apply monsterLoop_mono|].
  intros [r2 st2] _. destruct r2; [done|].
  destruct (negb _); [done|]. apply rowLoop_mono.
Qed.

End MoreFuel.

Lemma dfs_mono (row_projection column_projection : list Z)
    (treasure_coords monster_coords : list Coordinate) :
  forall fuel fuel' st r,
    fuel <= fuel' ->
    dfs fuel row_projection column_projection treasure_coords monster_coords st = Ret r ->
    dfs fuel' row_projection column_projection treasure_coords monster_coords st = Ret r.
Proof.
  induction fuel as [|fuel IH]; intros fuel' st r Hle H; [done|].
  destruct fuel' as [|fuel']; [lia|]. cbn [dfs] in *.
  revert H. apply dfs_body_mono; [lia|].
  intros st1 r1. apply IH. lia.
Qed.

(** ** Soundness of the search *)

Lemma wallsAdded_refl (diagram : list (list TileType)) : wallsAdded diagram diagram.
Proof. intros x y. by left. Qed.

Lemma wallsAdded_trans (d1 d2 d3 : list (list TileType)) :
  wallsAdded d1 d2 -> wallsAdded d2 d3 -> wallsAdded d1 d3.
Proof.
  intros H12 H23 x y.
  destruct (H12 x y) as [H|[H H']], (H23 x y) as [K|[K K']].
  - left. congruence.
  - right. split; congruence.
  - right. split; congruence.
  - congruence.
Qed.

Lemma wallsAdded_placeAll (placed : list Coordinate) (st : State) :
  Forall (tileIs (st_diagram st) EMPTY_SPACE) placed ->
  wallsAdded (st_diagram st) (st_diagram (placeAll placed st)).
Proof.
  intros Hempty x y. rewrite readTile_placeAll. case_decide as Hin; [|by left].
  rewrite Forall_forall in Hempty. specialize (Hempty _ Hin).
  unfold tileIs in Hempty. cbn in Hempty. right. rewrite Hempty. done.
Qed.

(** What every committed move keeps: the shape of the diagram, its border,
    and every tile that is not Empty. *)
Lemma commits_keeps (treasure_coords monster_coords : list Coordinate) (st st1 : State) :
  commits treasure_coords monster_coords st st1 ->
  wallsAdded (st_diagram st) (st_diagram st1) /\
  (wf_diagram (st_diagram st) -> wf_diagram (st_diagram st1)) /\
  (wallBordered (st_diagram st) -> wallBordered (st_diagram st1)) /\
  length (st_cur_row_projection st1) = length (st_cur_row_projection st) /\
  length (st_cur_column_projection st1) = length (st_cur_column_projection st).
Proof.
  assert (Hlen : forall placed s,
            length (st_cur_row_projection (placeAll placed s)) =
              length (st_cur_row_projection s) /\
            length (st_cur_column_projection (placeAll placed s)) =
              length (st_cur_column_projection s)).
  { induction placed as [|c placed IH]; intros s; [done|].
    unfold placeAll in *. cbn [fold_left].
    destruct (IH (placeWall s c)) as [-> ->]. cbn. by rewrite !length_addNum. }
  intros [tc lt placed _ _ _ _ Hp|mc placed _ _ _ Hp|placed _ Hp];
    cbn [pushTreasure pushMonster st_diagram st_cur_row_projection st_cur_column_projection];
    (split; [by apply wallsAdded_placeAll|]);
    (split; [apply wf_placeAll|]);
    (split; [apply wallBordered_placeAll|]); apply Hlen.
Qed.

Lemma chain_keeps (treasure_coords monster_coords : list Coordinate) (st st' : State) :
  rtc (commits treasure_coords monster_coords) st st' ->
  wallsAdded (st_diagram st) (st_diagram st') /\
  (wf_diagram (st_diagram st) -> wf_diagram (st_diagram st')) /\
  (wallBordered (st_diagram st) -> wallBordered (st_diagram st')) /\
  length (st_cur_row_projection st') = length (st_cur_row_projection st) /\
  length (st_cur_column_projection st') = length (st_cur_column_projection st).
Proof.
  induction 1 as [st|st st1 st' Hstep _ (Hw & Hwf & Hwb & Hr & Hc)].
  - split; [apply wallsAdded_refl|done].
  - apply commits_keeps in Hstep as (Hw1 & Hwf1 & Hwb1 & Hr1 & Hc1).
    split; [by eapply wallsAdded_trans|]. split; [auto|]. split; [auto|].
    split; etransitivity; eauto.
Qed.

(** X11. A search that returns true leaves a solved grid: the counters equal
    the projections, the grid passes the rules of [isSolved], and it is the
    grid given with walls put on some of its Empty tiles. *)
Theorem dfs_sound (fuel : nat) (row_projection column_projection : list Z)
    (treasure_coords monster_coords : list Coordinate) (st st' : State) :
  wf_diagram (st_diagram st) -> wallBordered (st_diagram st) ->
  Forall interior treasure_coords -> Forall interior monster_coords ->
  dfs fuel row_projection column_projection treasure_coords monster_coords st =
    Ret (true, st') ->
  st_cur_row_projection st' = row_projection /\
  st_cur_column_projection st' = column_projection /\
  solvedGrid treasure_coords monster_coords (st_diagram st') /\
  wallsAdded (st_diagram st) (st_diagram st').
Proof.
  intros Hwf Hwb Htcs Hmcs H.
  apply dfs_chainsOnTrue in H as [Hchain (Hsat & fuel' & _ & Hsolved)].
  apply chain_keeps in Hchain as (Hw & Hwf' & Hwb' & _).
  apply isSatisfiedProjections_iff in Hsat as [-> ->].
  split; [done|]. split; [done|]. split; [|done].
  apply (isSolved_mono _ (fuel' + 321)) in Hsolved; [|lia].
  destruct (isSolved_run (fuel' + 321) treasure_coords monster_coords (st_diagram st'))
    as (b & Hrun & Hb); auto; [lia|].
  apply Hb. congruence.
Qed.

Lemma dfs_sound_witness :
  dfs 100 ring_projection ring_projection [] [] (initialState (augmentRawDiagram raw_empty)) =
    Ret (true, finalState (dfs 100 ring_projection ring_projection [] []
                             (initialState (augmentRawDiagram raw_empty)))) /\
  st_cur_row_projection
    (finalState (dfs 100 ring_projection ring_projection [] []
                   (initialState (augmentRawDiagram raw_empty)))) = ring_projection /\
  st_cur_column_projection
    (finalState (dfs 100 ring_projection ring_projection [] []
                   (initialState (augmentRawDiagram raw_empty)))) = ring_projection /\
  solvedGrid [] []
    (st_diagram (finalState (dfs 100 ring_projection ring_projection [] []
                               (initialState (augmentRawDiagram raw_empty))))) /\
  wallsAdded (augmentRawDiagram raw_empty)
    (st_diagram (finalState (dfs 100 ring_projection ring_projection [] []
                               (initialState (augmentRawDiagram raw_empty))))).
Proof.
  assert (Hrun : dfs 100 ring_projection ring_projection [] []
                   (initialState (augmentRawDiagram raw_empty)) =
                 Ret (true, finalState (dfs 100 ring_projection ring_projection [] []
                                          (initialState (augmentRawDiagram raw_empty)))))
    by (vm_compute; reflexivity).
  split; [exact Hrun|].
  destruct (augmentRawDiagram_shape raw_empty) as [Hwf Hwb].
  exact (dfs_sound 100 ring_projection ring_projection [] []
           (initialState (augmentRawDiagram raw_empty)) _ Hwf Hwb
           (Forall_nil_2 _) (Forall_nil_2 _) Hrun).
Defined.

(** ** Every call of the search returns *)

Lemma hasTile_readable (diagram : list (list TileType)) (c : Coordinate) :
  hasTile diagram c -> readable diagram c.
Proof. intros [t Ht]. by exists (Tile t). Qed.

Lemma hasSpecialTile_readable (diagram : list (list TileType)) (coords : list Coordinate) :
  Forall (readable diagram) coords -> exists b, hasSpecialTile diagram coords = Ret b.
Proof.
  induction 1 as [|c coords [cl Hc] _ [b IH]]; [by exists false|].
  cbn [hasSpecialTile]. rewrite Hc. cbn [bind]. destruct (_ && _); eauto.
Qed.

Lemma countMonsterWalls_readable (diagram : list (list TileType)) (coords : list Coordinate) :
  Forall (readable diagram) coords ->
  forall n, exists r, countMonsterWalls diagram coords n = Ret r.
Proof.
  induction 1 as [|c coords [cl Hc] _ IH]; intros n; [by eexists|].
  cbn [countMonsterWalls]. rewrite Hc. cbn [bind]. destruct cl as [|[]]; eauto.
Qed.

Lemma forCombination_run (update : State -> Coordinate -> State)
    (available_coords : list Coordinate) :
  forall combination st,
    Forall (fun i => i < length available_coords) combination ->
    exists placed,
      selects available_coords combination placed /\
      forCombination update available_coords combination st =
        Ret (fold_left update placed st).
Proof.
  induction combination as [|i combination IH]; intros st Hlt.
  - exists []. split; [constructor|done].
  - apply Forall_cons in Hlt as [Hi Hlt]. cbn [forCombination].
    destruct (lookup_lt_is_Some_2 available_coords i Hi) as [c Hc]. rewrite Hc.
    destruct (IH (update st c) Hlt) as (placed & Hsel & Hrun).
    exists (c :: placed). split; [by constructor|done].
Qed.

Lemma lengths_placeAll (placed : list Coordinate) :
  forall st,
    length (st_cur_row_projection (placeAll placed st)) = length (st_cur_row_projection st) /\
    length (st_cur_column_projection (placeAll placed st)) =
      length (st_cur_column_projection st).
Proof.
  induction placed as [|c placed IH]; intros st; [done|].
  unfold placeAll in *. cbn [fold_left].
  destruct (IH (placeWall st c)) as [-> ->]. cbn. by rewrite !length_addNum.
Qed.

Lemma goodState_placeAll (placed : list Coordinate) (st : State) :
  goodState st -> goodState (placeAll placed st).
Proof.
  intros (Hwf & Hwb & Hr & Hc). destruct (lengths_placeAll placed st) as [Hr' Hc'].
  split; [by apply wf_placeAll|]. split; [by apply wallBordered_placeAll|].
  split; congruence.
Qed.

Lemma tileIs_placeAll_empty (placed : list Coordinate) (st : State) (c : Coordinate) :
  tileIs (st_diagram (placeAll placed st)) EMPTY_SPACE c ->
  tileIs (st_diagram st) EMPTY_SPACE c /\ c ∉ placed.
Proof.
  unfold tileIs. rewrite readTile_placeAll. destruct c as [x y]. cbn [coord_x coord_y].
  case_decide as Hin; [|done].
  destruct (readTile (st_diagram st) x y) as [[|?]| |]; cbn; congruence.
Qed.

Lemma empties_placeAll (placed : list Coordinate) (st : State) :
  countTiles (st_diagram (placeAll placed st)) EMPTY_SPACE interior_coords <=
  countTiles (st_diagram st) EMPTY_SPACE interior_coords.
Proof.
  unfold countTiles. generalize interior_coords. intros l.
  induction l as [|c l IH]; [done|]. rewrite !filter_cons.
  destruct (decide (tileIs (st_diagram (placeAll placed st)) EMPTY_SPACE c)) as [H|H].
  - apply tileIs_placeAll_empty in H as [H _]. rewrite decide_True by done. cbn. lia.
  - case_decide; cbn; lia.
Qed.

Lemma empties_placeAll_lt (placed : list Coordinate) (st : State) :
  wallBordered (st_diagram st) -> placed <> [] ->
  Forall (tileIs (st_diagram st) EMPTY_SPACE) placed ->
  countTiles (st_diagram (placeAll placed st)) EMPTY_SPACE interior_coords + 1 <=
  countTiles (st_diagram st) EMPTY_SPACE interior_coords.
Proof.
  intros Hwb Hne Hempty. destruct placed as [|c placed]; [done|].
  apply Forall_cons in Hempty as [Hc _].
  unfold countTiles. apply (filter_length_drop _ _ _ c).
  - apply interior_elem. by eapply Hwb.
  - done.
  - intros H. apply tileIs_placeAll_empty in H as [_ H]. apply H. by left.
  - intros c' H. by apply tileIs_placeAll_empty in H as [H _].
Qed.

Lemma unhandled_push (coords : list Coordinate) (handled_ids : list Z) (c : Coordinate) :
  c ∈ coords ->
  includes (getHashId (coord_x c) (coord_y c)) handled_ids = false ->
  unhandled coords (handled_ids ++ [getHashId (coord_x c) (coord_y c)]) + 1 <=
  unhandled coords handled_ids.
Proof.
  intros Hc Hinc. unfold unhandled. apply (filter_length_drop _ _ _ c); [done|done| |].
  - intros H. rewrite includes_app in H. apply orb_false_elim in H as [_ H].
    unfold includes in H. cbn [existsb] in H. by rewrite Z.eqb_refl in H.
  - intros c' H. rewrite includes_app in H. by apply orb_false_elim in H as [H _].
Qed.

Section Total.

Variables row_projection column_projection : list Z.

Variables treasure_coords monster_coords : list Coordinate.

Variable fuel : nat.

Variable rec : State -> outcome (bool * State).

Variable bound : nat.

Hypothesis Htcs : Forall interior treasure_coords.

Hypothesis Hmcs : Forall interior monster_coords.

Hypothesis Hfuel : 321 <= fuel.

Hypothesis Hrec_false : restoresOnFalse rec.

Hypothesis Hrec : returnsBelow treasure_coords monster_coords bound rec.

Local Abbreviation measure := (searchMeasure treasure_coords monster_coords).

Lemma connectivity_returns (st : State) :
  goodState st ->
  exists b, checkTreasuresAndMonstersConnectivity fuel treasure_coords monster_coords
              (st_diagram st) = Ret b.
Proof.
  intros (Hwf & Hwb & _).
  destruct (seedLoop_correct (fun cl => negb (cell_is WALL cl)) (st_diagram st) Hwf Hwb) with
    (fuel := fuel) (seeds := treasure_coords ++ monster_coords) as (b & Hrun & _);
    [by intros cl Hp ->|done|by apply Forall_app|].
  by exists b.
Qed.

Lemma preChecks_returns (st : State) :
  goodState st ->
  exists b, preChecks treasure_coords monster_coords fuel (st_diagram st) = Ret b.
Proof.
  intros Hgood. pose proof Hgood as (Hwf & Hwb & _). unfold preChecks, checkTreasureRooms.
  destruct (checkTreasureRoomsFrom_run (st_diagram st) Hwf Hwb treasure_coords Htcs [])
    as [(found & Hrun & _)|(Hrun & _)]; rewrite Hrun; cbn [bind truthy];
    destruct (checkMonsters_run (st_diagram st) Hwf monster_coords Hmcs) as (b & Hrun' & _);
    rewrite Hrun'; cbn [bind]; (destruct b; [by apply connectivity_returns|by eexists]).
Qed.

Lemma openingLoop_total (push pop : State -> State) (empty_space_coords : list Coordinate)
    (st : State) :
  (forall s, pop (push s) = s) ->
  (forall placed,
     Forall (tileIs (st_diagram st) EMPTY_SPACE) placed ->
     goodState (push (placeAll placed st)) /\
     st_diagram (push (placeAll placed st)) = st_diagram (placeAll placed st) /\
     measure (push (placeAll placed st)) < bound) ->
  goodState st ->
  Forall (tileIs (st_diagram st) EMPTY_SPACE) empty_space_coords ->
  forall indices is_satisfied,
    exists r st',
      openingLoop row_projection column_projection treasure_coords monster_coords fuel rec
        push pop empty_space_coords indices is_satisfied st = Ret (r, st').
Proof.
  intros Hpop Hpush Hgood Hempty.
  induction indices as [|i indices IH]; intros sat; [by eexists _, _|].
  cbn [openingLoop].
  destruct (placeAllBut _ _ i 0 empty_space_coords [] st) as [placed_indices st1] eqn:Hplace.
  apply (placeAllBut_spec _ _ _ _ _ _ _ _ _ []) in Hplace as (new & placed & -> & Hsel & ->);
    [|done].
  cbn [app] in *.
  assert (Hplaced : Forall (tileIs (st_diagram st) EMPTY_SPACE) placed)
    by (eapply selects_Forall; eauto).
  assert (Hback : removeAll placed (placeAll placed st) = st)
    by by apply removeAll_placeAll.
  destruct (Hpush placed Hplaced) as (Hgood1 & Hdiag & Hlt).
  assert (Hconn : exists b,
            (if (Z.of_nat (length new) =? Z.of_nat (length empty_space_coords) - 1)%Z
             then checkTreasuresAndMonstersConnectivity fuel treasure_coords monster_coords
                    (st_diagram (placeAll placed st))
             else Ret false) = Ret b).
  { destruct (_ =? _)%Z; [|by eexists]. rewrite <- Hdiag. by apply connectivity_returns. }
  destruct Hconn as [b ->]. cbn [bind]. destruct b.
  - destruct (Hrec _ Hgood1 Hlt) as (found & st2 & Hr). rewrite Hr. cbn [bind].
    destruct found; [by eexists _, _|].
    apply Hrec_false in Hr. subst st2. rewrite Hpop.
    rewrite (removePlaced_spec _ _ _ Hsel), Hback. cbn [bind]. apply IH.
  - rewrite (removePlaced_spec _ _ _ Hsel), Hback. cbn [bind]. apply IH.
Qed.

Lemma roomLoop_total (tc : Coordinate) (st : State) :
  tc ∈ treasure_coords ->
  includes (getHashId (coord_x tc) (coord_y tc)) (st_handled_treasure_ids st) = false ->
  goodState st -> measure st <= bound ->
  forall lt_coords is_satisfied,
    exists r st',
      roomLoop row_projection column_projection treasure_coords monster_coords fuel rec
        (getHashId (coord_x tc) (coord_y tc)) lt_coords is_satisfied st = Ret (r, st').
Proof.
  intros Htc Hinc Hgood Hle. pose proof Hgood as (Hwf & Hwb & Hlr & Hlc).
  induction lt_coords as [|lt lt_coords IH]; intros sat; [by eexists _, _|].
  cbn [roomLoop].
  destruct (isTRoomLTCoordAvailable _ _) eqn:Hav; cbn [negb]; [|apply IH].
  rewrite isTRoomTilesAvailable_run by done. cbn [bind].
  destruct (bool_decide (countTiles _ EMPTY_SPACE _ = 8)) eqn:He; cbn [andb negb]; [|apply IH].
  destruct (bool_decide (countTiles _ TREASURE _ = 1)) eqn:Ht; cbn [andb negb]; [|apply IH].
  apply bool_decide_eq_true in He, Ht.
  assert (Hcorner : (1 <= coord_x lt <= 6)%Z /\ (1 <= coord_y lt <= 6)%Z).
  { pose proof (room_tiles_interior (st_diagram st) _ _
                  (mkCoord (coord_x lt + 2) (coord_y lt + 2)) Hwb He Ht) as [Hx Hy].
    { apply elem_of_getTRoomTileCoords. cbn. lia. }
    unfold isTRoomLTCoordAvailable in Hav. cbn in Hx, Hy. lia. }
  assert (Hring : Forall (readable (st_diagram st))
                    (getTRoomOuterTileCoords (coord_x lt) (coord_y lt))).
  { repeat constructor; apply hasTile_readable, hasTile_range; cbn; try done; lia. }
  destruct (filterEmpty_readable _ _ Hring) as [esc Hesc]. rewrite Hesc. cbn [bind].
  destruct (hasSpecialTile_readable _ _ Hring) as [special ->]. cbn [bind].
  destruct special; [apply IH|].
  destruct (_ <? 1)%Z; [by eexists _, _|].
  apply filterEmpty_spec in Hesc as [Hempty _].
  destruct (openingLoop_total
              (pushTreasure (getHashId (coord_x tc) (coord_y tc)) lt) popTreasure esc st)
    with (indices := seq 0 (length esc)) (is_satisfied := sat) as (r & st1 & Hrun);
    [apply pop_pushTreasure| |done|done|].
  { intros placed Hp. split; [by apply (goodState_placeAll placed)|]. split; [done|].
    unfold searchMeasure. cbn [pushTreasure st_handled_treasure_ids st_handled_monster_ids
                               st_diagram].
    destruct (handled_placeAll placed st) as [-> ->].
    pose proof (unhandled_push treasure_coords _ tc Htc Hinc).
    pose proof (empties_placeAll placed st). unfold searchMeasure in Hle. lia. }
  rewrite Hrun. cbn [bind]. destruct r as [b|sat']; [by eexists _, _|].
  apply (openingLoop_restore _ _ _ _ _ _ Hrec_false) in Hrun;
    [|apply pop_pushTreasure|done].
  subst st1. apply IH.
Qed.

Lemma treasureLoop_total (st : State) :
  goodState st -> measure st <= bound ->
  forall coords,
    Forall (fun c => c ∈ treasure_coords) coords ->
    exists r st',
      treasureLoop row_projection column_projection treasure_coords monster_coords fuel rec
        coords st = Ret (r, st').
Proof.
  intros Hgood Hle. pose proof Hgood as (Hwf & _).
  induction coords as [|c coords IH]; intros Hin; [by eexists _, _|].
  apply Forall_cons in Hin as [Hc Hin]. cbn [treasureLoop].
  assert (Hint : interior c) by (rewrite Forall_forall in Htcs; by apply Htcs).
  destruct (readTile_wf (st_diagram st) (coord_x c) (coord_y c) Hwf) as [t Ht];
    [destruct Hint; lia|destruct Hint; lia|].
  rewrite Ht. cbn [bind].
  destruct (cell_is TREASURE (Tile t)); cbn [andb negb]; [|by apply IH].
  destruct (includes _ _) eqn:Hinc; cbn [negb]; [by apply IH|].
  destruct (roomLoop_total c st Hc Hinc Hgood Hle
              (getTRoomLTCoords (coord_x c) (coord_y c)) false) as (r & st1 & Hrun).
  rewrite Hrun. cbn [bind]. destruct r as [b|sat]; [by eexists _, _|].
  apply (roomLoop_restore _ _ _ _ _ _ Hrec_false) in Hrun as [?| ->]; [done|].
  destruct (negb sat); [by eexists _, _|by apply IH].
Qed.

Lemma monsterLoop_total (st : State) :
  goodState st -> measure st <= bound ->
  forall coords,
    Forall (fun c => c ∈ monster_coords) coords ->
    exists r st',
      monsterLoop row_projection column_projection treasure_coords monster_coords fuel rec
        coords st = Ret (r, st').
Proof.
  intros Hgood Hle. pose proof Hgood as (Hwf & _).
  induction coords as [|c coords IH]; intros Hin; [by eexists _, _|].
  apply Forall_cons in Hin as [Hc Hin]. cbn [monsterLoop].
  assert (Hint : interior c) by (rewrite Forall_forall in Hmcs; by apply Hmcs).
  destruct (readTile_wf (st_diagram st) (coord_x c) (coord_y c) Hwf) as [t Ht];
    [destruct Hint; lia|destruct Hint; lia|].
  rewrite Ht. cbn [bind].
  destruct (cell_is MONSTER (Tile t)); cbn [andb negb]; [|by apply IH].
  destruct (includes _ _) eqn:Hinc; cbn [negb]; [by apply IH|].
  assert (Hnbrs : Forall (readable (st_diagram st))
                    (get4DirectionCoords (coord_x c) (coord_y c))).
  { eapply Forall_impl; [apply neighbours_hasTile; [done|by destruct c]|].
    intros ?. apply hasTile_readable. }
  destruct (filterEmpty_readable _ _ Hnbrs) as [esc Hesc]. rewrite Hesc. cbn [bind].
  destruct (countMonsterWalls_readable _ _ Hnbrs 0%Z) as [walls ->]. cbn [bind].
  destruct walls as [number_of_walls|]; [|by eexists _, _].
  destruct (4 <=? number_of_walls)%Z; [by eexists _, _|].
  apply filterEmpty_spec in Hesc as [Hempty _].
  destruct (openingLoop_total
              (pushMonster (getHashId (coord_x c) (coord_y c))) popMonster esc st)
    with (indices := seq 0 (length esc)) (is_satisfied := false) as (r & st1 & Hrun);
    [apply pop_pushMonster| |done|done|].
  { intros placed Hp. split; [by apply (goodState_placeAll placed)|]. split; [done|].
    unfold searchMeasure. cbn [pushMonster st_handled_treasure_ids st_handled_monster_ids
                               st_diagram].
    destruct (handled_placeAll placed st) as [-> ->].
    pose proof (unhandled_push monster_coords _ c Hc Hinc).
    pose proof (empties_placeAll placed st). unfold searchMeasure in Hle. lia. }
  rewrite Hrun. cbn [bind]. destruct r as [b|sat]; [by eexists _, _|].
  apply (openingLoop_restore _ _ _ _ _ _ Hrec_false) in Hrun;
    [|apply pop_pushMonster|done].
  subst st1. destruct (negb sat); [by eexists _, _|by apply IH].
Qed.

Lemma collectAvailable_total (row_index : nat) (st : State) :
  goodState st -> row_index < 8 ->
  forall column_indices available_coords,
    Forall (fun ci => ci < 8) column_indices ->
    exists available_coords' st',
      collectAvailable row_projection column_projection treasure_coords monster_coords fuel
        (Z.of_nat row_index) column_indices available_coords st =
      Ret (available_coords', st').
Proof.
  intros Hgood Hri. pose proof Hgood as (Hwf & _).
  induction column_indices as [|ci column_indices IH]; intros avail Hlt;
    [by eexists _, _|].
  apply Forall_cons in Hlt as [Hci Hlt]. cbn [collectAvailable].
  destruct (_ <=? _)%Z; [by apply IH|].
  destruct (readTile_wf (st_diagram st) (Z.of_nat row_index + 1) (Z.of_nat ci + 1) Hwf)
    as [t Ht]; [lia|lia|].
  rewrite Ht. cbn [bind].
  destruct (cell_is EMPTY_SPACE (Tile t)) eqn:Hc; cbn [andb negb]; [|by apply IH].
  destruct (negb (_ && _)); [by apply IH|].
  apply bool_decide_eq_true in Hc. injection Hc as ->.
  destruct (preChecks_returns
              (placeWall st (mkCoord (Z.of_nat row_index + 1) (Z.of_nat ci + 1))))
    as [passed ->].
  { by apply (goodState_placeAll [_]). }
  cbn [bind].
  assert (Hback : removeWall (placeWall st (mkCoord (Z.of_nat row_index + 1) (Z.of_nat ci + 1)))
                    (mkCoord (Z.of_nat row_index + 1) (Z.of_nat ci + 1)) = st).
  { apply (removeAll_placeAll [_]). by constructor. }
  rewrite Hback. by apply IH.
Qed.

Lemma combinationLoop_total (available_coords : list Coordinate) (st : State) :
  goodState st -> measure st <= bound ->
  Forall (tileIs (st_diagram st) EMPTY_SPACE) available_coords ->
  forall combinations is_satisfied,
    Forall (fun combination => combination <> [] /\
                               Forall (fun i => i < length available_coords) combination)
           combinations ->
    exists r st',
      combinationLoop treasure_coords monster_coords fuel rec available_coords combinations
        is_satisfied st = Ret (r, st').
Proof.
  intros Hgood Hle Hempty. pose proof Hgood as (_ & Hwb & _).
  induction combinations as [|combination combinations IH]; intros sat Hcombs;
    [by eexists _, _|].
  apply Forall_cons in Hcombs as [[Hne Hlt] Hcombs]. cbn [combinationLoop].
  destruct (forCombination_run placeWall available_coords combination st Hlt)
    as (placed & Hsel & ->).
  cbn [bind]. change (fold_left placeWall placed st) with (placeAll placed st).
  assert (Hplaced : Forall (tileIs (st_diagram st) EMPTY_SPACE) placed)
    by (eapply selects_Forall; eauto).
  assert (Hgood1 : goodState (placeAll placed st)) by by apply goodState_placeAll.
  assert (Hback : forCombination removeWall available_coords combination (placeAll placed st)
                  = Ret st).
  { destruct (forCombination_run removeWall available_coords combination
                (placeAll placed st) Hlt) as (placed' & Hsel' & ->).
    rewrite (selects_inj _ _ _ _ Hsel' Hsel). f_equal. by apply removeAll_placeAll. }
  destruct (preChecks_returns _ Hgood1) as [passed ->]. cbn [bind]. destruct passed.
  - destruct (Hrec (placeAll placed st) Hgood1) as (found & st2 & Hr).
    { assert (placed <> []).
      { intros ->. inversion Hsel. by subst. }
      pose proof (empties_placeAll_lt placed st Hwb H Hplaced).
      unfold searchMeasure in *. destruct (handled_placeAll placed st) as [-> ->]. lia. }
    rewrite Hr. cbn [bind]. destruct found; [by eexists _, _|].
    apply Hrec_false in Hr. subst st2. rewrite Hback. cbn [bind]. by apply IH.
  - rewrite Hback. cbn [bind]. by apply IH.
Qed.

Lemma rowLoop_total (st : State) :
  goodState st -> measure st <= bound ->
  forall row_indices,
    Forall (fun ri => ri < 8) row_indices ->
    exists b st',
      rowLoop row_projection column_projection treasure_coords monster_coords fuel rec
        row_indices st = Ret (b, st').
Proof.
  intros Hgood Hle. pose proof Hgood as (_ & _ & Hlr & Hlc).
  induction row_indices as [|ri row_indices IH]; intros Hlt; [by eexists _, _|].
  apply Forall_cons in Hlt as [Hri Hlt]. cbn [rowLoop].
  destruct (Z.leb_spec (getNum row_projection (Z.of_nat ri) -
                        getNum (st_cur_row_projection st) (Z.of_nat ri)) 0) as [_|Hdiff];
    [by apply IH|].
  destruct (collectAvailable_total ri st Hgood Hri
              (seq 0 (length (st_cur_column_projection st))) [])
    as (available_coords & st1 & Hrun).
  { rewrite Hlc. apply Forall_forall. intros ci Hci. apply elem_of_seq in Hci. lia. }
  rewrite Hrun. cbn [bind].
  apply collectAvailable_restore in Hrun as [-> Hempty]; [|constructor].
  destruct (Z.ltb_spec (Z.of_nat (length available_coords))
              (getNum row_projection (Z.of_nat ri) -
               getNum (st_cur_row_projection st) (Z.of_nat ri))) as [_|Hcount];
    [by eexists _, _|].
  rewrite getCombinations_spec. cbn [bind].
  destruct (combinationLoop_total available_coords st Hgood Hle Hempty
              (subsetsFrom (Z.to_nat (getNum row_projection (Z.of_nat ri) -
                                      getNum (st_cur_row_projection st) (Z.of_nat ri)))
                 (length available_coords) 0) false) as (r & st2 & Hrun).
  { apply Forall_forall. intros comb Hcomb.
    apply elem_of_subsetsFrom in Hcomb as (Hlen & _ & Hrange). split.
    - intros ->. cbn in Hlen. lia.
    - eapply Forall_impl; [exact Hrange|]. intros i. cbn. lia. }
  rewrite Hrun. cbn [bind]. destruct r as [b|sat]; [by eexists _, _|].
  apply (combinationLoop_restore _ _ _ _ Hrec_false) in Hrun; [|done].
  subst st2. destruct (negb sat); [by eexists _, _|by apply IH].
Qed.

Lemma dfs_body_total (st : State) :
  goodState st -> measure st <= bound ->
  exists b st',
    dfs_body row_projection column_projection treasure_coords monster_coords fuel rec st =
    Ret (b, st').
Proof.
  intros Hgood Hle. pose proof Hgood as (Hwf & Hwb & Hlr & Hlc). unfold dfs_body.
  destruct (isSatisfiedProjections _ _ _ _).
  { destruct (isSolved_run fuel treasure_coords monster_coords (st_diagram st))
      as (b & -> & _); auto. by eexists _, _. }
  destruct (treasureLoop_total st Hgood Hle treasure_coords) as (r & st1 & Hrun);
    [by apply Forall_forall|].
  rewrite Hrun. cbn [bind]. destruct r as [b|[]]; [by eexists _, _|].
  apply (treasureLoop_restore _ _ _ _ _ _ Hrec_false) in Hrun as [?| ->]; [done|].
  destruct (negb _); [by eexists _, _|].
  destruct (monsterLoop_total st Hgood Hle monster_coords) as (r & st2 & Hrun);
    [by apply Forall_forall|].
  rewrite Hrun. cbn [bind]. destruct r as [b|[]]; [by eexists _, _|].
  apply (monsterLoop_restore _ _ _ _ _ _ Hrec_false) in Hrun as [?| ->]; [done|].
  destruct (negb _); [by eexists _, _|].
  apply rowLoop_total; [done|done|].
  rewrite Hlr. apply Forall_forall. intros i Hi. apply elem_of_seq in Hi. lia.
Qed.

End Total.

Lemma dfs_total (row_projection column_projection : list Z)
    (treasure_coords monster_coords : list Coordinate) :
  Forall interior treasure_coords -> Forall interior monster_coords ->
  forall fuel st,
    goodState st -> searchMeasure treasure_coords monster_coords st + 322 <= fuel ->
    exists b st',
      dfs fuel row_projection column_projection treasure_coords monster_coords st =
      Ret (b, st').
Proof.
  intros Htcs Hmcs. induction fuel as [|fuel IH]; intros st Hgood Hle; [lia|].
  cbn [dfs].
  apply (dfs_body_total _ _ _ _ _ _ (searchMeasure treasure_coords monster_coords st));
    [done|done|lia|apply dfs_restoresOnFalse| |done|done].
  intros st1 Hgood1 Hlt. apply IH; [done|lia].
Qed.

(** ** Termination of the search *)

(** X12. The search terminates: from a state with a wall-bordered 10x10
    diagram and eight counters each way, [dfs] returns a verdict and a state
    without a type error, the same for every amount of fuel from
    [searchMeasure + 322] on (the measure bounds the depth of the recursion,
    321 the steps of a flood fill); when the verdict is false the state is
    the one given. *)
Theorem dfs_terminates (row_projection column_projection : list Z)
    (treasure_coords monster_coords : list Coordinate) (st : State) :
  length row_projection = 8 -> length column_projection = 8 ->
  Forall interior treasure_coords -> Forall interior monster_coords ->
  goodState st ->
  exists b st',
    (forall fuel,
       searchMeasure treasure_coords monster_coords st + 322 <= fuel ->
       dfs fuel row_projection column_projection treasure_coords monster_coords st =
       Ret (b, st')) /\
    (b = false -> st' = st).
Proof.
  intros _ _ Htcs Hmcs Hgood.
  destruct (dfs_total row_projection column_projection treasure_coords monster_coords
              Htcs Hmcs (searchMeasure treasure_coords monster_coords st + 322) st Hgood)
    as (b & st' & Hrun); [lia|].
  exists b, st'. split.
  - intros fuel Hle. by eapply dfs_mono.
  - intros ->. by apply dfs_restoresOnFalse in Hrun.
Qed.

Lemma length_filter_interior (P : Coordinate -> Prop) `{!forall c, Decision (P c)} :
  length (filter P interior_coords) <= 64.
Proof. etransitivity; [apply length_filter|]. by vm_compute. Qed.

Lemma searchMeasure_initial (diagram : list (list TileType))
    (treasure_coords monster_coords : list Coordinate) :
  sublist treasure_coords interior_coords -> sublist monster_coords interior_coords ->
  searchMeasure treasure_coords monster_coords (initialState diagram) <= 192.
Proof.
  intros Ht Hm. unfold searchMeasure, unhandled, countTiles.
  cbn [initialState st_handled_treasure_ids st_handled_monster_ids st_diagram].
  pose proof (length_filter_interior (tileIs diagram EMPTY_SPACE)).
  pose proof (length_filter (fun c => includes (getHashId (coord_x c) (coord_y c)) [] = false)
                treasure_coords).
  pose proof (length_filter (fun c => includes (getHashId (coord_x c) (coord_y c)) [] = false)
                monster_coords).
  apply sublist_length in Ht, Hm.
  assert (length interior_coords = 64) by by vm_compute. lia.
Qed.

Lemma goodState_initial (raw_diagram : list (list TileType)) :
  goodState (initialState (augmentRawDiagram raw_diagram)).
Proof.
  destruct (augmentRawDiagram_shape raw_diagram) as [Hwf Hwb].
  split; [done|split; [done|split; reflexivity]].
Qed.

Lemma solve_run (row_projection column_projection : list Z)
    (raw_diagram : list (list TileType)) :
  wf_raw raw_diagram ->
  length row_projection = 8 -> length column_projection = 8 ->
  Forall (fun v => (0 <= v)%Z) row_projection ->
  Forall (fun v => (0 <= v)%Z) column_projection ->
  exists b st',
    (forall fuel, 514 <= fuel ->
                  solve fuel row_projection column_projection raw_diagram = Ret (b, st')) /\
    (b = false -> st' = initialState (augmentRawDiagram raw_diagram)) /\
    (b = true ->
     wf_diagram (st_diagram st') /\
     wallsAdded (augmentRawDiagram raw_diagram) (st_diagram st') /\
     projectionsMet row_projection column_projection
       (augmentRawDiagram raw_diagram) (st_diagram st') /\
     solvedGrid (filter (tileIs (augmentRawDiagram raw_diagram) TREASURE) interior_coords)
                (filter (tileIs (augmentRawDiagram raw_diagram) MONSTER) interior_coords)
                (st_diagram st')).
Proof.
  intros Hraw Hlr Hlc Hrpos Hcpos. unfold solve.
  destruct (augmentRawDiagram_shape raw_diagram) as [Hwf Hwb].
  destruct (mapM_read_filter (augmentRawDiagram raw_diagram) TREASURE interior_coords Hwf)
    as (cells & Hcells & Hf).
  { apply Forall_forall. intros c. by rewrite interior_elem. }
  unfold getTreasureAndMonsterCoords. rewrite Hcells. cbn [bind]. rewrite !Hf.
  set (tcs := filter (tileIs (augmentRawDiagram raw_diagram) TREASURE) interior_coords).
  set (mcs := filter (tileIs (augmentRawDiagram raw_diagram) MONSTER) interior_coords).
  assert (Htcs : Forall interior tcs).
  { apply Forall_forall. intros c Hc. apply list_elem_of_filter in Hc as [_ Hc].
    by apply interior_elem. }
  assert (Hmcs : Forall interior mcs).
  { apply Forall_forall. intros c Hc. apply list_elem_of_filter in Hc as [_ Hc].
    by apply interior_elem. }
  pose proof (goodState_initial raw_diagram) as Hgood.
  pose proof (searchMeasure_initial (augmentRawDiagram raw_diagram) tcs mcs
                (sublist_filter _ _) (sublist_filter _ _)) as Hmeasure.
  destruct (dfs_total row_projection column_projection tcs mcs Htcs Hmcs 514 _ Hgood)
    as (b & st' & Hrun); [lia|].
  exists b, st'. split; [|split].
  - intros fuel Hle. by eapply dfs_mono.
  - intros ->. by apply dfs_restoresOnFalse in Hrun.
  - intros ->.
    pose proof Hrun as Hchain.
    apply dfs_chainsOnTrue in Hchain as [Hchain (_ & fuel' & _ & Hsolved)].
    apply chain_keeps in Hchain as (Hw & Hwf' & Hwb' & _).
    split; [auto|]. split; [done|]. split.
    + assert (Hpos : Forall (fun i : nat => (0 <= getNum row_projection (Z.of_nat i))%Z /\
                                            (0 <= getNum column_projection (Z.of_nat i))%Z)
                       (seq 0 8)).
      { apply Forall_forall. intros i Hi. apply elem_of_seq in Hi.
        destruct (lookup_lt_is_Some_2 row_projection i) as [v Hv]; [lia|].
        destruct (lookup_lt_is_Some_2 column_projection i) as [w Hw']; [lia|].
        rewrite (getNum_lookup _ _ _ Hv), (getNum_lookup _ _ _ Hw').
        rewrite Forall_forall in Hrpos, Hcpos. split.
        - apply Hrpos. by eapply list_elem_of_lookup_2.
        - apply Hcpos. by eapply list_elem_of_lookup_2. }
      apply (dfs_solvesOnTrue (augmentRawDiagram raw_diagram)) in Hrun;
        [|by apply initialState_invariant].
      destruct Hrun as [[(_ & _ & Htrack) _] Hsat].
      rewrite Forall_forall in Htrack. intros i Hi.
      destruct (Htrack i) as [Hr Hc]; [apply elem_of_seq; lia|].
      apply isSatisfiedProjections_iff in Hsat as [Heq1 Heq2].
      rewrite <- Heq1, <- Heq2. done.
    + apply (isSolved_mono _ (fuel' + 321)) in Hsolved; [|lia].
      destruct (isSolved_run (fuel' + 321) tcs mcs (st_diagram st'))
        as (b & Hb & Hiff); auto; [lia|].
      apply Hiff. congruence.
Qed.

(** X13. The search the main program runs on a parsed puzzle terminates, and
    when it returns true the grid it leaves is a solution. *)
Theorem solve_correct (row_projection column_projection : list Z)
    (raw_diagram : list (list TileType)) :
  wf_raw raw_diagram ->
  length row_projection = 8 -> length column_projection = 8 ->
  Forall (fun v => (0 <= v)%Z) row_projection ->
  Forall (fun v => (0 <= v)%Z) column_projection ->
  exists b st',
    (forall fuel, 514 <= fuel ->
                  solve fuel row_projection column_projection raw_diagram = Ret (b, st')) /\
    (b = false -> st' = initialState (augmentRawDiagram raw_diagram)) /\
    (b = true ->
     wf_diagram (st_diagram st') /\
     wallsAdded (augmentRawDiagram raw_diagram) (st_diagram st') /\
     projectionsMet row_projection column_projection
       (augmentRawDiagram raw_diagram) (st_diagram st') /\
     solvedGrid (filter (tileIs (augmentRawDiagram raw_diagram) TREASURE) interior_coords)
                (filter (tileIs (augmentRawDiagram raw_diagram) MONSTER) interior_coords)
                (st_diagram st')).
Proof. apply solve_run. Qed.

Lemma solve_correct_witness :
  wf_raw raw_empty /\
  exists b st',
    (forall fuel, 514 <= fuel ->
                  solve fuel ring_projection ring_projection raw_empty = Ret (b, st')) /\
    (b = false -> st' = initialState (augmentRawDiagram raw_empty)) /\
    (b = true ->
     wf_diagram (st_diagram st') /\
     wallsAdded (augmentRawDiagram raw_empty) (st_diagram st') /\
     projectionsMet ring_projection ring_projection
       (augmentRawDiagram raw_empty) (st_diagram st') /\
     solvedGrid (filter (tileIs (augmentRawDiagram raw_empty) TREASURE) interior_coords)
                (filter (tileIs (augmentRawDiagram raw_empty) MONSTER) interior_coords)
                (st_diagram st')).
Proof.
  assert (Hraw : wf_raw raw_empty) by (split; [reflexivity|repeat constructor]).
  split; [exact Hraw|].
  apply (solve_correct ring_projection ring_projection raw_empty Hraw);
    [reflexivity|reflexivity| |]; repeat constructor; lia.
Defined.

Lemma dfs_terminates_witness :
  goodState (initialState (augmentRawDiagram raw_empty)) /\
  exists b st',
    (forall fuel,
       searchMeasure [] [] (initialState (augmentRawDiagram raw_empty)) + 322 <= fuel ->
       dfs fuel ring_projection ring_projection [] []
         (initialState (augmentRawDiagram raw_empty)) = Ret (b, st')) /\
    (b = false -> st' = initialState (augmentRawDiagram raw_empty)).
Proof.
  split; [apply goodState_initial|].
  apply (dfs_terminates ring_projection ring_projection [] []
           (initialState (augmentRawDiagram raw_empty)));
    [reflexivity|reflexivity|constructor|constructor|apply goodState_initial].
Defined.

(** ** The picture of a diagram *)

Lemma length_10_inv {A : Type} (l : list A) :
  length l = 10 -> exists a b c d e f g h i j, l = [a; b; c; d; e; f; g; h; i; j].
Proof. intros H. do 11 (destruct l as [|? l]; try discriminate H). by repeat eexists. Qed.

Lemma getAsciiDiagram_run (diagram : list (list TileType)) :
  wf_diagram diagram ->
  getAsciiDiagram diagram false = Ret (asciiOf (interiorOf diagram)) /\
  getAsciiDiagram diagram true = Ret (asciiOf diagram).
Proof.
  intros [Hlen Hrows].
  apply length_10_inv in Hlen as (r0 & r1 & r2 & r3 & r4 & r5 & r6 & r7 & r8 & r9 & ->).
  repeat match goal with
         | H : Forall _ (_ :: _) |- _ => apply Forall_cons in H as [?%length_10_inv ?]
         end.
  repeat match goal with H : exists _, _ |- _ => destruct H as [? H] end.
  subst. split; reflexivity.
Qed.

Lemma string_app_inj (s1 s2 t1 t2 : String.string) :
  String.length s1 = String.length s2 ->
  String.append s1 t1 = String.append s2 t2 -> s1 = s2 /\ t1 = t2.
Proof.
  revert s2. induction s1 as [|a s1 IH]; intros [|b s2] Hlen H; try discriminate Hlen.
  - done.
  - cbn in H. injection H as -> H. injection Hlen as Hlen.
    destruct (IH s2 Hlen H) as [-> ->]. done.
Qed.

Lemma string_length_app (s t : String.string) :
  String.length (String.append s t) = String.length s + String.length t.
Proof. induction s as [|a s IH]; [done|]. simpl. f_equal. exact IH. Qed.

Lemma tileString_inj (t t' : TileType) : tileString t = tileString t' -> t = t'.
Proof. by destruct t, t'. Qed.

Lemma renderLine_cons (t : TileType) (row : list TileType) :
  String.concat ""%string (map tileString (t :: row)) =
  String.append (tileString t) (String.concat ""%string (map tileString row)).
Proof. destruct row; [by destruct t|done]. Qed.

Lemma length_renderLine (row : list TileType) :
  String.length (String.concat ""%string (map tileString row)) = length row.
Proof.
  induction row as [|t row IH]; [done|].
  rewrite renderLine_cons, string_length_app, IH. by destruct t.
Qed.

Lemma renderLine_inj (row row' : list TileType) :
  String.concat ""%string (map tileString row) =
  String.concat ""%string (map tileString row') -> row = row'.
Proof.
  intros H.
  assert (Hlen : length row = length row').
  { by rewrite <- !length_renderLine, H. }
  revert row' H Hlen. induction row as [|t row IH]; intros [|t' row'] H Hlen;
    try discriminate Hlen; [done|].
  injection Hlen as Hlen. rewrite !renderLine_cons in H.
  apply string_app_inj in H as [Ht Hrest]; [|by destruct t, t'].
  apply tileString_inj in Ht as ->. f_equal. by apply IH.
Qed.

Lemma asciiOf_inj (rows rows' : list (list TileType)) :
  length rows = length rows' ->
  Forall2 (fun row row' => length row = length row') rows rows' ->
  asciiOf rows = asciiOf rows' -> rows = rows'.
Proof.
  intros Hlen Hall. unfold asciiOf.
  induction Hall as [|row row' rows rows' Hrow Hall IH]; [done|].
  injection Hlen as Hlen. cbn [map]. intros H.
  destruct Hall as [|row2 row2' rows rows' Hrow2 Hall].
  - cbn in H. apply renderLine_inj in H as ->. done.
  - cbn [map String.concat] in H, IH.
    apply string_app_inj in H as [H1 H2]; [|by rewrite !length_renderLine].
    apply renderLine_inj in H1 as ->.
    apply string_app_inj in H2 as [_ H2]; [|done].
    f_equal. by apply IH.
Qed.

(** X14. [getAsciiDiagram] prints the interior of the diagram, one line per
    row and one character per tile (the whole diagram when asked to render
    all): 71 characters for the interior, and different interiors give
    different pictures. *)
Theorem getAsciiDiagram_correct (diagram : list (list TileType)) :
  wf_diagram diagram ->
  getAsciiDiagram diagram false = Ret (asciiOf (interiorOf diagram)) /\
  getAsciiDiagram diagram true = Ret (asciiOf diagram) /\
  String.length (asciiOf (interiorOf diagram)) = 71 /\
  (forall diagram',
     wf_diagram diagram' ->
     getAsciiDiagram diagram' false = getAsciiDiagram diagram false ->
     interiorOf diagram' = interiorOf diagram).
Proof.
  intros Hwf. destruct (getAsciiDiagram_run diagram Hwf) as [Hrun Hall].
  split; [done|]. split; [done|].
  assert (Hshape : forall d, wf_diagram d ->
            length (interiorOf d) = 8 /\ Forall (fun row => length row = 8) (interiorOf d)).
  { intros d [Hlen Hrows]. unfold interiorOf. split.
    - rewrite length_map, length_take, length_drop. lia.
    - apply Forall_map. apply Forall_take, Forall_drop.
      eapply Forall_impl; [exact Hrows|]. intros row Hrow. cbv beta in *.
      rewrite length_take, length_drop. lia. }
  destruct (Hshape diagram Hwf) as [Hl Hr]. split.
  - unfold asciiOf.
    destruct (interiorOf diagram) as [|r0 [|r1 [|r2 [|r3 [|r4 [|r5 [|r6 [|r7 [|]]]]]]]]];
      try discriminate Hl.
    repeat match goal with
           | H : Forall _ (_ :: _) |- _ => apply Forall_cons in H as [? H]
           end.
    cbn [map String.concat].
    rewrite !string_length_app, !length_renderLine. cbn. lia.
  - intros diagram' Hwf' Heq.
    destruct (getAsciiDiagram_run diagram' Hwf') as [Hrun' _].
    rewrite Hrun, Hrun' in Heq. injection Heq as Heq.
    destruct (Hshape diagram' Hwf') as [Hl' Hr'].
    apply asciiOf_inj; [congruence| |done].
    apply Forall2_same_length_lookup_2; [congruence|].
    intros i row row' Hi Hi'. rewrite Forall_forall in Hr, Hr'.
    rewrite (Hr' row), (Hr row'); [done| |]; by eapply list_elem_of_lookup_2.
Qed.

Lemma getAsciiDiagram_correct_witness :
  wf_diagram (augmentRawDiagram raw_room) /\
  getAsciiDiagram (augmentRawDiagram raw_room) false =
    Ret (asciiOf (interiorOf (augmentRawDiagram raw_room))) /\
  getAsciiDiagram (augmentRawDiagram raw_room) true = Ret (asciiOf (augmentRawDiagram raw_room)) /\
  String.length (asciiOf (interiorOf (augmentRawDiagram raw_room))) = 71 /\
  (forall diagram',
     wf_diagram diagram' ->
     getAsciiDiagram diagram' false = getAsciiDiagram (augmentRawDiagram raw_room) false ->
     interiorOf diagram' = interiorOf (augmentRawDiagram raw_room)).
Proof.
  destruct (augmentRawDiagram_shape raw_room) as [Hwf _].
  split; [exact Hwf|].
  exact (getAsciiDiagram_correct (augmentRawDiagram raw_room) Hwf).
Defined.

(** ** The parser returns well-formed puzzles *)

Lemma wf_projection_insert (projection : list Z) (i : nat) (v : Z) :
  wf_projection projection -> (0 <= v <= 8)%Z -> wf_projection (<[i := v]> projection).
Proof.
  intros [Hlen Hall] Hv. split; [by rewrite length_insert|].
  apply Forall_insert; done.
Qed.

Lemma wf_raw_alter (raw_diagram : list (list TileType)) (k i : nat) (t : TileType) :
  wf_raw raw_diagram -> wf_raw (alter (fun row => <[i := t]> row) k raw_diagram).
Proof.
  intros [Hlen Hall]. split; [by rewrite length_alter|].
  apply Forall_alter; [done|]. intros row _. by rewrite length_insert.
Qed.

Lemma storeValues_wf (values : list (option Z)) :
  forall i ps ps',
    wf_parse_state ps -> storeValues values i ps = inr ps' ->
    wf_parse_state ps' /\
    ps_number_of_lines ps' = ps_number_of_lines ps /\
    ps_number_of_nonempty_lines ps' = ps_number_of_nonempty_lines ps.
Proof.
  induction values as [|value values IH]; intros i ps ps' Hwf H.
  - injection H as <-. done.
  - cbn [storeValues] in H. destruct value as [v|]; [|done].
    destruct (Z.ltb_spec v 0) as [|Hlo]; cbn [orb] in H; [done|].
    destruct (ps_number_of_nonempty_lines ps <=? 2) eqn:Hphase.
    + destruct (Z.gtb_spec v RAW_SIDE_LENGTH) as [|Hhi]; [done|].
      unfold RAW_SIDE_LENGTH in Hhi. destruct Hwf as (Hr & Hc & Hraw).
      destruct (ps_number_of_nonempty_lines ps =? 1);
        [|destruct (ps_number_of_nonempty_lines ps =? 2);
          [|destruct (_ && _)]];
        apply IH in H as (Hwf' & Hl & Hn); try done;
        repeat split; cbn [ps_row_projection ps_column_projection ps_raw_diagram]; try done;
        try (apply wf_projection_insert; [done|lia]); try apply Hr; try apply Hc;
        try apply Hraw; by apply wf_raw_alter.
    + destruct (Z.gtb_spec v (NUMBER_OF_TILE_TYPES - 1)) as [|Hhi]; [done|].
      apply Nat.leb_gt in Hphase.
      destruct (Nat.eqb_spec (ps_number_of_nonempty_lines ps) 1) as [|_]; [lia|].
      destruct (Nat.eqb_spec (ps_number_of_nonempty_lines ps) 2) as [|_]; [lia|].
      destruct Hwf as (Hr & Hc & Hraw).
      destruct (_ && _); apply IH in H as (Hwf' & Hl & Hn); try done.
      repeat split; cbn [ps_row_projection ps_column_projection ps_raw_diagram];
        try apply Hr; try apply Hc; by apply wf_raw_alter.
Qed.

Lemma parseLines_wf (lines : list String.string) :
  forall ps ps',
    wf_parse_state ps -> parseLines lines ps = inr ps' ->
    wf_parse_state ps' /\
    ps_number_of_nonempty_lines ps' =
      ps_number_of_nonempty_lines ps + length (filter (fun l => ~ blankLine l) lines).
Proof.
  induction lines as [|line lines IH]; intros ps ps' Hwf H.
  - injection H as <-. cbn. split; [done|lia].
  - cbn [parseLines] in H. rewrite filter_cons.
    destruct (decide (trim line = String.EmptyString)) as [Hb|Hb].
    + rewrite bool_decide_eq_true_2 in H by done.
      rewrite decide_False by (intros Hn; by apply Hn).
      apply IH in H; [|done]. done.
    + rewrite bool_decide_eq_false_2 in H by done.
      rewrite decide_True by done. cbn [length].
      destruct (negb _); [done|].
      destruct (storeValues _ 0 _) as [|ps1] eqn:Hstore; [done|].
      apply storeValues_wf in Hstore as (Hwf1 & _ & Hn); [|done].
      apply IH in H as [Hwf' Hn']; [|done]. split; [done|].
      rewrite Hn', Hn. cbn. lia.
Qed.

Lemma parseInputFile_wf_parts (lines : list String.string) (row_projection column_projection : list Z)
    (raw_diagram : list (list TileType)) :
  parseInputFile lines = inr (row_projection, column_projection, raw_diagram) ->
  wf_projection row_projection /\ wf_projection column_projection /\
  wf_raw raw_diagram /\
  length (filter (fun l => ~ blankLine l) lines) = 10.
Proof.
  unfold parseInputFile. intros H.
  destruct (parseLines lines _) as [|ps] eqn:Hrun; [done|].
  apply parseLines_wf in Hrun as [(Hr & Hc & Hraw) Hn].
  2:{ repeat split; try reflexivity; cbn; repeat constructor; lia. }
  destruct (Nat.eqb_spec (ps_number_of_nonempty_lines ps) (Z.to_nat RAW_SIDE_LENGTH + 2))
    as [Heq|]; [|done].
  cbn [negb] in H. injection H as <- <- <-.
  repeat split; try apply Hr; try apply Hc; try apply Hraw.
  unfold RAW_SIDE_LENGTH in Heq. change (Z.to_nat 8) with 8 in Heq.
  cbn [ps_number_of_nonempty_lines] in Hn. lia.
Qed.

(** X15. What [parseInputFile] returns is a well-formed puzzle: eight row and
    eight column projections between 0 and 8 and eight rows of eight tiles,
    read from a file of exactly ten non-blank lines. *)
Theorem parseInputFile_wf (lines : list String.string) (row_projection column_projection : list Z)
    (raw_diagram : list (list TileType)) :
  parseInputFile lines = inr (row_projection, column_projection, raw_diagram) ->
  wf_projection row_projection /\ wf_projection column_projection /\
  wf_raw raw_diagram /\
  length (filter (fun l => ~ blankLine l) lines) = 10.
Proof. apply parseInputFile_wf_parts. Qed.

Lemma parseInputFile_wf_witness :
  parseInputFile ring_input = inr (ring_projection, ring_projection, raw_empty) /\
  wf_projection ring_projection /\ wf_projection ring_projection /\ wf_raw raw_empty /\
  length (filter (fun l => ~ blankLine l) ring_input) = 10.
Proof.
  assert (Hrun : parseInputFile ring_input = inr (ring_projection, ring_projection, raw_empty))
    by (vm_compute; reflexivity).
  split; [exact Hrun|].
  exact (parseInputFile_wf ring_input ring_projection ring_projection raw_empty Hrun).
Defined.

(** ** Blank lines and indentation *)

Lemma trimEnd_head (c : Ascii.ascii) (s : String.string) :
  isWhiteSpace c = false ->
  exists rest, trimEnd (String.String c s) = String.String c rest.
Proof. intros Hc. cbn [trimEnd]. rewrite Hc. destruct (trimEnd s); eauto. Qed.

Lemma trimEnd_cons (c : Ascii.ascii) (s : String.string) :
  trimEnd (String.String c s) =
  match trimEnd s with
  | String.EmptyString =>
      if isWhiteSpace c then String.EmptyString else String.String c String.EmptyString
  | rest => String.String c rest
  end.
Proof. reflexivity. Qed.

Lemma trimEnd_idem (s : String.string) : trimEnd (trimEnd s) = trimEnd s.
Proof.
  induction s as [|c s IH]; [done|]. rewrite (trimEnd_cons c s).
  destruct (trimEnd s) as [|d rest] eqn:Hs.
  - destruct (isWhiteSpace c) eqn:Hc; [done|]. rewrite trimEnd_cons. cbn. by rewrite Hc.
  - rewrite trimEnd_cons, IH. done.
Qed.

Lemma trimStart_head (s : String.string) :
  trimStart s = String.EmptyString \/
  exists c rest, trimStart s = String.String c rest /\ isWhiteSpace c = false.
Proof.
  induction s as [|c s IH]; [by left|]. cbn [trimStart].
  destruct (isWhiteSpace c) eqn:Hc; [done|]. right. eauto.
Qed.

Lemma trim_idem (s : String.string) : trim (trim s) = trim s.
Proof.
  unfold trim. destruct (trimStart_head s) as [->|(c & rest & -> & Hc)]; [done|].
  destruct (trimEnd_head c rest Hc) as [rest' Hrest]. rewrite Hrest.
  cbn [trimStart]. rewrite Hc, <- Hrest. apply trimEnd_idem.
Qed.

Lemma storeValues_data (values : list (option Z)) :
  forall i ps ps1,
    dataOf ps = dataOf ps1 ->
    sameResult (fun q q1 => dataOf q = dataOf q1)
      (storeValues values i ps) (storeValues values i ps1).
Proof.
  induction values as [|value values IH]; intros i ps ps1 Hdata; [done|].
  cbn [storeValues]. destruct value as [v|]; [|done].
  injection Hdata as Hr Hc Hraw Hn. rewrite <- Hn.
  destruct (_ || _); [done|].
  apply IH. rewrite <- Hr, <- Hc, <- Hraw.
  destruct (_ =? 1); [done|]. destruct (_ =? 2); [done|]. destruct (_ && _); [done|].
  unfold dataOf. congruence.
Qed.

Lemma parseLines_content (lines : list String.string) :
  forall ps ps1,
    dataOf ps = dataOf ps1 ->
    sameResult (fun q q1 => dataOf q = dataOf q1)
      (parseLines lines ps) (parseLines (contentOf lines) ps1).
Proof.
  unfold contentOf.
  induction lines as [|line lines IH]; intros ps ps1 Hdata; [done|].
  cbn [parseLines]. rewrite filter_cons.
  destruct (decide (trim line = String.EmptyString)) as [Hb|Hb].
  - rewrite bool_decide_eq_true_2 by done.
    rewrite decide_False by (intros Hn; by apply Hn).
    apply IH. unfold dataOf in *. cbn. congruence.
  - rewrite bool_decide_eq_false_2 by done.
    rewrite decide_True by done. cbn [map parseLines]. rewrite trim_idem.
    rewrite bool_decide_eq_false_2 by done.
    destruct (negb _); [done|].
    pose proof (storeValues_data (map parseInt (split (trim line))) 0
      (mkParseState (ps_row_projection ps) (ps_column_projection ps) (ps_raw_diagram ps)
         (S (ps_number_of_lines ps)) (S (ps_number_of_nonempty_lines ps)))
      (mkParseState (ps_row_projection ps1) (ps_column_projection ps1) (ps_raw_diagram ps1)
         (S (ps_number_of_lines ps1)) (S (ps_number_of_nonempty_lines ps1)))) as Hstore.
    destruct (storeValues _ 0 _) as [|q], (storeValues _ 0 _) as [|q1];
      try (exfalso; apply Hstore; unfold dataOf in *; cbn; congruence); [done|].
    apply IH. apply Hstore. unfold dataOf in *. cbn. congruence.
Qed.

Lemma parseInputFile_content (lines : list String.string) :
  sameResult eq (parseInputFile lines) (parseInputFile (contentOf lines)).
Proof.
  unfold parseInputFile.
  pose proof (parseLines_content lines
    (mkParseState (replicate (Z.to_nat RAW_SIDE_LENGTH) 0%Z)
       (replicate (Z.to_nat RAW_SIDE_LENGTH) 0%Z)
       (replicate (Z.to_nat RAW_SIDE_LENGTH)
          (replicate (Z.to_nat RAW_SIDE_LENGTH) EMPTY_SPACE)) 0 0)
    _ eq_refl) as H.
  destruct (parseLines lines _) as [|q], (parseLines (contentOf lines) _) as [|q1];
    try done.
  cbn in H. injection H as Hr Hc Hraw Hn. rewrite <- Hn.
  destruct (negb _); [done|]. cbn. congruence.
Qed.

(** X16. [parseInputFile] reads the non-blank lines without the white space
    around them: blank lines and indentation change nothing but the line
    numbers of the messages. *)
Theorem parseInputFile_blank_lines (lines lines' : list String.string) :
  contentOf lines = contentOf lines' ->
  sameResult eq (parseInputFile lines) (parseInputFile lines').
Proof.
  intros Heq.
  pose proof (parseInputFile_content lines) as H.
  pose proof (parseInputFile_content lines') as H'. rewrite <- Heq in H'.
  destruct (parseInputFile lines), (parseInputFile lines'),
    (parseInputFile (contentOf lines)); cbn in *; try done. congruence.
Qed.

Lemma parseInputFile_blank_lines_witness :
  contentOf ring_input = contentOf ring_input_compact /\
  sameResult eq (parseInputFile ring_input) (parseInputFile ring_input_compact).
Proof.
  assert (Hsame : contentOf ring_input = contentOf ring_input_compact)
    by (vm_compute; reflexivity).
  split; [exact Hsame|].
  exact (parseInputFile_blank_lines ring_input ring_input_compact Hsame).
Defined.

(** ** Reading back a written puzzle *)

Lemma digit_cases (v : Z) :
  (0 <= v <= 9)%Z ->
  v = 0%Z \/ v = 1%Z \/ v = 2%Z \/ v = 3%Z \/ v = 4%Z \/ v = 5%Z \/ v = 6%Z \/ v = 7%Z \/
  v = 8%Z \/ v = 9%Z.
Proof. lia. Qed.

Lemma showDigit_char (v : Z) :
  (0 <= v <= 9)%Z ->
  isWhiteSpace (digitChar v) = false /\
  isSeparator (digitChar v) = false /\
  parseInt (showDigit v) = Some v.
Proof.
  intros Hv. apply digit_cases in Hv.
  repeat (destruct Hv as [-> | Hv]; [by vm_compute|]). subst. by vm_compute.
Qed.

Lemma showLine_cons (v : Z) (values : list Z) :
  showLine (v :: values) =
  String.String (digitChar v)
    (match values with
     | [] => String.EmptyString
     | _ => String.String " "%char (showLine values)
     end).
Proof. by destruct values. Qed.

Lemma trim_showLine (values : list Z) :
  values <> [] -> Forall (fun v => (0 <= v <= 9)%Z) values ->
  trim (showLine values) = showLine values /\ showLine values <> String.EmptyString.
Proof.
  intros Hne Hall. split.
  - unfold trim. destruct values as [|v values]; [done|].
    apply Forall_cons in Hall as [Hv Hall].
    destruct (showDigit_char v Hv) as (Hws & _).
    assert (Hstart : trimStart (showLine (v :: values)) = showLine (v :: values)).
    { rewrite showLine_cons. cbn [trimStart]. by rewrite Hws. }
    rewrite Hstart. clear Hstart Hne.
    revert v Hv Hws. induction Hall as [|v' values Hv' Hall IH]; intros v Hv Hws.
    + rewrite showLine_cons. cbn. by rewrite Hws.
    + destruct (showDigit_char v' Hv') as (Hws' & _).
      specialize (IH v' Hv' Hws').
      rewrite (showLine_cons v), !trimEnd_cons, IH.
      rewrite (showLine_cons v'). done.
  - destruct values as [|v values]; [done|]. by rewrite showLine_cons.
Qed.

Lemma split_showLine (values : list Z) :
  values <> [] -> Forall (fun v => (0 <= v <= 9)%Z) values ->
  forall after_separator,
    splitFrom (showLine values) String.EmptyString after_separator = map showDigit values.
Proof.
  intros Hne Hall. destruct values as [|v values]; [done|]. clear Hne.
  apply Forall_cons in Hall as [Hv Hall]. revert v Hv.
  induction Hall as [|v' values Hv' Hall IH]; intros v Hv b.
  - destruct (showDigit_char v Hv) as (_ & Hsep & _).
    rewrite showLine_cons. cbn [splitFrom]. by rewrite Hsep.
  - destruct (showDigit_char v Hv) as (_ & Hsep & _).
    rewrite showLine_cons. cbn [splitFrom]. rewrite Hsep. cbn [splitFrom String.append].
    change (isSeparator " "%char) with true. cbn iota. rewrite IH by done. done.
Qed.

Lemma values_showLine (values : list Z) :
  values <> [] -> Forall (fun v => (0 <= v <= 9)%Z) values ->
  map parseInt (split (trim (showLine values))) = map Some values.
Proof.
  intros Hne Hall. destruct (trim_showLine values Hne Hall) as [-> _].
  unfold split. rewrite split_showLine by done. rewrite map_map.
  apply map_ext_in. intros v Hv. rewrite Forall_forall in Hall.
  apply showDigit_char. apply Hall. by apply list_elem_of_In.
Qed.

Lemma parseLines_showLine (values : list Z) (rest : list String.string) (ps : ParseState) :
  length values = 8 -> Forall (fun v => (0 <= v <= 9)%Z) values ->
  parseLines (showLine values :: rest) ps =
  match storeValues (map Some values) 0
          (mkParseState (ps_row_projection ps) (ps_column_projection ps)
             (ps_raw_diagram ps) (S (ps_number_of_lines ps))
             (S (ps_number_of_nonempty_lines ps))) with
  | inl error => inl error
  | inr ps' => parseLines rest ps'
  end.
Proof.
  intros Hlen Hall.
  assert (Hne : values <> []) by (intros ->; done).
  cbn [parseLines]. destruct (trim_showLine values Hne Hall) as [Htrim Hnonempty].
  rewrite bool_decide_eq_false_2 by by rewrite Htrim.
  rewrite values_showLine by done. rewrite length_map, Hlen. done.
Qed.

Lemma check_value (v hi : Z) : (0 <= v <= hi)%Z -> ((v <? 0) || (v >? hi))%Z = false.
Proof.
  intros Hv. apply orb_false_intro; [apply Z.ltb_ge; lia|].
  rewrite Z.gtb_ltb. apply Z.ltb_ge. lia.
Qed.

Lemma tileValue_range (t : TileType) : (0 <= tileValue t <= 3)%Z.
Proof. destruct t; cbn; lia. Qed.

Lemma getTileType_tileValue (t : TileType) : getTileType (tileValue t) = t.
Proof. by destruct t. Qed.

Lemma length_8_inv {A : Type} (l : list A) :
  length l = 8 -> exists a b c d e f g h, l = [a; b; c; d; e; f; g; h].
Proof. intros H. do 9 (destruct l as [|? l]; try discriminate H). by repeat eexists. Qed.

Lemma storeValues_step (v : Z) (rest : list (option Z)) (i : nat) (ps : ParseState) :
  (0 <= v <= (if (ps_number_of_nonempty_lines ps <=? 2)%nat then 8 else 3))%Z ->
  storeValues (Some v :: rest) i ps =
  storeValues rest (S i)
    (if ps_number_of_nonempty_lines ps =? 1 then
       mkParseState (<[i := v]> (ps_row_projection ps)) (ps_column_projection ps)
         (ps_raw_diagram ps) (ps_number_of_lines ps) (ps_number_of_nonempty_lines ps)
     else if ps_number_of_nonempty_lines ps =? 2 then
       mkParseState (ps_row_projection ps) (<[i := v]> (ps_column_projection ps))
         (ps_raw_diagram ps) (ps_number_of_lines ps) (ps_number_of_nonempty_lines ps)
     else if (2 <? ps_number_of_nonempty_lines ps) &&
             (ps_number_of_nonempty_lines ps <=? 10) then
       mkParseState (ps_row_projection ps) (ps_column_projection ps)
         (alter (fun row => <[i := getTileType v]> row) (ps_number_of_nonempty_lines ps - 3)
            (ps_raw_diagram ps))
         (ps_number_of_lines ps) (ps_number_of_nonempty_lines ps)
     else ps).
Proof.
  intros Hv. change (storeValues (Some v :: rest) i ps) with
    (if (v <? 0)%Z ||
        (v >? (if (ps_number_of_nonempty_lines ps <=? 2)%nat then 8 else 3))%Z
     then inl (IllegalValue (ps_number_of_lines ps))
     else storeValues rest (S i)
            (if ps_number_of_nonempty_lines ps =? 1 then
               mkParseState (<[i := v]> (ps_row_projection ps)) (ps_column_projection ps)
                 (ps_raw_diagram ps) (ps_number_of_lines ps) (ps_number_of_nonempty_lines ps)
             else if ps_number_of_nonempty_lines ps =? 2 then
               mkParseState (ps_row_projection ps) (<[i := v]> (ps_column_projection ps))
                 (ps_raw_diagram ps) (ps_number_of_lines ps) (ps_number_of_nonempty_lines ps)
             else if (2 <? ps_number_of_nonempty_lines ps) &&
                     (ps_number_of_nonempty_lines ps <=? 10) then
               mkParseState (ps_row_projection ps) (ps_column_projection ps)
                 (alter (fun row => <[i := getTileType v]> row)
                    (ps_number_of_nonempty_lines ps - 3) (ps_raw_diagram ps))
                 (ps_number_of_lines ps) (ps_number_of_nonempty_lines ps)
             else ps)).
  by rewrite check_value.
Qed.

Ltac store_values :=
  cbn [map Nat.add];
  repeat (rewrite storeValues_step
            by (cbn [ps_number_of_nonempty_lines Nat.leb]; try apply tileValue_range; lia);
          cbn [ps_number_of_nonempty_lines ps_number_of_lines ps_row_projection
               ps_column_projection ps_raw_diagram Nat.leb Nat.eqb Nat.ltb andb Nat.sub]).

Lemma store_row_projection (v0 v1 v2 v3 v4 v5 v6 v7 : Z) (ps : ParseState) :
  ps_number_of_nonempty_lines ps = 1 -> length (ps_row_projection ps) = 8 ->
  Forall (fun v => (0 <= v <= 8)%Z) [v0; v1; v2; v3; v4; v5; v6; v7] ->
  storeValues (map Some [v0; v1; v2; v3; v4; v5; v6; v7]) 0 ps =
  inr (mkParseState [v0; v1; v2; v3; v4; v5; v6; v7] (ps_column_projection ps)
         (ps_raw_diagram ps) (ps_number_of_lines ps) 1).
Proof.
  intros Hn Hlen Hall. destruct ps as [rp cp raw nl nn]. cbn in Hn, Hlen. subst nn.
  apply length_8_inv in Hlen as (r0 & r1 & r2 & r3 & r4 & r5 & r6 & r7 & ->).
  repeat match goal with
         | H : Forall _ (_ :: _) |- _ => apply Forall_cons in H as [? H]
         end.
  store_values. reflexivity.
Qed.

Lemma store_column_projection (v0 v1 v2 v3 v4 v5 v6 v7 : Z) (ps : ParseState) :
  ps_number_of_nonempty_lines ps = 2 -> length (ps_column_projection ps) = 8 ->
  Forall (fun v => (0 <= v <= 8)%Z) [v0; v1; v2; v3; v4; v5; v6; v7] ->
  storeValues (map Some [v0; v1; v2; v3; v4; v5; v6; v7]) 0 ps =
  inr (mkParseState (ps_row_projection ps) [v0; v1; v2; v3; v4; v5; v6; v7]
         (ps_raw_diagram ps) (ps_number_of_lines ps) 2).
Proof.
  intros Hn Hlen Hall. destruct ps as [rp cp raw nl nn]. cbn in Hn, Hlen. subst nn.
  apply length_8_inv in Hlen as (r0 & r1 & r2 & r3 & r4 & r5 & r6 & r7 & ->).
  repeat match goal with
         | H : Forall _ (_ :: _) |- _ => apply Forall_cons in H as [? H]
         end.
  store_values. reflexivity.
Qed.

Lemma store_tiles (t0 t1 t2 t3 t4 t5 t6 t7 : TileType) (k : nat) (ps : ParseState) :
  ps_number_of_nonempty_lines ps = k + 3 -> k < 8 -> wf_raw (ps_raw_diagram ps) ->
  storeValues (map Some (map tileValue [t0; t1; t2; t3; t4; t5; t6; t7])) 0 ps =
  inr (mkParseState (ps_row_projection ps) (ps_column_projection ps)
         (<[k := [t0; t1; t2; t3; t4; t5; t6; t7]]> (ps_raw_diagram ps))
         (ps_number_of_lines ps) (k + 3)).
Proof.
  intros Hn Hk Hraw. destruct ps as [rp cp raw nl nn].
  cbn [ps_number_of_nonempty_lines ps_raw_diagram ps_row_projection ps_column_projection
       ps_number_of_lines] in *. subst nn.
  apply wf_raw_inv in Hraw.
  repeat match goal with H : exists _, _ |- _ => destruct H as [? H] end. subst raw.
  do 8 (destruct k as [|k];
        [store_values; rewrite !getTileType_tileValue; cbn [Nat.add]; reflexivity|]).
  lia.
Qed.

(** X17. [parseInputFile] reads back a puzzle written in the format of the
    README. *)
Theorem parseInputFile_showPuzzle (row_projection column_projection : list Z)
    (raw_diagram : list (list TileType)) :
  wf_projection row_projection -> wf_projection column_projection -> wf_raw raw_diagram ->
  parseInputFile (showPuzzle row_projection column_projection raw_diagram) =
  inr (row_projection, column_projection, raw_diagram).
Proof.
  intros [Hlr Hr] [Hlc Hc] Hraw. unfold parseInputFile, showPuzzle.
  assert (Hdigits : forall values, Forall (fun v => (0 <= v <= 8)%Z) values ->
                                   Forall (fun v => (0 <= v <= 9)%Z) values).
  { intros values H. eapply Forall_impl; [exact H|]. intros v. cbn. lia. }
  assert (Htiles : forall row : list TileType,
                     Forall (fun v => (0 <= v <= 9)%Z) (map tileValue row)).
  { intros row. apply Forall_map, Forall_forall. intros t _.
    pose proof (tileValue_range t). cbn. lia. }
  rewrite parseLines_showLine by auto.
  apply length_8_inv in Hlr as (v0 & v1 & v2 & v3 & v4 & v5 & v6 & v7 & ->).
  rewrite store_row_projection by done.
  rewrite parseLines_showLine by auto.
  apply length_8_inv in Hlc as (w0 & w1 & w2 & w3 & w4 & w5 & w6 & w7 & ->).
  rewrite store_column_projection by done.
  apply wf_raw_inv in Hraw.
  repeat match goal with H : exists _, _ |- _ => destruct H as [? H] end. subst raw_diagram.
  cbn [map ps_row_projection ps_column_projection ps_raw_diagram ps_number_of_lines
       ps_number_of_nonempty_lines].
  assert (Hstep : forall (k : nat) (t0 t1 t2 t3 t4 t5 t6 t7 : TileType)
                     (rest : list String.string) (ps : ParseState),
            ps_number_of_nonempty_lines ps = k + 2 -> k < 8 -> wf_raw (ps_raw_diagram ps) ->
            parseLines (showLine [tileValue t0; tileValue t1; tileValue t2; tileValue t3;
                                  tileValue t4; tileValue t5; tileValue t6; tileValue t7]
                        :: rest) ps =
            parseLines rest
              (mkParseState (ps_row_projection ps) (ps_column_projection ps)
                 (<[k := [t0; t1; t2; t3; t4; t5; t6; t7]]> (ps_raw_diagram ps))
                 (S (ps_number_of_lines ps)) (k + 3))).
  { intros k t0 t1 t2 t3 t4 t5 t6 t7 rest ps Hn Hk Hwf.
    change [tileValue t0; tileValue t1; tileValue t2; tileValue t3;
            tileValue t4; tileValue t5; tileValue t6; tileValue t7]
      with (map tileValue [t0; t1; t2; t3; t4; t5; t6; t7]).
    rewrite parseLines_showLine by (try done; apply (Htiles [_; _; _; _; _; _; _; _])).
    rewrite (store_tiles _ _ _ _ _ _ _ _ k); [done| |done|done].
    cbn [ps_number_of_nonempty_lines]. lia. }
  assert (Hwf : forall k row raw, wf_raw raw -> length row = 8 -> wf_raw (<[k := row]> raw)).
  { intros k row raw [Hl Hall] Hrow. split; [by rewrite length_insert|].
    by apply Forall_insert. }
  assert (Hbase : wf_raw (replicate 8 (replicate 8 EMPTY_SPACE)))
    by (split; [reflexivity|repeat constructor]).
  rewrite (Hstep 0); [|done|lia|exact Hbase].
  cbn [ps_row_projection ps_column_projection ps_raw_diagram ps_number_of_lines
       ps_number_of_nonempty_lines].
  rewrite (Hstep 1); [|done|lia|repeat (apply Hwf; [|reflexivity]); exact Hbase].
  cbn [ps_row_projection ps_column_projection ps_raw_diagram ps_number_of_lines
       ps_number_of_nonempty_lines].
  rewrite (Hstep 2); [|done|lia|repeat (apply Hwf; [|reflexivity]); exact Hbase].
  cbn [ps_row_projection ps_column_projection ps_raw_diagram ps_number_of_lines
       ps_number_of_nonempty_lines].
  rewrite (Hstep 3); [|done|lia|repeat (apply Hwf; [|reflexivity]); exact Hbase].
  cbn [ps_row_projection ps_column_projection ps_raw_diagram ps_number_of_lines
       ps_number_of_nonempty_lines].
  rewrite (Hstep 4); [|done|lia|repeat (apply Hwf; [|reflexivity]); exact Hbase].
  cbn [ps_row_projection ps_column_projection ps_raw_diagram ps_number_of_lines
       ps_number_of_nonempty_lines].
  rewrite (Hstep 5); [|done|lia|repeat (apply Hwf; [|reflexivity]); exact Hbase].
  cbn [ps_row_projection ps_column_projection ps_raw_diagram ps_number_of_lines
       ps_number_of_nonempty_lines].
  rewrite (Hstep 6); [|done|lia|repeat (apply Hwf; [|reflexivity]); exact Hbase].
  cbn [ps_row_projection ps_column_projection ps_raw_diagram ps_number_of_lines
       ps_number_of_nonempty_lines].
  rewrite (Hstep 7); [|done|lia|repeat (apply Hwf; [|reflexivity]); exact Hbase].
  reflexivity.
Qed.

Lemma parseInputFile_showPuzzle_witness :
  wf_projection ring_projection /\ wf_raw raw_room /\
  parseInputFile (showPuzzle ring_projection ring_projection raw_room) =
  inr (ring_projection, ring_projection, raw_room).
Proof.
  assert (Hp : wf_projection ring_projection)
    by (split; [reflexivity|repeat constructor; lia]).
  assert (Hraw : wf_raw raw_room) by (split; [reflexivity|repeat constructor]).
  split; [exact Hp|]. split; [exact Hraw|].
  exact (parseInputFile_showPuzzle ring_projection ring_projection raw_room Hp Hp Hraw).
Defined.

(** ** The main program *)

(** X18. The main program always ends with one of its three messages, and the
    picture it prints on success is a solution of the puzzle it read. *)
Theorem mainProgram_correct (lines : list String.string) :
  exists result,
    (forall fuel, 514 <= fuel -> mainProgram fuel lines = Ret result) /\
    match result with
    | FailedToParse error => parseInputFile lines = inl error
    | FailedToFind =>
        exists row_projection column_projection raw_diagram,
          parseInputFile lines = inr (row_projection, column_projection, raw_diagram)
    | Succeeded ascii_diagram =>
        exists row_projection column_projection raw_diagram,
          parseInputFile lines = inr (row_projection, column_projection, raw_diagram) /\
          solutionOf row_projection column_projection raw_diagram ascii_diagram
    end.
Proof.
  unfold mainProgram.
  destruct (parseInputFile lines) as [error|[[rp cp] raw]] eqn:Hparse.
  { exists (FailedToParse error). by split. }
  apply parseInputFile_wf_parts in Hparse as ([Hlr Hr] & [Hlc Hc] & Hraw & _).
  destruct (solve_run rp cp raw Hraw Hlr Hlc) as (b & st' & Hrun & _ & Htrue).
  { eapply Forall_impl; [exact Hr|]. intros v. cbn. lia. }
  { eapply Forall_impl; [exact Hc|]. intros v. cbn. lia. }
  destruct b.
  - destruct (Htrue eq_refl) as (Hwf & Hw & Hp & Hs).
    destruct (getAsciiDiagram_run (st_diagram st') Hwf) as [Hascii _].
    exists (Succeeded (asciiOf (interiorOf (st_diagram st')))). split.
    + intros fuel Hle. rewrite (Hrun fuel Hle). cbn [bind negb]. by rewrite Hascii.
    + exists rp, cp, raw. split; [done|]. by exists (st_diagram st').
  - exists FailedToFind. split.
    + intros fuel Hle. by rewrite (Hrun fuel Hle).
    + by exists rp, cp, raw.
Qed.



(** ** Ids and counters *)

(** X20. [getHashId] gives distinct cells of the diagram distinct ids: it is
    injective on the coordinates between 0 and 99, which include every cell
    of the 10x10 diagram and where the code's arithmetic is exact. *)
Theorem getHashId_grid (x y x' y' : Z) :
  (0 <= x < 100)%Z -> (0 <= y < 100)%Z -> (0 <= x' < 100)%Z -> (0 <= y' < 100)%Z ->
  getHashId x y = getHashId x' y' -> x = x' /\ y = y'.
Proof. intros _ Hy _ Hy'. by apply getHashId_inj. Qed.

Lemma getHashId_grid_witness :
  (0 <= 3 < 100)%Z /\ (0 <= 9 < 100)%Z /\ getHashId 3 9 = 309%Z /\
  (getHashId 3 9 = getHashId 3 9 -> 3%Z = 3%Z /\ 9%Z = 9%Z).
Proof.
  split; [lia|]. split; [lia|]. split; [reflexivity|].
  apply (getHashId_grid 3 9 3 9); lia.
Defined.

(** X21. [isTilePlacable] guards the counters: when it accepts an Empty tile
    of the interior, placing a wall there keeps the counters equal to the
    numbers of walls placed and within the projections, and removing that
    wall gives back the state. *)
Theorem isTilePlacable_guards (initial : list (list TileType))
    (row_projection column_projection : list Z) (st : State) (coord : Coordinate) :
  searchInvariant initial row_projection column_projection st ->
  tileIs (st_diagram st) EMPTY_SPACE coord -> interior coord ->
  isTilePlacable (coord_x coord - 1) (coord_y coord - 1)
    (st_cur_row_projection st) (st_cur_column_projection st)
    row_projection column_projection = true ->
  searchInvariant initial row_projection column_projection (placeWall st coord) /\
  removeWall (placeWall st coord) coord = st.
Proof.
  intros Hinv Hempty [Hx Hy] Hplace. split.
  - apply isTilePlacable_true in Hplace as (_ & _ & Hr & Hc).
    by apply placeWall_invariant.
  - apply (removeAll_placeAll [coord]). by constructor.
Qed.

Lemma isTilePlacable_guards_witness :
  searchInvariant (augmentRawDiagram raw_empty) ring_projection ring_projection
    (initialState (augmentRawDiagram raw_empty)) /\
  searchInvariant (augmentRawDiagram raw_empty) ring_projection ring_projection
    (placeWall (initialState (augmentRawDiagram raw_empty)) (mkCoord 2 2)) /\
  removeWall (placeWall (initialState (augmentRawDiagram raw_empty)) (mkCoord 2 2))
    (mkCoord 2 2) = initialState (augmentRawDiagram raw_empty).
Proof.
  assert (Hinv : searchInvariant (augmentRawDiagram raw_empty) ring_projection ring_projection
                   (initialState (augmentRawDiagram raw_empty))).
  { apply initialState_invariant. repeat constructor; vm_compute; discriminate. }
  split; [exact Hinv|].
  apply (isTilePlacable_guards (augmentRawDiagram raw_empty) ring_projection ring_projection
           (initialState (augmentRawDiagram raw_empty)) (mkCoord 2 2) Hinv).
  - vm_compute. reflexivity.
  - split; cbn; lia.
  - vm_compute. reflexivity.
Defined.
